(** * Arena shooter simulation core: geometry kernel, spawn search and frame step

    A shallow embedding of [src/components/GameCanvas.tsx] (with the data
    model of [src/types.ts]) and the properties its specification states.

    Numbers.  A TypeScript [number] is embedded as a real number: [+], [-],
    [*], [/], [Math.sqrt], [Math.max], [Math.min] and the comparisons are the
    operations of [R].  Rounding, infinities and NaN are outside the model;
    every division of the embedded code is guarded by the same test as in
    the source, so no theorem depends on the value of a division by zero.

    Mutation.  The source mutates objects held in React refs.  Here every
    function returns the updated value; the refs of the component form the
    record [Store], and calls of the presentation callbacks and of the sound
    service are collected, in call order, as a list of [Event]s.

    Randomness.  A function that calls [Math.random] takes the sequence of
    values those calls return, as [rnd : nat -> R], the k-th call of the
    invocation reading [rnd k]. *)

From Stdlib Require Import Reals Lra Lia List String Bool ZArith DecimalString DecimalNat
  Sorted.
Import ListNotations.
Open Scope string_scope.
Open Scope list_scope.
Open Scope R_scope.

(** ** Comparisons of numbers as booleans *)

Module Num.

Definition ltb (a b : R) : bool := if Rlt_dec a b then true else false.
Definition leb (a b : R) : bool := if Rle_dec a b then true else false.
Definition gtb (a b : R) : bool := ltb b a.
Definition geb (a b : R) : bool := leb b a.
(** [===] on numbers. *)
Definition eqb (a b : R) : bool := if Req_dec_T a b then true else false.

(** The range of [Math.random()]. *)
Definition unit_interval (r : R) : Prop := 0 <= r < 1.

(** [Math.atan2(y, x)] for finite arguments. *)
Definition atan2 (y x : R) : R :=
  if ltb 0 x then atan (y / x)
  else if ltb x 0 then (if leb 0 y then atan (y / x) + PI else atan (y / x) - PI)
  else if ltb 0 y then PI / 2
  else if ltb y 0 then - (PI / 2)
  else 0.

End Num.

Declare Scope num_scope.
Delimit Scope num_scope with num.
Infix "<?" := Num.ltb (at level 70, no associativity) : num_scope.
Infix "<=?" := Num.leb (at level 70, no associativity) : num_scope.
Infix ">?" := Num.gtb (at level 70, no associativity) : num_scope.
Infix ">=?" := Num.geb (at level 70, no associativity) : num_scope.
Infix "=?" := Num.eqb (at level 70, no associativity) : num_scope.
Open Scope num_scope.

Arguments Num.ltb : simpl never.
Arguments Num.leb : simpl never.
Arguments Num.gtb : simpl never.
Arguments Num.geb : simpl never.
Arguments Num.eqb : simpl never.

(** ** Data model ([src/types.ts]) *)

Module Vector2.
Record t : Type := mk { x : R; y : R }.
End Vector2.
Abbreviation Vector2 := Vector2.t.

(** Identifiers built by template literals keep the value they are built
    from: [`bullet-${time}`] is [BulletId time]. *)
Inductive EntityId : Type :=
| PlayerId
| EnemyId (now : R)
| BulletId (time : R)
| HealthPackId (now : R).

(** [Entity]: the fields every simulated object starts with.  [Player],
    [Enemy], [Bullet] and [HealthPack] extend it; each embeds it as [base]. *)
Module Entity.
Record t : Type := mk {
  id : EntityId;
  position : Vector2;
  velocity : Vector2;
  radius : R;
  color : string
}.

Definition with_position (e : t) (p : Vector2) : t :=
  mk (id e) p (velocity e) (radius e) (color e).

Definition with_velocity (e : t) (v : Vector2) : t :=
  mk (id e) (position e) v (radius e) (color e).

Definition px (e : t) : R := Vector2.x (position e).
Definition py (e : t) : R := Vector2.y (position e).
End Entity.
Abbreviation Entity := Entity.t.

Module Player.
Record t : Type := mk {
  base : Entity;
  hp : R;
  maxHp : R;
  speed : R;
  name : option string;
  ammo : R
}.

Definition with_base (p : t) (b : Entity) : t :=
  mk b (hp p) (maxHp p) (speed p) (name p) (ammo p).
Definition with_hp (p : t) (h : R) : t :=
  mk (base p) h (maxHp p) (speed p) (name p) (ammo p).
Definition with_ammo (p : t) (a : R) : t :=
  mk (base p) (hp p) (maxHp p) (speed p) (name p) a.
End Player.
Abbreviation Player := Player.t.

Module RemotePlayer.
Record t : Type := mk {
  id : string;
  position : Vector2;
  velocity : Vector2;
  color : string;
  name : option string;
  hp : R;
  kills : R
}.
End RemotePlayer.
Abbreviation RemotePlayer := RemotePlayer.t.

Module Enemy.
Record t : Type := mk {
  base : Entity;
  hp : R;
  speed : R;
  value : R
}.

Definition with_base (e : t) (b : Entity) : t := mk b (hp e) (speed e) (value e).
Definition with_hp (e : t) (h : R) : t := mk (base e) h (speed e) (value e).
End Enemy.
Abbreviation Enemy := Enemy.t.

Module Bullet.
Record t : Type := mk {
  base : Entity;
  damage : R;
  ownerId : option EntityId
}.

Definition with_base (b : t) (e : Entity) : t := mk e (damage b) (ownerId b).
Definition with_damage (b : t) (d : R) : t := mk (base b) d (ownerId b).
End Bullet.
Abbreviation Bullet := Bullet.t.

(** [isLow?: boolean]: an absent flag is [None] and counts as false. *)
Module Wall.
Record t : Type := mk {
  id : string;
  x : R;
  y : R;
  width : R;
  height : R;
  isLow : option bool
}.

Definition low (w : t) : bool :=
  match isLow w with Some b => b | None => false end.
End Wall.
Abbreviation Wall := Wall.t.

Inductive DecorationType : Type := CACTUS.

Module Decoration.
Record t : Type := mk {
  id : string;
  x : R;
  y : R;
  type : DecorationType;
  scale : R;
  rotation : R;
  radius : R
}.
End Decoration.
Abbreviation Decoration := Decoration.t.

Module HealthPack.
Record t : Type := mk {
  base : Entity;
  active : bool
}.
End HealthPack.
Abbreviation HealthPack := HealthPack.t.

Module LevelConfig.
Record t : Type := mk {
  themeName : string;
  missionDescription : string;
  enemyColor : string;
  enemySpeed : R;
  enemySpawnRate : R;
  playerColor : string;
  playerSpeed : R;
  bulletColor : string;
  backgroundColor : string
}.
End LevelConfig.
Abbreviation LevelConfig := LevelConfig.t.

Inductive GameState : Type :=
| MENU | LOBBY | LOADING | PLAYING | SPECTATING | GAME_OVER | LEADERBOARD.

Definition GameState_eqb (a b : GameState) : bool :=
  match a, b with
  | MENU, MENU | LOBBY, LOBBY | LOADING, LOADING | PLAYING, PLAYING
  | SPECTATING, SPECTATING | GAME_OVER, GAME_OVER | LEADERBOARD, LEADERBOARD => true
  | _, _ => false
  end.

(** ** Geometry kernel *)

(** The closest point of the wall rectangle to a point, coordinate by
    coordinate: [Math.max(wall.x, Math.min(p, wall.x + wall.width))]. *)
Definition closestX (wall : Wall) (p : R) : R :=
  Rmax (Wall.x wall) (Rmin p (Wall.x wall + Wall.width wall)).
Definition closestY (wall : Wall) (p : R) : R :=
  Rmax (Wall.y wall) (Rmin p (Wall.y wall + Wall.height wall)).

(** [resolveWallCollision], lines 88-110: circle against rectangle. *)
Definition resolveWallCollision (entity : Entity) (wall : Wall) : Entity :=
  let cX := closestX wall (Entity.px entity) in
  let cY := closestY wall (Entity.py entity) in
  let dx := Entity.px entity - cX in
  let dy := Entity.py entity - cY in
  let distanceSquared := dx * dx + dy * dy in
  if (distanceSquared <? Entity.radius entity * Entity.radius entity)
     && (distanceSquared >? 0)
  then
    let distance := sqrt distanceSquared in
    let overlap := Entity.radius entity - distance in
    let nx := dx / distance in
    let ny := dy / distance in
    Entity.with_position entity
      (Vector2.mk (Entity.px entity + nx * overlap) (Entity.py entity + ny * overlap))
  else entity.

(** [resolveDecorationCollision], lines 114-134: circle against circle;
    the boolean is the function's return value. *)
Definition resolveDecorationCollision (entity : Entity) (decor : Decoration)
  : Entity * bool :=
  let dx := Entity.px entity - Decoration.x decor in
  let dy := Entity.py entity - Decoration.y decor in
  let distSq := dx * dx + dy * dy in
  let minRadius := Entity.radius entity + Decoration.radius decor in
  if (distSq <? minRadius * minRadius) && (distSq >? 0)
  then
    let dist := sqrt distSq in
    let overlap := minRadius - dist in
    let nx := dx / dist in
    let ny := dy / dist in
    (Entity.with_position entity
       (Vector2.mk (Entity.px entity + nx * overlap) (Entity.py entity + ny * overlap)),
     true)
  else (entity, false).

(** [checkBulletWallCollision], lines 136-145. *)
Definition checkBulletWallCollision (bullet : Bullet) (wall : Wall) : bool :=
  if Wall.low wall then false
  else
    let e := Bullet.base bullet in
    let cX := closestX wall (Entity.px e) in
    let cY := closestY wall (Entity.py e) in
    let dx := Entity.px e - cX in
    let dy := Entity.py e - cY in
    (dx * dx + dy * dy) <? (Entity.radius e * Entity.radius e).

(** [Intersection], line 148: [null] is [None]. *)
Module Intersection.
Record t : Type := mk { x : R; y : R; param : R }.
End Intersection.

(** The two parameters [getIntersection] computes once the denominator is
    known to be non-zero (lines 171-172). *)
Definition ray_t (rayStart rayEnd segmentStart segmentEnd : Vector2) : R :=
  let r_px := Vector2.x rayStart in
  let r_py := Vector2.y rayStart in
  let r_dx := Vector2.x rayEnd - Vector2.x rayStart in
  let r_dy := Vector2.y rayEnd - Vector2.y rayStart in
  let s_px := Vector2.x segmentStart in
  let s_py := Vector2.y segmentStart in
  let s_dx := Vector2.x segmentEnd - Vector2.x segmentStart in
  let s_dy := Vector2.y segmentEnd - Vector2.y segmentStart in
  let denominator := r_dx * s_dy - r_dy * s_dx in
  ((s_px - r_px) * s_dy - (s_py - r_py) * s_dx) / denominator.

Definition seg_u (rayStart rayEnd segmentStart segmentEnd : Vector2) : R :=
  let r_px := Vector2.x rayStart in
  let r_py := Vector2.y rayStart in
  let r_dx := Vector2.x rayEnd - Vector2.x rayStart in
  let r_dy := Vector2.y rayEnd - Vector2.y rayStart in
  let s_px := Vector2.x segmentStart in
  let s_py := Vector2.y segmentStart in
  let s_dx := Vector2.x segmentEnd - Vector2.x segmentStart in
  let s_dy := Vector2.y segmentEnd - Vector2.y segmentStart in
  let denominator := r_dx * s_dy - r_dy * s_dx in
  ((s_px - r_px) * r_dy - (s_py - r_py) * r_dx) / denominator.

(** [getIntersection], lines 150-182. *)
Definition getIntersection (rayStart rayEnd segmentStart segmentEnd : Vector2)
  : option Intersection.t :=
  let r_px := Vector2.x rayStart in
  let r_py := Vector2.y rayStart in
  let r_dx := Vector2.x rayEnd - Vector2.x rayStart in
  let r_dy := Vector2.y rayEnd - Vector2.y rayStart in
  let s_dx := Vector2.x segmentEnd - Vector2.x segmentStart in
  let s_dy := Vector2.y segmentEnd - Vector2.y segmentStart in
  let r_mag := sqrt (r_dx * r_dx + r_dy * r_dy) in
  let s_mag := sqrt (s_dx * s_dx + s_dy * s_dy) in
  if r_mag * s_mag =? 0 then None
  else
    let denominator := r_dx * s_dy - r_dy * s_dx in
    if denominator =? 0 then None
    else
      let t := ray_t rayStart rayEnd segmentStart segmentEnd in
      let u := seg_u rayStart rayEnd segmentStart segmentEnd in
      if (t >? 0) && (t <=? 1) && (u >=? 0) && (u <=? 1)
      then Some (Intersection.mk (r_px + t * r_dx) (r_py + t * r_dy) t)
      else None.

(** ** Safe spawn search *)

Definition MAX_ATTEMPTS : nat := 50.
Definition PADDING : R := 100.
(** [playerRadius], line 391. *)
Definition spawnPlayerRadius : R := 20.

(** The test of lines 394-395 for one wall. *)
Definition spawnBoxOverlaps (x y : R) (wall : Wall) : bool :=
  (x + spawnPlayerRadius >? Wall.x wall)
  && (x - spawnPlayerRadius <? Wall.x wall + Wall.width wall)
  && (y + spawnPlayerRadius >? Wall.y wall)
  && (y - spawnPlayerRadius <? Wall.y wall + Wall.height wall).

(** The inner [for ... of walls] with its [break]: [safe] at the end. *)
Definition spawnSafe (walls : list Wall) (x y : R) : bool :=
  negb (existsb (spawnBoxOverlaps x y) walls).

(** The candidate drawn when [k] calls of [Math.random] were made before. *)
Definition spawnSample (rnd : nat -> R) (mapW mapH : R) (k : nat) : Vector2 :=
  Vector2.mk ((rnd k * 2 - 1) * (mapW - PADDING))
             ((rnd (S k) * 2 - 1) * (mapH - PADDING)).

(** The [for] loop of lines 385-402 with [fuel] iterations left and [k]
    calls of [Math.random] made so far; the result carries the number of
    calls made when the function returns. *)
Fixpoint spawnLoop (fuel : nat) (rnd : nat -> R) (walls : list Wall)
  (mapW mapH : R) (k : nat) : Vector2 * nat :=
  match fuel with
  | O => (Vector2.mk 0 0, k)
  | S fuel' =>
      let p := spawnSample rnd mapW mapH k in
      if spawnSafe walls (Vector2.x p) (Vector2.y p) then (p, S (S k))
      else spawnLoop fuel' rnd walls mapW mapH (S (S k))
  end.

Definition mapHalfWidth (mapName : string) : R :=
  if String.eqb mapName "Wasteland" then 1600 / 2 else 1200.
Definition mapHalfHeight (mapName : string) : R :=
  if String.eqb mapName "Wasteland" then 2000 / 2 else 1200.

(** [findSafeSpawnPosition], lines 370-405. *)
Definition findSafeSpawnPosition (rnd : nat -> R) (walls : list Wall)
  (mapName : string) : Vector2 * nat :=
  spawnLoop MAX_ATTEMPTS rnd walls (mapHalfWidth mapName) (mapHalfHeight mapName) 0.

(** ** The component's state, inputs and effects *)

(** Calls of the presentation callbacks and of the sound service.  The
    particle collection is cosmetic (it never collides and no other state
    reads it): a call of [createParticles] is recorded as an effect, and the
    draws of [Math.random] it makes are not part of a frame's [rnd]. *)
Inductive Event : Type :=
| SetScore (score : R)
| SetHealth (hp : R)
| SetAmmo (ammo : R)
| OnGameOver (killerId : string)
| OnPlayerUpdate (position : Vector2)
| OnKill
| OnRoundEnd
| PlayShoot
| PlayEnemyDeath
| PlayPlayerDamage
| CreateParticles (x y : R) (color : string) (count : nat).

(** [propsRef.current]; an optional callback is the boolean "is provided". *)
Module Props.
Record t : Type := mk {
  gameState : GameState;
  setAmmo : bool;
  onPlayerUpdate : bool;
  onKill : bool;
  onRoundEnd : bool;
  remotePlayers : option (list RemotePlayer);
  spectatorTargetId : option string
}.

(** [currentProps.remotePlayers || []]. *)
Definition remotes (p : t) : list RemotePlayer :=
  match remotePlayers p with Some l => l | None => [] end.

(** Truthiness of [spectatorTargetId : string | null]. *)
Definition hasTarget (p : t) : bool :=
  match spectatorTargetId p with
  | Some s => negb (String.eqb s "")
  | None => false
  end.
End Props.

(** The props [gameLoop] reads through its closure instead of [propsRef]. *)
Module Closure.
Record t : Type := mk {
  levelConfig : LevelConfig;
  isMultiplayer : bool;
  currentMap : string;
  playerName : string
}.
End Closure.

Module Canvas.
Record t : Type := mk {
  width : R;
  height : R;
  (** whether [getContext('2d')] returns a context *)
  context2d : bool
}.
End Canvas.

(** What a frame reads and does not write: the timestamp, the input refs
    written by the event handlers, the canvas and the random draws of the
    two spawners. *)
Module Input.
Record t : Type := mk {
  time : R;
  keys : string -> bool;
  mouse : Vector2;
  isMouseDown : bool;
  canvas : option Canvas.t;
  rnd : nat -> R
}.
End Input.

(** The refs of lines 51-81 that the frame reads and writes. *)
Module Store.
Record t : Type := mk {
  player : Player;
  enemies : list Enemy;
  bullets : list Bullet;
  walls : list Wall;
  healthPacks : list HealthPack;
  decorations : list Decoration;
  score : R;
  lastSpawnTime : R;
  lastHealthPackTime : R;
  lastUpdateEmit : R;
  lastCactusDamageTime : R;
  lastShotTime : R
}.

Definition with_player (s : t) (p : Player) : t :=
  mk p (enemies s) (bullets s) (walls s) (healthPacks s) (decorations s) (score s)
     (lastSpawnTime s) (lastHealthPackTime s) (lastUpdateEmit s)
     (lastCactusDamageTime s) (lastShotTime s).
Definition with_enemies (s : t) (es : list Enemy) : t :=
  mk (player s) es (bullets s) (walls s) (healthPacks s) (decorations s) (score s)
     (lastSpawnTime s) (lastHealthPackTime s) (lastUpdateEmit s)
     (lastCactusDamageTime s) (lastShotTime s).
Definition with_bullets (s : t) (bs : list Bullet) : t :=
  mk (player s) (enemies s) bs (walls s) (healthPacks s) (decorations s) (score s)
     (lastSpawnTime s) (lastHealthPackTime s) (lastUpdateEmit s)
     (lastCactusDamageTime s) (lastShotTime s).
Definition with_healthPacks (s : t) (hs : list HealthPack) : t :=
  mk (player s) (enemies s) (bullets s) (walls s) hs (decorations s) (score s)
     (lastSpawnTime s) (lastHealthPackTime s) (lastUpdateEmit s)
     (lastCactusDamageTime s) (lastShotTime s).
Definition with_decorations (s : t) (ds : list Decoration) : t :=
  mk (player s) (enemies s) (bullets s) (walls s) (healthPacks s) ds (score s)
     (lastSpawnTime s) (lastHealthPackTime s) (lastUpdateEmit s)
     (lastCactusDamageTime s) (lastShotTime s).
Definition with_score (s : t) (n : R) : t :=
  mk (player s) (enemies s) (bullets s) (walls s) (healthPacks s) (decorations s) n
     (lastSpawnTime s) (lastHealthPackTime s) (lastUpdateEmit s)
     (lastCactusDamageTime s) (lastShotTime s).
Definition with_lastSpawnTime (s : t) (n : R) : t :=
  mk (player s) (enemies s) (bullets s) (walls s) (healthPacks s) (decorations s)
     (score s) n (lastHealthPackTime s) (lastUpdateEmit s)
     (lastCactusDamageTime s) (lastShotTime s).
Definition with_lastHealthPackTime (s : t) (n : R) : t :=
  mk (player s) (enemies s) (bullets s) (walls s) (healthPacks s) (decorations s)
     (score s) (lastSpawnTime s) n (lastUpdateEmit s)
     (lastCactusDamageTime s) (lastShotTime s).
Definition with_lastUpdateEmit (s : t) (n : R) : t :=
  mk (player s) (enemies s) (bullets s) (walls s) (healthPacks s) (decorations s)
     (score s) (lastSpawnTime s) (lastHealthPackTime s) n
     (lastCactusDamageTime s) (lastShotTime s).
Definition with_lastCactusDamageTime (s : t) (n : R) : t :=
  mk (player s) (enemies s) (bullets s) (walls s) (healthPacks s) (decorations s)
     (score s) (lastSpawnTime s) (lastHealthPackTime s) (lastUpdateEmit s)
     n (lastShotTime s).
Definition with_lastShotTime (s : t) (n : R) : t :=
  mk (player s) (enemies s) (bullets s) (walls s) (healthPacks s) (decorations s)
     (score s) (lastSpawnTime s) (lastHealthPackTime s) (lastUpdateEmit s)
     (lastCactusDamageTime s) n.
End Store.
Abbreviation Store := Store.t.

Definition FIRE_RATE : R := 500.
Definition HEALTH_PACK_INTERVAL : R := 30000.

(** Distance between two points, [Math.sqrt(dx*dx + dy*dy)]. *)
Definition dist (p q : Vector2) : R :=
  let dx := Vector2.x p - Vector2.x q in
  let dy := Vector2.y p - Vector2.y q in
  sqrt (dx * dx + dy * dy).

(** ** The simulation step ([gameLoop], lines 614-890) *)

(** *** 1. Player movement, lines 630-686 *)

(** Lines 631-652: key state to velocity, then integration. *)
Definition movePlayer (keys : string -> bool) (player : Player) : Player :=
  let moveY0 := if keys "w" then 0 - 1 else 0 in
  let moveY := if keys "s" then moveY0 + 1 else moveY0 in
  let moveX0 := if keys "a" then 0 - 1 else 0 in
  let moveX := if keys "d" then moveX0 + 1 else moveX0 in
  let len := sqrt (moveX * moveX + moveY * moveY) in
  let v :=
    if len >? 0
    then Vector2.mk ((moveX / len) * Player.speed player)
                    ((moveY / len) * Player.speed player)
    else Vector2.mk 0 0 in
  let e := Entity.with_velocity (Player.base player) v in
  Player.with_base player
    (Entity.with_position e
       (Vector2.mk (Entity.px e + Vector2.x v) (Entity.py e + Vector2.y v))).

(** [walls.forEach(wall => resolveWallCollision(entity, wall))]. *)
Definition resolveWalls (entity : Entity) (walls : list Wall) : Entity :=
  fold_left resolveWallCollision walls entity.

(** Lines 660-665: the entity after every decoration, and [hitCactus]. *)
Definition resolveDecorationStep (acc : Entity * bool) (decor : Decoration)
  : Entity * bool :=
  let '(entity, hitCactus) := acc in
  let '(entity', collided) := resolveDecorationCollision entity decor in
  (entity',
   if collided
   then match Decoration.type decor with CACTUS => true end
   else hitCactus).

Definition resolveDecorations (entity : Entity) (decorations : list Decoration)
  : Entity * bool :=
  fold_left resolveDecorationStep decorations (entity, false).

(** Lines 667-679: contact damage of a cactus.  Returns the player, the new
    [lastCactusDamageTime] and the calls made. *)
Definition cactusDamage (time lastCactusDamageTime : R) (hitCactus : bool)
  (player : Player) : Player * R * list Event :=
  if hitCactus && (Player.hp player >? 0) then
    if (time - lastCactusDamageTime) >? 1000 then
      let player' := Player.with_hp player (Player.hp player - 2) in
      (player', time,
       [SetHealth (Rmax 0 (Player.hp player'));
        PlayPlayerDamage;
        CreateParticles (Entity.px (Player.base player'))
                        (Entity.py (Player.base player')) "#ef4444" 3]
       ++ (if Player.hp player' <=? 0 then [OnGameOver "Cactus"] else []))
    else (player, lastCactusDamageTime, [])
  else (player, lastCactusDamageTime, []).

Definition playerPhase (props : Props.t) (input : Input.t) (s : Store)
  : Store * list Event :=
  let player := Store.player s in
  if (Player.hp player >? 0) && GameState_eqb (Props.gameState props) PLAYING then
    let moved := movePlayer (Input.keys input) player in
    let afterWalls := resolveWalls (Player.base moved) (Store.walls s) in
    let '(afterDecor, hitCactus) := resolveDecorations afterWalls (Store.decorations s) in
    let '(player', lastCactus, evs) :=
      cactusDamage (Input.time input) (Store.lastCactusDamageTime s) hitCactus
                   (Player.with_base moved afterDecor) in
    let s1 := Store.with_lastCactusDamageTime (Store.with_player s player') lastCactus in
    if Props.onPlayerUpdate props
       && ((Input.time input - Store.lastUpdateEmit s1) >? 50)
    then (Store.with_lastUpdateEmit s1 (Input.time input),
          evs ++ [OnPlayerUpdate (Entity.position (Player.base player'))])
    else (s1, evs)
  else (s, []).

(** *** Round end check, lines 690-702 *)

Definition roundEndCheck (props : Props.t) (player : Player) : list Event :=
  if (0 <? List.length (Props.remotes props))%nat
     && Props.onRoundEnd props
     && (GameState_eqb (Props.gameState props) PLAYING
         || GameState_eqb (Props.gameState props) SPECTATING)
  then
    let activeRemote :=
      List.length (filter (fun p => RemotePlayer.hp p >? 0) (Props.remotes props)) in
    let localAlive := if Player.hp player >? 0 then 1%nat else 0%nat in
    let totalAlive := (activeRemote + localAlive)%nat in
    if (totalAlive <=? 1)%nat then [OnRoundEnd] else []
  else [].

(** *** 2-3. Aim and shooting, lines 705-739 *)

Definition aimAngle (input : Input.t) (canvas : Canvas.t) : R :=
  let centerX := Canvas.width canvas / 2 in
  let centerY := Canvas.height canvas / 2 in
  Num.atan2 (Vector2.y (Input.mouse input) - centerY)
            (Vector2.x (Input.mouse input) - centerX).

(** The object pushed at lines 724-735. *)
Definition newBullet (closure : Closure.t) (time angle : R) (player : Player) : Bullet :=
  let bulletSpeed := 12 in
  let spawnX := Entity.px (Player.base player) + cos angle * 25 in
  let spawnY := Entity.py (Player.base player) + sin angle * 25 in
  Bullet.mk
    (Entity.mk (BulletId time)
       (Vector2.mk spawnX spawnY)
       (Vector2.mk (cos angle * bulletSpeed) (sin angle * bulletSpeed))
       4
       (LevelConfig.bulletColor (Closure.levelConfig closure)))
    20
    (Some (Entity.id (Player.base player))).

Definition shootPhase (props : Props.t) (closure : Closure.t) (input : Input.t)
  (canvas : Canvas.t) (s : Store) : Store * list Event :=
  let player := Store.player s in
  if (Player.hp player >? 0) && GameState_eqb (Props.gameState props) PLAYING then
    if Input.isMouseDown input
       && ((Input.time input - Store.lastShotTime s) >? FIRE_RATE) then
      if Player.ammo player >? 0 then
        let player' := Player.with_ammo player (Player.ammo player - 1) in
        let b := newBullet closure (Input.time input) (aimAngle input canvas) player' in
        (Store.with_lastShotTime
           (Store.with_bullets (Store.with_player s player') (Store.bullets s ++ [b]))
           (Input.time input),
         [PlayShoot] ++ (if Props.setAmmo props then [SetAmmo (Player.ammo player')] else []))
      else (s, [])
    else (s, [])
  else (s, []).

(** *** 4. Spawning, lines 742-754 with [spawnEnemy] and [spawnHealthPack] *)

(** [remotePlayers.find(p => p.id === spectatorTargetId)]. *)
Definition findTarget (props : Props.t) : option RemotePlayer :=
  match Props.spectatorTargetId props with
  | Some tid => find (fun p => String.eqb (RemotePlayer.id p) tid) (Props.remotes props)
  | None => None
  end.

Definition cameraPos (props : Props.t) (player : Player) : Vector2 :=
  if GameState_eqb (Props.gameState props) SPECTATING && Props.hasTarget props then
    match findTarget props with
    | Some target => RemotePlayer.position target
    | None => Entity.position (Player.base player)
    end
  else Entity.position (Player.base player).

(** The test of lines 537 and 573: the point lies strictly inside the wall. *)
Definition insideWall (x y : R) (wall : Wall) : bool :=
  (x >? Wall.x wall) && (x <? Wall.x wall + Wall.width wall)
  && (y >? Wall.y wall) && (y <? Wall.y wall + Wall.height wall).

(** The [for ... of walls] with [break] of both spawners: [inWall]. *)
Definition inWall (walls : list Wall) (x y : R) : bool :=
  existsb (insideWall x y) walls.

(** [spawnEnemy], lines 516-557; [k] counts the calls of [Math.random]. *)
Definition spawnEnemy (closure : Closure.t) (canvas : Canvas.t) (rnd : nat -> R)
  (now : R) (playerPos : Vector2) (s : Store) (k : nat) : Store * nat :=
  if Player.hp (Store.player s) <=? 0 then (s, k)
  else if Closure.isMultiplayer closure then (s, k)
  else if (now - Store.lastSpawnTime s)
          >? LevelConfig.enemySpawnRate (Closure.levelConfig closure) then
    let spawnRadius := Rmax (Canvas.width canvas) (Canvas.height canvas) / 2 + 100 in
    let angle := rnd k * PI * 2 in
    let x := Vector2.x playerPos + cos angle * spawnRadius in
    let y := Vector2.y playerPos + sin angle * spawnRadius in
    if negb (inWall (Store.walls s) x y) then
      let e :=
        Enemy.mk
          (Entity.mk (EnemyId now) (Vector2.mk x y) (Vector2.mk 0 0)
             (12 + rnd (S k) * 8)
             (LevelConfig.enemyColor (Closure.levelConfig closure)))
          1
          (LevelConfig.enemySpeed (Closure.levelConfig closure)
           * (0.8 + rnd (S (S k)) * 0.4))
          10 in
      (Store.with_lastSpawnTime (Store.with_enemies s (Store.enemies s ++ [e])) now,
       S (S (S k)))
    else (s, S k)
  else (s, k).

Definition healthPackMapSize : R := 1200.

(** The candidate of lines 568-569 when [k] calls were made before. *)
Definition healthPackSample (rnd : nat -> R) (k : nat) : Vector2 :=
  Vector2.mk ((rnd k * 2 - 1) * healthPackMapSize)
             ((rnd (S k) * 2 - 1) * healthPackMapSize).

(** The object pushed at lines 580-587. *)
Definition newHealthPack (now : R) (p : Vector2) : HealthPack :=
  HealthPack.mk (Entity.mk (HealthPackId now) p (Vector2.mk 0 0) 15 "#22c55e") true.

(** The [for] loop of lines 567-591 with [fuel] iterations left. *)
Fixpoint healthPackLoop (fuel : nat) (rnd : nat -> R) (now : R) (s : Store) (k : nat)
  : Store * nat :=
  match fuel with
  | O => (s, k)
  | S fuel' =>
      let p := healthPackSample rnd k in
      if negb (inWall (Store.walls s) (Vector2.x p) (Vector2.y p)) then
        (Store.with_lastHealthPackTime
           (Store.with_healthPacks s (Store.healthPacks s ++ [newHealthPack now p]))
           now,
         S (S k))
      else healthPackLoop fuel' rnd now s (S (S k))
  end.

(** [spawnHealthPack], lines 559-593. *)
Definition spawnHealthPack (rnd : nat -> R) (now : R) (s : Store) (k : nat)
  : Store * nat :=
  if (now - Store.lastHealthPackTime s) >? HEALTH_PACK_INTERVAL
  then healthPackLoop 10 rnd now s k
  else (s, k).

Definition spawnPhase (props : Props.t) (closure : Closure.t) (input : Input.t)
  (canvas : Canvas.t) (s : Store) : Store :=
  let camera := cameraPos props (Store.player s) in
  let '(s1, k1) :=
    spawnEnemy closure canvas (Input.rnd input) (Input.time input) camera s 0 in
  if GameState_eqb (Props.gameState props) PLAYING
  then fst (spawnHealthPack (Input.rnd input) (Input.time input) s1 k1)
  else s1.

(** *** 5. Bullet integration and despawn, lines 757-782 *)

(** [position += velocity], as lines 761-762, 807-808. *)
Definition integrate (e : Entity) : Entity :=
  Entity.with_position e
    (Vector2.mk (Entity.px e + Vector2.x (Entity.velocity e))
                (Entity.py e + Vector2.y (Entity.velocity e))).

Definition integrateBullet (b : Bullet) : Bullet :=
  Bullet.with_base b (integrate (Bullet.base b)).

Definition despawnDistance (canvas : Canvas.t) : R :=
  Rmax (Canvas.width canvas) (Canvas.height canvas) * 1.5.

(** The [for ... of walls] of lines 771-776 reaches its [return false]. *)
Definition hitsWall (walls : list Wall) (b : Bullet) : bool :=
  existsb (checkBulletWallCollision b) walls.

(** The predicate of the [filter] at lines 765-782. *)
Definition bulletKept (canvas : Canvas.t) (camera : Vector2) (walls : list Wall)
  (b : Bullet) : bool :=
  if hitsWall walls b then false
  else dist (Entity.position (Bullet.base b)) camera <? despawnDistance canvas.

(** The calls of [createParticles] the filter makes, line 773. *)
Definition wallHitEvents (walls : list Wall) (b : Bullet) : list Event :=
  if hitsWall walls b
  then [CreateParticles (Entity.px (Bullet.base b)) (Entity.py (Bullet.base b)) "#ffffff" 3]
  else [].

Definition updateBullets (canvas : Canvas.t) (camera : Vector2) (walls : list Wall)
  (bullets : list Bullet) : list Bullet * list Event :=
  let moved := map integrateBullet bullets in
  (filter (bulletKept canvas camera walls) moved, flat_map (wallHitEvents walls) moved).

(** *** 6. Enemies, lines 785-838 *)

(** Lines 787-805.  [minDist] is the distance to the player when the player
    is alive; it is only read under the same test. *)
Definition steerEnemy (player : Player) (e : Enemy) : Enemy :=
  if Player.hp player >? 0 then
    let dx := Entity.px (Player.base player) - Entity.px (Enemy.base e) in
    let dy := Entity.py (Player.base player) - Entity.py (Enemy.base e) in
    let minDist := sqrt (dx * dx + dy * dy) in
    if minDist >? 0 then
      Enemy.with_base e
        (Entity.with_velocity (Enemy.base e)
           (Vector2.mk ((dx / minDist) * Enemy.speed e) ((dy / minDist) * Enemy.speed e)))
    else e
  else e.

(** Lines 816-818: the decorations push the enemy, the results are dropped. *)
Definition pushByDecorations (entity : Entity) (decorations : list Decoration) : Entity :=
  fold_left (fun e d => fst (resolveDecorationCollision e d)) decorations entity.

(** Lines 821-837: the enemy against the player. *)
Definition enemyHitsPlayer (closure : Closure.t) (player : Player) (e : Enemy)
  : Player * Enemy * list Event :=
  if Player.hp player >? 0 then
    let dist2 := dist (Entity.position (Player.base player))
                      (Entity.position (Enemy.base e)) in
    if dist2 <? Entity.radius (Player.base player) + Entity.radius (Enemy.base e) then
      let player' := Player.with_hp player (Player.hp player - 10) in
      let e' := Enemy.with_hp e 0 in
      (player', e',
       [PlayPlayerDamage;
        SetHealth (Rmax 0 (Player.hp player'));
        CreateParticles (Entity.px (Enemy.base e')) (Entity.py (Enemy.base e'))
          (LevelConfig.playerColor (Closure.levelConfig closure)) 10]
       ++ (if Player.hp player' <=? 0 then [OnGameOver "Enemies"] else []))
    else (player, e, [])
  else (player, e, []).

(** The body of [enemies.forEach], for one enemy. *)
Definition updateEnemy (closure : Closure.t) (walls : list Wall)
  (decorations : list Decoration) (player : Player) (e : Enemy)
  : Player * Enemy * list Event :=
  let steered := steerEnemy player e in
  let moved := integrate (Enemy.base steered) in
  let pushed := pushByDecorations (resolveWalls moved walls) decorations in
  enemyHitsPlayer closure player (Enemy.with_base steered pushed).

Fixpoint updateEnemies (closure : Closure.t) (walls : list Wall)
  (decorations : list Decoration) (player : Player) (enemies : list Enemy)
  : Player * list Enemy * list Event :=
  match enemies with
  | [] => (player, [], [])
  | e :: rest =>
      let '(player1, e', evs1) := updateEnemy closure walls decorations player e in
      let '(player2, rest', evs2) := updateEnemies closure walls decorations player1 rest in
      (player2, e' :: rest', evs1 ++ evs2)
  end.

(** *** 7. Bullets against enemies, lines 841-860 *)

(** The body of the inner [forEach], for one bullet and one enemy. *)
Definition bulletHitsEnemy (props : Props.t) (b : Bullet) (score : R) (e : Enemy)
  : Bullet * R * Enemy * list Event :=
  let d := dist (Entity.position (Bullet.base b)) (Entity.position (Enemy.base e)) in
  if d <? Entity.radius (Bullet.base b) + Entity.radius (Enemy.base e) then
    let e' := Enemy.with_hp e (Enemy.hp e - Bullet.damage b) in
    let b' := Bullet.with_damage b 0 in
    if Enemy.hp e' <=? 0 then
      let score' := score + Enemy.value e' in
      (b', score', e',
       [PlayEnemyDeath; SetScore score']
       ++ (if Props.onKill props then [OnKill] else [])
       ++ [CreateParticles (Entity.px (Enemy.base e')) (Entity.py (Enemy.base e'))
             (Entity.color (Enemy.base e')) 8])
    else (b', score, e', [])
  else (b, score, e, []).

(** The inner [forEach]: one bullet against every enemy, in order. *)
Fixpoint bulletVsEnemies (props : Props.t) (b : Bullet) (score : R)
  (enemies : list Enemy) : Bullet * R * list Enemy * list Event :=
  match enemies with
  | [] => (b, score, [], [])
  | e :: rest =>
      let '(b1, score1, e', evs1) := bulletHitsEnemy props b score e in
      let '(b2, score2, rest', evs2) := bulletVsEnemies props b1 score1 rest in
      (b2, score2, e' :: rest', evs1 ++ evs2)
  end.

(** The outer [forEach]: every bullet, in order. *)
Fixpoint combat (props : Props.t) (bullets : list Bullet) (score : R)
  (enemies : list Enemy) : list Bullet * R * list Enemy * list Event :=
  match bullets with
  | [] => ([], score, enemies, [])
  | b :: rest =>
      let '(b', score1, enemies1, evs1) := bulletVsEnemies props b score enemies in
      let '(rest', score2, enemies2, evs2) := combat props rest score1 enemies1 in
      (b' :: rest', score2, enemies2, evs1 ++ evs2)
  end.

(** *** 8. Health packs, lines 863-878 *)

(** The [filter] of lines 864-877, whose predicate heals the player. *)
Fixpoint pickupLoop (player : Player) (packs : list HealthPack)
  : Player * list HealthPack * list Event :=
  match packs with
  | [] => (player, [], [])
  | hp :: rest =>
      let d := dist (Entity.position (Player.base player))
                    (Entity.position (HealthPack.base hp)) in
      if d <? Entity.radius (Player.base player) + Entity.radius (HealthPack.base hp) then
        let player' := Player.with_hp player (Player.maxHp player) in
        let '(player2, rest', evs) := pickupLoop player' rest in
        (player2, rest',
         [SetHealth (Player.hp player');
          CreateParticles (Entity.px (HealthPack.base hp)) (Entity.py (HealthPack.base hp))
            "#22c55e" 10] ++ evs)
      else
        let '(player2, rest', evs) := pickupLoop player rest in
        (player2, hp :: rest', evs)
  end.

Definition pickupHealthPacks (player : Player) (packs : list HealthPack)
  : Player * list HealthPack * list Event :=
  if Player.hp player >? 0 then pickupLoop player packs else (player, packs, []).

(** *** 9. Cleanup, lines 881-882 *)

Definition cleanupBullets (bullets : list Bullet) : list Bullet :=
  filter (fun b => Bullet.damage b >? 0) bullets.
Definition cleanupEnemies (enemies : list Enemy) : list Enemy :=
  filter (fun e => Enemy.hp e >? 0) enemies.

(** *** The update logic of one frame *)

(** Steps 5 to 9 on the store, after shooting and spawning. *)
Definition bulletPhase (props : Props.t) (canvas : Canvas.t) (s : Store)
  : Store * list Event :=
  let camera := cameraPos props (Store.player s) in
  let '(bs, evs) := updateBullets canvas camera (Store.walls s) (Store.bullets s) in
  (Store.with_bullets s bs, evs).

Definition enemyPhase (closure : Closure.t) (s : Store) : Store * list Event :=
  let '(p, es, evs) :=
    updateEnemies closure (Store.walls s) (Store.decorations s)
                  (Store.player s) (Store.enemies s) in
  (Store.with_enemies (Store.with_player s p) es, evs).

Definition combatPhase (props : Props.t) (s : Store) : Store * list Event :=
  let '(bs, sc, es, evs) :=
    combat props (Store.bullets s) (Store.score s) (Store.enemies s) in
  (Store.with_score (Store.with_enemies (Store.with_bullets s bs) es) sc, evs).

Definition pickupPhase (s : Store) : Store * list Event :=
  let '(p, hs, evs) := pickupHealthPacks (Store.player s) (Store.healthPacks s) in
  (Store.with_healthPacks (Store.with_player s p) hs, evs).

Definition cleanupPhase (s : Store) : Store :=
  Store.with_enemies
    (Store.with_bullets s (cleanupBullets (Store.bullets s)))
    (cleanupEnemies (Store.enemies s)).

(** [gameLoop] up to line 890; rendering, which writes no ref, is left out. *)
Definition gameLoop (props : Props.t) (closure : Closure.t) (input : Input.t)
  (s : Store) : Store * list Event :=
  if negb (GameState_eqb (Props.gameState props) PLAYING)
     && negb (GameState_eqb (Props.gameState props) SPECTATING)
  then (s, [])
  else
    match Input.canvas input with
    | None => (s, [])
    | Some canvas =>
        if negb (Canvas.context2d canvas) then (s, [])
        else
          let '(s1, ev1) := playerPhase props input s in
          let ev2 := roundEndCheck props (Store.player s1) in
          let '(s3, ev3) := shootPhase props closure input canvas s1 in
          let s4 := spawnPhase props closure input canvas s3 in
          let '(s5, ev5) := bulletPhase props canvas s4 in
          let '(s6, ev6) := enemyPhase closure s5 in
          let '(s7, ev7) := combatPhase props s6 in
          let '(s8, ev8) := pickupPhase s7 in
          (cleanupPhase s8, ev1 ++ ev2 ++ ev3 ++ ev5 ++ ev6 ++ ev7 ++ ev8)
    end.

(** *** Start of a match *)

(** The initial values of the refs, lines 51-81. *)
Definition freshPlayer (closure : Closure.t) (spawnPos : Vector2) : Player :=
  Player.mk
    (Entity.mk PlayerId spawnPos (Vector2.mk 0 0) 15
       (LevelConfig.playerColor (Closure.levelConfig closure)))
    100 100
    (LevelConfig.playerSpeed (Closure.levelConfig closure))
    (Some (Closure.playerName closure))
    120.

Definition mountStore (closure : Closure.t) : Store :=
  Store.mk (freshPlayer closure (Vector2.mk 0 0)) [] [] [] [] [] 0 0 0 0 0 0.

(** [initGame], lines 409-463.  [layout] and [cactuses] are what the map
    generators return for this call; [rnd] feeds the spawn search. *)
Definition initGame (closure : Closure.t) (hasCanvas setAmmo : bool)
  (layout : list Wall) (cactuses : list Decoration) (rnd : nat -> R) (s : Store)
  : Store * list Event :=
  if negb hasCanvas then (s, [])
  else
    let decorations :=
      if String.eqb (Closure.currentMap closure) "Wasteland" then cactuses else [] in
    let spawnPos := fst (findSafeSpawnPosition rnd layout (Closure.currentMap closure)) in
    (Store.mk (freshPlayer closure spawnPos) [] [] layout [] decorations
       (Store.score s) (Store.lastSpawnTime s) 0 (Store.lastUpdateEmit s) 0
       (Store.lastShotTime s),
     [SetScore 0; SetHealth 100] ++ (if setAmmo then [SetAmmo 120] else [])).

(** The stores a mounted component can hold: the initial refs, and what
    [initGame] and [gameLoop] make of a store it can hold. *)
Inductive reachable : Store -> Prop :=
| reach_mount : forall closure, reachable (mountStore closure)
| reach_init : forall closure hasCanvas setAmmo layout cactuses rnd s,
    reachable s ->
    reachable (fst (initGame closure hasCanvas setAmmo layout cactuses rnd s))
| reach_frame : forall props closure input s,
    reachable s ->
    reachable (fst (gameLoop props closure input s)).

(** ** Map generators, lines 186-368 *)

(** The decimal digits of an array length or loop index inside a template
    literal. *)
Definition digits (n : nat) : string := NilEmpty.string_of_uint (Nat.to_uint n).

(** [`w-${walls.length}`]. *)
Definition wallId (n : nat) : string := String.append "w-" (digits n).

(** The local [add] of both layout generators (lines 188-190, 271-273):
    the array after the push. *)
Definition add (x y w h : R) (isLow : bool) (walls : list Wall) : list Wall :=
  walls ++ [Wall.mk (wallId (List.length walls)) x y w h (Some isLow)].

Module Erindale.

Definition BOUND_SIZE : R := 1200.
Definition WALL_THICK : R := 50.
Definition CENTER_OPEN_SIZE : R := 350.
Definition DOOR_SIZE : R := 220.

(** [addWallWithGap], lines 204-214. *)
Definition addWallWithGap (x y w h : R) (isVertical : bool) (walls : list Wall)
  : list Wall :=
  if isVertical then
    let segmentH := (h - DOOR_SIZE) / 2 in
    add x (y + segmentH + DOOR_SIZE) w (h - (segmentH + DOOR_SIZE)) false
      (add x y w segmentH false walls)
  else
    let segmentW := (w - DOOR_SIZE) / 2 in
    add (x + segmentW + DOOR_SIZE) y (w - (segmentW + DOOR_SIZE)) h false
      (add x y segmentW h false walls).

(** Lines 196-238: boundaries, corner rooms, hallway spines, central
    ruins, pushed in this order on the empty array. *)
Definition skeleton : list Wall :=
  let ws := [] in
  let ws := add (- BOUND_SIZE) (- BOUND_SIZE) (BOUND_SIZE * 2) WALL_THICK false ws in
  let ws := add (- BOUND_SIZE) (BOUND_SIZE - WALL_THICK) (BOUND_SIZE * 2) WALL_THICK false ws in
  let ws := add (- BOUND_SIZE) (- BOUND_SIZE) WALL_THICK (BOUND_SIZE * 2) false ws in
  let ws := add (BOUND_SIZE - WALL_THICK) (- BOUND_SIZE) WALL_THICK (BOUND_SIZE * 2) false ws in
  let ws := addWallWithGap (- CENTER_OPEN_SIZE - WALL_THICK) (- BOUND_SIZE) WALL_THICK
              (BOUND_SIZE - CENTER_OPEN_SIZE) true ws in
  let ws := addWallWithGap (- BOUND_SIZE) (- CENTER_OPEN_SIZE - WALL_THICK)
              (BOUND_SIZE - CENTER_OPEN_SIZE) WALL_THICK false ws in
  let ws := addWallWithGap CENTER_OPEN_SIZE (- BOUND_SIZE) WALL_THICK
              (BOUND_SIZE - CENTER_OPEN_SIZE) true ws in
  let ws := addWallWithGap CENTER_OPEN_SIZE (- CENTER_OPEN_SIZE - WALL_THICK)
              (BOUND_SIZE - CENTER_OPEN_SIZE) WALL_THICK false ws in
  let ws := addWallWithGap (- CENTER_OPEN_SIZE - WALL_THICK) CENTER_OPEN_SIZE WALL_THICK
              (BOUND_SIZE - CENTER_OPEN_SIZE) true ws in
  let ws := addWallWithGap (- BOUND_SIZE) CENTER_OPEN_SIZE
              (BOUND_SIZE - CENTER_OPEN_SIZE) WALL_THICK false ws in
  let ws := addWallWithGap CENTER_OPEN_SIZE CENTER_OPEN_SIZE WALL_THICK
              (BOUND_SIZE - CENTER_OPEN_SIZE) true ws in
  let ws := addWallWithGap CENTER_OPEN_SIZE CENTER_OPEN_SIZE
              (BOUND_SIZE - CENTER_OPEN_SIZE) WALL_THICK false ws in
  let spineLen := 450 in
  let spineOffset := 600 in
  let ws := add (-20) (- spineOffset - spineLen / 2) 40 spineLen false ws in
  let ws := add (-20) (spineOffset - spineLen / 2) 40 spineLen false ws in
  let ws := add (- spineOffset - spineLen / 2) (-20) spineLen 40 false ws in
  let ws := add (spineOffset - spineLen / 2) (-20) spineLen 40 false ws in
  add (-70) (-70) 140 140 true ws.

(** The test of lines 250-251 for one wall. *)
Definition tooClose (x y : R) (w : Wall) : bool :=
  (x <? Wall.x w + Wall.width w + 80) && (x + 80 >? Wall.x w - 80)
  && (y <? Wall.y w + Wall.height w + 80) && (y + 80 >? Wall.y w - 80).

(** The [for] loop of lines 242-264 with [fuel] iterations left and [k]
    calls of [Math.random] made so far. *)
Fixpoint obstacles (fuel : nat) (rnd : nat -> R) (walls : list Wall) (k : nat)
  : list Wall * nat :=
  match fuel with
  | O => (walls, k)
  | S fuel' =>
      let x := (rnd k * 2 - 1) * (BOUND_SIZE - 100) in
      let y := (rnd (S k) * 2 - 1) * (BOUND_SIZE - 100) in
      if sqrt (x * x + y * y) <? 350 then obstacles fuel' rnd walls (S (S k))
      else if existsb (tooClose x y) walls then obstacles fuel' rnd walls (S (S k))
      else
        let isBush := rnd (S (S k)) >? 0.6 in
        let walls' :=
          if isBush
          then add x y (60 + rnd (3 + k)%nat * 60) (40 + rnd (4 + k)%nat * 40) true walls
          else add x y (80 + rnd (3 + k)%nat * 50) (80 + rnd (4 + k)%nat * 50) false walls in
        obstacles fuel' rnd walls' (5 + k)%nat
  end.

Definition numObstacles : nat := 76.

(** [generateErindaleLayout], lines 186-267, with the number of draws. *)
Definition generateErindaleLayout (rnd : nat -> R) : list Wall * nat :=
  obstacles numObstacles rnd skeleton 0.

End Erindale.

Module Wasteland.

Definition MAP_W : R := 1600.
Definition MAP_H : R := 2000.
Definition WALL_THICK : R := 100.
Definition PILLAR_SIZE : R := 40.
Definition ARENA_RAD : R := 300.

(** The [for] loop of lines 289-296, for [i] from [8 - fuel] to 7. *)
Fixpoint pillars (fuel : nat) (i : nat) (walls : list Wall) : list Wall :=
  match fuel with
  | O => walls
  | S fuel' =>
      let angle := (INR i / 8) * PI * 2 in
      pillars fuel' (S i)
        (add (cos angle * ARENA_RAD - PILLAR_SIZE / 2)
             (sin angle * ARENA_RAD - PILLAR_SIZE / 2)
             PILLAR_SIZE PILLAR_SIZE true walls)
  end.

(** Lines 280-316: boundaries, pillars, side buildings, gates. *)
Definition skeleton : list Wall :=
  let ws := [] in
  let ws := add (- MAP_W / 2 - WALL_THICK) (- MAP_H / 2 - WALL_THICK)
              (MAP_W + WALL_THICK * 2) WALL_THICK false ws in
  let ws := add (- MAP_W / 2 - WALL_THICK) (MAP_H / 2)
              (MAP_W + WALL_THICK * 2) WALL_THICK false ws in
  let ws := add (- MAP_W / 2 - WALL_THICK) (- MAP_H / 2) WALL_THICK MAP_H false ws in
  let ws := add (MAP_W / 2) (- MAP_H / 2) WALL_THICK MAP_H false ws in
  let ws := pillars 8 0 ws in
  let STREET_WIDTH := 600 in
  let BUILDING_DEPTH := 250 in
  let leftX := - STREET_WIDTH / 2 - BUILDING_DEPTH in
  let ws := add leftX (-900) BUILDING_DEPTH 400 false ws in
  let ws := add leftX 500 BUILDING_DEPTH 400 false ws in
  let rightX := STREET_WIDTH / 2 in
  let ws := add rightX (-900) BUILDING_DEPTH 400 false ws in
  let ws := add rightX 500 BUILDING_DEPTH 400 false ws in
  let ws := add (-150) (-850) 300 50 true ws in
  add (-150) 800 300 50 true ws.

(** The test of line 326 for one wall: the two top-left corners are less
    than 50 apart on both axes. *)
Definition cornerNear (x y : R) (w : Wall) : bool :=
  (Rabs (Wall.x w - x) <? 50) && (Rabs (Wall.y w - y) <? 50).

(** The [for] loop of lines 319-329; [y] is drawn before [x]. *)
Fixpoint crates (fuel : nat) (rnd : nat -> R) (walls : list Wall) (k : nat)
  : list Wall * nat :=
  match fuel with
  | O => (walls, k)
  | S fuel' =>
      let y := (rnd k * 2 - 1) * 900 in
      let x := (rnd (S k) * 2 - 1) * 600 in
      if (Rabs x <? 50) && (Rabs y <? 50) then crates fuel' rnd walls (S (S k))
      else if existsb (cornerNear x y) walls then crates fuel' rnd walls (S (S k))
      else crates fuel' rnd (add x y 35 35 false walls) (S (S k))
  end.

(** Lines 332-335. *)
Definition longWalls (walls : list Wall) : list Wall :=
  let ws := add (-200) (-400) 20 200 false walls in
  let ws := add 200 200 20 200 false ws in
  let ws := add (-400) 100 200 20 false ws in
  add 200 (-300) 200 20 false ws.

(** [generateWastelandLayout], lines 269-338, with the number of draws. *)
Definition generateWastelandLayout (rnd : nat -> R) : list Wall * nat :=
  let '(ws, k) := crates 30 rnd skeleton 0 in
  (longWalls ws, k).

(** [`cactus-${i}`]. *)
Definition cactusId (i : nat) : string := String.append "cactus-" (digits i).

(** The [for] loop of lines 346-366, for [i] from [18 - fuel] to 17. *)
Fixpoint cactuses (fuel : nat) (rnd : nat -> R) (i : nat) (decors : list Decoration)
  (k : nat) : list Decoration * nat :=
  match fuel with
  | O => (decors, k)
  | S fuel' =>
      let x := (rnd k * 2 - 1) * (MAP_W / 2 - 100) in
      let y := (rnd (S k) * 2 - 1) * (MAP_H / 2 - 100) in
      let safe := negb ((Rabs x <? 350) && (Rabs y <? 350)) in
      if safe then
        cactuses fuel' rnd (S i)
          (decors ++ [Decoration.mk (cactusId i) x y CACTUS
                        (0.8 + rnd (S (S k)) * 0.5) (rnd (3 + k)%nat * PI * 2) 15])
          (4 + k)%nat
      else cactuses fuel' rnd (S i) decors (S (S k))
  end.

Definition numCactuses : nat := 18.

(** [generateCactuses], lines 340-368, with the number of draws. *)
Definition generateCactuses (rnd : nat -> R) : list Decoration * nat :=
  cactuses numCactuses rnd 0 [] 0.

End Wasteland.

(** ** The flashlight cone, lines 1180-1220 *)

Definition beamLength : R := 450.
Definition fov : R := PI / 3.
Definition rays : nat := 60.

(** The four [segments] of a wall, lines 1202-1207. *)
Definition wallSegments (wall : Wall) : list (Vector2 * Vector2) :=
  let x0 := Wall.x wall in
  let y0 := Wall.y wall in
  let x1 := Wall.x wall + Wall.width wall in
  let y1 := Wall.y wall + Wall.height wall in
  [ (Vector2.mk x0 y0, Vector2.mk x1 y0);
    (Vector2.mk x1 y0, Vector2.mk x1 y1);
    (Vector2.mk x1 y1, Vector2.mk x0 y1);
    (Vector2.mk x0 y1, Vector2.mk x0 y0) ].

(** The body of the loop over the segments, lines 1209-1213, on the pair
    [(closest, minT)]. *)
Definition raySegmentStep (source rayEnd : Vector2)
  (acc : option Intersection.t * R) (seg : Vector2 * Vector2)
  : option Intersection.t * R :=
  match getIntersection source rayEnd (fst seg) (snd seg) with
  | Some intersection =>
      if Intersection.param intersection <? snd acc
      then (Some intersection, Intersection.param intersection)
      else acc
  | None => acc
  end.

(** The body of the loop over the walls, lines 1199-1214. *)
Definition rayWallStep (source rayEnd : Vector2)
  (acc : option Intersection.t * R) (wall : Wall) : option Intersection.t * R :=
  if Wall.low wall then acc
  else fold_left (raySegmentStep source rayEnd) (wallSegments wall) acc.

(** [(closest, minT)] after every wall, lines 1196-1214. *)
Definition nearestHit (source rayEnd : Vector2) (walls : list Wall)
  : option Intersection.t * R :=
  fold_left (rayWallStep source rayEnd) walls (None, 1).

(** The vertex [p] of line 1216. *)
Definition castRay (source rayEnd : Vector2) (walls : list Wall) : Vector2 :=
  match fst (nearestHit source rayEnd walls) with
  | Some closest => Vector2.mk (Intersection.x closest) (Intersection.y closest)
  | None => rayEnd
  end.

(** [rayEnd] of the [i]-th ray, lines 1189-1194. *)
Definition rayEndAt (source : Vector2) (lightAngle : R) (i : nat) : Vector2 :=
  let startAngle := lightAngle - fov / 2 in
  let angleStep := fov / INR rays in
  let theta := startAngle + INR i * angleStep in
  Vector2.mk (Vector2.x source + cos theta * beamLength)
             (Vector2.y source + sin theta * beamLength).

(** The vertices the loop of lines 1188-1217 passes to [lineTo], in
    order, for [i] from 0 to [rays] inclusive. *)
Definition flashlightPolygon (source : Vector2) (lightAngle : R) (walls : list Wall)
  : list Vector2 :=
  map (fun i => castRay source (rayEndAt source lightAngle i) walls) (seq 0 (S rays)).

(** ** Vocabulary of the statements *)

(** The closest point of a wall rectangle to a point, as the kernel
    computes it. *)
Definition closestPoint (wall : Wall) (p : Vector2) : Vector2 :=
  Vector2.mk (closestX wall (Vector2.x p)) (closestY wall (Vector2.y p)).

(** The cross product of the ray and segment directions: the
    [denominator] of [getIntersection]. *)
Definition cross (rayStart rayEnd segmentStart segmentEnd : Vector2) : R :=
  (Vector2.x rayEnd - Vector2.x rayStart) * (Vector2.y segmentEnd - Vector2.y segmentStart)
  - (Vector2.y rayEnd - Vector2.y rayStart) * (Vector2.x segmentEnd - Vector2.x segmentStart).

(** The point of parameter [t] on the line from [a] to [b]. *)
Definition pointAt (a b : Vector2) (t : R) : Vector2 :=
  Vector2.mk (Vector2.x a + t * (Vector2.x b - Vector2.x a))
             (Vector2.y a + t * (Vector2.y b - Vector2.y a)).

(** The entity's centre is exactly the decoration's centre. *)
Definition centeredOn (e : Entity) (d : Decoration) : Prop :=
  Entity.px e = Decoration.x d /\ Entity.py e = Decoration.y d.

(** The two circles do not overlap: the squared distance of the centres is
    at least the square of the sum of the radii. *)
Definition apartFrom (e : Entity) (d : Decoration) : Prop :=
  (Entity.radius e + Decoration.radius d) * (Entity.radius e + Decoration.radius d)
  <= (Entity.px e - Decoration.x d) * (Entity.px e - Decoration.x d)
     + (Entity.py e - Decoration.y d) * (Entity.py e - Decoration.y d).

(** Where the player stands when the decorations are resolved: after the
    key input and the walls (lines 631-657). *)
Definition playerArrival (input : Input.t) (s : Store) : Entity :=
  resolveWalls (Player.base (movePlayer (Input.keys input) (Store.player s)))
               (Store.walls s).

(** The [i]-th candidate (from 0) of the spawn search on a map. *)
Definition spawnCandidate (rnd : nat -> R) (mapName : string) (i : nat) : Vector2 :=
  spawnSample rnd (mapHalfWidth mapName) (mapHalfHeight mapName) (2 * i).

(** The point lies within the map half-extents minus the padding. *)
Definition withinSpawnBounds (mapName : string) (p : Vector2) : Prop :=
  - (mapHalfWidth mapName - PADDING) <= Vector2.x p <= mapHalfWidth mapName - PADDING
  /\ - (mapHalfHeight mapName - PADDING) <= Vector2.y p <= mapHalfHeight mapName - PADDING.

(** The box of half-side 20 around the point overlaps the wall. *)
Definition boxOverlaps (p : Vector2) (wall : Wall) : Prop :=
  Vector2.x p + 20 > Wall.x wall
  /\ Vector2.x p - 20 < Wall.x wall + Wall.width wall
  /\ Vector2.y p + 20 > Wall.y wall
  /\ Vector2.y p - 20 < Wall.y wall + Wall.height wall.

(** The candidate is rejected: its box overlaps some wall. *)
Definition rejected (walls : list Wall) (p : Vector2) : Prop :=
  exists wall, In wall walls /\ boxOverlaps p wall.

(** The point lies strictly inside the wall rectangle. *)
Definition strictlyInside (p : Vector2) (wall : Wall) : Prop :=
  Vector2.x p > Wall.x wall
  /\ Vector2.x p < Wall.x wall + Wall.width wall
  /\ Vector2.y p > Wall.y wall
  /\ Vector2.y p < Wall.y wall + Wall.height wall.

(** The candidate is refused: it lies strictly inside some wall. *)
Definition blocked (walls : list Wall) (p : Vector2) : Prop :=
  exists wall, In wall walls /\ strictlyInside p wall.

(** The square the health packs are drawn from. *)
Definition withinPackSquare (p : Vector2) : Prop :=
  -1200 <= Vector2.x p <= 1200 /\ -1200 <= Vector2.y p <= 1200.

(** The store after a pack was pushed at [p] at time [now]. *)
Definition withPackAt (s : Store) (now : R) (p : Vector2) : Store :=
  Store.with_lastHealthPackTime
    (Store.with_healthPacks s (Store.healthPacks s ++ [newHealthPack now p])) now.

(** The conditions under which the shooting step fires, as the code tests
    them (lines 713-715). *)
Definition canFire (props : Props.t) (input : Input.t) (s : Store) : Prop :=
  Player.hp (Store.player s) > 0
  /\ Props.gameState props = PLAYING
  /\ Input.isMouseDown input = true
  /\ Input.time input - Store.lastShotTime s > FIRE_RATE
  /\ Player.ammo (Store.player s) > 0.

(** The store after a shot at the time of [input]. *)
Definition afterShot (closure : Closure.t) (input : Input.t) (canvas : Canvas.t)
  (s : Store) : Store :=
  let player' := Player.with_ammo (Store.player s) (Player.ammo (Store.player s) - 1) in
  Store.with_lastShotTime
    (Store.with_bullets (Store.with_player s player')
       (Store.bullets s
        ++ [newBullet closure (Input.time input) (aimAngle input canvas) player']))
    (Input.time input).

(** How a step may change a player: position and velocity apart, only hp
    moves, within the given relation to the hp before. *)
Definition sameButHp (P : R -> R -> Prop) (p p' : Player) : Prop :=
  Player.maxHp p' = Player.maxHp p
  /\ Player.ammo p' = Player.ammo p
  /\ P (Player.hp p) (Player.hp p').

(** The frame runs its update logic: the game state is [PLAYING] or
    [SPECTATING] and the canvas with its 2d context is there. *)
Definition running (props : Props.t) (input : Input.t) (canvas : Canvas.t) : Prop :=
  (Props.gameState props = PLAYING \/ Props.gameState props = SPECTATING)
  /\ Input.canvas input = Some canvas
  /\ Canvas.context2d canvas = true.

(** The store at the successive points of a running frame. *)
Section Stages.
Variables (props : Props.t) (closure : Closure.t) (input : Input.t)
          (canvas : Canvas.t) (s : Store).

Definition afterPlayer : Store := fst (playerPhase props input s).
Definition afterShooting : Store := fst (shootPhase props closure input canvas afterPlayer).
Definition afterSpawning : Store := spawnPhase props closure input canvas afterShooting.
Definition afterBullets : Store := fst (bulletPhase props canvas afterSpawning).
Definition beforeCombat : Store := fst (enemyPhase closure afterBullets).
Definition afterCombat : Store := fst (combatPhase props beforeCombat).
Definition afterPickup : Store := fst (pickupPhase afterCombat).
Definition frameEnd : Store := cleanupPhase afterPickup.

Definition frameEvents : list Event :=
  snd (playerPhase props input s)
  ++ roundEndCheck props (Store.player afterPlayer)
  ++ snd (shootPhase props closure input canvas afterPlayer)
  ++ snd (bulletPhase props canvas afterSpawning)
  ++ snd (enemyPhase closure afterBullets)
  ++ snd (combatPhase props beforeCombat)
  ++ snd (pickupPhase afterCombat).
End Stages.

(** The invariants of the store. *)
Definition hpBounded (s : Store) : Prop :=
  -10 < Player.hp (Store.player s) <= Player.maxHp (Store.player s).

Definition ammoCounted (s : Store) : Prop :=
  exists n : Z, Player.ammo (Store.player s) = IZR n /\ (0 <= n <= 120)%Z.

Definition bulletsLoaded (s : Store) : Prop :=
  Forall (fun b => Bullet.damage b = 20) (Store.bullets s).

(** The bullet's circle overlaps the circle of an entity: the test of
    line 847. *)
Definition overlapsEntity (b : Bullet) (e : Entity) : Prop :=
  dist (Entity.position (Bullet.base b)) (Entity.position e)
  < Entity.radius (Bullet.base b) + Entity.radius e.

(** [b'] is what combat against the given targets makes of [b]: the same
    bullet, its damage 0 if it overlaps a target and untouched otherwise. *)
Definition fought (targets : list Entity) (b b' : Bullet) : Prop :=
  Bullet.base b' = Bullet.base b
  /\ Bullet.ownerId b' = Bullet.ownerId b
  /\ ((exists e, In e targets /\ overlapsEntity b e) -> Bullet.damage b' = 0)
  /\ ((forall e, In e targets -> ~ overlapsEntity b e) ->
      Bullet.damage b' = Bullet.damage b).



(** The bullet is in contact with a wall that is not low: the distance of
    its centre to the closest point of the wall is less than its radius. *)
Definition touchesWall (b : Bullet) (wall : Wall) : Prop :=
  Wall.low wall = false
  /\ dist (Entity.position (Bullet.base b))
          (closestPoint wall (Entity.position (Bullet.base b)))
     < Entity.radius (Bullet.base b).

(** The length of the diagonal of the viewport. *)
Definition viewportDiagonal (canvas : Canvas.t) : R :=
  sqrt (Canvas.width canvas * Canvas.width canvas
        + Canvas.height canvas * Canvas.height canvas).

(** The centre of a decoration. *)
Definition decorCentre (d : Decoration) : Vector2 :=
  Vector2.mk (Decoration.x d) (Decoration.y d).

(** The direction the movement keys ask for, on each axis: -1, 0 or 1. *)
Definition keyAxis (negative positive : bool) : R :=
  (if positive then 1 else 0) - (if negative then 1 else 0).

(** The distance from the camera focus at which enemies are spawned
    (line 528). *)
Definition spawnRadius (canvas : Canvas.t) : R :=
  Rmax (Canvas.width canvas) (Canvas.height canvas) / 2 + 100.

(** The point [spawnEnemy] tries when [k] draws were made before
    (lines 529-532). *)
Definition enemySpawnPoint (canvas : Canvas.t) (rnd : nat -> R) (k : nat)
  (playerPos : Vector2) : Vector2 :=
  Vector2.mk (Vector2.x playerPos + cos (rnd k * PI * 2) * spawnRadius canvas)
             (Vector2.y playerPos + sin (rnd k * PI * 2) * spawnRadius canvas).

(** The conditions under which [spawnEnemy] tries a point (lines 518-523). *)
Definition spawnDue (closure : Closure.t) (now : R) (s : Store) : Prop :=
  0 < Player.hp (Store.player s)
  /\ Closure.isMultiplayer closure = false
  /\ now - Store.lastSpawnTime s
     > LevelConfig.enemySpawnRate (Closure.levelConfig closure).

(** ** Vocabulary for the calls a frame makes *)

(** The steps of the update logic, in the order of [gameLoop]. *)
Inductive Step : Type :=
| Moving | RoundCheck | Shooting | BulletUpdate | EnemyUpdate | Combat | Pickup.

(** The kinds of call a step can make. *)
Definition emits (step : Step) (ev : Event) : bool :=
  match step, ev with
  | Moving, (SetHealth _ | PlayPlayerDamage | CreateParticles _ _ _ _
            | OnGameOver _ | OnPlayerUpdate _) => true
  | RoundCheck, OnRoundEnd => true
  | Shooting, (PlayShoot | SetAmmo _) => true
  | BulletUpdate, CreateParticles _ _ _ _ => true
  | EnemyUpdate, (PlayPlayerDamage | SetHealth _ | CreateParticles _ _ _ _
                 | OnGameOver _) => true
  | Combat, (PlayEnemyDeath | SetScore _ | OnKill | CreateParticles _ _ _ _) => true
  | Pickup, (SetHealth _ | CreateParticles _ _ _ _) => true
  | _, _ => false
  end.

(** The place of a step in the frame. *)
Definition stepIndex (step : Step) : nat :=
  match step with
  | Moving => 0 | RoundCheck => 1 | Shooting => 2 | BulletUpdate => 3
  | EnemyUpdate => 4 | Combat => 5 | Pickup => 6
  end.

(** Only the step [step] makes a call like [ev]. *)
Definition emittedOnlyBy (step : Step) (ev : Event) : Prop :=
  forall j, emits j ev = true -> j = step.

(** A step up to [step], or from [step] on, makes calls like [ev]. *)
Definition emittedUpTo (step : Step) (ev : Event) : Prop :=
  exists j, (stepIndex j <= stepIndex step)%nat /\ emits j ev = true.
Definition emittedFrom (step : Step) (ev : Event) : Prop :=
  exists j, (stepIndex step <= stepIndex j)%nat /\ emits j ev = true.

Definition isGameOver (ev : Event) : bool :=
  match ev with OnGameOver _ => true | _ => false end.
Definition isRoundEnd (ev : Event) : bool :=
  match ev with OnRoundEnd => true | _ => false end.
Definition isEnemyDeath (ev : Event) : bool :=
  match ev with PlayEnemyDeath => true | _ => false end.
Definition isSetScore (ev : Event) : bool :=
  match ev with SetScore _ => true | _ => false end.

(** The calls of [onGameOver] among the calls made, in order. *)
Definition gameOvers (evs : list Event) : list Event := filter isGameOver evs.

(** The number of calls of [soundService.playEnemyDeath]. *)
Definition kills (evs : list Event) : nat := List.length (filter isEnemyDeath evs).

(** The number of remote players with hp left, line 694. *)
Definition aliveRemotes (props : Props.t) : nat :=
  List.length (filter (fun p => RemotePlayer.hp p >? 0) (Props.remotes props)).

(** The number of players counted alive by the round end check of a frame:
    the remote ones and the local one after its movement step. *)
Definition totalAlive (props : Props.t) (input : Input.t) (s : Store) : nat :=
  (aliveRemotes props
   + (if Player.hp (Store.player (afterPlayer props input s)) >? 0 then 1 else 0))%nat.

(** The player's circle overlaps the pack's: the test of line 869. *)
Definition touchesPack (player : Player) (pack : HealthPack) : bool :=
  dist (Entity.position (Player.base player)) (Entity.position (HealthPack.base pack))
  <? Entity.radius (Player.base player) + Entity.radius (HealthPack.base pack).

(** The calls made for a pack that is picked up, lines 872-873. *)
Definition pickupEvents (player : Player) (pack : HealthPack) : list Event :=
  if touchesPack player pack
  then [SetHealth (Player.maxHp player);
        CreateParticles (Entity.px (HealthPack.base pack))
                        (Entity.py (HealthPack.base pack)) "#22c55e" 10]
  else [].

(** Every enemy of the store is as [spawnEnemy] makes them. *)
Definition enemiesStandard (s : Store) : Prop :=
  Forall (fun e => Enemy.hp e = 1 /\ Enemy.value e = 10) (Store.enemies s).

(** An enemy that is as spawned, or already dead. *)
Definition spawnedOrDead (e : Enemy) : Prop :=
  Enemy.value e = 10 /\ (Enemy.hp e = 1 \/ Enemy.hp e <= 0).

(** ** Vocabulary for the generated maps *)

(** Every wall of the array carries its index as id. *)
Definition idsByIndex (walls : list Wall) : Prop :=
  forall n w, nth_error walls n = Some w -> Wall.id w = wallId n.

(** The array [obs] was pushed, wall by wall, on the array [base], each
    wall being [ok] for the array it was pushed on. *)
Inductive grown (ok : list Wall -> Wall -> Prop) : list Wall -> list Wall -> Prop :=
| grown_nil : forall base, grown ok base []
| grown_cons : forall base w rest,
    ok base w -> grown ok (base ++ [w]) rest -> grown ok base (w :: rest).

(** Between the wall [w] and the wall [earlier] there is, along one axis,
    a free strip of at least 80 (to the right of or below [earlier]) or of
    more than 30 (to the left of or above it).  The player's circle has the
    diameter 30. *)
Definition clearOf (earlier w : Wall) : Prop :=
  Wall.x earlier + Wall.width earlier + 80 <= Wall.x w
  \/ Wall.x w + Wall.width w + 30 < Wall.x earlier
  \/ Wall.y earlier + Wall.height earlier + 80 <= Wall.y w
  \/ Wall.y w + Wall.height w + 30 < Wall.y earlier.

(** A random obstacle of the Erindale layout: a bush or a solid block. *)
Definition erindaleObstacle (w : Wall) : Prop :=
  -1100 <= Wall.x w <= 1100 /\ -1100 <= Wall.y w <= 1100
  /\ 350 <= sqrt (Wall.x w * Wall.x w + Wall.y w * Wall.y w)
  /\ (if Wall.low w
      then 60 <= Wall.width w < 120 /\ 40 <= Wall.height w < 80
      else 80 <= Wall.width w < 130 /\ 80 <= Wall.height w < 130).

Definition erindalePlaced (base : list Wall) (w : Wall) : Prop :=
  Wall.id w = wallId (List.length base)
  /\ erindaleObstacle w
  /\ forall earlier, In earlier base -> clearOf earlier w.

(** A crate of the Wasteland layout. *)
Definition wastelandCrate (w : Wall) : Prop :=
  -600 <= Wall.x w <= 600 /\ -900 <= Wall.y w <= 900
  /\ (50 <= Rabs (Wall.x w) \/ 50 <= Rabs (Wall.y w))
  /\ Wall.width w = 35 /\ Wall.height w = 35 /\ Wall.low w = false.

(** The top-left corners of the two walls are at least 50 apart along
    one axis. *)
Definition cornersApart (earlier w : Wall) : Prop :=
  50 <= Rabs (Wall.x earlier - Wall.x w) \/ 50 <= Rabs (Wall.y earlier - Wall.y w).

Definition wastelandPlaced (base : list Wall) (w : Wall) : Prop :=
  Wall.id w = wallId (List.length base)
  /\ wastelandCrate w
  /\ forall earlier, In earlier base -> cornersApart earlier w.

(** A cactus of the Wasteland map. *)
Definition wastelandCactus (d : Decoration) : Prop :=
  -700 <= Decoration.x d <= 700 /\ -900 <= Decoration.y d <= 900
  /\ (350 <= Rabs (Decoration.x d) \/ 350 <= Rabs (Decoration.y d))
  /\ Decoration.radius d = 15
  /\ 0.8 <= Decoration.scale d < 1.3
  /\ 0 <= Decoration.rotation d < 2 * PI.

(** The segments a ray is tested against: those of the walls that are
    not low, in the order of the two loops. *)
Definition solidSegments (walls : list Wall) : list (Vector2 * Vector2) :=
  flat_map (fun wall => if Wall.low wall then [] else wallSegments wall) walls.

(** The hit [i] of the ray on one of the solid segments. *)
Definition rayHit (source rayEnd : Vector2) (walls : list Wall) (i : Intersection.t)
  : Prop :=
  exists seg, In seg (solidSegments walls)
              /\ getIntersection source rayEnd (fst seg) (snd seg) = Some i.

(** The bullet was fired at time [t]: its id is [`bullet-${t}`]. *)
Definition firedAt (b : Bullet) (t : R) : Prop :=
  Entity.id (Bullet.base b) = BulletId t.

(** The bullets are in the order they were fired in, none later than
    [last], and more than the fire rate apart. *)
Fixpoint inFiringOrder (bullets : list Bullet) (last : R) : Prop :=
  match bullets with
  | [] => True
  | b :: rest =>
      (exists t, firedAt b t /\ t <= last
                 /\ Forall (fun b' => forall t', firedAt b' t' -> t + FIRE_RATE < t') rest)
      /\ inFiringOrder rest last
  end.

(** Two entities that differ at most in their position. *)
Definition movedOnly (e e' : Entity) : Prop :=
  Entity.id e' = Entity.id e
  /\ Entity.velocity e' = Entity.velocity e
  /\ Entity.radius e' = Entity.radius e
  /\ Entity.color e' = Entity.color e.

(** What the enemy step makes of an enemy when the player is dead: the
    enemy keeps its velocity, moves by it and is pushed out of the walls
    and the decorations. *)
Definition driftEnemy (walls : list Wall) (decorations : list Decoration) (e : Enemy)
  : Enemy :=
  Enemy.with_base e
    (pushByDecorations (resolveWalls (integrate (Enemy.base e)) walls) decorations).

(** The calls a frame can still make for a dead player. *)
Definition afterDeathCall (ev : Event) : bool :=
  emits RoundCheck ev || emits BulletUpdate ev || emits Combat ev.

(** A health pack as [spawnHealthPack] places it among the given walls:
    its centre is strictly inside none of them, it has the radius 15 and
    is active. *)
Definition packPlaced (walls : list Wall) (pack : HealthPack) : Prop :=
  (forall wall, In wall walls ->
     ~ strictlyInside (Entity.position (HealthPack.base pack)) wall)
  /\ Entity.radius (HealthPack.base pack) = 15
  /\ Entity.velocity (HealthPack.base pack) = Vector2.mk 0 0
  /\ HealthPack.active pack = true.

Definition packsPlaced (s : Store) : Prop :=
  Forall (packPlaced (Store.walls s)) (Store.healthPacks s).

(** ** Concrete inputs used by the examples *)

Module Sample.

(** The scenario of the specification: a circle of radius 15 left of the
    wall [x:10, y:10, w:20, h:20], 5 away from its left edge. *)
Definition wall : Wall := Wall.mk "w-0" 10 10 20 20 None.
Definition entityNear : Entity :=
  Entity.mk PlayerId (Vector2.mk 5 20) (Vector2.mk 0 0) 15 "#fff".
Definition entityFar : Entity :=
  Entity.mk PlayerId (Vector2.mk (-10) 20) (Vector2.mk 0 0) 15 "#fff".

(** An entity whose radius is negative, 3 away from the wall. *)
Definition entityNegative : Entity :=
  Entity.mk PlayerId (Vector2.mk 7 20) (Vector2.mk 0 0) (-5) "#fff".

(** A ray along the x axis and a vertical segment crossing it at (1, 0). *)
Definition rayFrom : Vector2 := Vector2.mk 0 0.
Definition rayTo : Vector2 := Vector2.mk 2 0.
Definition rayAway : Vector2 := Vector2.mk (-2) 0.
Definition segFrom : Vector2 := Vector2.mk 1 (-1).
Definition segTo : Vector2 := Vector2.mk 1 1.

(** A single-player match in progress (Wasteland), no key held, the mouse
    up, a 800 by 600 canvas, every draw of [Math.random] being 1/2. *)
Definition config : LevelConfig :=
  LevelConfig.mk "Wasteland" "Survive" "#ef4444" 2 1000 "#3b82f6" 4 "#fbbf24" "#111827".
Definition closure : Closure.t := Closure.mk config false "Wasteland" "P1".
Definition props : Props.t := Props.mk PLAYING true true true true None None.
Definition canvas : Canvas.t := Canvas.mk 800 600 true.
Definition idle (time : R) : Input.t :=
  Input.mk time (fun _ => false) (Vector2.mk 0 0) false (Some canvas) (fun _ => 1 / 2).

(** The player stands exactly on a cactus. *)
Definition cactus : Decoration := Decoration.mk "cactus-0" 0 0 CACTUS 1 0 15.
Definition storeOnCactus : Store :=
  Store.mk (freshPlayer closure (Vector2.mk 0 0)) [] [] [] [] [cactus] 0 0 0 0 0 0.

(** The first wall of the Erindale layout (its top boundary, line 197),
    and draws that all land inside it, at (-1199, -1199). *)
Definition topBoundary : Wall := Wall.mk "w-0" (-1200) (-1200) 2400 50 (Some false).
Definition lowDraws : nat -> R := fun _ => 1 / 2400.
Definition storeWithBoundary : Store :=
  Store.mk (freshPlayer closure (Vector2.mk 0 0)) [] [] [topBoundary] [] [] 0 0 0 0 0 0.

(** The mouse held, at a given time, on a fresh store whose last shot was
    at time 0. *)
Definition firing (time : R) : Input.t :=
  Input.mk time (fun _ => false) (Vector2.mk 500 300) true (Some canvas) (fun _ => 1 / 2).
Definition storeFresh : Store := mountStore closure.

(** Twenty seconds into a match: a wounded player at rest (8 hp left of
    100: one cactus contact, at 5000 ms, and nine enemy hits), a cactus far
    away, and one enemy, spawned at 19500 ms, walking towards the player
    from 20 away. *)
Definition walker : Enemy :=
  Enemy.mk (Entity.mk (EnemyId 19500) (Vector2.mk 20 0) (Vector2.mk 0 0) 12 "#ef4444")
           1 2 10.
Definition woundedPlayer : Player :=
  Player.mk (Entity.mk PlayerId (Vector2.mk 0 0) (Vector2.mk 0 0) 15 "#3b82f6")
            8 100 4 (Some "P1") 120.
Definition farCactus : Decoration := Decoration.mk "cactus-3" 300 400 CACTUS 1 0 15.
Definition storeWounded : Store :=
  Store.mk woundedPlayer [walker] [] [] [] [farCactus] 0 19500 0 19990 5000 0.

(** A bullet that the integration brings 1300 away from the camera at the
    origin, on the 800 by 600 canvas (diagonal 1000). *)
Definition farBullet : Bullet :=
  Bullet.mk (Entity.mk (BulletId 0) (Vector2.mk 1288 0) (Vector2.mk 12 0) 4 "#fbbf24")
            20 (Some PlayerId).


(** An entity of radius 15 overlapping a cactus of radius 15 whose centre
    is 18 to its right, and one 40 away from it. *)
Definition cactusRight : Decoration := Decoration.mk "cactus-1" 23 20 CACTUS 1 0 15.
Definition cactusAway : Decoration := Decoration.mk "cactus-2" 45 20 CACTUS 1 0 15.

(** Key states: only "d" held, and "w" with "d" held. *)
Definition keysRight : string -> bool := fun k => String.eqb k "d".
Definition keysUpRight : string -> bool :=
  fun k => String.eqb k "d" || String.eqb k "w".

(** A remote player that is dead, and the props of a match against it. *)
Definition rival : RemotePlayer :=
  RemotePlayer.mk "P2" (Vector2.mk 300 0) (Vector2.mk 0 0) "#a855f7" (Some "P2") 0 0.
Definition propsLastStanding : Props.t :=
  Props.mk PLAYING true true true true (Some [rival]) None.

(** The wounded player after the walker's hit, and its store. *)
Definition fallenPlayer : Player := Player.with_hp woundedPlayer (8 - 10).
Definition storeFallen : Store :=
  Store.mk fallenPlayer [] [] [] [] [farCactus] 0 19500 0 19990 5000 0.

(** A match on an open field.  The player at the origin with a given
    number of rounds left, and a bullet fired to the right at a given
    time, now at a given abscissa. *)
Definition shotAt (time x : R) : Bullet :=
  Bullet.mk (Entity.mk (BulletId time) (Vector2.mk x 0) (Vector2.mk 12 0) 4 "#fbbf24")
            20 (Some PlayerId).
Definition shooter (ammo : R) : Player :=
  Player.mk (Entity.mk PlayerId (Vector2.mk 0 0) (Vector2.mk 0 0) 15 "#3b82f6")
            100 100 4 (Some "P1") ammo.

(** The stores after a first shot at 600 ms and a second at 1200 ms, and a
    multiplayer match, in which no enemy spawns. *)
Definition storeOneShot : Store :=
  Store.mk (shooter 119) [] [shotAt 600 37] [] [] [] 0 0 0 600 0 600.
Definition closureTeam : Closure.t := Closure.mk config true "Wasteland" "P1".
Definition storeTwoShots : Store :=
  Store.mk (shooter 118) [] [shotAt 600 49; shotAt 1200 37] [] [] [] 0 0 0 1200 0 1200.

(** A level whose enemies, with every draw at 0, spawn 500 to the right of
    the player and move 440 per frame; the mouse held to the right of the
    player; the enemy spawned at 2000 ms; and the store after that frame. *)
Definition configCharge : LevelConfig :=
  LevelConfig.mk "Wasteland" "Survive" "#ef4444" 550 1000 "#3b82f6" 4 "#fbbf24" "#111827".
Definition closureCharge : Closure.t := Closure.mk configCharge false "Wasteland" "P1".
Definition charging (time : R) : Input.t :=
  Input.mk time (fun _ => false) (Vector2.mk 500 300) true (Some canvas) (fun _ => 0).
Definition charger (x hp : R) : Enemy :=
  Enemy.mk (Entity.mk (EnemyId 2000) (Vector2.mk x 0) (Vector2.mk (-440) 0) 12 "#ef4444")
           hp 440 10.
Definition storeAfterCharge : Store :=
  Store.mk (shooter 117) [] [shotAt 2000 37] [] [] [] 20 2000 0 2000 0 2000.

(** The same with enemies that move 450 per frame, the store after a
    restart, and the store after the frame at 4000 ms. *)
Definition configRush : LevelConfig :=
  LevelConfig.mk "Wasteland" "Survive" "#ef4444" 562.5 1000 "#3b82f6" 4 "#fbbf24" "#111827".
Definition closureRush : Closure.t := Closure.mk configRush false "Wasteland" "P1".
Definition storeRestarted : Store :=
  Store.mk (shooter 120) [] [] [] [] [] 20 2000 0 2000 0 2000.
Definition storeAfterRush : Store :=
  Store.mk (shooter 119) [] [] [] [] [] 30 4000 0 4000 0 4000.

(** The player on the centre of a cactus, with a second cactus 18 to the
    right, and the player the second cactus has pushed away. *)
Definition cactusEast : Decoration := Decoration.mk "cactus-1" 18 0 CACTUS 1 0 15.
Definition storeGarden : Store :=
  Store.mk (freshPlayer closureTeam (Vector2.mk 0 0)) [] [] [] []
           [cactus; cactusEast] 0 0 0 0 0 0.
Definition gardener (hp : R) : Player :=
  Player.mk (Entity.mk PlayerId (Vector2.mk (-12) 0) (Vector2.mk 0 0) 15 "#3b82f6")
            hp 100 4 (Some "P1") 120.


(** Draws whose first candidate for a health pack lands inside the top
    boundary, at (-1199, -1199), and whose second lands at (600, 0). *)
Definition packDraws : nat -> R :=
  fun n => match n with
           | 0%nat | 1%nat => 1 / 2400
           | 2%nat => 3 / 4
           | _ => 1 / 2
           end.
Definition scouting (time : R) : Input.t :=
  Input.mk time (fun _ => false) (Vector2.mk 0 0) false (Some canvas) packDraws.
Definition storeWithPack : Store :=
  Store.mk (freshPlayer closure (Vector2.mk 0 0)) [] [] [topBoundary]
           [newHealthPack 30001 (Vector2.mk 600 0)] [] 0 0 30001 30001 0 0.

(** Draws whose first candidate for a cactus is the centre of the arena
    and whose later candidates are all the corner (-700, -900). *)
Definition centreFirst : nat -> R :=
  fun n => match n with 0%nat | 1%nat => 1 / 2 | _ => 0 end.
Definition cornerCactus (i : nat) : Decoration :=
  Decoration.mk (Wasteland.cactusId i) (-700) (-900) CACTUS 0.8 0 15.

(** A solid block and a hedge (a low wall) on the line of fire, and four
    bullets in flight: the integration brings the oldest 1300 away from
    the camera at the origin, the second into the hedge, the third to 2
    from the block, and leaves the last in the open. *)
Definition pillar : Wall := Wall.mk "w-0" 100 (-10) 20 20 (Some false).
Definition hedge : Wall := Wall.mk "w-1" 200 (-10) 20 20 (Some true).
Definition storeRange : Store :=
  Store.mk (shooter 116) []
           [farBullet; shotAt 600 190; shotAt 1200 86; shotAt 1800 25]
           [pillar; hedge] [] [] 0 0 0 1800 0 1800.

(** A bullet of negative radius that the integration brings to 3 from the
    block. *)
Definition ghostBullet : Bullet :=
  Bullet.mk (Entity.mk (BulletId 0) (Vector2.mk 85 0) (Vector2.mk 12 0) (-4) "#fbbf24")
            20 (Some PlayerId).

End Sample.

(** * Properties *)

(** ** Comparisons *)

Section NumFacts.
Variables a b : R.

Lemma ltb_true_iff : (a <? b) = true <-> a < b.
Proof. unfold Num.ltb; destruct (Rlt_dec a b); split; intros; try easy; lra. Qed.

Lemma ltb_false_iff : (a <? b) = false <-> b <= a.
Proof. unfold Num.ltb; destruct (Rlt_dec a b); split; intros; try easy; lra. Qed.

Lemma leb_true_iff : (a <=? b) = true <-> a <= b.
Proof. unfold Num.leb; destruct (Rle_dec a b); split; intros; try easy; lra. Qed.

Lemma leb_false_iff : (a <=? b) = false <-> b < a.
Proof. unfold Num.leb; destruct (Rle_dec a b); split; intros; try easy; lra. Qed.

Lemma gtb_true_iff : (a >? b) = true <-> b < a.
Proof. unfold Num.gtb; destruct (Rlt_dec b a) as [H|H];
  unfold Num.ltb; destruct (Rlt_dec b a); split; intros; try easy; lra. Qed.

Lemma gtb_false_iff : (a >? b) = false <-> a <= b.
Proof. unfold Num.gtb, Num.ltb; destruct (Rlt_dec b a); split; intros; try easy; lra. Qed.

Lemma geb_true_iff : (a >=? b) = true <-> b <= a.
Proof. unfold Num.geb, Num.leb; destruct (Rle_dec b a); split; intros; try easy; lra. Qed.

Lemma geb_false_iff : (a >=? b) = false <-> a < b.
Proof. unfold Num.geb, Num.leb; destruct (Rle_dec b a); split; intros; try easy; lra. Qed.

Lemma eqb_true_iff : (a =? b) = true <-> a = b.
Proof. unfold Num.eqb; destruct (Req_dec_T a b); split; intros; try easy. Qed.

Lemma eqb_false_iff : (a =? b) = false <-> a <> b.
Proof. unfold Num.eqb; destruct (Req_dec_T a b); split; intros; try easy. Qed.

End NumFacts.

(** Turn every boolean comparison in sight into its proposition. *)
Ltac num_prop :=
  repeat match goal with
  | H : (_ && _) = true |- _ => apply andb_true_iff in H; destruct H
  | H : (_ && _) = false |- _ => apply andb_false_iff in H
  | H : (_ || _) = true |- _ => apply orb_true_iff in H
  | H : (_ || _) = false |- _ => apply orb_false_iff in H; destruct H
  | H : negb _ = true |- _ => apply negb_true_iff in H
  | H : negb _ = false |- _ => apply negb_false_iff in H
  | H : (_ <? _) = true |- _ => apply ltb_true_iff in H
  | H : (_ <? _) = false |- _ => apply ltb_false_iff in H
  | H : (_ <=? _) = true |- _ => apply leb_true_iff in H
  | H : (_ <=? _) = false |- _ => apply leb_false_iff in H
  | H : (_ >? _) = true |- _ => apply gtb_true_iff in H
  | H : (_ >? _) = false |- _ => apply gtb_false_iff in H
  | H : (_ >=? _) = true |- _ => apply geb_true_iff in H
  | H : (_ >=? _) = false |- _ => apply geb_false_iff in H
  | H : (_ =? _) = true |- _ => apply eqb_true_iff in H
  | H : (_ =? _) = false |- _ => apply eqb_false_iff in H
  end.

(** Decide a comparison between closed or linear terms and rewrite with it. *)
Ltac num_eval :=
  repeat first
  [ rewrite (proj2 (ltb_true_iff _ _)) by lra
  | rewrite (proj2 (ltb_false_iff _ _)) by lra
  | rewrite (proj2 (leb_true_iff _ _)) by lra
  | rewrite (proj2 (leb_false_iff _ _)) by lra
  | rewrite (proj2 (gtb_true_iff _ _)) by lra
  | rewrite (proj2 (gtb_false_iff _ _)) by lra
  | rewrite (proj2 (geb_true_iff _ _)) by lra
  | rewrite (proj2 (geb_false_iff _ _)) by lra
  | rewrite (proj2 (eqb_true_iff _ _)) by lra
  | rewrite (proj2 (eqb_false_iff _ _)) by lra ].

(** ** Geometry kernel *)

Lemma sum_sq_nonneg (u v : R) : 0 <= u * u + v * v.
Proof. nra. Qed.

Lemma sqrt_sum_sq_sq (u v : R) :
  sqrt (u * u + v * v) * sqrt (u * u + v * v) = u * u + v * v.
Proof. apply sqrt_sqrt, sum_sq_nonneg. Qed.

(** Pushing a coordinate further away from its clamp keeps the clamp. *)
Lemma clamp_push (a b p k : R) :
  0 <= k ->
  Rmax a (Rmin (p + k * (p - Rmax a (Rmin p b))) b) = Rmax a (Rmin p b).
Proof.
  intros Hk.
  unfold Rmax, Rmin.
  destruct (Rle_dec p b); destruct (Rle_dec a p); destruct (Rle_dec a b);
    repeat match goal with
    | |- context [Rle_dec ?u ?v] => destruct (Rle_dec u v)
    | H : context [Rle_dec ?u ?v] |- _ => destruct (Rle_dec u v)
    end; try lra; try nra.
Qed.

Lemma sqrt_of_square (v w : R) : 0 <= w -> v = w * w -> sqrt v = w.
Proof. intros Hw ->. apply sqrt_square, Hw. Qed.

Lemma sqrt_pos_arg (v : R) : 0 < sqrt v -> 0 < v.
Proof.
  intros H. destruct (Rle_dec v 0) as [Hle|Hgt]; [|lra].
  rewrite (sqrt_neg_0 v Hle) in H. lra.
Qed.

Lemma sqrt_lt_sq (v r : R) : 0 <= v -> sqrt v < r -> v < r * r.
Proof.
  intros Hv H. pose proof (sqrt_pos v) as Hp. pose proof (sqrt_sqrt v Hv) as Hs. nra.
Qed.

Lemma sqrt_ge_sq (v r : R) : 0 <= v -> 0 <= r -> r <= sqrt v -> r * r <= v.
Proof.
  intros Hv Hr H. pose proof (sqrt_sqrt v Hv) as Hs. nra.
Qed.

Lemma sq_lt_sqrt (v r : R) : 0 <= v -> 0 <= r -> v < r * r -> sqrt v < r.
Proof.
  intros Hv Hr H. pose proof (sqrt_pos v) as Hp. pose proof (sqrt_sqrt v Hv) as Hs. nra.
Qed.

(** The collision test of [resolveWallCollision] in terms of the distance. *)
Lemma wall_test_true (u v r : R) :
  0 < sqrt (u * u + v * v) < r ->
  ((u * u + v * v <? r * r) && (u * u + v * v >? 0)) = true.
Proof.
  intros [H0 H1]. apply andb_true_iff; split.
  - apply ltb_true_iff, sqrt_lt_sq; [apply sum_sq_nonneg | exact H1].
  - apply gtb_true_iff, sqrt_pos_arg, H0.
Qed.

Lemma wall_test_false (u v r : R) :
  0 <= r ->
  sqrt (u * u + v * v) = 0 \/ r <= sqrt (u * u + v * v) ->
  ((u * u + v * v <? r * r) && (u * u + v * v >? 0)) = false.
Proof.
  intros Hr [H|H]; apply andb_false_iff.
  - right. apply gtb_false_iff.
    rewrite (sqrt_eq_0 _ (sum_sq_nonneg u v) H). lra.
  - left. apply ltb_false_iff, sqrt_ge_sq; [apply sum_sq_nonneg | exact Hr | exact H].
Qed.

(** The pushed point lies at distance [r] of the point it is pushed from. *)
Lemma pushed_distance (u v r : R) :
  0 < sqrt (u * u + v * v) -> 0 <= r ->
  let d := sqrt (u * u + v * v) in
  sqrt ((u + u / d * (r - d)) * (u + u / d * (r - d))
        + (v + v / d * (r - d)) * (v + v / d * (r - d))) = r.
Proof.
  intros Hd Hr d. apply sqrt_of_square; [exact Hr|].
  pose proof (sqrt_sum_sq_sq u v) as Hs. fold d in Hs, Hd.
  assert (Hne : d <> 0) by lra.
  replace (u + u / d * (r - d)) with (u * (r / d)) by (field; exact Hne).
  replace (v + v / d * (r - d)) with (v * (r / d)) by (field; exact Hne).
  replace (u * (r / d) * (u * (r / d)) + v * (r / d) * (v * (r / d)))
    with ((u * u + v * v) * (r * r) / (d * d)) by (field; exact Hne).
  rewrite <- Hs. field. exact Hne.
Qed.

(** C2 (amended).  With [c] the closest point of the wall to the entity's
    centre and [d] the distance to it: when [0 < d < radius] the entity is
    moved along the outward normal [(centre - c) / d] by exactly
    [radius - d], the closest point stays [c], and the distance to the
    closest point is afterwards exactly the radius; when the radius is not
    negative and [d] is 0 or at least the radius, the entity is returned
    unchanged; velocity, radius, id and color are never changed (the wall is
    only read: the function returns no wall). *)
Theorem resolveWallCollision_spec (entity : Entity) (wall : Wall) :
  let c := closestPoint wall (Entity.position entity) in
  let d := dist (Entity.position entity) c in
  let r := Entity.radius entity in
  let entity' := resolveWallCollision entity wall in
  (0 < d < r ->
     Entity.px entity'
       = Entity.px entity + (Entity.px entity - Vector2.x c) / d * (r - d)
     /\ Entity.py entity'
       = Entity.py entity + (Entity.py entity - Vector2.y c) / d * (r - d)
     /\ closestPoint wall (Entity.position entity') = c
     /\ dist (Entity.position entity') (closestPoint wall (Entity.position entity')) = r)
  /\ (0 <= r -> d = 0 \/ r <= d -> entity' = entity)
  /\ Entity.velocity entity' = Entity.velocity entity
  /\ Entity.radius entity' = Entity.radius entity
  /\ Entity.id entity' = Entity.id entity
  /\ Entity.color entity' = Entity.color entity.
Proof.
  intros c d r entity'. subst c d r entity'.
  destruct entity as [eid [px py] vel rad col].
  unfold resolveWallCollision, closestPoint, dist, Entity.px, Entity.py.
  cbn [Entity.position Entity.radius Entity.velocity Entity.id Entity.color
       Vector2.x Vector2.y].
  set (u := px - closestX wall px).
  set (v := py - closestY wall py).
  split; [|split].
  - intros Hd.
    rewrite (wall_test_true u v rad Hd). destruct Hd as [Hd0 Hd1].
    cbn [Entity.with_position Entity.position Entity.radius Vector2.x Vector2.y].
    assert (Hk : 0 <= (rad - sqrt (u * u + v * v)) / sqrt (u * u + v * v)).
    { apply Rmult_le_pos; [lra|]. left. apply Rinv_0_lt_compat. lra. }
    assert (HcX : closestX wall (px + u / sqrt (u * u + v * v) * (rad - sqrt (u * u + v * v)))
                  = closestX wall px).
    { replace (u / sqrt (u * u + v * v) * (rad - sqrt (u * u + v * v)))
        with ((rad - sqrt (u * u + v * v)) / sqrt (u * u + v * v) * u)
        by (field; lra).
      unfold u, closestX. apply clamp_push, Hk. }
    assert (HcY : closestY wall (py + v / sqrt (u * u + v * v) * (rad - sqrt (u * u + v * v)))
                  = closestY wall py).
    { replace (v / sqrt (u * u + v * v) * (rad - sqrt (u * u + v * v)))
        with ((rad - sqrt (u * u + v * v)) / sqrt (u * u + v * v) * v)
        by (field; lra).
      unfold v, closestY. apply clamp_push, Hk. }
    repeat split; try reflexivity.
    + rewrite HcX, HcY. reflexivity.
    + rewrite HcX, HcY.
      replace (px + u / sqrt (u * u + v * v) * (rad - sqrt (u * u + v * v)) - closestX wall px)
        with (u + u / sqrt (u * u + v * v) * (rad - sqrt (u * u + v * v)))
        by (unfold u; ring).
      replace (py + v / sqrt (u * u + v * v) * (rad - sqrt (u * u + v * v)) - closestY wall py)
        with (v + v / sqrt (u * u + v * v) * (rad - sqrt (u * u + v * v)))
        by (unfold v; ring).
      apply pushed_distance; lra.
  - intros Hr Hd. rewrite (wall_test_false u v rad Hr Hd). reflexivity.
  - destruct ((u * u + v * v <? rad * rad) && (u * u + v * v >? 0)); auto.
Qed.

(** Evaluate [Math.max] and [Math.min] on ordered arguments. *)
Ltac minmax_eval :=
  repeat first
  [ rewrite Rmin_left by lra
  | rewrite Rmin_right by lra
  | rewrite Rmax_left by lra
  | rewrite Rmax_right by lra ].

Lemma sample_near_closest :
  closestPoint Sample.wall (Entity.position Sample.entityNear) = Vector2.mk 10 20.
Proof.
  unfold closestPoint, closestX, closestY, Sample.wall, Sample.entityNear.
  cbn. minmax_eval. reflexivity.
Qed.

Lemma sample_near_dist :
  dist (Entity.position Sample.entityNear)
       (closestPoint Sample.wall (Entity.position Sample.entityNear)) = 5.
Proof.
  rewrite sample_near_closest. unfold dist, Sample.entityNear. cbn.
  apply sqrt_of_square; lra.
Qed.

Lemma sample_far_dist :
  dist (Entity.position Sample.entityFar)
       (closestPoint Sample.wall (Entity.position Sample.entityFar)) = 20.
Proof.
  unfold closestPoint, closestX, closestY, dist, Sample.wall, Sample.entityFar.
  cbn. minmax_eval. apply sqrt_of_square; lra.
Qed.

(** The scenario of the specification: the circle ends at distance 15 of
    the wall; a circle 20 away is returned as it is. *)
Lemma resolveWallCollision_spec_witness :
  dist (Entity.position (resolveWallCollision Sample.entityNear Sample.wall))
       (closestPoint Sample.wall
          (Entity.position (resolveWallCollision Sample.entityNear Sample.wall)))
    = Entity.radius Sample.entityNear
  /\ resolveWallCollision Sample.entityFar Sample.wall = Sample.entityFar.
Proof.
  split.
  - apply (resolveWallCollision_spec Sample.entityNear Sample.wall).
    rewrite sample_near_dist. cbn. lra.
  - apply (resolveWallCollision_spec Sample.entityFar Sample.wall).
    + cbn. lra.
    + right. rewrite sample_far_dist. cbn. lra.
Defined.

(** C2 as stated fails for a negative radius: the distance 3 is at least
    the radius -5, yet the entity is moved (from x = 7 to x = 15, into the
    wall). *)
Lemma resolveWallCollision_negative_radius :
  dist (Entity.position Sample.entityNegative)
       (closestPoint Sample.wall (Entity.position Sample.entityNegative)) = 3
  /\ Entity.radius Sample.entityNegative
     <= dist (Entity.position Sample.entityNegative)
             (closestPoint Sample.wall (Entity.position Sample.entityNegative))
  /\ Entity.position (resolveWallCollision Sample.entityNegative Sample.wall)
     = Vector2.mk 15 20
  /\ resolveWallCollision Sample.entityNegative Sample.wall <> Sample.entityNegative.
Proof.
  assert (Hd : dist (Entity.position Sample.entityNegative)
       (closestPoint Sample.wall (Entity.position Sample.entityNegative)) = 3).
  { unfold closestPoint, closestX, closestY, dist, Sample.wall, Sample.entityNegative.
    cbn. minmax_eval. apply sqrt_of_square; lra. }
  assert (Hp : Entity.position (resolveWallCollision Sample.entityNegative Sample.wall)
     = Vector2.mk 15 20).
  { unfold resolveWallCollision, closestX, closestY, Entity.px, Entity.py,
      Sample.wall, Sample.entityNegative.
    cbn. minmax_eval.
    replace ((7 - 10) * (7 - 10) + (20 - 20) * (20 - 20)) with (3 * 3) by lra.
    rewrite sqrt_square by lra. num_eval. cbn. f_equal; field. }
  rewrite Hd. repeat split; [cbn; lra | exact Hp |].
  intros Heq. rewrite Heq in Hp. discriminate Hp || (inversion Hp; lra).
Qed.

(** *** Ray against segment *)

Section RaySegment.
Variables rayStart rayEnd segmentStart segmentEnd : Vector2.

Local Abbreviation den := (cross rayStart rayEnd segmentStart segmentEnd).
Local Abbreviation t := (ray_t rayStart rayEnd segmentStart segmentEnd).
Local Abbreviation u := (seg_u rayStart rayEnd segmentStart segmentEnd).

(** When the directions are not parallel the computed parameters meet. *)
Lemma parameters_meet :
  den <> 0 -> pointAt rayStart rayEnd t = pointAt segmentStart segmentEnd u.
Proof.
  unfold cross, ray_t, seg_u, pointAt. intros Hden.
  destruct rayStart, rayEnd, segmentStart, segmentEnd; cbn in *.
  f_equal; field; exact Hden.
Qed.

(** ... and they are the only parameters at which the two lines meet. *)
Lemma parameters_unique (t' u' : R) :
  den <> 0 ->
  pointAt rayStart rayEnd t' = pointAt segmentStart segmentEnd u' ->
  t' = t /\ u' = u.
Proof.
  unfold cross, ray_t, seg_u, pointAt. intros Hden Heq.
  destruct rayStart as [ax ay], rayEnd as [bx by_], segmentStart as [cx cy],
    segmentEnd as [dx dy]; cbn in *.
  injection Heq as Hx Hy.
  assert (Hcx : cx - ax = t' * (bx - ax) - u' * (dx - cx)) by lra.
  assert (Hcy : cy - ay = t' * (by_ - ay) - u' * (dy - cy)) by lra.
  rewrite Hcx, Hcy. split; field; exact Hden.
Qed.

Lemma zero_length_magnitude (a b : Vector2) :
  a = b ->
  sqrt ((Vector2.x b - Vector2.x a) * (Vector2.x b - Vector2.x a)
        + (Vector2.y b - Vector2.y a) * (Vector2.y b - Vector2.y a)) = 0.
Proof.
  intros ->. apply sqrt_of_square; lra.
Qed.

(** The three ways [getIntersection] returns [null]. *)
Lemma getIntersection_parallel :
  den = 0 -> getIntersection rayStart rayEnd segmentStart segmentEnd = None.
Proof.
  unfold cross, getIntersection. intros Hden.
  destruct (_ =? 0); [reflexivity|].
  rewrite (proj2 (eqb_true_iff _ _) Hden). reflexivity.
Qed.

Lemma getIntersection_degenerate :
  rayStart = rayEnd \/ segmentStart = segmentEnd ->
  getIntersection rayStart rayEnd segmentStart segmentEnd = None.
Proof.
  unfold getIntersection. intros H.
  match goal with
  | |- (if ?m =? 0 then _ else _) = _ =>
      assert (Hm : m = 0); [| rewrite (proj2 (eqb_true_iff _ _) Hm); reflexivity]
  end.
  destruct H as [H|H]; rewrite (zero_length_magnitude _ _ H); ring.
Qed.

Lemma getIntersection_behind :
  t <= 0 -> getIntersection rayStart rayEnd segmentStart segmentEnd = None.
Proof.
  unfold getIntersection. intros Ht.
  destruct (_ =? 0); [reflexivity|].
  destruct (_ =? 0); [reflexivity|].
  rewrite (proj2 (gtb_false_iff _ _) Ht). reflexivity.
Qed.

Lemma getIntersection_some (i : Intersection.t) :
  getIntersection rayStart rayEnd segmentStart segmentEnd = Some i ->
  den <> 0 /\ rayStart <> rayEnd /\ segmentStart <> segmentEnd
  /\ Intersection.param i = t /\ 0 < t <= 1 /\ 0 <= u <= 1
  /\ Vector2.mk (Intersection.x i) (Intersection.y i) = pointAt rayStart rayEnd t.
Proof.
  intros H.
  assert (Hr : rayStart <> rayEnd).
  { intros E. rewrite getIntersection_degenerate in H by (left; exact E). discriminate. }
  assert (Hs : segmentStart <> segmentEnd).
  { intros E. rewrite getIntersection_degenerate in H by (right; exact E). discriminate. }
  assert (Hd : den <> 0).
  { intros E. rewrite getIntersection_parallel in H by exact E. discriminate. }
  unfold getIntersection in H.
  destruct (_ =? 0); [discriminate|].
  destruct (_ =? 0); [discriminate|].
  destruct ((t >? 0) && (t <=? 1) && (u >=? 0) && (u <=? 1)) eqn:Hc; [|discriminate].
  injection H as <-. num_prop. cbn. unfold pointAt.
  repeat split; auto; lra.
Qed.

End RaySegment.

(** C3.  A hit is returned only when the ray parameter [t] satisfies
    [0 < t <= 1] and the segment parameter [u] satisfies [0 <= u <= 1]; the
    returned point is [rayStart + t (rayEnd - rayStart)] (which is also
    [segmentStart + u (segmentEnd - segmentStart)]) and the returned
    parameter is [t].  No intersection is returned when the cross product
    of the directions is zero, when the ray or the segment has zero length,
    and when [t <= 0], for the [t] the code computes as for any parameters
    at which the two lines meet. *)
Theorem getIntersection_spec (rayStart rayEnd segmentStart segmentEnd : Vector2) :
  let t := ray_t rayStart rayEnd segmentStart segmentEnd in
  let u := seg_u rayStart rayEnd segmentStart segmentEnd in
  let result := getIntersection rayStart rayEnd segmentStart segmentEnd in
  (forall i, result = Some i ->
     0 < t <= 1 /\ 0 <= u <= 1
     /\ Intersection.param i = t
     /\ Vector2.mk (Intersection.x i) (Intersection.y i) = pointAt rayStart rayEnd t
     /\ Vector2.mk (Intersection.x i) (Intersection.y i) = pointAt segmentStart segmentEnd u)
  /\ (cross rayStart rayEnd segmentStart segmentEnd = 0 -> result = None)
  /\ (rayStart = rayEnd \/ segmentStart = segmentEnd -> result = None)
  /\ (t <= 0 -> result = None)
  /\ (forall t' u', pointAt rayStart rayEnd t' = pointAt segmentStart segmentEnd u' ->
        t' <= 0 -> result = None).
Proof.
  intros t u result. subst t u result.
  split; [|split; [|split; [|split]]].
  - intros i H. apply getIntersection_some in H.
    destruct H as (Hd & _ & _ & Hp & Ht & Hu & Hxy).
    repeat split; try tauto.
    rewrite Hxy. apply parameters_meet, Hd.
  - apply getIntersection_parallel.
  - apply getIntersection_degenerate.
  - apply getIntersection_behind.
  - intros t' u' Hmeet Ht'.
    destruct (Req_dec_T (cross rayStart rayEnd segmentStart segmentEnd) 0) as [Hz|Hnz].
    + apply getIntersection_parallel, Hz.
    + apply getIntersection_behind.
      destruct (parameters_unique _ _ _ _ t' u' Hnz Hmeet) as [<- _]. exact Ht'.
Qed.

Lemma sample_ray_hit :
  getIntersection Sample.rayFrom Sample.rayTo Sample.segFrom Sample.segTo
  = Some (Intersection.mk 1 0 (1 / 2)).
Proof.
  unfold getIntersection, ray_t, seg_u, Sample.rayFrom, Sample.rayTo,
    Sample.segFrom, Sample.segTo.
  cbn.
  replace ((2 - 0) * (2 - 0) + (0 - 0) * (0 - 0)) with (2 * 2) by lra.
  replace ((1 - 1) * (1 - 1) + (1 - -1) * (1 - -1)) with (2 * 2) by lra.
  rewrite sqrt_square by lra.
  replace (((1 - 0) * (1 - -1) - (-1 - 0) * (1 - 1))
           / ((2 - 0) * (1 - -1) - (0 - 0) * (1 - 1))) with (1 / 2) by (field; lra).
  replace (((1 - 0) * (0 - 0) - (-1 - 0) * (2 - 0))
           / ((2 - 0) * (1 - -1) - (0 - 0) * (1 - 1))) with (1 / 2) by (field; lra).
  num_eval. cbn. do 2 f_equal; lra.
Qed.

Lemma sample_ray_away_t :
  ray_t Sample.rayFrom Sample.rayAway Sample.segFrom Sample.segTo = - (1 / 2).
Proof.
  unfold ray_t, Sample.rayFrom, Sample.rayAway, Sample.segFrom, Sample.segTo.
  cbn. field.
Qed.

(** The ray from (0,0) to (2,0) hits the segment from (1,-1) to (1,1) at
    half its length; the ray from (0,0) to (-2,0) does not hit it. *)
Lemma getIntersection_spec_witness :
  0 < ray_t Sample.rayFrom Sample.rayTo Sample.segFrom Sample.segTo <= 1
  /\ getIntersection Sample.rayFrom Sample.rayAway Sample.segFrom Sample.segTo = None
  /\ getIntersection Sample.rayFrom Sample.rayFrom Sample.segFrom Sample.segTo = None.
Proof.
  split; [|split].
  - destruct (getIntersection_spec Sample.rayFrom Sample.rayTo Sample.segFrom Sample.segTo)
      as [Hhit _].
    apply (Hhit _ sample_ray_hit).
  - destruct (getIntersection_spec Sample.rayFrom Sample.rayAway Sample.segFrom Sample.segTo)
      as (_ & _ & _ & Hbehind & _).
    apply Hbehind. rewrite sample_ray_away_t. lra.
  - destruct (getIntersection_spec Sample.rayFrom Sample.rayFrom Sample.segFrom Sample.segTo)
      as (_ & _ & Hzero & _).
    apply Hzero. left. reflexivity.
Defined.

(** *** Circle against circle *)

Lemma resolveDecorationCollision_centered (entity : Entity) (decor : Decoration) :
  centeredOn entity decor -> resolveDecorationCollision entity decor = (entity, false).
Proof.
  intros [Hx Hy]. unfold resolveDecorationCollision. rewrite Hx, Hy.
  replace ((Decoration.x decor - Decoration.x decor) * (Decoration.x decor - Decoration.x decor)
           + (Decoration.y decor - Decoration.y decor) * (Decoration.y decor - Decoration.y decor))
    with 0 by ring.
  rewrite (proj2 (gtb_false_iff 0 0)) by lra.
  rewrite andb_false_r. reflexivity.
Qed.

Lemma resolveDecorationCollision_apart (entity : Entity) (decor : Decoration) :
  apartFrom entity decor -> resolveDecorationCollision entity decor = (entity, false).
Proof.
  unfold apartFrom, resolveDecorationCollision. intros H.
  rewrite (proj2 (ltb_false_iff _ _) H). reflexivity.
Qed.

Lemma resolveDecorations_untouched (decorations : list Decoration) (entity : Entity) :
  (forall d, In d decorations -> centeredOn entity d \/ apartFrom entity d) ->
  resolveDecorations entity decorations = (entity, false).
Proof.
  unfold resolveDecorations. induction decorations as [|d ds IH]; intros H.
  - reflexivity.
  - cbn [fold_left]. unfold resolveDecorationStep at 2.
    assert (Hd : resolveDecorationCollision entity d = (entity, false)).
    { destruct (H d (or_introl eq_refl)).
      - apply resolveDecorationCollision_centered; assumption.
      - apply resolveDecorationCollision_apart; assumption. }
    rewrite Hd. apply IH. intros d' Hin. apply H. right. exact Hin.
Qed.

Lemma cactusDamage_no_hit (time lastCactusDamageTime : R) (player : Player) :
  cactusDamage time lastCactusDamageTime false player = (player, lastCactusDamageTime, []).
Proof. reflexivity. Qed.

(** C9 (amended).  When the centres coincide, [resolveDecorationCollision]
    returns false and the entity as it was.  Consequently, in the player
    step, if after the key input and the walls the player stands exactly
    on the centre of a cactus, any other decoration being coincident too
    or not overlapping, no collision is registered: the player stays
    where it arrived, hp and the cactus timer are unchanged, and the step
    makes no call but, possibly, the position update. *)
Theorem centered_decoration_no_collision :
  (forall entity decor,
     centeredOn entity decor ->
     resolveDecorationCollision entity decor = (entity, false))
  /\ (forall props input s,
        (forall d, In d (Store.decorations s) ->
           centeredOn (playerArrival input s) d \/ apartFrom (playerArrival input s) d) ->
        resolveDecorations (playerArrival input s) (Store.decorations s)
          = (playerArrival input s, false)
        /\ Player.hp (Store.player (fst (playerPhase props input s)))
           = Player.hp (Store.player s)
        /\ Store.lastCactusDamageTime (fst (playerPhase props input s))
           = Store.lastCactusDamageTime s
        /\ (Player.hp (Store.player s) > 0 -> Props.gameState props = PLAYING ->
            Player.base (Store.player (fst (playerPhase props input s)))
            = playerArrival input s)
        /\ (forall ev, In ev (snd (playerPhase props input s)) ->
            exists p, ev = OnPlayerUpdate p)).
Proof.
  split; [exact resolveDecorationCollision_centered|].
  intros props input s H.
  pose proof (resolveDecorations_untouched _ _ H) as Hres.
  split; [exact Hres|].
  unfold playerPhase. unfold playerArrival in Hres.
  destruct ((Player.hp (Store.player s) >? 0)
            && GameState_eqb (Props.gameState props) PLAYING) eqn:Hrun.
  - rewrite Hres. rewrite cactusDamage_no_hit.
    destruct (Props.onPlayerUpdate props && _); cbn.
    + repeat split; auto. intros ev [Hin|[]]. eexists. symmetry. exact Hin.
    + repeat split; auto. intros ev [].
  - cbn. repeat split; auto.
    + intros Hhp Hst. rewrite Hst in Hrun. cbn in Hrun.
      rewrite andb_true_r in Hrun. num_prop. lra.
    + intros ev [].
Qed.

Lemma sqrt_zero_sq : sqrt (0 * 0 + 0 * 0) = 0.
Proof. apply sqrt_of_square; lra. Qed.

(** With no movement key held the player keeps its place and stops. *)
Lemma movePlayer_idle (keys : string -> bool) (player : Player) :
  keys "w" = false -> keys "s" = false -> keys "a" = false -> keys "d" = false ->
  Player.base (movePlayer keys player)
  = Entity.mk (Entity.id (Player.base player))
      (Vector2.mk (Entity.px (Player.base player) + 0) (Entity.py (Player.base player) + 0))
      (Vector2.mk 0 0)
      (Entity.radius (Player.base player))
      (Entity.color (Player.base player)).
Proof.
  intros Hw Hs Ha Hd. unfold movePlayer. rewrite Hw, Hs, Ha, Hd.
  rewrite sqrt_zero_sq. rewrite (proj2 (gtb_false_iff 0 0)) by lra.
  reflexivity.
Qed.

Lemma sample_arrival_on_cactus :
  centeredOn (playerArrival (Sample.idle 2000) Sample.storeOnCactus) Sample.cactus.
Proof.
  unfold playerArrival, Sample.storeOnCactus, Sample.idle.
  cbn [Store.walls Store.player Input.keys resolveWalls fold_left].
  rewrite movePlayer_idle by reflexivity.
  unfold centeredOn, Entity.px, Entity.py. cbn. split; lra.
Qed.

(** A player standing on the centre of the only cactus, two seconds after
    the last cactus damage, keeps its 100 hp through the player step. *)
Lemma centered_decoration_no_collision_witness :
  resolveDecorationCollision
    (Player.base (Store.player Sample.storeOnCactus)) Sample.cactus
  = (Player.base (Store.player Sample.storeOnCactus), false)
  /\ Player.hp (Store.player
        (fst (playerPhase Sample.props (Sample.idle 2000) Sample.storeOnCactus))) = 100.
Proof.
  destruct centered_decoration_no_collision as [Hfun Hphase].
  split.
  - apply Hfun. split; reflexivity.
  - destruct (Hphase Sample.props (Sample.idle 2000) Sample.storeOnCactus) as (_ & Hhp & _).
    + intros d [<-|[]]. left. exact sample_arrival_on_cactus.
    + rewrite Hhp. reflexivity.
Defined.

(** ** Safe spawn search *)

Lemma spawnBoxOverlaps_iff (p : Vector2) (wall : Wall) :
  spawnBoxOverlaps (Vector2.x p) (Vector2.y p) wall = true <-> boxOverlaps p wall.
Proof.
  unfold spawnBoxOverlaps, boxOverlaps, spawnPlayerRadius.
  rewrite !andb_true_iff, !gtb_true_iff, !ltb_true_iff.
  intuition lra.
Qed.

Lemma spawnSafe_true_iff (walls : list Wall) (p : Vector2) :
  spawnSafe walls (Vector2.x p) (Vector2.y p) = true
  <-> forall wall, In wall walls -> ~ boxOverlaps p wall.
Proof.
  unfold spawnSafe. rewrite negb_true_iff. split.
  - intros H wall Hin Hov.
    assert (Hex : existsb (spawnBoxOverlaps (Vector2.x p) (Vector2.y p)) walls = true).
    { apply existsb_exists. exists wall. split; [exact Hin|].
      apply spawnBoxOverlaps_iff, Hov. }
    congruence.
  - intros H. apply not_true_is_false. intros Hex.
    apply existsb_exists in Hex. destruct Hex as (wall & Hin & Hov).
    apply (H wall Hin). apply spawnBoxOverlaps_iff, Hov.
Qed.

Lemma spawnSafe_false_iff (walls : list Wall) (p : Vector2) :
  spawnSafe walls (Vector2.x p) (Vector2.y p) = false <-> rejected walls p.
Proof.
  unfold spawnSafe, rejected. rewrite negb_false_iff, existsb_exists.
  split; intros (wall & Hin & H); exists wall; (split; [exact Hin|]);
    apply spawnBoxOverlaps_iff, H.
Qed.

(** The loop, from any number [k] of earlier draws: it stops at the first
    accepted candidate, or runs out of iterations and returns the origin. *)
Lemma spawnLoop_spec (rnd : nat -> R) (walls : list Wall) (mapW mapH : R) (fuel k : nat) :
  let p := fst (spawnLoop fuel rnd walls mapW mapH k) in
  let calls := snd (spawnLoop fuel rnd walls mapW mapH k) in
  (exists i, (i < fuel)%nat
     /\ calls = (k + 2 * (i + 1))%nat
     /\ p = spawnSample rnd mapW mapH (k + 2 * i)
     /\ (forall wall, In wall walls -> ~ boxOverlaps p wall)
     /\ (forall j, (j < i)%nat -> rejected walls (spawnSample rnd mapW mapH (k + 2 * j))))
  \/ (p = Vector2.mk 0 0
      /\ calls = (k + 2 * fuel)%nat
      /\ (forall j, (j < fuel)%nat -> rejected walls (spawnSample rnd mapW mapH (k + 2 * j)))).
Proof.
  revert k. induction fuel as [|fuel IH]; intros k; cbn [spawnLoop].
  - right. cbn. repeat split; [lia | intros j Hj; lia].
  - set (c := spawnSample rnd mapW mapH k).
    destruct (spawnSafe walls (Vector2.x c) (Vector2.y c)) eqn:Hsafe.
    + left. exists 0%nat. cbn [fst snd].
      replace (k + 2 * 0)%nat with k by lia.
      repeat split; [lia | lia | apply spawnSafe_true_iff, Hsafe | intros j Hj; lia].
    + apply spawnSafe_false_iff in Hsafe.
      destruct (IH (S (S k))) as [(i & Hi & Hc & Hp & Hclear & Hrej) | (Hp & Hc & Hrej)].
      * left. exists (S i).
        replace (k + 2 * S i)%nat with (S (S k) + 2 * i)%nat by lia.
        repeat split; [lia | lia | exact Hp | exact Hclear |].
        intros [|j] Hj.
        -- replace (k + 2 * 0)%nat with k by lia. exact Hsafe.
        -- replace (k + 2 * S j)%nat with (S (S k) + 2 * j)%nat by lia.
           apply Hrej. lia.
      * right. repeat split; [exact Hp | lia |].
        intros [|j] Hj.
        -- replace (k + 2 * 0)%nat with k by lia. exact Hsafe.
        -- replace (k + 2 * S j)%nat with (S (S k) + 2 * j)%nat by lia.
           apply Hrej. lia.
Qed.

(** A draw in [0, 1) scaled to a half-extent stays within it. *)
Lemma scaled_draw_bounds (r half : R) :
  Num.unit_interval r -> 0 <= half -> - half <= (r * 2 - 1) * half <= half.
Proof. unfold Num.unit_interval. intros [H0 H1] Hh. split; nra. Qed.

Lemma spawnSample_within (rnd : nat -> R) (mapName : string) (k : nat) :
  (forall n, Num.unit_interval (rnd n)) ->
  withinSpawnBounds mapName
    (spawnSample rnd (mapHalfWidth mapName) (mapHalfHeight mapName) k).
Proof.
  intros Hrnd. unfold withinSpawnBounds, spawnSample. cbn [Vector2.x Vector2.y].
  split; apply scaled_draw_bounds; try apply Hrnd;
    unfold mapHalfWidth, mapHalfHeight, PADDING;
    destruct (String.eqb mapName "Wasteland"); lra.
Qed.

(** C6.  The search draws at most 50 candidates (two calls of
    [Math.random] each).  It returns the first candidate whose box of
    half-side 20 overlaps no wall, every earlier candidate having been
    rejected, and that candidate lies within the half-extents minus the
    padding on each axis; or, all 50 candidates having been rejected, the
    origin, which is not checked.  With no wall the first candidate is
    returned after two draws, and it lies within those bounds. *)
Theorem findSafeSpawnPosition_spec (rnd : nat -> R) (walls : list Wall) (mapName : string) :
  (forall n, Num.unit_interval (rnd n)) ->
  let p := fst (findSafeSpawnPosition rnd walls mapName) in
  let calls := snd (findSafeSpawnPosition rnd walls mapName) in
  (calls <= 2 * 50)%nat
  /\ ((exists i, (i < 50)%nat
         /\ calls = (2 * (i + 1))%nat
         /\ p = spawnCandidate rnd mapName i
         /\ (forall wall, In wall walls -> ~ boxOverlaps p wall)
         /\ (forall j, (j < i)%nat -> rejected walls (spawnCandidate rnd mapName j))
         /\ withinSpawnBounds mapName p)
      \/ (p = Vector2.mk 0 0
          /\ calls = (2 * 50)%nat
          /\ (forall j, (j < 50)%nat -> rejected walls (spawnCandidate rnd mapName j))))
  /\ (walls = [] ->
      p = spawnCandidate rnd mapName 0 /\ calls = 2%nat /\ withinSpawnBounds mapName p).
Proof.
  intros Hrnd p calls. subst p calls. unfold findSafeSpawnPosition, spawnCandidate.
  pose proof (spawnLoop_spec rnd walls (mapHalfWidth mapName) (mapHalfHeight mapName)
                MAX_ATTEMPTS 0) as Hloop.
  cbv zeta in Hloop. unfold MAX_ATTEMPTS in *. cbn [Nat.add] in Hloop.
  split; [|split].
  - destruct Hloop as [(i & Hi & Hc & _) | (_ & Hc & _)]; lia.
  - destruct Hloop as [(i & Hi & Hc & Hp & Hclear & Hrej) | (Hp & Hc & Hrej)].
    + left. exists i.
      split; [exact Hi|]. split; [exact Hc|]. split; [exact Hp|].
      split; [exact Hclear|]. split; [exact Hrej|].
      rewrite Hp. apply spawnSample_within, Hrnd.
    + right. split; [exact Hp|]. split; [exact Hc|]. exact Hrej.
  - intros ->. cbn. repeat split; apply scaled_draw_bounds; try apply Hrnd;
      unfold mapHalfWidth, mapHalfHeight, PADDING;
      destruct (String.eqb mapName "Wasteland"); lra.
Qed.

(** ** Health pack spawner *)

Lemma insideWall_iff (p : Vector2) (wall : Wall) :
  insideWall (Vector2.x p) (Vector2.y p) wall = true <-> strictlyInside p wall.
Proof.
  unfold insideWall, strictlyInside.
  rewrite !andb_true_iff, !gtb_true_iff, !ltb_true_iff.
  intuition lra.
Qed.

Lemma inWall_true_iff (walls : list Wall) (p : Vector2) :
  inWall walls (Vector2.x p) (Vector2.y p) = true <-> blocked walls p.
Proof.
  unfold inWall, blocked. rewrite existsb_exists.
  split; intros (wall & Hin & H); exists wall; (split; [exact Hin|]);
    apply insideWall_iff, H.
Qed.

Lemma inWall_false_iff (walls : list Wall) (p : Vector2) :
  inWall walls (Vector2.x p) (Vector2.y p) = false
  <-> forall wall, In wall walls -> ~ strictlyInside p wall.
Proof.
  split.
  - intros H wall Hin Hs.
    assert (Hb : inWall walls (Vector2.x p) (Vector2.y p) = true).
    { apply inWall_true_iff. exists wall. split; assumption. }
    congruence.
  - intros H. apply not_true_is_false. intros Hb.
    apply inWall_true_iff in Hb. destruct Hb as (wall & Hin & Hs).
    exact (H wall Hin Hs).
Qed.

(** The loop of the spawner, from any number [k] of earlier draws. *)
Lemma healthPackLoop_spec (rnd : nat -> R) (now : R) (s : Store) (fuel k : nat) :
  (exists i, (i < fuel)%nat
     /\ healthPackLoop fuel rnd now s k
        = (withPackAt s now (healthPackSample rnd (k + 2 * i)), (k + 2 * (i + 1))%nat)
     /\ (forall wall, In wall (Store.walls s) ->
           ~ strictlyInside (healthPackSample rnd (k + 2 * i)) wall)
     /\ (forall j, (j < i)%nat ->
           blocked (Store.walls s) (healthPackSample rnd (k + 2 * j))))
  \/ (healthPackLoop fuel rnd now s k = (s, (k + 2 * fuel)%nat)
      /\ (forall j, (j < fuel)%nat ->
            blocked (Store.walls s) (healthPackSample rnd (k + 2 * j)))).
Proof.
  revert k. induction fuel as [|fuel IH]; intros k; cbn [healthPackLoop].
  - right. split; [f_equal; lia | intros j Hj; lia].
  - set (c := healthPackSample rnd k).
    destruct (inWall (Store.walls s) (Vector2.x c) (Vector2.y c)) eqn:Hin; cbn [negb].
    + apply inWall_true_iff in Hin.
      destruct (IH (S (S k))) as [(i & Hi & Heq & Hclear & Hrej) | (Heq & Hrej)].
      * left. exists (S i).
        replace (k + 2 * S i)%nat with (S (S k) + 2 * i)%nat by lia.
        replace (k + 2 * (S i + 1))%nat with (S (S k) + 2 * (i + 1))%nat by lia.
        repeat split; [lia | exact Heq | exact Hclear |].
        intros [|j] Hj.
        -- replace (k + 2 * 0)%nat with k by lia. exact Hin.
        -- replace (k + 2 * S j)%nat with (S (S k) + 2 * j)%nat by lia.
           apply Hrej. lia.
      * right. split.
        -- rewrite Heq. f_equal. lia.
        -- intros [|j] Hj.
           ++ replace (k + 2 * 0)%nat with k by lia. exact Hin.
           ++ replace (k + 2 * S j)%nat with (S (S k) + 2 * j)%nat by lia.
              apply Hrej. lia.
    + left. exists 0%nat.
      replace (k + 2 * 0)%nat with k by lia.
      repeat split; [lia | unfold withPackAt; f_equal; lia
                    | apply inWall_false_iff, Hin | intros j Hj; lia].
Qed.

Lemma healthPackSample_within (rnd : nat -> R) (k : nat) :
  (forall n, Num.unit_interval (rnd n)) -> withinPackSquare (healthPackSample rnd k).
Proof.
  intros Hrnd. unfold withinPackSquare, healthPackSample, healthPackMapSize.
  cbn [Vector2.x Vector2.y].
  split; apply scaled_draw_bounds; try apply Hrnd; lra.
Qed.

(** C10 (amended).  One call of the spawner (there is one per frame of
    active play) makes no draw unless more than 30000 ms passed since the
    last pack was spawned; otherwise it tries at most 10 candidates, each
    drawn from the square [-1200, 1200] on both axes whatever the map, and
    pushes a pack at the first one that is not strictly inside any wall,
    setting the timer to [now].  When all 10 candidates are refused the
    store, and so the timer, stays as it was. *)
Theorem spawnHealthPack_spec (rnd : nat -> R) (now : R) (s : Store) (k : nat) :
  (forall n, Num.unit_interval (rnd n)) ->
  let s' := fst (spawnHealthPack rnd now s k) in
  let calls := snd (spawnHealthPack rnd now s k) in
  (k <= calls <= k + 2 * 10)%nat
  /\ (now - Store.lastHealthPackTime s <= HEALTH_PACK_INTERVAL -> s' = s /\ calls = k)
  /\ (now - Store.lastHealthPackTime s > HEALTH_PACK_INTERVAL ->
      (exists i, (i < 10)%nat
         /\ calls = (k + 2 * (i + 1))%nat
         /\ s' = withPackAt s now (healthPackSample rnd (k + 2 * i))
         /\ withinPackSquare (healthPackSample rnd (k + 2 * i))
         /\ (forall wall, In wall (Store.walls s) ->
               ~ strictlyInside (healthPackSample rnd (k + 2 * i)) wall)
         /\ (forall j, (j < i)%nat ->
               blocked (Store.walls s) (healthPackSample rnd (k + 2 * j))))
      \/ (s' = s
          /\ calls = (k + 2 * 10)%nat
          /\ (forall j, (j < 10)%nat ->
                blocked (Store.walls s) (healthPackSample rnd (k + 2 * j))))).
Proof.
  intros Hrnd s' calls. subst s' calls. unfold spawnHealthPack.
  destruct ((now - Store.lastHealthPackTime s) >? HEALTH_PACK_INTERVAL) eqn:Hdue;
    num_prop.
  - destruct (healthPackLoop_spec rnd now s 10 k)
      as [(i & Hi & Heq & Hclear & Hrej) | (Heq & Hrej)]; rewrite Heq; cbn [fst snd].
    + split; [lia|]. split; [intros; lra|]. intros _. left. exists i.
      repeat split; try assumption; apply healthPackSample_within, Hrnd.
    + split; [lia|]. split; [intros; lra|]. intros _. right.
      repeat split; assumption.
  - cbn [fst snd]. split; [lia|]. split; [auto|]. intros; lra.
Qed.

Lemma half_is_draw : forall n : nat, Num.unit_interval ((fun _ => 1 / 2) n).
Proof. intros n. unfold Num.unit_interval. lra. Qed.

Lemma low_is_draw : forall n : nat, Num.unit_interval (Sample.lowDraws n).
Proof. intros n. unfold Num.unit_interval, Sample.lowDraws. lra. Qed.

(** On a map without walls, with draws of 1/2, the search returns its
    first candidate after two draws. *)
Lemma findSafeSpawnPosition_spec_witness :
  fst (findSafeSpawnPosition (fun _ => 1 / 2) [] "Wasteland")
  = spawnCandidate (fun _ => 1 / 2) "Wasteland" 0
  /\ snd (findSafeSpawnPosition (fun _ => 1 / 2) [] "Wasteland") = 2%nat.
Proof.
  destruct (findSafeSpawnPosition_spec (fun _ => 1 / 2) [] "Wasteland" half_is_draw)
    as (_ & _ & Hempty).
  destruct (Hempty eq_refl) as (Hp & Hc & _).
  split; assumption.
Defined.

(** Before the interval has passed the spawner leaves the store alone; a
    call never makes more than 20 draws. *)
Lemma spawnHealthPack_spec_witness :
  fst (spawnHealthPack Sample.lowDraws 100 Sample.storeWithBoundary 0)
  = Sample.storeWithBoundary
  /\ (snd (spawnHealthPack Sample.lowDraws 30001 Sample.storeWithBoundary 0) <= 20)%nat.
Proof.
  split.
  - destruct (spawnHealthPack_spec Sample.lowDraws 100 Sample.storeWithBoundary 0 low_is_draw)
      as (_ & Hearly & _).
    apply Hearly. unfold HEALTH_PACK_INTERVAL. cbn. lra.
  - destruct (spawnHealthPack_spec Sample.lowDraws 30001 Sample.storeWithBoundary 0 low_is_draw)
      as (Hcalls & _).
    lia.
Defined.

Lemma healthPackLoop_all_blocked (rnd : nat -> R) (now : R) (s : Store) (fuel k : nat) :
  (forall n, inWall (Store.walls s) (Vector2.x (healthPackSample rnd n))
                    (Vector2.y (healthPackSample rnd n)) = true) ->
  healthPackLoop fuel rnd now s k = (s, (k + 2 * fuel)%nat).
Proof.
  intros Hall. revert k. induction fuel as [|fuel IH]; intros k; cbn [healthPackLoop].
  - f_equal. lia.
  - rewrite Hall. cbn [negb]. rewrite IH. f_equal. lia.
Qed.

Lemma sample_low_blocked (n : nat) :
  inWall (Store.walls Sample.storeWithBoundary)
         (Vector2.x (healthPackSample Sample.lowDraws n))
         (Vector2.y (healthPackSample Sample.lowDraws n)) = true.
Proof.
  unfold inWall, insideWall, healthPackSample, healthPackMapSize, Sample.lowDraws.
  cbn. num_eval. reflexivity.
Qed.

(** C10 as stated fails: on the Erindale top boundary wall, when every
    candidate lands inside the wall, the frame at 30001 ms makes 10 attempts
    (20 draws) and leaves the timer alone, and the frame at 30002 ms makes
    10 more: 20 attempts within one interval of 30000 ms. *)
Lemma spawnHealthPack_retries_next_frame :
  spawnHealthPack Sample.lowDraws 30001 Sample.storeWithBoundary 0
  = (Sample.storeWithBoundary, 20%nat)
  /\ spawnHealthPack Sample.lowDraws 30002 Sample.storeWithBoundary 20
     = (Sample.storeWithBoundary, 40%nat).
Proof.
  unfold spawnHealthPack, HEALTH_PACK_INTERVAL.
  cbn [Store.lastHealthPackTime Sample.storeWithBoundary].
  num_eval.
  rewrite !(healthPackLoop_all_blocked _ _ _ _ _ sample_low_blocked).
  split; reflexivity.
Qed.

(** ** Shooting *)

Lemma GameState_eqb_eq (a b : GameState) : GameState_eqb a b = true <-> a = b.
Proof. destruct a, b; cbn; split; intros H; try reflexivity; discriminate. Qed.

Lemma shootPhase_fires (props : Props.t) (closure : Closure.t) (input : Input.t)
  (canvas : Canvas.t) (s : Store) :
  canFire props input s ->
  shootPhase props closure input canvas s
  = (afterShot closure input canvas s,
     [PlayShoot]
     ++ (if Props.setAmmo props
         then [SetAmmo (Player.ammo (Store.player s) - 1)] else [])).
Proof.
  intros (Hhp & Hst & Hmouse & Htime & Hammo). unfold shootPhase, afterShot.
  rewrite (proj2 (gtb_true_iff _ _) Hhp), Hst, Hmouse.
  rewrite (proj2 (gtb_true_iff _ _) Htime), (proj2 (gtb_true_iff _ _) Hammo).
  reflexivity.
Qed.

Lemma shootPhase_holds (props : Props.t) (closure : Closure.t) (input : Input.t)
  (canvas : Canvas.t) (s : Store) :
  ~ canFire props input s -> shootPhase props closure input canvas s = (s, []).
Proof.
  intros Hno. unfold shootPhase.
  destruct (Player.hp (Store.player s) >? 0) eqn:Hhp; [|reflexivity].
  destruct (GameState_eqb (Props.gameState props) PLAYING) eqn:Hst; [|reflexivity].
  destruct (Input.isMouseDown input) eqn:Hmouse; [|reflexivity].
  destruct ((Input.time input - Store.lastShotTime s) >? FIRE_RATE) eqn:Htime; [|reflexivity].
  destruct (Player.ammo (Store.player s) >? 0) eqn:Hammo; [|reflexivity].
  exfalso. apply Hno. apply GameState_eqb_eq in Hst. num_prop.
  repeat split; auto.
Qed.

Lemma canFire_dec (props : Props.t) (input : Input.t) (s : Store) :
  canFire props input s \/ ~ canFire props input s.
Proof.
  unfold canFire.
  destruct (Rlt_dec 0 (Player.hp (Store.player s))); [|right; intros H; lra].
  destruct (GameState_eqb (Props.gameState props) PLAYING) eqn:Hst.
  2:{ right. intros (_ & H & _). apply GameState_eqb_eq in H. congruence. }
  apply GameState_eqb_eq in Hst.
  destruct (Input.isMouseDown input); [|right; intros (_ & _ & H & _); discriminate].
  destruct (Rlt_dec FIRE_RATE (Input.time input - Store.lastShotTime s));
    [|right; intros H; lra].
  destruct (Rlt_dec 0 (Player.ammo (Store.player s))); [|right; intros H; lra].
  left. repeat split; auto.
Qed.

(** Whatever the step does, a count of rounds stays a count of rounds. *)
Lemma shootPhase_ammo_count (props : Props.t) (closure : Closure.t) (input : Input.t)
  (canvas : Canvas.t) (s : Store) (n : Z) :
  Player.ammo (Store.player s) = IZR n -> (0 <= n)%Z ->
  exists n', Player.ammo (Store.player (fst (shootPhase props closure input canvas s)))
             = IZR n'
             /\ (0 <= n' <= n)%Z.
Proof.
  intros Hn Hpos. destruct (canFire_dec props input s) as [Hf|Hf].
  - rewrite (shootPhase_fires _ _ _ _ _ Hf). cbn.
    destruct Hf as (_ & _ & _ & _ & Hammo). rewrite Hn in *.
    apply lt_IZR in Hammo.
    exists (n - 1)%Z. split; [|lia]. rewrite minus_IZR. reflexivity.
  - rewrite (shootPhase_holds _ _ _ _ _ Hf). exists n. split; [exact Hn | lia].
Qed.

(** ** What each step of the frame does to the player *)

(** Split conjunctions without introducing anything. *)
Ltac split_and := repeat match goal with |- _ /\ _ => split end.

Lemma cactusDamage_player (time last : R) (hit : bool) (p : Player) :
  let p' := fst (fst (cactusDamage time last hit p)) in
  let evs := snd (cactusDamage time last hit p) in
  sameButHp (fun h h' => h' = h \/ (0 < h /\ h' = h - 2)) p p'
  /\ (forall v, In (SetHealth v) evs -> 0 < Player.hp p /\ v = Rmax 0 (Player.hp p - 2)).
Proof.
  unfold cactusDamage, sameButHp.
  destruct (hit && (Player.hp p >? 0)) eqn:Hhit.
  - num_prop. destruct ((time - last) >? 1000); cbn.
    + split_and; auto.
      intros v [Hv|[Hv|[Hv|Hv]]]; try discriminate.
      * injection Hv as <-. split; [lra | reflexivity].
      * destruct (Player.hp p - 2 <=? 0); cbn in Hv;
          [destruct Hv as [Hv|[]]; discriminate | destruct Hv].
    + split_and; auto. intros v [].
  - cbn. split_and; auto. intros v [].
Qed.

Lemma playerPhase_player (props : Props.t) (input : Input.t) (s : Store) :
  let s' := fst (playerPhase props input s) in
  let evs := snd (playerPhase props input s) in
  sameButHp (fun h h' => h' = h \/ (0 < h /\ h' = h - 2)) (Store.player s) (Store.player s')
  /\ Store.bullets s' = Store.bullets s
  /\ Store.lastShotTime s' = Store.lastShotTime s
  /\ (forall v, In (SetHealth v) evs ->
        0 < Player.hp (Store.player s) /\ v = Rmax 0 (Player.hp (Store.player s) - 2)).
Proof.
  unfold playerPhase.
  destruct ((Player.hp (Store.player s) >? 0)
            && GameState_eqb (Props.gameState props) PLAYING).
  - destruct (resolveDecorations _ _) as [afterDecor hit].
    set (moved := movePlayer (Input.keys input) (Store.player s)).
    pose proof (cactusDamage_player (Input.time input) (Store.lastCactusDamageTime s)
                  hit (Player.with_base moved afterDecor)) as Hc.
    destruct (cactusDamage _ _ _ _) as [[p' last'] evs].
    cbn [fst snd] in Hc. destruct Hc as [Hsame Hev].
    assert (Hs : sameButHp (fun h h' => h' = h \/ 0 < h /\ h' = h - 2) (Store.player s) p')
      by exact Hsame.
    destruct (Props.onPlayerUpdate props && _); cbn [fst snd];
      (split; [exact Hs|]); (split; [reflexivity|]); (split; [reflexivity|]).
    + intros v Hin. apply in_app_or in Hin. destruct Hin as [Hin|[Hin|[]]];
        [exact (Hev v Hin) | discriminate].
    + exact Hev.
  - cbn. unfold sameButHp. split_and; auto. intros v [].
Qed.

Lemma enemyHitsPlayer_player (closure : Closure.t) (p : Player) (e : Enemy) :
  let p' := fst (fst (enemyHitsPlayer closure p e)) in
  let evs := snd (enemyHitsPlayer closure p e) in
  sameButHp (fun h h' => h' = h \/ (0 < h /\ h' = h - 10)) p p'
  /\ Player.base p' = Player.base p
  /\ (forall v, In (SetHealth v) evs -> 0 < Player.hp p /\ v = Rmax 0 (Player.hp p - 10)).
Proof.
  unfold enemyHitsPlayer, sameButHp.
  destruct (Player.hp p >? 0) eqn:Hhp; [|cbn; split_and; auto; intros v []].
  num_prop.
  destruct (_ <? _); [|cbn; split_and; auto; intros v []].
  cbn. split_and; auto.
  intros v [Hv|[Hv|[Hv|Hv]]]; try discriminate.
  - injection Hv as <-. split; [lra | reflexivity].
  - destruct (Player.hp p - 10 <=? 0); cbn in Hv;
      [destruct Hv as [Hv|[]]; discriminate | destruct Hv].
Qed.

Lemma updateEnemies_player (closure : Closure.t) (walls : list Wall)
  (decorations : list Decoration) (enemies : list Enemy) (p : Player) :
  let p' := fst (fst (updateEnemies closure walls decorations p enemies)) in
  let evs := snd (updateEnemies closure walls decorations p enemies) in
  sameButHp (fun h h' => h' <= h /\ (h <= 0 -> h' = h) /\ (0 < h -> -10 < h')) p p'
  /\ Player.base p' = Player.base p
  /\ (forall v, In (SetHealth v) evs -> 0 <= v <= Player.hp p).
Proof.
  revert p. induction enemies as [|e rest IH]; intros p; cbn [updateEnemies].
  - cbn. unfold sameButHp. split_and; auto; try lra. intros v [].
  - unfold updateEnemy.
    set (e1 := Enemy.with_base _ _).
    pose proof (enemyHitsPlayer_player closure p e1) as H1.
    destruct (enemyHitsPlayer closure p e1) as [[p1 e'] evs1].
    cbn [fst snd] in H1. destruct H1 as ((Hm1 & Ha1 & Hh1) & Hb1 & Hev1).
    specialize (IH p1).
    destruct (updateEnemies closure walls decorations p1 rest) as [[p2 rest'] evs2].
    cbn [fst snd] in *. destruct IH as ((Hm2 & Ha2 & Hh2) & Hb2 & Hev2).
    unfold sameButHp. split_and; try congruence.
    + destruct Hh1 as [Heq|[? Heq]]; rewrite Heq in *; lra.
    + intros Hle. destruct Hh1 as [Heq|[? ?]]; [|lra].
      rewrite Heq in *. apply Hh2. exact Hle.
    + intros Hpos. destruct Hh1 as [Heq|[? Heq]]; rewrite Heq in *.
      * apply Hh2. exact Hpos.
      * destruct (Rle_dec (Player.hp p - 10) 0) as [Hle|Hgt].
        -- destruct Hh2 as (_ & Hstay & _). rewrite (Hstay Hle). lra.
        -- apply Hh2. lra.
    + intros v H. apply in_app_or in H. destruct H as [H|H].
      * destruct (Hev1 v H) as [Hpos ->]. split; [apply Rmax_l | apply Rmax_lub; lra].
      * destruct (Hev2 v H) as [Hv0 Hv1]. split; [exact Hv0|].
        destruct Hh1 as [Heq|[? Heq]]; rewrite Heq in *; lra.
Qed.

Lemma pickupLoop_player (packs : list HealthPack) (p : Player) :
  let p' := fst (fst (pickupLoop p packs)) in
  let evs := snd (pickupLoop p packs) in
  sameButHp (fun h h' => h' = h \/ h' = Player.maxHp p) p p'
  /\ Player.base p' = Player.base p
  /\ (forall v, In (SetHealth v) evs -> v = Player.maxHp p).
Proof.
  revert p. induction packs as [|hp rest IH]; intros p; cbn [pickupLoop].
  - cbn. unfold sameButHp. split_and; auto. intros v [].
  - destruct (_ <? _).
    + specialize (IH (Player.with_hp p (Player.maxHp p))).
      destruct (pickupLoop _ rest) as [[p2 rest'] evs].
      cbn [fst snd] in *. destruct IH as ((Hm & Ha & Hh) & Hb & Hev).
      cbn in Hm, Ha, Hh, Hb, Hev.
      unfold sameButHp. split_and; auto.
      * destruct Hh; right; congruence.
      * intros v [Hv|[Hv|Hv]]; try discriminate.
        -- injection Hv as <-. reflexivity.
        -- apply Hev, Hv.
    + specialize (IH p).
      destruct (pickupLoop p rest) as [[p2 rest'] evs].
      cbn [fst snd] in *. exact IH.
Qed.

Lemma pickupHealthPacks_player (packs : list HealthPack) (p : Player) :
  let p' := fst (fst (pickupHealthPacks p packs)) in
  let evs := snd (pickupHealthPacks p packs) in
  sameButHp (fun h h' => h' = h \/ (0 < h /\ h' = Player.maxHp p)) p p'
  /\ Player.base p' = Player.base p
  /\ (forall v, In (SetHealth v) evs -> 0 < Player.hp p /\ v = Player.maxHp p).
Proof.
  unfold pickupHealthPacks.
  destruct (Player.hp p >? 0) eqn:Hhp.
  - num_prop. pose proof (pickupLoop_player packs p) as H.
    destruct (pickupLoop p packs) as [[p' packs'] evs].
    cbn [fst snd] in *. destruct H as ((Hm & Ha & Hh) & Hb & Hev).
    unfold sameButHp. split_and; auto.
    destruct Hh; [left | right]; auto.
  - cbn. unfold sameButHp. split_and; auto. intros v [].
Qed.

(** ** The frame as a sequence of stages *)

Lemma gameLoop_running (props : Props.t) (closure : Closure.t) (input : Input.t)
  (canvas : Canvas.t) (s : Store) :
  running props input canvas ->
  gameLoop props closure input s
  = (frameEnd props closure input canvas s, frameEvents props closure input canvas s).
Proof.
  intros (Hst & Hcanvas & Hctx). unfold gameLoop. rewrite Hcanvas, Hctx.
  assert (Hgo : negb (GameState_eqb (Props.gameState props) PLAYING)
                && negb (GameState_eqb (Props.gameState props) SPECTATING) = false).
  { destruct Hst as [->| ->]; reflexivity. }
  rewrite Hgo. cbn [negb].
  unfold frameEnd, frameEvents, afterPickup, afterCombat, beforeCombat, afterBullets,
    afterSpawning, afterShooting, afterPlayer.
  destruct (playerPhase props input s) as [s1 ev1]. cbn [fst snd].
  destruct (shootPhase props closure input canvas s1) as [s3 ev3]. cbn [fst snd].
  destruct (bulletPhase props canvas _) as [s5 ev5]. cbn [fst snd].
  destruct (enemyPhase closure s5) as [s6 ev6]. cbn [fst snd].
  destruct (combatPhase props s6) as [s7 ev7]. cbn [fst snd].
  destruct (pickupPhase s7) as [s8 ev8]. reflexivity.
Qed.

Lemma gameLoop_cases (props : Props.t) (closure : Closure.t) (input : Input.t) (s : Store) :
  gameLoop props closure input s = (s, [])
  \/ exists canvas, running props input canvas.
Proof.
  unfold gameLoop, running.
  destruct (Props.gameState props); cbn; auto;
    destruct (Input.canvas input) as [canvas|]; auto;
    destruct (Canvas.context2d canvas) eqn:Hctx; cbn; auto;
    right; exists canvas; auto.
Qed.

(** ** What the steps leave alone *)

Lemma spawnEnemy_keeps (closure : Closure.t) (canvas : Canvas.t) (rnd : nat -> R)
  (now : R) (pos : Vector2) (s : Store) (k : nat) :
  let s' := fst (spawnEnemy closure canvas rnd now pos s k) in
  Store.player s' = Store.player s /\ Store.bullets s' = Store.bullets s
  /\ Store.walls s' = Store.walls s.
Proof.
  unfold spawnEnemy.
  repeat match goal with
  | |- context [if ?c then _ else _] => destruct c
  end; cbn; auto.
Qed.

Lemma healthPackLoop_keeps (rnd : nat -> R) (now : R) (s : Store) (fuel k : nat) :
  let s' := fst (healthPackLoop fuel rnd now s k) in
  Store.player s' = Store.player s /\ Store.bullets s' = Store.bullets s
  /\ Store.walls s' = Store.walls s.
Proof.
  revert k. induction fuel as [|fuel IH]; intros k; cbn [healthPackLoop].
  - cbn. auto.
  - destruct (negb _); [cbn; auto | apply IH].
Qed.

Lemma spawnPhase_keeps (props : Props.t) (closure : Closure.t) (input : Input.t)
  (canvas : Canvas.t) (s : Store) :
  let s' := spawnPhase props closure input canvas s in
  Store.player s' = Store.player s /\ Store.bullets s' = Store.bullets s
  /\ Store.walls s' = Store.walls s.
Proof.
  unfold spawnPhase.
  pose proof (spawnEnemy_keeps closure canvas (Input.rnd input) (Input.time input)
                (cameraPos props (Store.player s)) s 0) as H1.
  destruct (spawnEnemy _ _ _ _ _ s 0) as [s1 k1]. cbn [fst] in H1.
  destruct H1 as (Hp & Hb & Hw).
  destruct (GameState_eqb _ _); [|auto].
  unfold spawnHealthPack. destruct (_ >? _); [|cbn; auto].
  pose proof (healthPackLoop_keeps (Input.rnd input) (Input.time input) s1 10 k1) as H2.
  cbv zeta in H2. destruct H2 as (Hp2 & Hb2 & Hw2).
  rewrite Hp2, Hb2, Hw2. auto.
Qed.

Lemma shootPhase_player (props : Props.t) (closure : Closure.t) (input : Input.t)
  (canvas : Canvas.t) (s : Store) :
  let s' := fst (shootPhase props closure input canvas s) in
  let evs := snd (shootPhase props closure input canvas s) in
  Player.hp (Store.player s') = Player.hp (Store.player s)
  /\ Player.maxHp (Store.player s') = Player.maxHp (Store.player s)
  /\ (forall v, ~ In (SetHealth v) evs).
Proof.
  destruct (canFire_dec props input s) as [Hf|Hf].
  - rewrite (shootPhase_fires _ _ _ _ _ Hf). cbn. split_and; auto.
    intros v [Hv|Hv]; [discriminate|].
    destruct (Props.setAmmo props); cbn in Hv; [destruct Hv as [Hv|[]]; discriminate | exact Hv].
  - rewrite (shootPhase_holds _ _ _ _ _ Hf). cbn. auto.
Qed.

Lemma roundEndCheck_events (props : Props.t) (p : Player) (v : R) :
  ~ In (SetHealth v) (roundEndCheck props p).
Proof.
  unfold roundEndCheck.
  destruct (_ && _); [|intros []].
  destruct (_ <=? _)%nat; [intros [H|[]]; discriminate | intros []].
Qed.

Lemma updateBullets_events (canvas : Canvas.t) (camera : Vector2) (walls : list Wall)
  (bullets : list Bullet) (v : R) :
  ~ In (SetHealth v) (snd (updateBullets canvas camera walls bullets)).
Proof.
  unfold updateBullets. cbn [snd]. intros Hin. apply in_flat_map in Hin.
  destruct Hin as (b & _ & Hb). unfold wallHitEvents in Hb.
  destruct (hitsWall walls b); [destruct Hb as [Hb|[]]; discriminate | destruct Hb].
Qed.

Lemma bulletPhase_keeps (props : Props.t) (canvas : Canvas.t) (s : Store) :
  let s' := fst (bulletPhase props canvas s) in
  Store.player s' = Store.player s
  /\ Store.bullets s'
     = fst (updateBullets canvas (cameraPos props (Store.player s)) (Store.walls s)
              (Store.bullets s))
  /\ Store.enemies s' = Store.enemies s
  /\ (forall v, ~ In (SetHealth v) (snd (bulletPhase props canvas s))).
Proof.
  unfold bulletPhase.
  pose proof (updateBullets_events canvas (cameraPos props (Store.player s))
                (Store.walls s) (Store.bullets s)) as Hev.
  destruct (updateBullets _ _ _ _) as [bs evs]. cbn in *. auto.
Qed.

Lemma enemyPhase_keeps (closure : Closure.t) (s : Store) :
  let s' := fst (enemyPhase closure s) in
  Store.player s'
  = fst (fst (updateEnemies closure (Store.walls s) (Store.decorations s)
                (Store.player s) (Store.enemies s)))
  /\ Store.bullets s' = Store.bullets s
  /\ snd (enemyPhase closure s)
     = snd (updateEnemies closure (Store.walls s) (Store.decorations s)
              (Store.player s) (Store.enemies s)).
Proof.
  unfold enemyPhase. destruct (updateEnemies _ _ _ _ _) as [[p es] evs]. cbn. auto.
Qed.

Lemma bulletHitsEnemy_events (props : Props.t) (b : Bullet) (score : R) (e : Enemy) (v : R) :
  ~ In (SetHealth v) (snd (bulletHitsEnemy props b score e)).
Proof.
  unfold bulletHitsEnemy. destruct (_ <? _); [|intros []].
  destruct (_ <=? _); [|intros []]. cbn.
  intros [H|[H|H]]; try discriminate.
  apply in_app_or in H. destruct H as [H|[H|[]]]; [|discriminate].
  destruct (Props.onKill props); [destruct H as [H|[]]; discriminate | destruct H].
Qed.

Lemma bulletVsEnemies_events (props : Props.t) (enemies : list Enemy) (b : Bullet)
  (score : R) (v : R) :
  ~ In (SetHealth v) (snd (bulletVsEnemies props b score enemies)).
Proof.
  revert b score. induction enemies as [|e rest IH]; intros b score; cbn [bulletVsEnemies].
  - intros [].
  - pose proof (bulletHitsEnemy_events props b score e v) as H1.
    destruct (bulletHitsEnemy props b score e) as [[[b1 score1] e'] evs1].
    specialize (IH b1 score1).
    destruct (bulletVsEnemies props b1 score1 rest) as [[[b2 score2] rest'] evs2].
    cbn [snd] in *. intros Hin. apply in_app_or in Hin. tauto.
Qed.

Lemma combat_events (props : Props.t) (bullets : list Bullet) (score : R)
  (enemies : list Enemy) (v : R) :
  ~ In (SetHealth v) (snd (combat props bullets score enemies)).
Proof.
  revert score enemies. induction bullets as [|b rest IH]; intros score enemies;
    cbn [combat].
  - intros [].
  - pose proof (bulletVsEnemies_events props enemies b score v) as H1.
    destruct (bulletVsEnemies props b score enemies) as [[[b' score1] enemies1] evs1].
    specialize (IH score1 enemies1).
    destruct (combat props rest score1 enemies1) as [[[rest' score2] enemies2] evs2].
    cbn [snd] in *. intros Hin. apply in_app_or in Hin. tauto.
Qed.

Lemma combatPhase_keeps (props : Props.t) (s : Store) :
  let s' := fst (combatPhase props s) in
  Store.player s' = Store.player s
  /\ Store.bullets s'
     = fst (fst (fst (combat props (Store.bullets s) (Store.score s) (Store.enemies s))))
  /\ (forall v, ~ In (SetHealth v) (snd (combatPhase props s))).
Proof.
  unfold combatPhase.
  pose proof (combat_events props (Store.bullets s) (Store.score s) (Store.enemies s)) as Hev.
  destruct (combat _ _ _ _) as [[[bs sc] es] evs]. cbn in *. auto.
Qed.

Lemma pickupPhase_keeps (s : Store) :
  let s' := fst (pickupPhase s) in
  Store.player s' = fst (fst (pickupHealthPacks (Store.player s) (Store.healthPacks s)))
  /\ Store.bullets s' = Store.bullets s
  /\ snd (pickupPhase s) = snd (pickupHealthPacks (Store.player s) (Store.healthPacks s)).
Proof.
  unfold pickupPhase. destruct (pickupHealthPacks _ _) as [[p hs] evs]. cbn. auto.
Qed.

(** ** Health across a frame *)

Section Health.
Variables (props : Props.t) (closure : Closure.t) (input : Input.t)
          (canvas : Canvas.t) (s : Store).

Local Abbreviation hp0 := (Player.hp (Store.player s)).
Local Abbreviation maxHp0 := (Player.maxHp (Store.player s)).

(** Up to the enemies: hp only goes down, never to -10 or below. *)
Lemma beforeCombat_health :
  let p := Store.player (beforeCombat props closure input canvas s) in
  Player.maxHp p = maxHp0
  /\ Player.hp p <= hp0
  /\ (hp0 <= 0 -> Player.hp p = hp0)
  /\ (-10 < hp0 -> -10 < Player.hp p).
Proof.
  unfold beforeCombat, afterBullets, afterSpawning, afterShooting, afterPlayer.
  destruct (playerPhase_player props input s) as ((Hm1 & _ & Hh1) & _).
  set (s1 := fst (playerPhase props input s)) in *.
  destruct (shootPhase_player props closure input canvas s1) as (Hh3 & Hm3 & _).
  set (s3 := fst (shootPhase props closure input canvas s1)) in *.
  destruct (spawnPhase_keeps props closure input canvas s3) as (Hp4 & _ & _).
  set (s4 := spawnPhase props closure input canvas s3) in *.
  destruct (bulletPhase_keeps props canvas s4) as (Hp5 & _).
  set (s5 := fst (bulletPhase props canvas s4)) in *.
  destruct (enemyPhase_keeps closure s5) as (Hp6 & _).
  rewrite Hp6.
  destruct (updateEnemies_player closure (Store.walls s5) (Store.decorations s5)
              (Store.enemies s5) (Store.player s5)) as ((Hm6 & _ & Hh6) & _).
  rewrite Hp5, Hp4 in *. rewrite Hm6, Hm3, Hm1. rewrite Hh3 in Hh6.
  destruct Hh6 as (Hle & Hstay & Hlow).
  split_and; auto.
  - destruct Hh1 as [Heq|[? Heq]]; rewrite Heq in *; lra.
  - intros H0. destruct Hh1 as [Heq|[? Heq]]; [|lra]. rewrite Heq in *. auto.
  - intros H0. destruct Hh1 as [Heq|[? Heq]]; rewrite Heq in *.
    + destruct (Rle_dec (Player.hp (Store.player s)) 0) as [Hd|Hd].
      * rewrite (Hstay Hd). exact H0.
      * apply Hlow. lra.
    + destruct (Rle_dec (Player.hp (Store.player s) - 2) 0) as [Hd|Hd].
      * rewrite (Hstay Hd). lra.
      * apply Hlow. lra.
Qed.

(** The whole frame: hp stays above -10 and at most maxHp; a dead player
    keeps its hp. *)
Lemma frameEnd_health :
  let p := Store.player (frameEnd props closure input canvas s) in
  Player.maxHp p = maxHp0
  /\ (hp0 <= 0 -> Player.hp p = hp0)
  /\ (-10 < hp0 <= maxHp0 -> -10 < Player.hp p <= maxHp0).
Proof.
  destruct beforeCombat_health as (Hm6 & Hle6 & Hstay6 & Hlow6).
  unfold frameEnd, afterPickup, afterCombat.
  set (s6 := beforeCombat props closure input canvas s) in *.
  destruct (combatPhase_keeps props s6) as (Hp7 & _).
  set (s7 := fst (combatPhase props s6)) in *.
  destruct (pickupPhase_keeps s7) as (Hp8 & _).
  unfold cleanupPhase. cbn [Store.player Store.with_enemies Store.with_bullets].
  rewrite Hp8.
  destruct (pickupHealthPacks_player (Store.healthPacks s7) (Store.player s7))
    as ((Hm8 & _ & Hh8) & _).
  rewrite Hp7 in *. rewrite Hm8, Hm6.
  split_and; auto.
  - intros H0. destruct Hh8 as [Heq|[Hpos Heq]]; rewrite Heq; [auto|].
    rewrite (Hstay6 H0) in Hpos. lra.
  - intros [Hlo Hhi]. destruct Hh8 as [Heq|[Hpos Heq]]; rewrite Heq.
    + split; [apply Hlow6, Hlo | lra].
    + rewrite Hm6. lra.
Qed.

(** Every value passed to [setHealth] lies between 0 and maxHp. *)
Lemma frameEvents_health (v : R) :
  hp0 <= maxHp0 ->
  In (SetHealth v) (frameEvents props closure input canvas s) ->
  0 <= v <= maxHp0.
Proof.
  intros Hhi. unfold frameEvents.
  fold (afterShooting props closure input canvas s).
  fold (afterSpawning props closure input canvas s).
  fold (afterBullets props closure input canvas s).
  fold (beforeCombat props closure input canvas s).
  fold (afterCombat props closure input canvas s).
  intros Hin.
  destruct (playerPhase_player props input s) as ((Hm1 & _ & Hh1) & _ & _ & Hev1).
  apply in_app_or in Hin. destruct Hin as [Hin|Hin].
  { destruct (Hev1 v Hin) as [Hpos ->]. split; [apply Rmax_l | apply Rmax_lub; lra]. }
  apply in_app_or in Hin. destruct Hin as [Hin|Hin].
  { exfalso. exact (roundEndCheck_events _ _ _ Hin). }
  apply in_app_or in Hin. destruct Hin as [Hin|Hin].
  { exfalso. exact (proj2 (proj2 (shootPhase_player props closure input canvas _)) v Hin). }
  apply in_app_or in Hin. destruct Hin as [Hin|Hin].
  { exfalso. exact (proj2 (proj2 (proj2 (bulletPhase_keeps props canvas _))) v Hin). }
  apply in_app_or in Hin. destruct Hin as [Hin|Hin].
  { unfold afterBullets, afterSpawning, afterShooting, afterPlayer in Hin.
    set (s1 := fst (playerPhase props input s)) in *.
    destruct (shootPhase_player props closure input canvas s1) as (Hh3 & Hm3 & _).
    set (s3 := fst (shootPhase props closure input canvas s1)) in *.
    destruct (spawnPhase_keeps props closure input canvas s3) as (Hp4 & _ & _).
    set (s4 := spawnPhase props closure input canvas s3) in *.
    destruct (bulletPhase_keeps props canvas s4) as (Hp5 & _).
    set (s5 := fst (bulletPhase props canvas s4)) in *.
    destruct (enemyPhase_keeps closure s5) as (_ & _ & Hev6).
    rewrite Hev6 in Hin.
    destruct (updateEnemies_player closure (Store.walls s5) (Store.decorations s5)
                (Store.enemies s5) (Store.player s5)) as (_ & _ & Hev).
    destruct (Hev v Hin) as [Hv0 Hv1].
    rewrite Hp5, Hp4, Hh3 in Hv1.
    split; [exact Hv0|].
    destruct Hh1 as [Heq|[? Heq]]; rewrite Heq in Hv1; lra. }
  apply in_app_or in Hin. destruct Hin as [Hin|Hin].
  { exfalso. exact (proj2 (proj2 (combatPhase_keeps props _)) v Hin). }
  destruct beforeCombat_health as (Hm6 & Hle6 & _).
  set (s6 := beforeCombat props closure input canvas s) in *.
  unfold afterCombat in Hin. fold s6 in Hin.
  destruct (combatPhase_keeps props s6) as (Hp7 & _).
  set (s7 := fst (combatPhase props s6)) in *.
  destruct (pickupPhase_keeps s7) as (_ & _ & Hev8).
  rewrite Hev8 in Hin.
  destruct (pickupHealthPacks_player (Store.healthPacks s7) (Store.player s7))
    as (_ & _ & Hev).
  destruct (Hev v Hin) as [Hpos ->]. rewrite Hp7 in *. rewrite Hm6. lra.
Qed.

End Health.

(** ** Bullets against enemies *)

Lemma bulletHitsEnemy_spec (props : Props.t) (b : Bullet) (score : R) (e : Enemy) :
  let b' := fst (fst (fst (bulletHitsEnemy props b score e))) in
  let e' := snd (fst (bulletHitsEnemy props b score e)) in
  Bullet.base b' = Bullet.base b
  /\ Bullet.ownerId b' = Bullet.ownerId b
  /\ Enemy.base e' = Enemy.base e
  /\ (overlapsEntity b (Enemy.base e) -> Bullet.damage b' = 0)
  /\ (~ overlapsEntity b (Enemy.base e) -> b' = b).
Proof.
  unfold bulletHitsEnemy, overlapsEntity.
  destruct (_ <? _) eqn:Hhit; num_prop.
  - destruct (_ <=? _); cbn; split_and; auto; intros; lra.
  - cbn. split_and; auto. intros; lra.
Qed.

Lemma bulletVsEnemies_spec (props : Props.t) (enemies : list Enemy) (b : Bullet) (score : R) :
  let b' := fst (fst (fst (bulletVsEnemies props b score enemies))) in
  let enemies' := snd (fst (bulletVsEnemies props b score enemies)) in
  map Enemy.base enemies' = map Enemy.base enemies
  /\ (Bullet.damage b' = Bullet.damage b \/ Bullet.damage b' = 0)
  /\ fought (map Enemy.base enemies) b b'.
Proof.
  revert b score. induction enemies as [|e rest IH]; intros b score;
    cbn [bulletVsEnemies].
  - cbn. unfold fought. split_and; auto.
    intros (e & [] & _).
  - pose proof (bulletHitsEnemy_spec props b score e) as H1.
    destruct (bulletHitsEnemy props b score e) as [[[b1 score1] e'] evs1].
    cbn [fst snd] in H1. destruct H1 as (Hb1 & Ho1 & He1 & Hhit1 & Hmiss1).
    specialize (IH b1 score1).
    destruct (bulletVsEnemies props b1 score1 rest) as [[[b2 score2] rest'] evs2].
    cbn [fst snd] in *. destruct IH as (Hmap & Hdmg & (Hb2 & Ho2 & Hhit2 & Hmiss2)).
    assert (Hsame : forall t, overlapsEntity b1 t <-> overlapsEntity b t).
    { intros t. unfold overlapsEntity. rewrite Hb1. tauto. }
    assert (Hd1 : Bullet.damage b1 = Bullet.damage b \/ Bullet.damage b1 = 0).
    { destruct (Rlt_dec (dist (Entity.position (Bullet.base b))
                              (Entity.position (Enemy.base e)))
                        (Entity.radius (Bullet.base b) + Entity.radius (Enemy.base e)))
        as [Hy|Hn].
      - right. apply Hhit1, Hy.
      - left. rewrite (Hmiss1 Hn). reflexivity. }
    split; [cbn; congruence|].
    split; [destruct Hdmg as [Hd|Hd]; [rewrite Hd; exact Hd1 | right; exact Hd]|].
    unfold fought. split_and; try congruence.
    + intros (t & [Ht|Ht] & Hov).
      * subst t. destruct Hdmg as [Hd|Hd]; [|exact Hd].
        rewrite Hd. apply Hhit1, Hov.
      * apply Hhit2. exists t. split; [exact Ht | apply Hsame, Hov].
    + intros Hnone. rewrite Hmiss2.
      * rewrite (Hmiss1 (Hnone _ (or_introl eq_refl))). reflexivity.
      * intros t Ht Hov. apply (Hnone t (or_intror Ht)). apply Hsame, Hov.
Qed.

Lemma combat_spec (props : Props.t) (bullets : list Bullet) (score : R)
  (enemies : list Enemy) :
  let bullets' := fst (fst (fst (combat props bullets score enemies))) in
  let enemies' := snd (fst (combat props bullets score enemies)) in
  map Enemy.base enemies' = map Enemy.base enemies
  /\ Forall2 (fought (map Enemy.base enemies)) bullets bullets'
  /\ Forall2 (fun b b' => Bullet.damage b' = Bullet.damage b \/ Bullet.damage b' = 0)
       bullets bullets'.
Proof.
  revert score enemies. induction bullets as [|b rest IH]; intros score enemies;
    cbn [combat].
  - cbn. split_and; auto.
  - pose proof (bulletVsEnemies_spec props enemies b score) as H1.
    destruct (bulletVsEnemies props b score enemies) as [[[b' score1] enemies1] evs1].
    cbn [fst snd] in H1. destruct H1 as (Hmap1 & Hd1 & Hf1).
    specialize (IH score1 enemies1).
    destruct (combat props rest score1 enemies1) as [[[rest' score2] enemies2] evs2].
    cbn [fst snd] in *. destruct IH as (Hmap2 & Hf2 & Hd2).
    rewrite Hmap1 in Hf2.
    split_and; [congruence | constructor; assumption | constructor; assumption].
Qed.

Lemma cleanupBullets_spec (bullets : list Bullet) (b : Bullet) :
  In b (cleanupBullets bullets) <-> In b bullets /\ Bullet.damage b > 0.
Proof.
  unfold cleanupBullets. rewrite filter_In, gtb_true_iff. intuition lra.
Qed.

Lemma integrateBullet_damage (b : Bullet) :
  Bullet.damage (integrateBullet b) = Bullet.damage b.
Proof. reflexivity. Qed.

Lemma updateBullets_loaded (canvas : Canvas.t) (camera : Vector2) (walls : list Wall)
  (bullets : list Bullet) (P : R -> Prop) :
  Forall (fun b => P (Bullet.damage b)) bullets ->
  Forall (fun b => P (Bullet.damage b)) (fst (updateBullets canvas camera walls bullets)).
Proof.
  intros H. unfold updateBullets. cbn [fst].
  apply Forall_forall. intros b Hin. apply filter_In in Hin. destruct Hin as [Hin _].
  apply in_map_iff in Hin. destruct Hin as (b0 & <- & Hin0).
  rewrite integrateBullet_damage. rewrite Forall_forall in H. apply H, Hin0.
Qed.

(** ** Bullets and ammunition across a frame *)

Section BulletsOfFrame.
Variables (props : Props.t) (closure : Closure.t) (input : Input.t)
          (canvas : Canvas.t) (s : Store).

Lemma afterShooting_bullets :
  afterShooting props closure input canvas s
  = afterPlayer props input s
    /\ ~ canFire props input (afterPlayer props input s)
  \/ afterShooting props closure input canvas s
     = afterShot closure input canvas (afterPlayer props input s)
     /\ canFire props input (afterPlayer props input s).
Proof.
  unfold afterShooting.
  destruct (canFire_dec props input (afterPlayer props input s)) as [Hf|Hf].
  - right. rewrite (shootPhase_fires _ _ _ _ _ Hf). auto.
  - left. rewrite (shootPhase_holds _ _ _ _ _ Hf). auto.
Qed.

Lemma afterShooting_loaded :
  bulletsLoaded s -> bulletsLoaded (afterShooting props closure input canvas s).
Proof.
  unfold bulletsLoaded. intros H.
  destruct (playerPhase_player props input s) as (_ & Hb & _).
  fold (afterPlayer props input s) in Hb.
  destruct afterShooting_bullets as [[-> _]|[-> _]].
  - rewrite Hb. exact H.
  - unfold afterShot. cbn [Store.bullets Store.with_lastShotTime Store.with_bullets].
    rewrite Hb. apply Forall_app. split; [exact H|]. constructor; [reflexivity | constructor].
Qed.

Lemma beforeCombat_bullets :
  Store.bullets (beforeCombat props closure input canvas s)
  = fst (updateBullets canvas
           (cameraPos props (Store.player (afterShooting props closure input canvas s)))
           (Store.walls (afterShooting props closure input canvas s))
           (Store.bullets (afterShooting props closure input canvas s))).
Proof.
  unfold beforeCombat, afterBullets, afterSpawning.
  set (s3 := afterShooting props closure input canvas s).
  destruct (spawnPhase_keeps props closure input canvas s3) as (Hp4 & Hb4 & Hw4).
  set (s4 := spawnPhase props closure input canvas s3) in *.
  destruct (bulletPhase_keeps props canvas s4) as (_ & Hb5 & _).
  destruct (enemyPhase_keeps closure (fst (bulletPhase props canvas s4))) as (_ & Hb6 & _).
  rewrite Hb6, Hb5, Hp4, Hb4, Hw4. reflexivity.
Qed.

Lemma beforeCombat_loaded :
  bulletsLoaded s -> bulletsLoaded (beforeCombat props closure input canvas s).
Proof.
  intros H. unfold bulletsLoaded. rewrite beforeCombat_bullets.
  apply (updateBullets_loaded _ _ _ _ (fun d => d = 20)).
  apply afterShooting_loaded, H.
Qed.

Lemma afterCombat_bullets :
  Store.bullets (afterCombat props closure input canvas s)
  = fst (fst (fst (combat props
       (Store.bullets (beforeCombat props closure input canvas s))
       (Store.score (beforeCombat props closure input canvas s))
       (Store.enemies (beforeCombat props closure input canvas s))))).
Proof.
  unfold afterCombat. apply (combatPhase_keeps props _).
Qed.

Lemma frameEnd_bullets :
  Store.bullets (frameEnd props closure input canvas s)
  = cleanupBullets (Store.bullets (afterCombat props closure input canvas s)).
Proof.
  unfold frameEnd, afterPickup, cleanupPhase.
  cbn [Store.bullets Store.with_enemies Store.with_bullets].
  destruct (pickupPhase_keeps (afterCombat props closure input canvas s)) as (_ & Hb & _).
  rewrite Hb. reflexivity.
Qed.

Lemma frameEnd_loaded :
  bulletsLoaded s -> bulletsLoaded (frameEnd props closure input canvas s).
Proof.
  intros H. unfold bulletsLoaded. rewrite frameEnd_bullets.
  apply Forall_forall. intros b Hin. apply cleanupBullets_spec in Hin.
  destruct Hin as [Hin Hpos]. rewrite afterCombat_bullets in Hin.
  destruct (combat_spec props
              (Store.bullets (beforeCombat props closure input canvas s))
              (Store.score (beforeCombat props closure input canvas s))
              (Store.enemies (beforeCombat props closure input canvas s)))
    as (_ & _ & Hd).
  pose proof (beforeCombat_loaded H) as Hl. unfold bulletsLoaded in Hl.
  revert Hd Hl Hin.
  generalize (Store.bullets (beforeCombat props closure input canvas s)).
  generalize (fst (fst (fst (combat props
       (Store.bullets (beforeCombat props closure input canvas s))
       (Store.score (beforeCombat props closure input canvas s))
       (Store.enemies (beforeCombat props closure input canvas s)))))).
  intros after before Hd. induction Hd as [|b0 b0' bs bs' Hb0 Hrest IH]; intros Hl Hin.
  - destruct Hin.
  - inversion Hl as [|? ? Hb20 Hl']; subst.
    destruct Hin as [<-|Hin]; [|exact (IH Hl' Hin)].
    destruct Hb0 as [Hd0|Hd0]; [congruence | lra].
Qed.

Lemma frameEnd_ammo :
  Player.ammo (Store.player (frameEnd props closure input canvas s))
  = Player.ammo (Store.player (afterShooting props closure input canvas s))
  /\ Player.ammo (Store.player (afterPlayer props input s))
     = Player.ammo (Store.player s).
Proof.
  split.
  - unfold frameEnd, afterPickup, afterCombat, beforeCombat, afterBullets, afterSpawning.
    set (s3 := afterShooting props closure input canvas s).
    destruct (spawnPhase_keeps props closure input canvas s3) as (Hp4 & _ & _).
    set (s4 := spawnPhase props closure input canvas s3) in *.
    destruct (bulletPhase_keeps props canvas s4) as (Hp5 & _).
    set (s5 := fst (bulletPhase props canvas s4)) in *.
    destruct (enemyPhase_keeps closure s5) as (Hp6 & _).
    set (s6 := fst (enemyPhase closure s5)) in *.
    destruct (combatPhase_keeps props s6) as (Hp7 & _).
    set (s7 := fst (combatPhase props s6)) in *.
    destruct (pickupPhase_keeps s7) as (Hp8 & _).
    unfold cleanupPhase. cbn [Store.player Store.with_enemies Store.with_bullets].
    rewrite Hp8.
    destruct (pickupHealthPacks_player (Store.healthPacks s7) (Store.player s7))
      as ((_ & Ha8 & _) & _).
    rewrite Ha8, Hp7, Hp6.
    destruct (updateEnemies_player closure (Store.walls s5) (Store.decorations s5)
                (Store.enemies s5) (Store.player s5)) as ((_ & Ha6 & _) & _).
    rewrite Ha6, Hp5, Hp4. reflexivity.
  - destruct (playerPhase_player props input s) as ((_ & Ha & _) & _). exact Ha.
Qed.

Lemma frameEnd_ammoCounted :
  ammoCounted s -> ammoCounted (frameEnd props closure input canvas s).
Proof.
  intros (n & Hn & Hrange). unfold ammoCounted.
  destruct frameEnd_ammo as [-> Ha1]. unfold afterShooting.
  rewrite <- Ha1 in Hn.
  destruct (shootPhase_ammo_count props closure input canvas _ n Hn (proj1 Hrange))
    as (n' & Hn' & Hr').
  exists n'. split; [exact Hn' | lia].
Qed.

End BulletsOfFrame.

(** ** The invariants of the reachable stores *)

Lemma reachable_invariants (s : Store) :
  reachable s -> hpBounded s /\ ammoCounted s /\ bulletsLoaded s.
Proof.
  induction 1 as [closure | closure hasCanvas setAmmo layout cactuses rnd s Hr IH
                 | props closure input s Hr IH].
  - unfold hpBounded, ammoCounted, bulletsLoaded. cbn. split_and.
    + lra.
    + lra.
    + exists 120%Z. split; [reflexivity | lia].
    + constructor.
  - unfold initGame. destruct (negb hasCanvas); [exact IH|].
    unfold hpBounded, ammoCounted, bulletsLoaded. cbn. split_and.
    + lra.
    + lra.
    + exists 120%Z. split; [reflexivity | lia].
    + constructor.
  - destruct (gameLoop_cases props closure input s) as [Hidle|[canvas Hrun]].
    + rewrite Hidle. exact IH.
    + rewrite (gameLoop_running _ _ _ _ _ Hrun). cbn [fst].
      destruct IH as (Hhp & Hammo & Hloaded). split_and.
      * destruct (frameEnd_health props closure input canvas s) as (Hm & _ & Hb).
        unfold hpBounded. rewrite Hm. apply Hb, Hhp.
      * apply frameEnd_ammoCounted, Hammo.
      * apply frameEnd_loaded, Hloaded.
Qed.

(** ** Health of the player *)

(** C1 (amended).  In every store the component can hold, the player's hp
    is at most maxHp and above -10.  In every frame, each value passed to
    [setHealth] lies within [0, maxHp], maxHp is unchanged, and a player
    whose hp is not positive keeps its hp: it takes no damage and no
    healing.  The stored hp is not clamped at 0. *)
Theorem player_hp_bounds (s : Store) :
  reachable s ->
  -10 < Player.hp (Store.player s) <= Player.maxHp (Store.player s)
  /\ forall props closure input,
       Player.maxHp (Store.player (fst (gameLoop props closure input s)))
       = Player.maxHp (Store.player s)
       /\ -10 < Player.hp (Store.player (fst (gameLoop props closure input s)))
          <= Player.maxHp (Store.player s)
       /\ (forall v, In (SetHealth v) (snd (gameLoop props closure input s)) ->
             0 <= v <= Player.maxHp (Store.player s))
       /\ (Player.hp (Store.player s) <= 0 ->
           Player.hp (Store.player (fst (gameLoop props closure input s)))
           = Player.hp (Store.player s)).
Proof.
  intros Hr. destruct (reachable_invariants s Hr) as (Hhp & _ & _).
  split; [exact Hhp|]. intros props closure input.
  destruct (gameLoop_cases props closure input s) as [Hidle|[canvas Hrun]].
  - rewrite Hidle. cbn. split_and; auto; [apply Hhp | apply Hhp | intros v []].
  - rewrite (gameLoop_running _ _ _ _ _ Hrun). cbn [fst snd].
    destruct (frameEnd_health props closure input canvas s) as (Hm & Hstay & Hb).
    split_and; auto.
    + apply Hb, Hhp.
    + apply Hb, Hhp.
    + intros v Hin. apply (frameEvents_health props closure input canvas s v); [apply Hhp | exact Hin].
Qed.

Lemma sample_running (time : R) : running Sample.props (Sample.idle time) Sample.canvas.
Proof. unfold running. cbn. auto. Qed.

(** With no movement key held, a player at rest is left as it is. *)
Lemma movePlayer_still (keys : string -> bool) (player : Player) :
  keys "w" = false -> keys "s" = false -> keys "a" = false -> keys "d" = false ->
  Entity.velocity (Player.base player) = Vector2.mk 0 0 ->
  movePlayer keys player = player.
Proof.
  intros Hw Hs Ha Hd Hv.
  destruct player as [[eid [px py] vel rad col] hp maxHp speed name ammo].
  cbn in Hv. subst vel.
  unfold movePlayer. rewrite Hw, Hs, Ha, Hd.
  rewrite sqrt_zero_sq. rewrite (proj2 (gtb_false_iff 0 0)) by lra.
  unfold Player.with_base, Entity.with_position, Entity.with_velocity, Entity.px, Entity.py.
  cbn. rewrite !Rplus_0_r. reflexivity.
Qed.

Lemma wounded_far_from_cactus :
  resolveDecorations (Player.base Sample.woundedPlayer) [Sample.farCactus]
  = (Player.base Sample.woundedPlayer, false).
Proof.
  apply resolveDecorations_untouched. intros d [<-|[]]. right.
  unfold apartFrom, Entity.px, Entity.py. cbn. lra.
Qed.

Lemma wounded_afterPlayer :
  playerPhase Sample.props (Sample.idle 20000) Sample.storeWounded
  = (Sample.storeWounded, []).
Proof.
  unfold playerPhase.
  rewrite (movePlayer_still (Input.keys (Sample.idle 20000))
             (Store.player Sample.storeWounded)) by reflexivity.
  cbn [Sample.storeWounded Store.walls Store.decorations Store.player resolveWalls
       fold_left].
  rewrite wounded_far_from_cactus.
  cbn. num_eval. cbn. num_eval. reflexivity.
Qed.

(** The enemy walks from x = 20 to x = 18, within reach (15 + 12) of the
    player, hits it for 10 and dies. *)
Lemma wounded_enemies :
  updateEnemies Sample.closure [] [Sample.farCactus] Sample.woundedPlayer [Sample.walker]
  = (Player.with_hp Sample.woundedPlayer (8 - 10),
     [Enemy.mk (Entity.mk (EnemyId 19500)
                  (Vector2.mk (20 + (0 - 20) / 20 * 2) (0 + (0 - 0) / 20 * 2))
                  (Vector2.mk ((0 - 20) / 20 * 2) ((0 - 0) / 20 * 2)) 12 "#ef4444")
               0 2 10],
     [PlayPlayerDamage; SetHealth (Rmax 0 (8 - 10));
      CreateParticles (20 + (0 - 20) / 20 * 2) (0 + (0 - 0) / 20 * 2) "#3b82f6" 10;
      OnGameOver "Enemies"]).
Proof.
  unfold updateEnemies, updateEnemy, steerEnemy. cbn. num_eval.
  replace (sqrt ((0 - 20) * (0 - 20) + (0 - 0) * (0 - 0))) with 20
    by (symmetry; apply sqrt_of_square; lra).
  num_eval.
  unfold resolveDecorationCollision. cbn. num_eval. cbn.
  unfold enemyHitsPlayer, dist. cbn. num_eval.
  replace (sqrt ((0 - (20 + (0 - 20) / 20 * 2)) * (0 - (20 + (0 - 20) / 20 * 2))
                 + (0 - (0 + (0 - 0) / 20 * 2)) * (0 - (0 + (0 - 0) / 20 * 2)))) with 18
    by (symmetry; apply sqrt_of_square; lra).
  num_eval. cbn. num_eval. reflexivity.
Qed.

(** The whole frame on the wounded player. *)
Lemma wounded_frame :
  gameLoop Sample.props Sample.closure (Sample.idle 20000) Sample.storeWounded
  = (Store.mk (Player.with_hp Sample.woundedPlayer (8 - 10)) [] [] [] []
       [Sample.farCactus] 0 19500 0 19990 5000 0,
     [PlayPlayerDamage; SetHealth (Rmax 0 (8 - 10));
      CreateParticles (20 + (0 - 20) / 20 * 2) (0 + (0 - 0) / 20 * 2) "#3b82f6" 10;
      OnGameOver "Enemies"]).
Proof.
  rewrite (gameLoop_running _ _ _ _ _ (sample_running 20000)).
  unfold frameEnd, frameEvents, afterPickup, afterCombat, beforeCombat, afterBullets,
    afterSpawning, afterShooting, afterPlayer.
  rewrite wounded_afterPlayer. cbn [fst snd].
  assert (Hshoot : shootPhase Sample.props Sample.closure (Sample.idle 20000) Sample.canvas
                     Sample.storeWounded = (Sample.storeWounded, [])).
  { unfold shootPhase. cbn. num_eval. reflexivity. }
  rewrite Hshoot. cbn [fst snd].
  assert (Hspawn : spawnPhase Sample.props Sample.closure (Sample.idle 20000) Sample.canvas
                     Sample.storeWounded = Sample.storeWounded).
  { unfold spawnPhase, spawnEnemy, spawnHealthPack, HEALTH_PACK_INTERVAL, Sample.storeWounded.
    do 3 (cbn -[healthPackLoop]; num_eval). reflexivity. }
  rewrite Hspawn.
  assert (Hbullets : bulletPhase Sample.props Sample.canvas Sample.storeWounded
                     = (Sample.storeWounded, [])) by reflexivity.
  rewrite Hbullets. cbn [fst snd].
  unfold enemyPhase.
  cbn [Store.walls Store.decorations Store.player Store.enemies Sample.storeWounded].
  rewrite wounded_enemies. cbn [fst snd].
  unfold combatPhase, pickupPhase, pickupHealthPacks, cleanupPhase, cleanupEnemies,
    cleanupBullets, roundEndCheck.
  cbn. num_eval. cbn. num_eval. reflexivity.
Qed.

(** C1 as stated fails: a player with 8 hp of 100 (within [0, maxHp]) hit by
    one enemy ends the frame with -2 hp, while [setHealth] receives 0. *)
Lemma kamikaze_leaves_hp_negative :
  0 <= Player.hp (Store.player Sample.storeWounded)
    <= Player.maxHp (Store.player Sample.storeWounded)
  /\ Player.hp (Store.player
        (fst (gameLoop Sample.props Sample.closure (Sample.idle 20000)
                Sample.storeWounded)))
     = -2
  /\ In (SetHealth 0)
        (snd (gameLoop Sample.props Sample.closure (Sample.idle 20000)
                Sample.storeWounded)).
Proof.
  rewrite wounded_frame. cbn. split_and; try lra.
  right. left. f_equal. rewrite Rmax_left by lra. reflexivity.
Qed.

(** ** Damage of the bullets *)

(** C4.  In a running frame on a store the component can hold: every
    bullet of the store carries the damage 20 it was created with, as does
    the bullet the frame may fire; integration and despawn keep the damage
    of the bullets they keep; combat leaves each bullet its base and either
    its damage or exactly 0, 0 when it overlaps an enemy and the damage it
    had when it overlaps none, so the damage never increases; the cleanup
    keeps exactly the bullets of positive damage; and every bullet left at
    the end of the frame still carries the damage 20. *)
Theorem bullet_damage_frame (props : Props.t) (closure : Closure.t) (input : Input.t)
  (canvas : Canvas.t) (s : Store) :
  reachable s -> running props input canvas ->
  let shot := Store.bullets (afterShooting props closure input canvas s) in
  let moved := Store.bullets (beforeCombat props closure input canvas s) in
  let targets := map Enemy.base (Store.enemies (beforeCombat props closure input canvas s)) in
  let spent := Store.bullets (afterCombat props closure input canvas s) in
  let kept := Store.bullets (fst (gameLoop props closure input s)) in
  Forall (fun b => Bullet.damage b = 20) (Store.bullets s)
  /\ (shot = Store.bullets s
      \/ exists b, shot = Store.bullets s ++ [b] /\ Bullet.damage b = 20)
  /\ (forall b', In b' moved ->
        exists b, In b shot /\ b' = integrateBullet b /\ Bullet.damage b' = Bullet.damage b)
  /\ Forall2 (fought targets) moved spent
  /\ Forall2 (fun b b' => Bullet.damage b' <= Bullet.damage b
                          /\ (Bullet.damage b' = Bullet.damage b \/ Bullet.damage b' = 0))
       moved spent
  /\ (forall b, In b kept <-> In b spent /\ Bullet.damage b > 0)
  /\ Forall (fun b => Bullet.damage b = 20) kept.
Proof.
  intros Hr Hrun shot moved targets spent kept. subst shot moved targets spent kept.
  destruct (reachable_invariants s Hr) as (_ & _ & Hloaded).
  rewrite (gameLoop_running _ _ _ _ _ Hrun). cbn [fst].
  split; [exact Hloaded|].
  split.
  { destruct (playerPhase_player props input s) as (_ & Hb & _).
    fold (afterPlayer props input s) in Hb.
    destruct (afterShooting_bullets props closure input canvas s) as [[-> _]|[-> _]].
    - left. exact Hb.
    - right. unfold afterShot.
      cbn [Store.bullets Store.with_lastShotTime Store.with_bullets].
      rewrite Hb. eexists. split; reflexivity. }
  split.
  { intros b' Hin. rewrite beforeCombat_bullets in Hin. unfold updateBullets in Hin.
    cbn [fst] in Hin. apply filter_In in Hin. destruct Hin as [Hin _].
    apply in_map_iff in Hin. destruct Hin as (b & <- & Hin).
    exists b. split_and; auto. }
  pose proof (combat_spec props
                (Store.bullets (beforeCombat props closure input canvas s))
                (Store.score (beforeCombat props closure input canvas s))
                (Store.enemies (beforeCombat props closure input canvas s)))
    as (_ & Hfought & Hdmg).
  rewrite <- afterCombat_bullets in Hfought, Hdmg.
  split; [exact Hfought|].
  split.
  { pose proof (beforeCombat_loaded props closure input canvas s Hloaded) as Hl.
    unfold bulletsLoaded in Hl. clear Hfought. revert Hl.
    induction Hdmg as [|b b' bs bs' Hb _ IH]; intros Hl.
    - constructor.
    - inversion Hl as [|? ? H20 Hl']; subst. constructor; [|exact (IH Hl')].
      split; [|exact Hb]. destruct Hb as [->| ->]; lra. }
  split.
  { intros b. rewrite frameEnd_bullets. apply cleanupBullets_spec. }
  apply frameEnd_loaded, Hloaded.
Qed.

(** ** Bullet integration and despawn *)

Lemma checkBulletWallCollision_iff (b : Bullet) (wall : Wall) :
  0 <= Entity.radius (Bullet.base b) ->
  checkBulletWallCollision b wall = true <-> touchesWall b wall.
Proof.
  intros Hr. unfold checkBulletWallCollision, touchesWall, closestPoint, dist,
    Entity.px, Entity.py.
  cbn [Vector2.x Vector2.y].
  destruct (Wall.low wall).
  - split; [discriminate | intros [H _]; discriminate].
  - rewrite ltb_true_iff. split.
    + intros H. split; [reflexivity|].
      apply sq_lt_sqrt; [apply sum_sq_nonneg | exact Hr | exact H].
    + intros [_ H]. apply sqrt_lt_sq; [apply sum_sq_nonneg | exact H].
Qed.

Lemma hitsWall_iff (walls : list Wall) (b : Bullet) :
  0 <= Entity.radius (Bullet.base b) ->
  hitsWall walls b = true <-> exists wall, In wall walls /\ touchesWall b wall.
Proof.
  intros Hr. unfold hitsWall. rewrite existsb_exists.
  split; intros (wall & Hin & H); exists wall; (split; [exact Hin|]);
    apply (checkBulletWallCollision_iff b wall Hr), H.
Qed.

Lemma hitsWall_low_irrelevant (walls : list Wall) (b : Bullet) :
  hitsWall (filter (fun w => negb (Wall.low w)) walls) b = hitsWall walls b.
Proof.
  unfold hitsWall. induction walls as [|w ws IH]; [reflexivity|].
  cbn [filter existsb]. destruct (Wall.low w) eqn:Hlow; cbn [negb existsb].
  - rewrite IH. unfold checkBulletWallCollision at 2. rewrite Hlow. reflexivity.
  - rewrite IH. reflexivity.
Qed.

Lemma bulletKept_true_iff (canvas : Canvas.t) (camera : Vector2) (walls : list Wall)
  (b : Bullet) :
  0 <= Entity.radius (Bullet.base b) ->
  bulletKept canvas camera walls b = true
  <-> (forall wall, In wall walls -> ~ touchesWall b wall)
      /\ dist (Entity.position (Bullet.base b)) camera
         < 1.5 * Rmax (Canvas.width canvas) (Canvas.height canvas).
Proof.
  intros Hr. unfold bulletKept, despawnDistance.
  destruct (hitsWall walls b) eqn:Hhit.
  - apply (hitsWall_iff walls b Hr) in Hhit. destruct Hhit as (wall & Hin & Ht).
    split; [discriminate|]. intros [Hnone _]. exfalso. exact (Hnone wall Hin Ht).
  - rewrite ltb_true_iff. split.
    + intros Hd. split; [|lra]. intros wall Hin Ht.
      assert (Hy : hitsWall walls b = true)
        by (apply (hitsWall_iff walls b Hr); exists wall; auto).
      congruence.
    + intros [_ Hd]. lra.
Qed.

(** C5 (amended).  For bullets of non-negative radius, the step keeps
    exactly the integrated bullets that touch no wall that is not low and
    whose distance to the camera focus is less than 1.5 times the larger
    side of the viewport; a bullet is destroyed exactly when, integrated,
    it touches such a wall or is at that distance or farther.  Low walls
    make no difference and the decorations of the store are not read. *)
Theorem updateBullets_spec (props : Props.t) (canvas : Canvas.t) (s : Store) :
  let camera := cameraPos props (Store.player s) in
  let limit := 1.5 * Rmax (Canvas.width canvas) (Canvas.height canvas) in
  let kept := Store.bullets (fst (bulletPhase props canvas s)) in
  Forall (fun b => 0 <= Entity.radius (Bullet.base b)) (Store.bullets s) ->
  (forall b', In b' kept <->
     exists b, In b (Store.bullets s) /\ b' = integrateBullet b
       /\ (forall wall, In wall (Store.walls s) -> ~ touchesWall b' wall)
       /\ dist (Entity.position (Bullet.base b')) camera < limit)
  /\ (forall b, In b (Store.bullets s) ->
        ~ In (integrateBullet b) kept <->
        (exists wall, In wall (Store.walls s) /\ touchesWall (integrateBullet b) wall)
        \/ limit <= dist (Entity.position (Bullet.base (integrateBullet b))) camera)
  /\ kept = fst (updateBullets canvas camera
                   (filter (fun w => negb (Wall.low w)) (Store.walls s)) (Store.bullets s))
  /\ (forall decorations,
        Store.bullets (fst (bulletPhase props canvas (Store.with_decorations s decorations)))
        = kept).
Proof.
  intros camera limit kept Hrad. subst camera limit kept.
  destruct (bulletPhase_keeps props canvas s) as (_ & Hb & _). rewrite Hb.
  unfold updateBullets. cbn [fst].
  assert (Hrad' : forall b, In b (Store.bullets s) ->
                    0 <= Entity.radius (Bullet.base (integrateBullet b))).
  { intros b Hin. rewrite Forall_forall in Hrad. exact (Hrad b Hin). }
  split; [|split; [|split]].
  - intros b'. rewrite filter_In, in_map_iff. split.
    + intros [(b & <- & Hin) Hk].
      apply (bulletKept_true_iff _ _ _ _ (Hrad' b Hin)) in Hk.
      exists b. split_and; tauto.
    + intros (b & Hin & -> & Hw & Hd). split; [exists b; auto|].
      apply (bulletKept_true_iff _ _ _ _ (Hrad' b Hin)). auto.
  - intros b Hin. rewrite filter_In.
    pose proof (bulletKept_true_iff canvas (cameraPos props (Store.player s))
                  (Store.walls s) (integrateBullet b) (Hrad' b Hin)) as Hk.
    assert (Hmap : In (integrateBullet b) (map integrateBullet (Store.bullets s)))
      by (apply in_map, Hin).
    split.
    + intros Hnot.
      destruct (hitsWall (Store.walls s) (integrateBullet b)) eqn:Hhit.
      * left. apply (hitsWall_iff _ _ (Hrad' b Hin)), Hhit.
      * right.
        destruct (Rle_dec (1.5 * Rmax (Canvas.width canvas) (Canvas.height canvas))
                    (dist (Entity.position (Bullet.base (integrateBullet b)))
                          (cameraPos props (Store.player s)))) as [Hle|Hgt]; [exact Hle|].
        exfalso. apply Hnot. split; [exact Hmap|]. apply Hk. split; [|lra].
        intros wall Hw Ht.
        assert (Hy : hitsWall (Store.walls s) (integrateBullet b) = true)
          by (apply (hitsWall_iff _ _ (Hrad' b Hin)); exists wall; auto).
        congruence.
    + intros Hdestroyed [_ Hkept]. apply Hk in Hkept. destruct Hkept as [Hnone Hd].
      destruct Hdestroyed as [(wall & Hw & Ht)|Hfar]; [exact (Hnone wall Hw Ht) | lra].
  - apply filter_ext. intros b. unfold bulletKept.
    rewrite hitsWall_low_irrelevant. reflexivity.
  - intros decorations. reflexivity.
Qed.

(** C5 as stated fails in two ways.  On the 800 by 600 canvas, whose
    diagonal is 1000, with no wall, a bullet that the integration brings
    1300 away from the camera focus is destroyed, although 1300 is less
    than 1.5 times the diagonal: the limit is 1.5 times the larger side,
    1200.  And a bullet of radius -4 that the integration brings to 3 from
    a wall that is not low, 97 from the camera focus, is destroyed,
    although the distance 3 is not less than its radius: the code compares
    the squares. *)
Lemma bullet_destroyed_off_contact :
  dist (Entity.position (Bullet.base (integrateBullet Sample.farBullet))) (Vector2.mk 0 0)
  = 1300
  /\ 1.5 * viewportDiagonal Sample.canvas = 1500
  /\ fst (updateBullets Sample.canvas (Vector2.mk 0 0) [] [Sample.farBullet]) = []
  /\ dist (Entity.position (Bullet.base (integrateBullet Sample.ghostBullet)))
          (closestPoint Sample.pillar
             (Entity.position (Bullet.base (integrateBullet Sample.ghostBullet)))) = 3
  /\ ~ touchesWall (integrateBullet Sample.ghostBullet) Sample.pillar
  /\ dist (Entity.position (Bullet.base (integrateBullet Sample.ghostBullet)))
          (Vector2.mk 0 0) = 97
  /\ fst (updateBullets Sample.canvas (Vector2.mk 0 0) [Sample.pillar]
            [Sample.ghostBullet]) = [].
Proof.
  assert (Hd : dist (Entity.position (Bullet.base (integrateBullet Sample.farBullet)))
                    (Vector2.mk 0 0) = 1300).
  { unfold dist. cbn. apply sqrt_of_square; lra. }
  assert (Hg : dist (Entity.position (Bullet.base (integrateBullet Sample.ghostBullet)))
          (closestPoint Sample.pillar
             (Entity.position (Bullet.base (integrateBullet Sample.ghostBullet)))) = 3).
  { unfold closestPoint, closestX, closestY, dist, Sample.pillar, Sample.ghostBullet.
    cbn -[sqrt Rmax Rmin]. minmax_eval. apply sqrt_of_square; lra. }
  split_and.
  - exact Hd.
  - unfold viewportDiagonal. cbn.
    replace (sqrt (800 * 800 + 600 * 600)) with 1000
      by (symmetry; apply sqrt_of_square; lra).
    lra.
  - unfold updateBullets. cbn [fst map filter]. unfold bulletKept.
    cbn [hitsWall existsb]. rewrite Hd. unfold despawnDistance.
    cbn [Canvas.width Canvas.height Sample.canvas].
    rewrite Rmax_left by lra. num_eval. reflexivity.
  - exact Hg.
  - intros [_ Hlt]. rewrite Hg in Hlt. cbn in Hlt. lra.
  - unfold dist. cbn. apply sqrt_of_square; lra.
  - unfold updateBullets, bulletKept, hitsWall, checkBulletWallCollision, closestX, closestY,
      Sample.pillar, Sample.ghostBullet.
    cbn -[sqrt Rmax Rmin]. minmax_eval. num_eval. reflexivity.
Qed.

(** ** The shooting step *)

(** C7 (amended).  The step fires exactly when the player is alive, the
    game state is [PLAYING], the mouse is held, more than 500 ms have
    passed since the last shot, and ammo is positive.  When it fires it
    appends one bullet, takes exactly one round, sets the time of the last
    shot and calls the shot sound; otherwise it changes nothing and makes
    no call.  A count of rounds stays a count of rounds, so in every store
    the component can hold, and after the step on it, ammo is not
    negative. *)
Theorem shootPhase_spec (props : Props.t) (closure : Closure.t) (input : Input.t)
  (canvas : Canvas.t) (s : Store) :
  let s' := fst (shootPhase props closure input canvas s) in
  let evs := snd (shootPhase props closure input canvas s) in
  (canFire props input s <-> exists b, Store.bullets s' = Store.bullets s ++ [b])
  /\ (canFire props input s ->
        s' = afterShot closure input canvas s
        /\ Store.bullets s'
           = Store.bullets s
             ++ [newBullet closure (Input.time input) (aimAngle input canvas) (Store.player s')]
        /\ Player.ammo (Store.player s') = Player.ammo (Store.player s) - 1
        /\ Store.lastShotTime s' = Input.time input
        /\ In PlayShoot evs)
  /\ (~ canFire props input s -> s' = s /\ evs = [])
  /\ (ammoCounted s -> ammoCounted s')
  /\ (reachable s ->
        0 <= Player.ammo (Store.player s) /\ 0 <= Player.ammo (Store.player s')).
Proof.
  intros s' evs. subst s' evs.
  assert (Hcount : ammoCounted s ->
                   ammoCounted (fst (shootPhase props closure input canvas s))).
  { intros (n & Hn & Hrange).
    destruct (shootPhase_ammo_count props closure input canvas s n Hn (proj1 Hrange))
      as (n' & Hn' & Hr').
    exists n'. split; [exact Hn' | lia]. }
  split_and.
  - destruct (canFire_dec props input s) as [Hf|Hf].
    + rewrite (shootPhase_fires _ _ _ _ _ Hf). cbn. split; [|auto].
      intros _. eexists. reflexivity.
    + rewrite (shootPhase_holds _ _ _ _ _ Hf). cbn. split; [tauto|].
      intros (b & Hb). exfalso.
      apply (f_equal (@List.length Bullet)) in Hb. rewrite length_app in Hb.
      cbn in Hb. lia.
  - intros Hf. rewrite (shootPhase_fires _ _ _ _ _ Hf). cbn [fst snd].
    split_and; try reflexivity. left. reflexivity.
  - intros Hf. rewrite (shootPhase_holds _ _ _ _ _ Hf). auto.
  - exact Hcount.
  - intros Hr. destruct (reachable_invariants s Hr) as (_ & Hammo & _).
    split.
    + destruct Hammo as (n & -> & Hrange). apply IZR_le. lia.
    + destruct (Hcount Hammo) as (n & -> & Hrange). apply IZR_le. lia.
Qed.

Lemma sample_can_fire : canFire Sample.props (Sample.firing 501) Sample.storeFresh.
Proof. unfold canFire, FIRE_RATE. cbn. split_and; auto; lra. Qed.

(** On the freshly mounted component, 501 ms in with the mouse held, the
    step takes one of the 120 rounds. *)
Lemma shootPhase_spec_witness :
  Player.ammo (Store.player
    (fst (shootPhase Sample.props Sample.closure (Sample.firing 501) Sample.canvas
            Sample.storeFresh)))
  = Player.ammo (Store.player Sample.storeFresh) - 1
  /\ 0 <= Player.ammo (Store.player Sample.storeFresh).
Proof.
  destruct (shootPhase_spec Sample.props Sample.closure (Sample.firing 501) Sample.canvas
              Sample.storeFresh) as (_ & Hfire & _ & _ & Hreach).
  split.
  - apply (Hfire sample_can_fire).
  - apply (Hreach (reach_mount Sample.closure)).
Defined.

(** C7 as stated fails: exactly 500 ms after the last shot, with the
    player alive, the game in play, the mouse held and 120 rounds left, the
    step fires nothing and leaves the store as it was. *)
Lemma no_shot_at_exactly_500 :
  Player.hp (Store.player Sample.storeFresh) > 0
  /\ Props.gameState Sample.props = PLAYING
  /\ Input.isMouseDown (Sample.firing 500) = true
  /\ Input.time (Sample.firing 500) - Store.lastShotTime Sample.storeFresh >= 500
  /\ Player.ammo (Store.player Sample.storeFresh) > 0
  /\ shootPhase Sample.props Sample.closure (Sample.firing 500) Sample.canvas
       Sample.storeFresh
     = (Sample.storeFresh, []).
Proof.
  split_and; try (cbn; lra); try reflexivity.
  apply shootPhase_holds. unfold canFire, FIRE_RATE. cbn. intros (_ & _ & _ & H & _). lra.
Qed.

(** * Further properties of the code *)

(** ** Circle against circle: the push *)

(** X1.  With [d] the distance of the entity's centre to the decoration's
    centre and [m] the sum of the two radii: when [0 < d < m] the function
    returns true and moves the entity along the line of the centres, away
    from the decoration, by exactly [m - d], so that the distance of the
    centres becomes [m]; when [m] is not negative and [d] is 0 or at least
    [m] it returns false and the entity as it was; velocity, radius, id and
    color are never changed. *)
Theorem resolveDecorationCollision_spec (entity : Entity) (decor : Decoration) :
  let c := decorCentre decor in
  let d := dist (Entity.position entity) c in
  let m := Entity.radius entity + Decoration.radius decor in
  let entity' := fst (resolveDecorationCollision entity decor) in
  (0 < d < m ->
     snd (resolveDecorationCollision entity decor) = true
     /\ Entity.px entity'
        = Entity.px entity + (Entity.px entity - Decoration.x decor) / d * (m - d)
     /\ Entity.py entity'
        = Entity.py entity + (Entity.py entity - Decoration.y decor) / d * (m - d)
     /\ dist (Entity.position entity') c = m)
  /\ (0 <= m -> d = 0 \/ m <= d -> resolveDecorationCollision entity decor = (entity, false))
  /\ Entity.velocity entity' = Entity.velocity entity
  /\ Entity.radius entity' = Entity.radius entity
  /\ Entity.id entity' = Entity.id entity
  /\ Entity.color entity' = Entity.color entity.
Proof.
  intros c d m entity'. subst c d m entity'.
  destruct entity as [eid [px py] vel rad col].
  unfold resolveDecorationCollision, decorCentre, dist, Entity.px, Entity.py.
  cbn [Entity.position Entity.radius Entity.velocity Entity.id Entity.color
       Vector2.x Vector2.y].
  set (u := px - Decoration.x decor).
  set (v := py - Decoration.y decor).
  set (m := rad + Decoration.radius decor).
  split; [|split].
  - intros Hd. rewrite (wall_test_true u v m Hd). destruct Hd as [Hd0 Hd1].
    cbn [fst snd Entity.with_position Entity.position Vector2.x Vector2.y].
    split_and; try reflexivity.
    replace (px + u / sqrt (u * u + v * v) * (m - sqrt (u * u + v * v)) - Decoration.x decor)
      with (u + u / sqrt (u * u + v * v) * (m - sqrt (u * u + v * v)))
      by (unfold u; ring).
    replace (py + v / sqrt (u * u + v * v) * (m - sqrt (u * u + v * v)) - Decoration.y decor)
      with (v + v / sqrt (u * u + v * v) * (m - sqrt (u * u + v * v)))
      by (unfold v; ring).
    apply pushed_distance; lra.
  - intros Hm Hd. rewrite (wall_test_false u v m Hm Hd). reflexivity.
  - destruct ((u * u + v * v <? m * m) && (u * u + v * v >? 0)); cbn; auto.
Qed.

(** An entity 18 away from a cactus (radii 15 and 15) ends 30 away from
    it; one 40 away is returned as it is. *)
Lemma resolveDecorationCollision_spec_witness :
  dist (Entity.position (fst (resolveDecorationCollision Sample.entityNear Sample.cactusRight)))
       (decorCentre Sample.cactusRight) = 30
  /\ resolveDecorationCollision Sample.entityNear Sample.cactusAway
     = (Sample.entityNear, false).
Proof.
  split.
  - replace 30 with (Entity.radius Sample.entityNear + Decoration.radius Sample.cactusRight)
      by (cbn; lra).
    apply (resolveDecorationCollision_spec Sample.entityNear Sample.cactusRight).
    unfold dist. cbn.
    replace (sqrt ((5 - 23) * (5 - 23) + (20 - 20) * (20 - 20))) with 18
      by (symmetry; apply sqrt_of_square; lra).
    lra.
  - apply (resolveDecorationCollision_spec Sample.entityNear Sample.cactusAway).
    + cbn. lra.
    + right. unfold dist. cbn.
      replace (sqrt ((5 - 45) * (5 - 45) + (20 - 20) * (20 - 20))) with 40
        by (symmetry; apply sqrt_of_square; lra).
      lra.
Defined.

(** ** Ray against segment: when a hit is returned *)

Lemma cross_magnitudes (rayStart rayEnd segmentStart segmentEnd : Vector2) :
  cross rayStart rayEnd segmentStart segmentEnd <> 0 ->
  sqrt ((Vector2.x rayEnd - Vector2.x rayStart) * (Vector2.x rayEnd - Vector2.x rayStart)
        + (Vector2.y rayEnd - Vector2.y rayStart) * (Vector2.y rayEnd - Vector2.y rayStart))
  * sqrt ((Vector2.x segmentEnd - Vector2.x segmentStart)
          * (Vector2.x segmentEnd - Vector2.x segmentStart)
          + (Vector2.y segmentEnd - Vector2.y segmentStart)
            * (Vector2.y segmentEnd - Vector2.y segmentStart)) <> 0.
Proof.
  unfold cross. intros Hc Hz.
  assert (Hsq : forall a b : R, a * a + b * b = 0 -> a = 0 /\ b = 0).
  { intros a b H. split; nra. }
  apply Rmult_integral in Hz. destruct Hz as [Hz|Hz];
    apply sqrt_eq_0 in Hz; try apply sum_sq_nonneg;
    apply Hsq in Hz; destruct Hz as [Ha Hb]; apply Hc; rewrite Ha, Hb; ring.
Qed.

(** X2.  [getIntersection] returns a hit exactly when the directions are
    not parallel, the ray parameter is in (0, 1] and the segment parameter
    in [0, 1]; the hit is then the point of the ray at that parameter,
    with the parameter. *)
Theorem getIntersection_hit_iff (rayStart rayEnd segmentStart segmentEnd : Vector2)
  (i : Intersection.t) :
  getIntersection rayStart rayEnd segmentStart segmentEnd = Some i
  <-> cross rayStart rayEnd segmentStart segmentEnd <> 0
      /\ 0 < ray_t rayStart rayEnd segmentStart segmentEnd <= 1
      /\ 0 <= seg_u rayStart rayEnd segmentStart segmentEnd <= 1
      /\ i = Intersection.mk
               (Vector2.x (pointAt rayStart rayEnd
                             (ray_t rayStart rayEnd segmentStart segmentEnd)))
               (Vector2.y (pointAt rayStart rayEnd
                             (ray_t rayStart rayEnd segmentStart segmentEnd)))
               (ray_t rayStart rayEnd segmentStart segmentEnd).
Proof.
  split.
  - intros H. apply getIntersection_some in H.
    destruct H as (Hd & _ & _ & Hp & Ht & Hu & Hxy).
    split_and; try tauto.
    destruct i as [ix iy ip].
    cbn [Intersection.x Intersection.y Intersection.param] in Hp, Hxy.
    rewrite <- Hxy, <- Hp. reflexivity.
  - intros (Hc & Ht & Hu & ->).
    unfold getIntersection.
    rewrite (proj2 (eqb_false_iff _ _) (cross_magnitudes _ _ _ _ Hc)).
    unfold cross in Hc. rewrite (proj2 (eqb_false_iff _ _) Hc).
    rewrite (proj2 (gtb_true_iff _ _) (proj1 Ht)), (proj2 (leb_true_iff _ _) (proj2 Ht)).
    rewrite (proj2 (geb_true_iff _ _) (proj1 Hu)), (proj2 (leb_true_iff _ _) (proj2 Hu)).
    reflexivity.
Qed.

(** ** Movement of the player and steering of the enemies *)

Lemma normalized_speed (mx my s : R) :
  0 < sqrt (mx * mx + my * my) ->
  (mx / sqrt (mx * mx + my * my) * s) * (mx / sqrt (mx * mx + my * my) * s)
  + (my / sqrt (mx * mx + my * my) * s) * (my / sqrt (mx * mx + my * my) * s)
  = s * s.
Proof.
  intros Hd. pose proof (sqrt_sum_sq_sq mx my) as Hs.
  set (d := sqrt (mx * mx + my * my)) in *.
  assert (Hne : d <> 0) by lra.
  replace (mx / d * s * (mx / d * s) + my / d * s * (my / d * s))
    with ((mx * mx + my * my) * (s * s) / (d * d)) by (field; exact Hne).
  rewrite <- Hs. field. exact Hne.
Qed.

Lemma movePlayer_velocity (keys : string -> bool) (player : Player) :
  let mx := keyAxis (keys "a") (keys "d") in
  let my := keyAxis (keys "w") (keys "s") in
  let len := sqrt (mx * mx + my * my) in
  Entity.velocity (Player.base (movePlayer keys player))
  = (if len >? 0
     then Vector2.mk (mx / len * Player.speed player) (my / len * Player.speed player)
     else Vector2.mk 0 0).
Proof.
  intros mx my len. subst len. unfold movePlayer.
  set (cy := if keys "s" then _ else _).
  set (cx := if keys "d" then _ else _).
  assert (Hx : cx = mx) by (unfold cx, mx, keyAxis; destruct (keys "a"), (keys "d"); lra).
  assert (Hy : cy = my) by (unfold cy, my, keyAxis; destruct (keys "w"), (keys "s"); lra).
  rewrite Hx, Hy. reflexivity.
Qed.

Lemma keyAxis_values (negative positive : bool) :
  keyAxis negative positive = 0 \/ keyAxis negative positive = 1
  \/ keyAxis negative positive = -1.
Proof. unfold keyAxis. destruct negative, positive; lra. Qed.

Lemma sqrt_axis (m : R) : m = 1 \/ m = -1 -> sqrt (m * m + 0 * 0) = 1.
Proof. intros [-> | ->]; apply sqrt_of_square; lra. Qed.

(** X3.  [movePlayer] sets the velocity from the keys and adds it to the
    position.  With no net direction (no key, or opposite keys held
    together) the velocity is zero; with a net direction the velocity has
    exactly the length of the player's speed, also on a diagonal; along one
    axis it is the speed on that axis.  Nothing else of the player
    changes. *)
Theorem movePlayer_spec (keys : string -> bool) (player : Player) :
  let mx := keyAxis (keys "a") (keys "d") in
  let my := keyAxis (keys "w") (keys "s") in
  let player' := movePlayer keys player in
  let v := Entity.velocity (Player.base player') in
  Entity.px (Player.base player') = Entity.px (Player.base player) + Vector2.x v
  /\ Entity.py (Player.base player') = Entity.py (Player.base player) + Vector2.y v
  /\ (mx = 0 -> my = 0 -> v = Vector2.mk 0 0)
  /\ (mx <> 0 \/ my <> 0 ->
      Vector2.x v * Vector2.x v + Vector2.y v * Vector2.y v
      = Player.speed player * Player.speed player)
  /\ (mx <> 0 -> my = 0 -> v = Vector2.mk (mx * Player.speed player) 0)
  /\ (mx = 0 -> my <> 0 -> v = Vector2.mk 0 (my * Player.speed player))
  /\ Player.hp player' = Player.hp player
  /\ Player.maxHp player' = Player.maxHp player
  /\ Player.ammo player' = Player.ammo player
  /\ Player.speed player' = Player.speed player
  /\ Entity.radius (Player.base player') = Entity.radius (Player.base player)
  /\ Entity.id (Player.base player') = Entity.id (Player.base player).
Proof.
  intros mx my player' v.
  assert (Hv : v = (if sqrt (mx * mx + my * my) >? 0
                    then Vector2.mk (mx / sqrt (mx * mx + my * my) * Player.speed player)
                                    (my / sqrt (mx * mx + my * my) * Player.speed player)
                    else Vector2.mk 0 0))
    by apply movePlayer_velocity.
  split_and; try reflexivity.
  - intros Hx Hy. rewrite Hv, Hx, Hy, sqrt_zero_sq.
    rewrite (proj2 (gtb_false_iff 0 0)) by lra. reflexivity.
  - intros Hnz. rewrite Hv.
    assert (Hpos : 0 < sqrt (mx * mx + my * my)).
    { apply sqrt_lt_R0. destruct Hnz; nra. }
    rewrite (proj2 (gtb_true_iff _ _) Hpos). cbn [Vector2.x Vector2.y].
    apply normalized_speed, Hpos.
  - intros Hx Hy. rewrite Hv, Hy.
    assert (H1 : sqrt (mx * mx + 0 * 0) = 1).
    { apply sqrt_axis. destruct (keyAxis_values (keys "a") (keys "d")) as [H|H]; tauto. }
    rewrite H1. rewrite (proj2 (gtb_true_iff 1 0)) by lra. f_equal; field.
  - intros Hx Hy. rewrite Hv, Hx.
    assert (H1 : sqrt (0 * 0 + my * my) = 1).
    { replace (0 * 0 + my * my) with (my * my + 0 * 0) by ring.
      apply sqrt_axis. destruct (keyAxis_values (keys "w") (keys "s")) as [H|H]; tauto. }
    rewrite H1. rewrite (proj2 (gtb_true_iff 1 0)) by lra. f_equal; field.
Qed.

(** The scenario of the specification: a player of speed 4 at the origin
    holding "d" gets the velocity (4, 0); holding "w" and "d" it still
    moves at speed 4. *)
Lemma movePlayer_spec_witness :
  Entity.velocity (Player.base (movePlayer Sample.keysRight
                                  (freshPlayer Sample.closure (Vector2.mk 0 0))))
  = Vector2.mk ((1 - 0) * 4) 0
  /\ Vector2.x (Entity.velocity (Player.base (movePlayer Sample.keysUpRight
                    (freshPlayer Sample.closure (Vector2.mk 0 0)))))
     * Vector2.x (Entity.velocity (Player.base (movePlayer Sample.keysUpRight
                    (freshPlayer Sample.closure (Vector2.mk 0 0)))))
     + Vector2.y (Entity.velocity (Player.base (movePlayer Sample.keysUpRight
                    (freshPlayer Sample.closure (Vector2.mk 0 0)))))
       * Vector2.y (Entity.velocity (Player.base (movePlayer Sample.keysUpRight
                    (freshPlayer Sample.closure (Vector2.mk 0 0)))))
     = 4 * 4.
Proof.
  split.
  - destruct (movePlayer_spec Sample.keysRight (freshPlayer Sample.closure (Vector2.mk 0 0)))
      as (_ & _ & _ & _ & Haxis & _).
    apply Haxis; unfold keyAxis; cbn; lra.
  - destruct (movePlayer_spec Sample.keysUpRight (freshPlayer Sample.closure (Vector2.mk 0 0)))
      as (_ & _ & _ & Hdiag & _).
    apply Hdiag. left. unfold keyAxis. cbn. lra.
Defined.

(** X4.  [steerEnemy] leaves the enemy as it is when the player is dead
    or stands exactly on it; otherwise it points the enemy's velocity
    straight at the player, with exactly the length of the enemy's speed,
    and changes nothing else. *)
Theorem steerEnemy_spec (player : Player) (e : Enemy) :
  let dx := Entity.px (Player.base player) - Entity.px (Enemy.base e) in
  let dy := Entity.py (Player.base player) - Entity.py (Enemy.base e) in
  let d := dist (Entity.position (Player.base player)) (Entity.position (Enemy.base e)) in
  let e' := steerEnemy player e in
  let v := Entity.velocity (Enemy.base e') in
  (Player.hp player <= 0 -> e' = e)
  /\ (d = 0 -> e' = e)
  /\ (0 < Player.hp player -> 0 < d ->
      v = Vector2.mk (dx / d * Enemy.speed e) (dy / d * Enemy.speed e)
      /\ Vector2.x v * Vector2.x v + Vector2.y v * Vector2.y v
         = Enemy.speed e * Enemy.speed e)
  /\ Entity.position (Enemy.base e') = Entity.position (Enemy.base e)
  /\ Entity.radius (Enemy.base e') = Entity.radius (Enemy.base e)
  /\ Entity.id (Enemy.base e') = Entity.id (Enemy.base e)
  /\ Enemy.hp e' = Enemy.hp e
  /\ Enemy.speed e' = Enemy.speed e
  /\ Enemy.value e' = Enemy.value e.
Proof.
  intros dx dy d e' v. subst dx dy d e' v.
  unfold steerEnemy, dist, Entity.px, Entity.py.
  set (dx := Vector2.x (Entity.position (Player.base player))
             - Vector2.x (Entity.position (Enemy.base e))).
  set (dy := Vector2.y (Entity.position (Player.base player))
             - Vector2.y (Entity.position (Enemy.base e))).
  destruct (Player.hp player >? 0) eqn:Hhp; num_prop.
  - destruct (sqrt (dx * dx + dy * dy) >? 0) eqn:Hd; num_prop.
    + cbn. split_and; try reflexivity; try (intros; lra).
      intros _ _. split; [reflexivity|]. apply normalized_speed, Hd.
    + pose proof (sqrt_pos (dx * dx + dy * dy)).
      split_and; try reflexivity; intros; lra.
  - split_and; try reflexivity; intros; lra.
Qed.

(** The walker, 20 to the right of the wounded player, is pointed to the
    left at its speed 2. *)
Lemma steerEnemy_spec_witness :
  Entity.velocity (Enemy.base (steerEnemy Sample.woundedPlayer Sample.walker))
  = Vector2.mk ((0 - 20) / dist (Vector2.mk 0 0) (Vector2.mk 20 0) * 2)
               ((0 - 0) / dist (Vector2.mk 0 0) (Vector2.mk 20 0) * 2).
Proof.
  destruct (steerEnemy_spec Sample.woundedPlayer Sample.walker)
    as (_ & _ & Hsteer & _).
  apply Hsteer.
  - cbn. lra.
  - unfold dist. cbn.
    replace (sqrt ((0 - 20) * (0 - 20) + (0 - 0) * (0 - 0))) with 20
      by (symmetry; apply sqrt_of_square; lra).
    lra.
Defined.

(** ** Spawning of enemies *)

Lemma circle_distance (p : Vector2) (angle radius : R) :
  dist (Vector2.mk (Vector2.x p + cos angle * radius) (Vector2.y p + sin angle * radius)) p
  = Rabs radius.
Proof.
  unfold dist. cbn [Vector2.x Vector2.y].
  pose proof (sin2_cos2 angle) as Hsc. unfold Rsqr in Hsc.
  replace ((Vector2.x p + cos angle * radius - Vector2.x p)
           * (Vector2.x p + cos angle * radius - Vector2.x p)
           + (Vector2.y p + sin angle * radius - Vector2.y p)
             * (Vector2.y p + sin angle * radius - Vector2.y p))
    with (radius * radius * (sin angle * sin angle + cos angle * cos angle)) by ring.
  rewrite Hsc, Rmult_1_r.
  replace (radius * radius) with (Rsqr radius) by reflexivity.
  apply sqrt_Rsqr_abs.
Qed.

(** X5.  [spawnEnemy] does nothing unless the player is alive, the match
    is not a multiplayer one and more than the spawn rate has passed since
    the last spawn.  Then it tries one point, on the circle of radius
    max(width, height) / 2 + 100 around the position it is given: a point
    strictly inside a wall is given up without resetting the timer (one
    draw made), any other point receives one new enemy of 1 hp worth 10,
    at rest, of radius in [12, 20) and of speed within 0.8 to 1.2 times
    the level's, and the timer is set to [now] (three draws made). *)
Theorem spawnEnemy_spec (closure : Closure.t) (canvas : Canvas.t) (rnd : nat -> R)
  (now : R) (playerPos : Vector2) (s : Store) (k : nat) :
  (forall n, Num.unit_interval (rnd n)) ->
  let r := spawnEnemy closure canvas rnd now playerPos s k in
  let p := enemySpawnPoint canvas rnd k playerPos in
  (~ spawnDue closure now s -> r = (s, k))
  /\ (spawnDue closure now s -> blocked (Store.walls s) p -> r = (s, S k))
  /\ (spawnDue closure now s -> ~ blocked (Store.walls s) p ->
      exists e,
        r = (Store.with_lastSpawnTime (Store.with_enemies s (Store.enemies s ++ [e])) now,
             S (S (S k)))
        /\ Entity.position (Enemy.base e) = p
        /\ dist p playerPos = Rabs (spawnRadius canvas)
        /\ Entity.velocity (Enemy.base e) = Vector2.mk 0 0
        /\ Entity.id (Enemy.base e) = EnemyId now
        /\ 12 <= Entity.radius (Enemy.base e) < 20
        /\ Enemy.hp e = 1
        /\ Enemy.value e = 10
        /\ (exists f, 0.8 <= f < 1.2
              /\ Enemy.speed e
                 = LevelConfig.enemySpeed (Closure.levelConfig closure) * f)).
Proof.
  intros Hrnd r p. subst r p.
  unfold spawnDue, spawnEnemy.
  fold (spawnRadius canvas).
  change (Vector2.x playerPos + cos (rnd k * PI * 2) * spawnRadius canvas)
    with (Vector2.x (enemySpawnPoint canvas rnd k playerPos)).
  change (Vector2.y playerPos + sin (rnd k * PI * 2) * spawnRadius canvas)
    with (Vector2.y (enemySpawnPoint canvas rnd k playerPos)).
  set (p := enemySpawnPoint canvas rnd k playerPos).
  destruct (Player.hp (Store.player s) <=? 0) eqn:Hhp; num_prop.
  { split_and; [reflexivity | intros (H & _); lra | intros (H & _); lra]. }
  destruct (Closure.isMultiplayer closure) eqn:Hmulti.
  { split_and; [reflexivity | intros (_ & H & _); discriminate
               | intros (_ & H & _); discriminate]. }
  destruct (_ >? _) eqn:Hdue; num_prop.
  2: { split_and; [reflexivity | intros (_ & _ & H); lra | intros (_ & _ & H); lra]. }
  destruct (inWall (Store.walls s) (Vector2.x p) (Vector2.y p)) eqn:Hwall; cbn [negb].
  - apply inWall_true_iff in Hwall.
    split_and; [intros H; exfalso; apply H; repeat split; [lra | lra]
               | reflexivity | intros _ H; contradiction].
  - assert (Hfree : ~ blocked (Store.walls s) p).
    { intros Hb. apply inWall_true_iff in Hb. congruence. }
    split_and; [intros H; exfalso; apply H; repeat split; [lra | lra]
               | intros _ H; contradiction |].
    intros _ _. eexists. split; [reflexivity|].
    cbn. pose proof (Hrnd (S k)) as [Ha Hb]. pose proof (Hrnd (S (S k))) as [Hc Hd].
    split_and; try reflexivity; try lra.
    + apply circle_distance.
    + exists (0.8 + rnd (S (S k)) * 0.4). split; [lra | reflexivity].
Qed.

(** On a store without walls, 2000 ms after the last spawn, with every
    draw at 1/2. *)
Lemma spawnEnemy_spec_witness :
  (forall n : nat, Num.unit_interval ((fun _ : nat => 1 / 2) n))
  /\ spawnDue Sample.closure 2000 Sample.storeOnCactus
  /\ exists e,
       spawnEnemy Sample.closure Sample.canvas (fun _ => 1 / 2) 2000 (Vector2.mk 0 0)
                  Sample.storeOnCactus 0
       = (Store.with_lastSpawnTime
            (Store.with_enemies Sample.storeOnCactus
               (Store.enemies Sample.storeOnCactus ++ [e])) 2000, 3%nat)
       /\ Enemy.hp e = 1 /\ Enemy.value e = 10.
Proof.
  assert (Hrnd : forall n : nat, Num.unit_interval ((fun _ : nat => 1 / 2) n))
    by (intros n; unfold Num.unit_interval; lra).
  assert (Hdue : spawnDue Sample.closure 2000 Sample.storeOnCactus)
    by (unfold spawnDue; cbn; split_and; [lra | reflexivity | lra]).
  split; [exact Hrnd|]. split; [exact Hdue|].
  destruct (spawnEnemy_spec Sample.closure Sample.canvas (fun _ => 1 / 2) 2000
              (Vector2.mk 0 0) Sample.storeOnCactus 0 Hrnd) as (_ & _ & Hspawn).
  destruct (Hspawn Hdue) as (e & Hr & _ & _ & _ & _ & _ & Hhp & Hval & _).
  - intros (wall & [] & _).
  - exists e. split_and; assumption.
Defined.

(** ** What each step changes in the store *)

Lemma playerPhase_frame (props : Props.t) (input : Input.t) (s : Store) :
  let s' := fst (playerPhase props input s) in
  Store.enemies s' = Store.enemies s
  /\ Store.walls s' = Store.walls s
  /\ Store.healthPacks s' = Store.healthPacks s
  /\ Store.decorations s' = Store.decorations s
  /\ Store.score s' = Store.score s
  /\ Store.lastSpawnTime s' = Store.lastSpawnTime s
  /\ Store.lastHealthPackTime s' = Store.lastHealthPackTime s.
Proof.
  unfold playerPhase.
  destruct (_ && _); [|cbn; split_and; reflexivity].
  destruct (resolveDecorations _ _) as [afterDecor hit].
  destruct (cactusDamage _ _ _ _) as [[player' last] evs].
  destruct (_ && _); cbn; split_and; reflexivity.
Qed.

Lemma shootPhase_frame (props : Props.t) (closure : Closure.t) (input : Input.t)
  (canvas : Canvas.t) (s : Store) :
  let s' := fst (shootPhase props closure input canvas s) in
  Store.enemies s' = Store.enemies s
  /\ Store.walls s' = Store.walls s
  /\ Store.healthPacks s' = Store.healthPacks s
  /\ Store.decorations s' = Store.decorations s
  /\ Store.score s' = Store.score s
  /\ Store.lastSpawnTime s' = Store.lastSpawnTime s
  /\ Store.lastHealthPackTime s' = Store.lastHealthPackTime s
  /\ Entity.position (Player.base (Store.player s'))
     = Entity.position (Player.base (Store.player s)).
Proof.
  unfold shootPhase.
  repeat match goal with
  | |- context [if ?c then _ else _] => destruct c
  end; cbn; split_and; reflexivity.
Qed.

Lemma healthPackLoop_frame (rnd : nat -> R) (now : R) (s : Store) (fuel k : nat) :
  let s' := fst (healthPackLoop fuel rnd now s k) in
  Store.enemies s' = Store.enemies s
  /\ Store.decorations s' = Store.decorations s
  /\ Store.score s' = Store.score s
  /\ Store.lastSpawnTime s' = Store.lastSpawnTime s.
Proof.
  revert k. induction fuel as [|fuel IH]; intros k; cbn [healthPackLoop].
  - cbn. auto.
  - destruct (negb _); [cbn; auto | apply IH].
Qed.

Lemma spawnPhase_frame (props : Props.t) (closure : Closure.t) (input : Input.t)
  (canvas : Canvas.t) (s : Store) :
  let s' := spawnPhase props closure input canvas s in
  let spawned :=
    fst (spawnEnemy closure canvas (Input.rnd input) (Input.time input)
           (cameraPos props (Store.player s)) s 0) in
  Store.enemies s' = Store.enemies spawned
  /\ Store.decorations s' = Store.decorations s
  /\ Store.score s' = Store.score s.
Proof.
  unfold spawnPhase.
  destruct (spawnEnemy _ _ _ _ _ s 0) as [s1 k1] eqn:Hspawn. cbn [fst].
  assert (H1 : Store.decorations s1 = Store.decorations s /\ Store.score s1 = Store.score s).
  { revert Hspawn. unfold spawnEnemy.
    repeat match goal with
    | |- context [if ?c then _ else _] => destruct c
    end; intros [= <- <-]; cbn; auto. }
  destruct H1 as [Hd Hs].
  destruct (GameState_eqb _ _); [|auto].
  unfold spawnHealthPack. destruct (_ >? _); [|cbn; auto].
  destruct (healthPackLoop_frame (Input.rnd input) (Input.time input) s1 10 k1)
    as (He & Hd' & Hs' & _).
  rewrite He, Hd', Hs'. auto.
Qed.

Lemma bulletPhase_frame (props : Props.t) (canvas : Canvas.t) (s : Store) :
  let s' := fst (bulletPhase props canvas s) in
  Store.walls s' = Store.walls s
  /\ Store.healthPacks s' = Store.healthPacks s
  /\ Store.decorations s' = Store.decorations s
  /\ Store.score s' = Store.score s.
Proof.
  unfold bulletPhase. destruct (updateBullets _ _ _ _) as [bs evs]. cbn. auto.
Qed.

Lemma enemyPhase_frame (closure : Closure.t) (s : Store) :
  let s' := fst (enemyPhase closure s) in
  Store.enemies s'
  = snd (fst (updateEnemies closure (Store.walls s) (Store.decorations s)
                (Store.player s) (Store.enemies s)))
  /\ Store.walls s' = Store.walls s
  /\ Store.healthPacks s' = Store.healthPacks s
  /\ Store.decorations s' = Store.decorations s
  /\ Store.score s' = Store.score s.
Proof.
  unfold enemyPhase. destruct (updateEnemies _ _ _ _ _) as [[p es] evs]. cbn. auto.
Qed.

Lemma combatPhase_frame (props : Props.t) (s : Store) :
  let s' := fst (combatPhase props s) in
  let r := combat props (Store.bullets s) (Store.score s) (Store.enemies s) in
  Store.enemies s' = snd (fst r)
  /\ Store.score s' = snd (fst (fst r))
  /\ snd (combatPhase props s) = snd r
  /\ Store.walls s' = Store.walls s
  /\ Store.healthPacks s' = Store.healthPacks s
  /\ Store.decorations s' = Store.decorations s.
Proof.
  unfold combatPhase. destruct (combat _ _ _ _) as [[[bs sc] es] evs]. cbn.
  split_and; reflexivity.
Qed.

Lemma pickupPhase_frame (s : Store) :
  let s' := fst (pickupPhase s) in
  Store.enemies s' = Store.enemies s
  /\ Store.walls s' = Store.walls s
  /\ Store.decorations s' = Store.decorations s
  /\ Store.score s' = Store.score s
  /\ Store.healthPacks s'
     = snd (fst (pickupHealthPacks (Store.player s) (Store.healthPacks s))).
Proof.
  unfold pickupPhase. destruct (pickupHealthPacks _ _) as [[p hs] evs]. cbn.
  split_and; reflexivity.
Qed.

(** ** The calls each step makes *)

Lemma cactusDamage_emits (time last : R) (hit : bool) (p : Player) :
  Forall (fun ev => emits Moving ev = true) (snd (cactusDamage time last hit p)).
Proof.
  unfold cactusDamage.
  destruct (_ && _); [|constructor].
  destruct (_ >? _); [|constructor]. cbn [snd].
  destruct (_ <=? _); repeat constructor.
Qed.

Lemma playerPhase_emits (props : Props.t) (input : Input.t) (s : Store) :
  Forall (fun ev => emits Moving ev = true) (snd (playerPhase props input s)).
Proof.
  unfold playerPhase.
  destruct (_ && _); [|constructor].
  destruct (resolveDecorations _ _) as [afterDecor hit].
  pose proof (cactusDamage_emits (Input.time input) (Store.lastCactusDamageTime s) hit
                (Player.with_base (movePlayer (Input.keys input) (Store.player s))
                   afterDecor)) as H.
  destruct (cactusDamage _ _ _ _) as [[player' last] evs]. cbn [snd] in H.
  destruct (_ && _); cbn [snd]; [|exact H].
  apply Forall_app. split; [exact H | repeat constructor].
Qed.

Lemma roundEndCheck_emits (props : Props.t) (p : Player) :
  Forall (fun ev => emits RoundCheck ev = true) (roundEndCheck props p).
Proof.
  unfold roundEndCheck.
  destruct (_ && _); [|constructor].
  destruct (_ <=? _)%nat; repeat constructor.
Qed.

Lemma shootPhase_emits (props : Props.t) (closure : Closure.t) (input : Input.t)
  (canvas : Canvas.t) (s : Store) :
  Forall (fun ev => emits Shooting ev = true)
         (snd (shootPhase props closure input canvas s)).
Proof.
  unfold shootPhase.
  repeat match goal with
  | |- context [if ?c then _ else _] => destruct c
  end; cbn; repeat constructor.
Qed.

Lemma bulletPhase_emits (props : Props.t) (canvas : Canvas.t) (s : Store) :
  Forall (fun ev => emits BulletUpdate ev = true) (snd (bulletPhase props canvas s)).
Proof.
  unfold bulletPhase, updateBullets. cbn [snd].
  apply Forall_forall. intros ev Hin. apply in_flat_map in Hin.
  destruct Hin as (b & _ & Hb). unfold wallHitEvents in Hb.
  destruct (hitsWall _ b); [destruct Hb as [<-|[]]; reflexivity | destruct Hb].
Qed.

Lemma enemyHitsPlayer_emits (closure : Closure.t) (p : Player) (e : Enemy) :
  Forall (fun ev => emits EnemyUpdate ev = true) (snd (enemyHitsPlayer closure p e)).
Proof.
  unfold enemyHitsPlayer.
  destruct (_ >? _); [|constructor].
  destruct (_ <? _); [|constructor]. cbn [snd].
  destruct (_ <=? _); repeat constructor.
Qed.

Lemma updateEnemies_emits (closure : Closure.t) (walls : list Wall)
  (decorations : list Decoration) (enemies : list Enemy) (p : Player) :
  Forall (fun ev => emits EnemyUpdate ev = true)
         (snd (updateEnemies closure walls decorations p enemies)).
Proof.
  revert p. induction enemies as [|e rest IH]; intros p; cbn [updateEnemies].
  - constructor.
  - unfold updateEnemy.
    set (e1 := Enemy.with_base _ _).
    pose proof (enemyHitsPlayer_emits closure p e1) as H1.
    destruct (enemyHitsPlayer closure p e1) as [[p1 e'] evs1].
    specialize (IH p1).
    destruct (updateEnemies closure walls decorations p1 rest) as [[p2 rest'] evs2].
    cbn [snd] in *. apply Forall_app. split; assumption.
Qed.

Lemma bulletHitsEnemy_emits (props : Props.t) (b : Bullet) (score : R) (e : Enemy) :
  Forall (fun ev => emits Combat ev = true) (snd (bulletHitsEnemy props b score e)).
Proof.
  unfold bulletHitsEnemy.
  destruct (_ <? _); [|constructor].
  destruct (_ <=? _); [|constructor]. cbn [snd].
  destruct (Props.onKill props); repeat constructor.
Qed.

Lemma bulletVsEnemies_emits (props : Props.t) (enemies : list Enemy) (b : Bullet)
  (score : R) :
  Forall (fun ev => emits Combat ev = true) (snd (bulletVsEnemies props b score enemies)).
Proof.
  revert b score. induction enemies as [|e rest IH]; intros b score; cbn [bulletVsEnemies].
  - constructor.
  - pose proof (bulletHitsEnemy_emits props b score e) as H1.
    destruct (bulletHitsEnemy props b score e) as [[[b1 score1] e'] evs1].
    specialize (IH b1 score1).
    destruct (bulletVsEnemies props b1 score1 rest) as [[[b2 score2] rest'] evs2].
    cbn [snd] in *. apply Forall_app. split; assumption.
Qed.

Lemma combat_emits (props : Props.t) (bullets : list Bullet) (score : R)
  (enemies : list Enemy) :
  Forall (fun ev => emits Combat ev = true) (snd (combat props bullets score enemies)).
Proof.
  revert score enemies. induction bullets as [|b rest IH]; intros score enemies;
    cbn [combat].
  - constructor.
  - pose proof (bulletVsEnemies_emits props enemies b score) as H1.
    destruct (bulletVsEnemies props b score enemies) as [[[b' score1] enemies1] evs1].
    specialize (IH score1 enemies1).
    destruct (combat props rest score1 enemies1) as [[[rest' score2] enemies2] evs2].
    cbn [snd] in *. apply Forall_app. split; assumption.
Qed.

Lemma pickupLoop_emits (packs : list HealthPack) (p : Player) :
  Forall (fun ev => emits Pickup ev = true) (snd (pickupLoop p packs)).
Proof.
  revert p. induction packs as [|hp rest IH]; intros p; cbn [pickupLoop].
  - constructor.
  - destruct (_ <? _).
    + specialize (IH (Player.with_hp p (Player.maxHp p))).
      destruct (pickupLoop _ rest) as [[p2 rest'] evs]. cbn [snd] in *.
      repeat constructor. exact IH.
    + specialize (IH p).
      destruct (pickupLoop p rest) as [[p2 rest'] evs]. exact IH.
Qed.

Lemma pickupPhase_emits (s : Store) :
  Forall (fun ev => emits Pickup ev = true) (snd (pickupPhase s)).
Proof.
  destruct (pickupPhase_keeps s) as (_ & _ & ->).
  unfold pickupHealthPacks. destruct (_ >? _); [apply pickupLoop_emits | constructor].
Qed.

Lemma filter_none (f : Event -> bool) (step : Step) (evs : list Event) :
  (forall ev, emits step ev = true -> f ev = false) ->
  Forall (fun ev => emits step ev = true) evs ->
  filter f evs = [].
Proof.
  intros Hnone Hall. induction Hall as [|ev rest Hev _ IH]; [reflexivity|].
  cbn. rewrite (Hnone ev Hev). exact IH.
Qed.

(** The calls of consecutive steps, each list with the step that made it. *)
Lemma blocks_split (blocks : list (Step * list Event)) (before after : list Event)
  (ev : Event) :
  flat_map snd blocks = before ++ ev :: after ->
  exists pre j l1 l2 post,
    blocks = pre ++ (j, l1 ++ ev :: l2) :: post
    /\ before = flat_map snd pre ++ l1
    /\ after = l2 ++ flat_map snd post.
Proof.
  revert before. induction blocks as [|[j l] rest IH]; intros before Heq.
  - cbn in Heq. destruct before; discriminate Heq.
  - cbn [flat_map snd] in Heq. apply app_eq_app in Heq.
    destruct Heq as (m & [[Hl Hrest] | [Hbefore Hrest]]).
    + destruct m as [|ev' m'].
      * cbn [app] in Hrest. symmetry in Hrest.
        destruct (IH [] Hrest) as (pre & j' & l1 & l2 & post & Hb & Hpre & Hafter).
        exists ((j, l) :: pre), j', l1, l2, post. rewrite app_nil_r in Hl. subst l.
        split_and; [rewrite Hb; reflexivity | | exact Hafter].
        cbn [flat_map snd]. rewrite <- app_assoc, <- Hpre, app_nil_r. reflexivity.
      * cbn [app] in Hrest. injection Hrest as -> ->.
        exists [], j, before, m', rest. subst l. split_and; reflexivity.
    + destruct (IH m Hrest) as (pre & j' & l1 & l2 & post & Hb & Hpre & Hafter).
      exists ((j, l) :: pre), j', l1, l2, post.
      split_and; [rewrite Hb; reflexivity | | exact Hafter].
      cbn [flat_map snd]. rewrite <- app_assoc, <- Hpre. exact Hbefore.
Qed.

Lemma sorted_split {A : Type} (R : A -> A -> Prop) (a b : list A) (x : A) :
  StronglySorted R (a ++ x :: b) -> Forall (fun y => R y x) a /\ Forall (R x) b.
Proof.
  induction a as [|y a IH]; cbn [app]; intros Hs; apply StronglySorted_inv in Hs;
    destruct Hs as [Hs Hall].
  - split; [constructor | exact Hall].
  - destruct (IH Hs) as [Ha Hb]. split; [|exact Hb].
    constructor; [|exact Ha]. rewrite Forall_forall in Hall. apply Hall.
    apply in_elt.
Qed.

Lemma ordered_calls (blocks : list (Step * list Event)) :
  Forall (fun p => Forall (fun ev => emits (fst p) ev = true) (snd p)) blocks ->
  StronglySorted (fun p q => (stepIndex (fst p) <= stepIndex (fst q))%nat) blocks ->
  forall before ev after step,
    flat_map snd blocks = before ++ ev :: after ->
    emittedOnlyBy step ev ->
    Forall (emittedUpTo step) before /\ Forall (emittedFrom step) after.
Proof.
  intros Hkinds Hsorted before ev after step Heq Honly.
  destruct (blocks_split blocks before after ev Heq)
    as (pre & j & l1 & l2 & post & -> & -> & ->).
  apply sorted_split in Hsorted. destruct Hsorted as [Hpre Hpost].
  apply Forall_app in Hkinds. destruct Hkinds as [Hkpre Hkrest].
  apply Forall_cons_iff in Hkrest. destruct Hkrest as [Hkj Hkpost].
  cbn [fst snd] in Hkj, Hpre, Hpost.
  apply Forall_app in Hkj. destruct Hkj as [Hk1 Hk2].
  apply Forall_cons_iff in Hk2. destruct Hk2 as [Hev Hk2].
  assert (Hj : j = step) by (apply Honly, Hev). subst j.
  assert (Hflat : forall (R : nat -> nat -> Prop) (bs : list (Step * list Event)),
            Forall (fun p => Forall (fun ev => emits (fst p) ev = true) (snd p)) bs ->
            Forall (fun p => R (stepIndex (fst p)) (stepIndex step)) bs ->
            Forall (fun ev' => exists j, R (stepIndex j) (stepIndex step)
                                         /\ emits j ev' = true)
                   (flat_map snd bs)).
  { intros R bs Hk Hr. induction bs as [|[j l] bs IHbs]; [constructor|].
    apply Forall_cons_iff in Hk, Hr. destruct Hk as [Hkl Hk], Hr as [Hrj Hr].
    cbn [flat_map snd fst] in *. apply Forall_app. split; [|apply IHbs; assumption].
    revert Hkl. apply Forall_impl. intros ev' He. exists j. split; assumption. }
  split; apply Forall_app; split.
  - apply (Hflat le pre Hkpre Hpre).
  - revert Hk1. apply Forall_impl. intros ev' He. exists step. split; [lia | exact He].
  - revert Hk2. apply Forall_impl. intros ev' He. exists step. split; [lia | exact He].
  - apply (Hflat ge post Hkpost). revert Hpost. apply Forall_impl. intros p Hp.
    unfold ge. exact Hp.
Qed.

(** X6.  The calls of a running frame are those of its steps in the order
    of the code, each step working on the store the steps before it left:
    movement (setHealth, damage sound, particles, onGameOver,
    onPlayerUpdate), the round end check (onRoundEnd), shooting (shot
    sound, setAmmo), the bullets (particles), the enemies (damage sound,
    setHealth, particles, onGameOver), combat (death sound, setScore,
    onKill, particles) and the pickups (setHealth, particles); each step
    makes only calls of its own kind.  So around a call that only one step
    can make, such as setAmmo or setScore, every earlier call of the frame
    is one that this step or a step before it can make, and every later
    call one that this step or a step after it can make. *)
Theorem frame_calls_by_step (props : Props.t) (closure : Closure.t) (input : Input.t)
  (canvas : Canvas.t) (s : Store) :
  running props input canvas ->
  let moving := snd (playerPhase props input s) in
  let check := roundEndCheck props (Store.player (afterPlayer props input s)) in
  let shooting := snd (shootPhase props closure input canvas (afterPlayer props input s)) in
  let bullets := snd (bulletPhase props canvas (afterSpawning props closure input canvas s)) in
  let enemies := snd (enemyPhase closure (afterBullets props closure input canvas s)) in
  let fights := snd (combatPhase props (beforeCombat props closure input canvas s)) in
  let pickups := snd (pickupPhase (afterCombat props closure input canvas s)) in
  snd (gameLoop props closure input s)
  = moving ++ check ++ shooting ++ bullets ++ enemies ++ fights ++ pickups
  /\ Forall (fun ev => emits Moving ev = true) moving
  /\ Forall (fun ev => emits RoundCheck ev = true) check
  /\ Forall (fun ev => emits Shooting ev = true) shooting
  /\ Forall (fun ev => emits BulletUpdate ev = true) bullets
  /\ Forall (fun ev => emits EnemyUpdate ev = true) enemies
  /\ Forall (fun ev => emits Combat ev = true) fights
  /\ Forall (fun ev => emits Pickup ev = true) pickups
  /\ (forall before ev after step,
        snd (gameLoop props closure input s) = before ++ ev :: after ->
        emittedOnlyBy step ev ->
        Forall (emittedUpTo step) before /\ Forall (emittedFrom step) after).
Proof.
  intros Hrun moving check shooting bullets enemies fights pickups.
  assert (Hm : Forall (fun ev => emits Moving ev = true) moving)
    by apply playerPhase_emits.
  assert (Hc : Forall (fun ev => emits RoundCheck ev = true) check)
    by apply roundEndCheck_emits.
  assert (Hs : Forall (fun ev => emits Shooting ev = true) shooting)
    by apply shootPhase_emits.
  assert (Hb : Forall (fun ev => emits BulletUpdate ev = true) bullets)
    by apply bulletPhase_emits.
  assert (He : Forall (fun ev => emits EnemyUpdate ev = true) enemies).
  { unfold enemies.
    destruct (enemyPhase_keeps closure (afterBullets props closure input canvas s))
      as (_ & _ & ->).
    apply updateEnemies_emits. }
  assert (Hf : Forall (fun ev => emits Combat ev = true) fights).
  { unfold fights.
    destruct (combatPhase_frame props (beforeCombat props closure input canvas s))
      as (_ & _ & -> & _).
    apply combat_emits. }
  assert (Hp : Forall (fun ev => emits Pickup ev = true) pickups)
    by apply pickupPhase_emits.
  assert (Heq : snd (gameLoop props closure input s)
                = moving ++ check ++ shooting ++ bullets ++ enemies ++ fights ++ pickups).
  { rewrite (gameLoop_running _ closure _ _ s Hrun). reflexivity. }
  split_and; try assumption.
  intros before ev after step Hsplit Honly.
  apply (ordered_calls
           [(Moving, moving); (RoundCheck, check); (Shooting, shooting);
            (BulletUpdate, bullets); (EnemyUpdate, enemies); (Combat, fights);
            (Pickup, pickups)]) with (ev := ev).
  - repeat constructor; assumption.
  - repeat constructor; cbn; lia.
  - cbn [flat_map snd]. rewrite app_nil_r. rewrite <- Heq. exact Hsplit.
  - exact Honly.
Qed.

(** ** The report of the player's death *)

Lemma gameOvers_app (a b : list Event) : gameOvers (a ++ b) = gameOvers a ++ gameOvers b.
Proof. apply filter_app. Qed.

Lemma gameOvers_none (step : Step) (evs : list Event) :
  step <> Moving -> step <> EnemyUpdate ->
  Forall (fun ev => emits step ev = true) evs -> gameOvers evs = [].
Proof.
  intros Hm He. apply filter_none.
  intros ev. destruct step, ev; cbn; congruence.
Qed.

Lemma cactusDamage_gameOvers (time last : R) (hit : bool) (p : Player) :
  let p' := fst (fst (cactusDamage time last hit p)) in
  let evs := snd (cactusDamage time last hit p) in
  (0 < Player.hp p -> Player.hp p' <= 0 -> gameOvers evs = [OnGameOver "Cactus"])
  /\ (Player.hp p <= 0 \/ 0 < Player.hp p' -> gameOvers evs = []).
Proof.
  unfold cactusDamage.
  destruct (hit && (Player.hp p >? 0)) eqn:Hhit.
  - num_prop. destruct ((time - last) >? 1000); cbn [fst snd].
    + cbn [Player.hp Player.with_hp].
      destruct (Player.hp p - 2 <=? 0) eqn:Hdead; num_prop; cbn; split.
      * intros; reflexivity.
      * intros [Hx|Hx]; lra.
      * intros; lra.
      * intros; reflexivity.
    + cbn. split; [intros; lra | reflexivity].
  - cbn. split; [|reflexivity]. intros Hpos Hdead. lra.
Qed.

Lemma playerPhase_gameOvers (props : Props.t) (input : Input.t) (s : Store) :
  let s' := fst (playerPhase props input s) in
  let evs := snd (playerPhase props input s) in
  (0 < Player.hp (Store.player s) -> Player.hp (Store.player s') <= 0 ->
   gameOvers evs = [OnGameOver "Cactus"])
  /\ (Player.hp (Store.player s) <= 0 \/ 0 < Player.hp (Store.player s') ->
      gameOvers evs = []).
Proof.
  unfold playerPhase.
  destruct ((Player.hp (Store.player s) >? 0)
            && GameState_eqb (Props.gameState props) PLAYING).
  - destruct (resolveDecorations _ _) as [afterDecor hit].
    set (moved := movePlayer (Input.keys input) (Store.player s)).
    pose proof (cactusDamage_gameOvers (Input.time input) (Store.lastCactusDamageTime s)
                  hit (Player.with_base moved afterDecor)) as H.
    destruct (cactusDamage _ _ _ _) as [[player' last] evs].
    cbn [fst snd] in H.
    change (Player.hp (Player.with_base moved afterDecor))
      with (Player.hp (Store.player s)) in H.
    destruct (_ && _); cbn [fst snd]; cbn [Store.player Store.with_lastUpdateEmit
      Store.with_lastCactusDamageTime Store.with_player];
      [rewrite gameOvers_app; cbn; rewrite app_nil_r|]; exact H.
  - cbn. split; [intros; lra | reflexivity].
Qed.

Lemma enemyHitsPlayer_gameOvers (closure : Closure.t) (p : Player) (e : Enemy) :
  let p' := fst (fst (enemyHitsPlayer closure p e)) in
  let evs := snd (enemyHitsPlayer closure p e) in
  (0 < Player.hp p -> Player.hp p' <= 0 -> gameOvers evs = [OnGameOver "Enemies"])
  /\ (Player.hp p <= 0 \/ 0 < Player.hp p' -> gameOvers evs = []).
Proof.
  unfold enemyHitsPlayer.
  destruct (Player.hp p >? 0) eqn:Hhp; num_prop.
  - destruct (_ <? _); cbn [fst snd].
    + cbn [Player.hp Player.with_hp].
      destruct (Player.hp p - 10 <=? 0) eqn:Hdead; num_prop; cbn; split.
      * intros; reflexivity.
      * intros [Hx|Hx]; lra.
      * intros; lra.
      * intros; reflexivity.
    + cbn. split; [intros; lra | reflexivity].
  - cbn. split; [intros; lra | reflexivity].
Qed.

Lemma updateEnemies_gameOvers (closure : Closure.t) (walls : list Wall)
  (decorations : list Decoration) (enemies : list Enemy) (p : Player) :
  let p' := fst (fst (updateEnemies closure walls decorations p enemies)) in
  let evs := snd (updateEnemies closure walls decorations p enemies) in
  (0 < Player.hp p -> Player.hp p' <= 0 -> gameOvers evs = [OnGameOver "Enemies"])
  /\ (Player.hp p <= 0 \/ 0 < Player.hp p' -> gameOvers evs = []).
Proof.
  revert p. induction enemies as [|e rest IH]; intros p; cbn [updateEnemies].
  - cbn. split; [intros; lra | reflexivity].
  - unfold updateEnemy.
    set (e1 := Enemy.with_base _ _).
    pose proof (enemyHitsPlayer_gameOvers closure p e1) as H1.
    pose proof (enemyHitsPlayer_player closure p e1) as ((_ & _ & Hh1) & _).
    destruct (enemyHitsPlayer closure p e1) as [[p1 e'] evs1].
    pose proof (updateEnemies_player closure walls decorations rest p1)
      as ((_ & _ & Hle & Hstay & _) & _).
    specialize (IH p1).
    destruct (updateEnemies closure walls decorations p1 rest) as [[p2 rest'] evs2].
    cbn [fst snd] in *. rewrite gameOvers_app.
    destruct H1 as [Hdie1 Hlive1]. destruct IH as [Hdie2 Hlive2].
    split.
    + intros Hpos Hdead. destruct (Rle_dec (Player.hp p1) 0) as [Hd1|Hd1].
      * rewrite (Hdie1 Hpos Hd1), Hlive2 by (left; exact Hd1). reflexivity.
      * rewrite Hlive1 by (right; lra). rewrite Hdie2 by lra. reflexivity.
    + intros [Hdead|Halive].
      * assert (Hd1 : Player.hp p1 <= 0) by (destruct Hh1 as [->|[? ->]]; lra).
        rewrite Hlive1, Hlive2 by (left; assumption). reflexivity.
      * rewrite Hlive1, Hlive2 by (right; lra). reflexivity.
Qed.

Lemma enemyPhase_gameOvers (closure : Closure.t) (s : Store) :
  let s' := fst (enemyPhase closure s) in
  let evs := snd (enemyPhase closure s) in
  (0 < Player.hp (Store.player s) -> Player.hp (Store.player s') <= 0 ->
   gameOvers evs = [OnGameOver "Enemies"])
  /\ (Player.hp (Store.player s) <= 0 \/ 0 < Player.hp (Store.player s') ->
      gameOvers evs = []).
Proof.
  intros s' evs. subst s' evs.
  destruct (enemyPhase_keeps closure s) as (Hp & _ & Hev). rewrite Hp, Hev.
  apply updateEnemies_gameOvers.
Qed.

(** X7.  The death of the player is reported exactly once, in the frame
    in which it happens: a running frame that takes a player with hp left
    to hp 0 or below calls onGameOver once, with "Cactus" or "Enemies";
    a frame that starts with a dead player, or ends with a living one,
    does not call it. *)
Theorem game_over_once (props : Props.t) (closure : Closure.t) (input : Input.t)
  (s : Store) :
  0 < Player.maxHp (Store.player s) ->
  let s' := fst (gameLoop props closure input s) in
  let evs := snd (gameLoop props closure input s) in
  (0 < Player.hp (Store.player s) -> Player.hp (Store.player s') <= 0 ->
   gameOvers evs = [OnGameOver "Cactus"] \/ gameOvers evs = [OnGameOver "Enemies"])
  /\ (Player.hp (Store.player s) <= 0 \/ 0 < Player.hp (Store.player s') ->
      gameOvers evs = []).
Proof.
  intros Hmax s' evs. subst s' evs.
  destruct (gameLoop_cases props closure input s) as [Hstop | (canvas & Hrun)].
  { rewrite Hstop. cbn. split; [intros; lra | reflexivity]. }
  rewrite (gameLoop_running _ closure _ _ s Hrun). cbn [fst snd].
  unfold frameEvents, frameEnd, afterPickup, afterCombat, beforeCombat, afterBullets,
    afterSpawning, afterShooting, afterPlayer.
  destruct (playerPhase_gameOvers props input s) as [Hdie1 Hlive1].
  destruct (playerPhase_player props input s) as ((Hm1 & _ & Hh1) & _).
  set (s1 := fst (playerPhase props input s)) in *.
  destruct (shootPhase_player props closure input canvas s1) as (Hh3 & Hm3 & _).
  set (s3 := fst (shootPhase props closure input canvas s1)) in *.
  destruct (spawnPhase_keeps props closure input canvas s3) as (Hp4 & _ & _).
  set (s4 := spawnPhase props closure input canvas s3) in *.
  destruct (bulletPhase_keeps props canvas s4) as (Hp5 & _).
  set (s5 := fst (bulletPhase props canvas s4)) in *.
  destruct (enemyPhase_gameOvers closure s5) as [Hdie6 Hlive6].
  destruct (enemyPhase_keeps closure s5) as (Hp6 & _).
  destruct (updateEnemies_player closure (Store.walls s5) (Store.decorations s5)
              (Store.enemies s5) (Store.player s5)) as ((Hm6 & _ & Hle6 & Hstay6 & _) & _).
  rewrite <- Hp6 in Hm6, Hle6, Hstay6.
  set (s6 := fst (enemyPhase closure s5)) in *.
  rewrite Hp5, Hp4 in Hdie6, Hlive6, Hm6, Hle6, Hstay6.
  rewrite Hh3 in Hdie6, Hlive6, Hle6, Hstay6. rewrite Hm3, Hm1 in Hm6.
  destruct (combatPhase_keeps props s6) as (Hp7 & _).
  set (s7 := fst (combatPhase props s6)) in *.
  destruct (pickupPhase_keeps s7) as (Hp8 & _).
  destruct (pickupHealthPacks_player (Store.healthPacks s7) (Store.player s7))
    as ((_ & _ & Hh8) & _).
  rewrite <- Hp8 in Hh8. rewrite Hp7 in Hh8. rewrite Hm6 in Hh8.
  unfold cleanupPhase. cbn [Store.player Store.with_enemies Store.with_bullets].
  rewrite !gameOvers_app.
  rewrite (gameOvers_none RoundCheck (roundEndCheck _ _))
    by (try discriminate; apply roundEndCheck_emits).
  rewrite (gameOvers_none Shooting (snd (shootPhase _ _ _ _ _)))
    by (try discriminate; apply shootPhase_emits).
  rewrite (gameOvers_none BulletUpdate (snd (bulletPhase _ _ _)))
    by (try discriminate; apply bulletPhase_emits).
  rewrite (gameOvers_none Combat (snd (combatPhase _ _)))
    by (try discriminate;
        destruct (combatPhase_frame props s6) as (_ & _ & Hev & _); rewrite Hev;
        apply combat_emits).
  rewrite (gameOvers_none Pickup (snd (pickupPhase _)))
    by (try discriminate; apply pickupPhase_emits).
  cbn [app]. rewrite !app_nil_r.
  set (h0 := Player.hp (Store.player s)) in *.
  set (h1 := Player.hp (Store.player s1)) in *.
  set (h6 := Player.hp (Store.player s6)) in *.
  set (h8 := Player.hp (Store.player (fst (pickupPhase s7)))) in *.
  split.
  - intros Hpos Hdead.
    assert (H86 : h8 = h6) by (destruct Hh8 as [H|[_ H]]; [exact H | lra]).
    destruct (Rle_dec h1 0) as [Hd1|Hd1].
    + left. rewrite (Hdie1 Hpos Hd1), Hlive6 by (left; exact Hd1). reflexivity.
    + right. rewrite Hlive1 by (right; lra). rewrite Hdie6 by lra. reflexivity.
  - intros [Hdead|Halive].
    + assert (Hd1 : h1 <= 0) by (destruct Hh1 as [->|[? ->]]; lra).
      rewrite Hlive1, Hlive6 by (left; assumption). reflexivity.
    + assert (H6 : 0 < h6) by (destruct Hh8 as [H|[H _]]; lra).
      rewrite Hlive1, Hlive6 by (right; lra). reflexivity.
Qed.

(** The wounded player (8 hp) is reached by the walker and dies. *)
Lemma game_over_once_witness :
  0 < Player.maxHp (Store.player Sample.storeWounded)
  /\ (gameOvers (snd (gameLoop Sample.props Sample.closure (Sample.idle 20000)
                         Sample.storeWounded)) = [OnGameOver "Cactus"]
      \/ gameOvers (snd (gameLoop Sample.props Sample.closure (Sample.idle 20000)
                           Sample.storeWounded)) = [OnGameOver "Enemies"]).
Proof.
  assert (Hmax : 0 < Player.maxHp (Store.player Sample.storeWounded)) by (cbn; lra).
  split; [exact Hmax|].
  destruct (game_over_once Sample.props Sample.closure (Sample.idle 20000)
              Sample.storeWounded Hmax) as [Hdie _].
  apply Hdie.
  - cbn. lra.
  - rewrite wounded_frame. cbn. lra.
Defined.

(** ** The score and the enemies *)

Lemma kills_app (a b : list Event) : kills (a ++ b) = (kills a + kills b)%nat.
Proof. unfold kills. rewrite filter_app, length_app. reflexivity. Qed.

Lemma kills_none (step : Step) (evs : list Event) :
  step <> Combat ->
  Forall (fun ev => emits step ev = true) evs -> kills evs = 0%nat.
Proof.
  intros Hc Hall. unfold kills. rewrite (filter_none isEnemyDeath step); [reflexivity| |exact Hall].
  intros ev. destruct step, ev; cbn; congruence.
Qed.

Lemma setScore_none (step : Step) (evs : list Event) (v : R) :
  step <> Combat ->
  Forall (fun ev => emits step ev = true) evs -> ~ In (SetScore v) evs.
Proof.
  intros Hc Hall Hin. rewrite Forall_forall in Hall. specialize (Hall _ Hin).
  destruct step; cbn in Hall; congruence.
Qed.

Lemma bulletHitsEnemy_score (props : Props.t) (b : Bullet) (score : R) (e : Enemy) :
  spawnedOrDead e -> Bullet.damage b = 20 \/ Bullet.damage b = 0 ->
  let r := bulletHitsEnemy props b score e in
  let evs := snd r in
  spawnedOrDead (snd (fst r))
  /\ (Bullet.damage (fst (fst (fst r))) = 20 \/ Bullet.damage (fst (fst (fst r))) = 0)
  /\ snd (fst (fst r)) = score + 10 * INR (kills evs)
  /\ (forall v, In (SetScore v) evs -> v = score + 10 /\ v = snd (fst (fst r))).
Proof.
  intros [Hval Hhp] Hdmg. unfold bulletHitsEnemy, spawnedOrDead.
  destruct (_ <? _).
  - cbn [Enemy.hp Enemy.with_hp Enemy.value].
    destruct (_ <=? _) eqn:Hdead; num_prop; cbn [fst snd].
    + split_and.
      * exact Hval.
      * right. exact Hdead.
      * right. reflexivity.
      * rewrite Hval. unfold kills.
        destruct (Props.onKill props); cbn; lra.
      * rewrite Hval. intros v [Hv|[Hv|Hv]]; [discriminate | split; congruence |].
        exfalso. destruct (Props.onKill props); cbn in Hv;
          repeat (destruct Hv as [Hv|Hv]; try discriminate); exact Hv.
    + split_and.
      * exact Hval.
      * cbn [Enemy.hp Enemy.with_hp].
        destruct Hhp as [Hhp|Hhp]; destruct Hdmg as [Hd|Hd]; rewrite Hd in *;
          [lra | left; lra | lra | lra].
      * right. reflexivity.
      * cbn. lra.
      * intros v [].
  - cbn. split_and; auto; try lra. intros v [].
Qed.

Lemma bulletVsEnemies_score (props : Props.t) (enemies : list Enemy) (b : Bullet)
  (score : R) :
  Forall spawnedOrDead enemies -> Bullet.damage b = 20 \/ Bullet.damage b = 0 ->
  let r := bulletVsEnemies props b score enemies in
  let evs := snd r in
  Forall spawnedOrDead (snd (fst r))
  /\ snd (fst (fst r)) = score + 10 * INR (kills evs)
  /\ (forall v, In (SetScore v) evs -> score + 10 <= v <= snd (fst (fst r))).
Proof.
  intros Hall. revert b score.
  induction Hall as [|e rest He _ IH]; intros b score Hdmg; cbn [bulletVsEnemies].
  - cbn. split_and; [constructor | lra | intros v []].
  - pose proof (bulletHitsEnemy_score props b score e He Hdmg) as H1.
    destruct (bulletHitsEnemy props b score e) as [[[b1 score1] e'] evs1].
    cbn [fst snd] in H1. destruct H1 as (He' & Hdmg1 & Hs1 & Hev1).
    specialize (IH b1 score1 Hdmg1).
    destruct (bulletVsEnemies props b1 score1 rest) as [[[b2 score2] rest'] evs2].
    cbn [fst snd] in *. destruct IH as (Hrest & Hs2 & Hev2).
    pose proof (pos_INR (kills evs1)). pose proof (pos_INR (kills evs2)).
    split_and.
    + constructor; assumption.
    + rewrite kills_app, plus_INR. lra.
    + intros v Hin. apply in_app_or in Hin. destruct Hin as [Hin|Hin].
      * destruct (Hev1 v Hin) as [Hv Hv']. lra.
      * specialize (Hev2 v Hin). lra.
Qed.

Lemma combat_score (props : Props.t) (bullets : list Bullet) (score : R)
  (enemies : list Enemy) :
  Forall spawnedOrDead enemies ->
  Forall (fun b => Bullet.damage b = 20) bullets ->
  let r := combat props bullets score enemies in
  let evs := snd r in
  Forall spawnedOrDead (snd (fst r))
  /\ snd (fst (fst r)) = score + 10 * INR (kills evs)
  /\ (forall v, In (SetScore v) evs -> score + 10 <= v <= snd (fst (fst r))).
Proof.
  intros Hen Hall. revert score enemies Hen.
  induction Hall as [|b rest Hb _ IH]; intros score enemies Hen; cbn [combat].
  - cbn. split_and; [exact Hen | lra | intros v []].
  - pose proof (bulletVsEnemies_score props enemies b score Hen (or_introl Hb)) as H1.
    destruct (bulletVsEnemies props b score enemies) as [[[b' score1] enemies1] evs1].
    cbn [fst snd] in H1. destruct H1 as (Hen1 & Hs1 & Hev1).
    specialize (IH score1 enemies1 Hen1).
    destruct (combat props rest score1 enemies1) as [[[rest' score2] enemies2] evs2].
    cbn [fst snd] in *. destruct IH as (Hen2 & Hs2 & Hev2).
    pose proof (pos_INR (kills evs1)). pose proof (pos_INR (kills evs2)).
    split_and.
    + exact Hen2.
    + rewrite kills_app, plus_INR. lra.
    + intros v Hin. apply in_app_or in Hin. destruct Hin as [Hin|Hin].
      * specialize (Hev1 v Hin). lra.
      * specialize (Hev2 v Hin). lra.
Qed.

Lemma enemyHitsPlayer_enemy (closure : Closure.t) (p : Player) (e : Enemy) :
  spawnedOrDead e -> spawnedOrDead (snd (fst (enemyHitsPlayer closure p e))).
Proof.
  intros [Hval Hhp]. unfold enemyHitsPlayer, spawnedOrDead.
  destruct (_ >? _); [|cbn; auto].
  destruct (_ <? _); cbn; auto. split; [exact Hval | right; lra].
Qed.

Lemma steerEnemy_keeps (p : Player) (e : Enemy) :
  Enemy.hp (steerEnemy p e) = Enemy.hp e /\ Enemy.value (steerEnemy p e) = Enemy.value e.
Proof.
  unfold steerEnemy. destruct (_ >? _); [|auto]. destruct (_ >? _); cbn; auto.
Qed.

Lemma updateEnemies_enemies (closure : Closure.t) (walls : list Wall)
  (decorations : list Decoration) (enemies : list Enemy) (p : Player) :
  Forall spawnedOrDead enemies ->
  Forall spawnedOrDead (snd (fst (updateEnemies closure walls decorations p enemies))).
Proof.
  intros Hall. revert p.
  induction Hall as [|e rest He _ IH]; intros p; cbn [updateEnemies].
  - constructor.
  - unfold updateEnemy.
    set (e1 := Enemy.with_base _ _).
    assert (He1 : spawnedOrDead e1).
    { destruct (steerEnemy_keeps p e) as [Hh Hv]. destruct He as [Hval Hhp].
      unfold spawnedOrDead, e1. cbn [Enemy.hp Enemy.value Enemy.with_base].
      rewrite Hh, Hv. auto. }
    pose proof (enemyHitsPlayer_enemy closure p e1 He1) as H1.
    destruct (enemyHitsPlayer closure p e1) as [[p1 e'] evs1].
    specialize (IH p1).
    destruct (updateEnemies closure walls decorations p1 rest) as [[p2 rest'] evs2].
    cbn [fst snd] in *. constructor; assumption.
Qed.

Lemma cleanupEnemies_standard (enemies : list Enemy) :
  Forall spawnedOrDead enemies ->
  Forall (fun e => Enemy.hp e = 1 /\ Enemy.value e = 10) (cleanupEnemies enemies).
Proof.
  intros Hall. unfold cleanupEnemies. apply Forall_forall. intros e Hin.
  apply filter_In in Hin. destruct Hin as [Hin Halive]. num_prop.
  rewrite Forall_forall in Hall. destruct (Hall e Hin) as [Hval [Hhp|Hhp]]; [auto | lra].
Qed.

Lemma spawnEnemy_enemies (closure : Closure.t) (canvas : Canvas.t) (rnd : nat -> R)
  (now : R) (pos : Vector2) (s : Store) (k : nat) :
  Forall spawnedOrDead (Store.enemies s) ->
  Forall spawnedOrDead (Store.enemies (fst (spawnEnemy closure canvas rnd now pos s k))).
Proof.
  intros Hall. unfold spawnEnemy.
  repeat match goal with
  | |- context [if ?c then _ else _] => destruct c
  end; cbn [fst]; try exact Hall.
  cbn. apply Forall_app. split; [exact Hall|].
  constructor; [|constructor]. unfold spawnedOrDead. cbn. auto.
Qed.

Section ScoreOfFrame.
Variables (props : Props.t) (closure : Closure.t) (input : Input.t)
          (canvas : Canvas.t) (s : Store).

Lemma standard_spawnedOrDead (enemies : list Enemy) :
  Forall (fun e => Enemy.hp e = 1 /\ Enemy.value e = 10) enemies ->
  Forall spawnedOrDead enemies.
Proof.
  apply Forall_impl. intros e [Hhp Hval]. split; [exact Hval | left; exact Hhp].
Qed.

Lemma beforeCombat_enemies :
  enemiesStandard s ->
  Forall spawnedOrDead (Store.enemies (beforeCombat props closure input canvas s))
  /\ Store.score (beforeCombat props closure input canvas s) = Store.score s.
Proof.
  intros Hst. apply standard_spawnedOrDead in Hst.
  unfold beforeCombat, afterBullets, afterSpawning, afterShooting, afterPlayer.
  destruct (playerPhase_frame props input s) as (He1 & _ & _ & _ & Hs1 & _).
  set (s1 := fst (playerPhase props input s)) in *.
  destruct (shootPhase_frame props closure input canvas s1) as (He3 & _ & _ & _ & Hs3 & _).
  set (s3 := fst (shootPhase props closure input canvas s1)) in *.
  destruct (spawnPhase_frame props closure input canvas s3) as (He4 & _ & Hs4).
  pose proof (spawnEnemy_enemies closure canvas (Input.rnd input) (Input.time input)
                (cameraPos props (Store.player s3)) s3 0) as Hspawn.
  rewrite <- He4 in Hspawn.
  set (s4 := spawnPhase props closure input canvas s3) in *.
  destruct (bulletPhase_keeps props canvas s4) as (_ & _ & He5 & _).
  destruct (bulletPhase_frame props canvas s4) as (_ & _ & _ & Hs5).
  set (s5 := fst (bulletPhase props canvas s4)) in *.
  destruct (enemyPhase_frame closure s5) as (He6 & _ & _ & _ & Hs6).
  rewrite He6, Hs6, Hs5, Hs4, Hs3, Hs1. split; [|reflexivity].
  apply updateEnemies_enemies. rewrite He5. apply Hspawn. rewrite He3, He1. exact Hst.
Qed.

Lemma frameEvents_kills :
  kills (frameEvents props closure input canvas s)
  = kills (snd (combatPhase props (beforeCombat props closure input canvas s))).
Proof.
  unfold frameEvents.
  fold (afterShooting props closure input canvas s).
  fold (afterSpawning props closure input canvas s).
  fold (afterBullets props closure input canvas s).
  fold (beforeCombat props closure input canvas s).
  fold (afterCombat props closure input canvas s).
  rewrite !kills_app.
  rewrite (kills_none Moving) by (try discriminate; apply playerPhase_emits).
  rewrite (kills_none RoundCheck) by (try discriminate; apply roundEndCheck_emits).
  rewrite (kills_none Shooting) by (try discriminate; apply shootPhase_emits).
  rewrite (kills_none BulletUpdate) by (try discriminate; apply bulletPhase_emits).
  rewrite (kills_none EnemyUpdate)
    by (try discriminate;
        destruct (enemyPhase_keeps closure (afterBullets props closure input canvas s))
          as (_ & _ & Hev); rewrite Hev; apply updateEnemies_emits).
  rewrite (kills_none Pickup (snd (pickupPhase _))) by (try discriminate; apply pickupPhase_emits).
  lia.
Qed.

Lemma frameEvents_setScore (v : R) :
  In (SetScore v) (frameEvents props closure input canvas s) ->
  In (SetScore v) (snd (combatPhase props (beforeCombat props closure input canvas s))).
Proof.
  unfold frameEvents.
  fold (afterShooting props closure input canvas s).
  fold (afterSpawning props closure input canvas s).
  fold (afterBullets props closure input canvas s).
  fold (beforeCombat props closure input canvas s).
  fold (afterCombat props closure input canvas s).
  intros Hin.
  apply in_app_or in Hin. destruct Hin as [Hin|Hin].
  { exfalso. revert Hin. apply (setScore_none Moving); [discriminate|].
    apply playerPhase_emits. }
  apply in_app_or in Hin. destruct Hin as [Hin|Hin].
  { exfalso. revert Hin. apply (setScore_none RoundCheck); [discriminate|].
    apply roundEndCheck_emits. }
  apply in_app_or in Hin. destruct Hin as [Hin|Hin].
  { exfalso. revert Hin. apply (setScore_none Shooting); [discriminate|].
    apply shootPhase_emits. }
  apply in_app_or in Hin. destruct Hin as [Hin|Hin].
  { exfalso. revert Hin. apply (setScore_none BulletUpdate); [discriminate|].
    apply bulletPhase_emits. }
  apply in_app_or in Hin. destruct Hin as [Hin|Hin].
  { exfalso. revert Hin. apply (setScore_none EnemyUpdate); [discriminate|].
    destruct (enemyPhase_keeps closure (afterBullets props closure input canvas s))
      as (_ & _ & Hev). rewrite Hev. apply updateEnemies_emits. }
  apply in_app_or in Hin. destruct Hin as [Hin|Hin]; [exact Hin|].
  exfalso. revert Hin. apply (setScore_none Pickup); [discriminate|].
  apply pickupPhase_emits.
Qed.

Lemma frameEnd_score :
  enemiesStandard s -> bulletsLoaded s ->
  enemiesStandard (frameEnd props closure input canvas s)
  /\ Store.score (frameEnd props closure input canvas s)
     = Store.score s + 10 * INR (kills (frameEvents props closure input canvas s))
  /\ (forall v, In (SetScore v) (frameEvents props closure input canvas s) ->
        Store.score s + 10 <= v <= Store.score (frameEnd props closure input canvas s)).
Proof.
  intros Hst Hload.
  destruct (beforeCombat_enemies Hst) as [Hen6 Hs6].
  pose proof (beforeCombat_loaded props closure input canvas s Hload) as Hb6.
  rewrite frameEvents_kills.
  assert (Hset := frameEvents_setScore).
  unfold frameEnd, afterPickup, afterCombat in *.
  set (s6 := beforeCombat props closure input canvas s) in *.
  destruct (combatPhase_frame props s6) as (He7 & Hs7 & Hev7 & _).
  destruct (combat_score props (Store.bullets s6) (Store.score s6) (Store.enemies s6)
              Hen6 Hb6) as (Hen7 & Hsc7 & Hv7).
  rewrite <- He7 in Hen7. rewrite <- Hs7 in Hsc7, Hv7. rewrite <- Hev7 in Hsc7, Hv7.
  set (s7 := fst (combatPhase props s6)) in *.
  destruct (pickupPhase_frame s7) as (He8 & _ & _ & Hs8 & _).
  unfold cleanupPhase, enemiesStandard.
  cbn [Store.enemies Store.score Store.with_enemies Store.with_bullets].
  rewrite He8, Hs8. rewrite Hs6 in Hsc7, Hv7.
  split_and.
  - apply cleanupEnemies_standard, Hen7.
  - exact Hsc7.
  - intros v Hin. apply Hv7, Hset, Hin.
Qed.

End ScoreOfFrame.

Lemma reachable_enemies (s : Store) : reachable s -> enemiesStandard s.
Proof.
  induction 1 as [closure | closure hasCanvas setAmmo layout cactuses rnd s Hr IH
                 | props closure input s Hr IH].
  - constructor.
  - unfold initGame. destruct (negb hasCanvas); [exact IH | constructor].
  - destruct (gameLoop_cases props closure input s) as [Hstop | (canvas & Hrun)].
    + rewrite Hstop. exact IH.
    + rewrite (gameLoop_running _ closure _ _ s Hrun). cbn [fst].
      apply frameEnd_score; [exact IH|].
      apply reachable_invariants, Hr.
Qed.

(** X8.  On every store the component can hold, each enemy has 1 hp and
    is worth 10 points: a spawned enemy is never wounded without being
    removed in the same frame. *)
Theorem enemies_as_spawned (s : Store) :
  reachable s ->
  Forall (fun e => Enemy.hp e = 1 /\ Enemy.value e = 10) (Store.enemies s).
Proof.
  induction 1 as [closure | closure hasCanvas setAmmo layout cactuses rnd s Hr IH
                 | props closure input s Hr IH].
  - constructor.
  - unfold initGame. destruct (negb hasCanvas); [exact IH | constructor].
  - destruct (gameLoop_cases props closure input s) as [Hstop | (canvas & Hrun)].
    + rewrite Hstop. exact IH.
    + rewrite (gameLoop_running _ closure _ _ s Hrun). cbn [fst].
      apply frameEnd_score; [exact IH | apply reachable_invariants, Hr].
Qed.

(** The store after a first frame at 2000 ms, in which an enemy is due. *)
Lemma enemies_as_spawned_witness :
  Forall (fun e => Enemy.hp e = 1 /\ Enemy.value e = 10)
         (Store.enemies (fst (gameLoop Sample.props Sample.closure (Sample.idle 2000)
                                Sample.storeFresh))).
Proof.
  apply (enemies_as_spawned
           (fst (gameLoop Sample.props Sample.closure (Sample.idle 2000) Sample.storeFresh))).
  apply reach_frame. apply reach_mount.
Defined.

Lemma gameLoop_setScore (props : Props.t) (closure : Closure.t) (input : Input.t)
  (s : Store) (v : R) :
  reachable s ->
  In (SetScore v) (snd (gameLoop props closure input s)) -> Store.score s + 10 <= v.
Proof.
  intros Hr.
  destruct (gameLoop_cases props closure input s) as [Hstop | (canvas & Hrun)].
  - rewrite Hstop. intros [].
  - rewrite (gameLoop_running _ closure _ _ s Hrun). cbn [snd].
    destruct (frameEnd_score props closure input canvas s (reachable_enemies s Hr))
      as (_ & _ & Hv).
    { apply reachable_invariants, Hr. }
    intros Hin. apply Hv in Hin. lra.
Qed.

(** X9.  A frame on a store the component can hold adds to the score 10
    times the number of death sounds it plays, so the score never goes
    down, and every value it passes to setScore lies between the old score
    plus 10 and the new score. *)
Theorem score_counts_kills (props : Props.t) (closure : Closure.t) (input : Input.t)
  (s : Store) :
  reachable s ->
  let s' := fst (gameLoop props closure input s) in
  let evs := snd (gameLoop props closure input s) in
  Store.score s' = Store.score s + 10 * INR (kills evs)
  /\ Store.score s <= Store.score s'
  /\ (forall v, In (SetScore v) evs -> Store.score s + 10 <= v <= Store.score s').
Proof.
  intros Hr s' evs. subst s' evs.
  destruct (gameLoop_cases props closure input s) as [Hstop | (canvas & Hrun)].
  - rewrite Hstop. cbn. split_and; [lra | lra | intros v []].
  - rewrite (gameLoop_running _ closure _ _ s Hrun). cbn [fst snd].
    destruct (frameEnd_score props closure input canvas s (reachable_enemies s Hr))
      as (_ & Hsc & Hv).
    { apply reachable_invariants, Hr. }
    pose proof (pos_INR (kills (frameEvents props closure input canvas s))).
    split_and; [exact Hsc | lra | exact Hv].
Qed.

(** X10.  [initGame] reports the score 0 but keeps the score it had: on
    a store the component can hold, after a restart every value a frame
    passes to setScore is at least the score from before the restart
    plus 10. *)
Theorem restart_keeps_score (closure closure' : Closure.t) (setAmmo : bool)
  (layout : list Wall) (cactuses : list Decoration) (rnd : nat -> R) (s : Store)
  (props : Props.t) (input : Input.t) :
  reachable s ->
  let started := initGame closure true setAmmo layout cactuses rnd s in
  let frame := gameLoop props closure' input (fst started) in
  In (SetScore 0) (snd started)
  /\ Store.score (fst started) = Store.score s
  /\ (forall v, In (SetScore v) (snd frame) -> Store.score s + 10 <= v).
Proof.
  intros Hr started frame.
  assert (Hr' : reachable (fst started)) by (apply reach_init, Hr).
  pose proof (fun v => gameLoop_setScore props closure' input (fst started) v Hr') as Hv.
  fold frame in Hv.
  assert (Hscore : Store.score (fst started) = Store.score s) by reflexivity.
  split_and.
  - left. reflexivity.
  - exact Hscore.
  - intros v Hin. specialize (Hv v Hin). rewrite Hscore in Hv. exact Hv.
Qed.

(** ** The round end check *)

Lemma roundEnds_none (step : Step) (evs : list Event) :
  step <> RoundCheck ->
  Forall (fun ev => emits step ev = true) evs -> filter isRoundEnd evs = [].
Proof.
  intros Hc. apply filter_none.
  intros ev. destruct step, ev; cbn; congruence.
Qed.

Lemma frameEvents_roundEnds (props : Props.t) (closure : Closure.t) (input : Input.t)
  (canvas : Canvas.t) (s : Store) :
  filter isRoundEnd (frameEvents props closure input canvas s)
  = roundEndCheck props (Store.player (afterPlayer props input s)).
Proof.
  unfold frameEvents.
  fold (afterShooting props closure input canvas s).
  fold (afterSpawning props closure input canvas s).
  fold (afterBullets props closure input canvas s).
  fold (beforeCombat props closure input canvas s).
  fold (afterCombat props closure input canvas s).
  rewrite !filter_app.
  rewrite (roundEnds_none Moving) by (try discriminate; apply playerPhase_emits).
  rewrite (roundEnds_none Shooting (snd (shootPhase _ _ _ _ _)))
    by (try discriminate; apply shootPhase_emits).
  rewrite (roundEnds_none BulletUpdate (snd (bulletPhase _ _ _)))
    by (try discriminate; apply bulletPhase_emits).
  rewrite (roundEnds_none EnemyUpdate (snd (enemyPhase _ _)))
    by (try discriminate;
        destruct (enemyPhase_keeps closure (afterBullets props closure input canvas s))
          as (_ & _ & Hev); rewrite Hev; apply updateEnemies_emits).
  rewrite (roundEnds_none Combat (snd (combatPhase _ _)))
    by (try discriminate;
        destruct (combatPhase_frame props (beforeCombat props closure input canvas s))
          as (_ & _ & Hev & _); rewrite Hev; apply combat_emits).
  rewrite (roundEnds_none Pickup (snd (pickupPhase _)))
    by (try discriminate; apply pickupPhase_emits).
  cbn [app]. rewrite !app_nil_r.
  unfold roundEndCheck.
  destruct (_ && _); [|reflexivity].
  destruct (_ <=? _)%nat; reflexivity.
Qed.

(** X11.  The round end check is a level, not an edge: every running
    frame, with a callback given and at least one remote player listed,
    calls onRoundEnd exactly once when at most one player is alive (the
    remote players with hp left, plus the local one if it has hp left after
    its movement step), and never otherwise.  A local player that was dead
    before the frame is not counted. *)
Theorem round_end_every_frame (props : Props.t) (closure : Closure.t) (input : Input.t)
  (canvas : Canvas.t) (s : Store) :
  running props input canvas ->
  let evs := snd (gameLoop props closure input s) in
  (Props.remotes props <> [] -> Props.onRoundEnd props = true ->
   (totalAlive props input s <= 1)%nat ->
   filter isRoundEnd evs = [OnRoundEnd])
  /\ (Props.remotes props = [] \/ Props.onRoundEnd props = false
      \/ (2 <= totalAlive props input s)%nat ->
      ~ In OnRoundEnd evs)
  /\ (Player.hp (Store.player s) <= 0 -> totalAlive props input s = aliveRemotes props).
Proof.
  intros Hrun evs. subst evs.
  rewrite (gameLoop_running _ closure _ _ s Hrun). cbn [snd].
  assert (Hstate : GameState_eqb (Props.gameState props) PLAYING
                   || GameState_eqb (Props.gameState props) SPECTATING = true).
  { destruct Hrun as ([-> | ->] & _); reflexivity. }
  assert (Hnone : forall evs, filter isRoundEnd evs = [] -> ~ In OnRoundEnd evs).
  { intros evs Hf Hin.
    assert (Hin' : In OnRoundEnd (filter isRoundEnd evs))
      by (apply filter_In; split; [exact Hin | reflexivity]).
    rewrite Hf in Hin'. exact Hin'. }
  split_and.
  - intros Hrem Hcb Halive. rewrite frameEvents_roundEnds.
    unfold roundEndCheck. rewrite Hcb, Hstate.
    destruct (Props.remotes props) as [|r rest] eqn:Hr; [congruence|].
    cbn [List.length Nat.ltb Nat.leb andb].
    unfold totalAlive, aliveRemotes in Halive. rewrite Hr in Halive.
    rewrite (proj2 (Nat.leb_le _ _) Halive). reflexivity.
  - intros Hno. apply Hnone. rewrite frameEvents_roundEnds.
    unfold roundEndCheck.
    destruct Hno as [Hrem | [Hcb | Halive]].
    + rewrite Hrem. reflexivity.
    + rewrite Hcb, andb_false_r. reflexivity.
    + destruct (_ && _); [|reflexivity].
      unfold totalAlive, aliveRemotes in Halive.
      rewrite (proj2 (Nat.leb_gt _ _)) by lia. reflexivity.
  - intros Hdead. unfold totalAlive.
    destruct (playerPhase_player props input s) as ((_ & _ & Hh1) & _).
    fold (afterPlayer props input s) in Hh1.
    rewrite (proj2 (gtb_false_iff _ _)) by (destruct Hh1 as [->|[? ->]]; lra).
    lia.
Qed.

(** The local player alone against a dead rival: the first frame already
    calls onRoundEnd. *)
Lemma round_end_every_frame_witness :
  running Sample.propsLastStanding (Sample.idle 0) Sample.canvas
  /\ filter isRoundEnd
       (snd (gameLoop Sample.propsLastStanding Sample.closure (Sample.idle 0)
               Sample.storeFresh))
     = [OnRoundEnd].
Proof.
  assert (Hrun : running Sample.propsLastStanding (Sample.idle 0) Sample.canvas)
    by (unfold running; cbn; auto).
  split; [exact Hrun|].
  destruct (round_end_every_frame Sample.propsLastStanding Sample.closure (Sample.idle 0)
              Sample.canvas Sample.storeFresh Hrun) as (Hcall & _).
  apply Hcall.
  - discriminate.
  - reflexivity.
  - unfold totalAlive, aliveRemotes. cbn [Props.remotes Props.remotePlayers
      Sample.propsLastStanding Sample.rival filter RemotePlayer.hp].
    rewrite (proj2 (gtb_false_iff 0 0)) by lra. cbn [List.length].
    destruct (_ >? _); cbn; lia.
Defined.

(** ** Health packs *)

Lemma pickupLoop_spec (packs : list HealthPack) (p : Player) :
  pickupLoop p packs
  = (if existsb (touchesPack p) packs then Player.with_hp p (Player.maxHp p) else p,
     filter (fun pack => negb (touchesPack p pack)) packs,
     flat_map (pickupEvents p) packs).
Proof.
  revert p. induction packs as [|pack rest IH]; intros p; cbn [pickupLoop].
  - reflexivity.
  - cbn [existsb filter flat_map]. unfold pickupEvents at 1.
    fold (touchesPack p pack).
    destruct (touchesPack p pack); cbn [negb orb].
    + rewrite IH.
      change (touchesPack (Player.with_hp p (Player.maxHp p))) with (touchesPack p).
      change (pickupEvents (Player.with_hp p (Player.maxHp p))) with (pickupEvents p).
      destruct (existsb (touchesPack p) rest); reflexivity.
    + rewrite IH. reflexivity.
Qed.

(** X12.  [pickupHealthPacks] does nothing for a dead player.  For a
    living one it removes exactly the packs the player's circle overlaps
    and keeps the others in order; the player's hp becomes maxHp if some
    pack is overlapped and stays otherwise, and setHealth(maxHp) is called
    once per pack removed, followed by its particles. *)
Theorem pickupHealthPacks_spec (player : Player) (packs : list HealthPack) :
  (Player.hp player <= 0 -> pickupHealthPacks player packs = (player, packs, []))
  /\ (0 < Player.hp player ->
      pickupHealthPacks player packs
      = (if existsb (touchesPack player) packs
         then Player.with_hp player (Player.maxHp player) else player,
         filter (fun pack => negb (touchesPack player pack)) packs,
         flat_map (pickupEvents player) packs)).
Proof.
  unfold pickupHealthPacks.
  destruct (Player.hp player >? 0) eqn:Hhp; num_prop.
  - split; [intros; lra | intros _; apply pickupLoop_spec].
  - split; [reflexivity | intros; lra].
Qed.

(** ** The map during a match *)

(** X13.  A frame never changes the walls, the decorations or the
    player's maxHp: the map is fixed from one [initGame] to the next. *)
Theorem frame_keeps_map (props : Props.t) (closure : Closure.t) (input : Input.t)
  (s : Store) :
  let s' := fst (gameLoop props closure input s) in
  Store.walls s' = Store.walls s
  /\ Store.decorations s' = Store.decorations s
  /\ Player.maxHp (Store.player s') = Player.maxHp (Store.player s).
Proof.
  intros s'. subst s'.
  destruct (gameLoop_cases props closure input s) as [Hstop | (canvas & Hrun)].
  { rewrite Hstop. cbn. auto. }
  rewrite (gameLoop_running _ closure _ _ s Hrun). cbn [fst].
  destruct (frameEnd_health props closure input canvas s) as (Hmax & _).
  split_and; [| |exact Hmax].
  - unfold frameEnd, afterPickup, afterCombat, beforeCombat, afterBullets,
      afterSpawning, afterShooting, afterPlayer.
    destruct (playerPhase_frame props input s) as (_ & Hw1 & _).
    set (s1 := fst (playerPhase props input s)) in *.
    destruct (shootPhase_frame props closure input canvas s1) as (_ & Hw3 & _).
    set (s3 := fst (shootPhase props closure input canvas s1)) in *.
    destruct (spawnPhase_keeps props closure input canvas s3) as (_ & _ & Hw4).
    set (s4 := spawnPhase props closure input canvas s3) in *.
    destruct (bulletPhase_frame props canvas s4) as (Hw5 & _).
    set (s5 := fst (bulletPhase props canvas s4)) in *.
    destruct (enemyPhase_frame closure s5) as (_ & Hw6 & _).
    set (s6 := fst (enemyPhase closure s5)) in *.
    destruct (combatPhase_frame props s6) as (_ & _ & _ & Hw7 & _).
    set (s7 := fst (combatPhase props s6)) in *.
    destruct (pickupPhase_frame s7) as (_ & Hw8 & _).
    unfold cleanupPhase. cbn [Store.walls Store.with_enemies Store.with_bullets].
    rewrite Hw8, Hw7, Hw6, Hw5, Hw4, Hw3, Hw1. reflexivity.
  - unfold frameEnd, afterPickup, afterCombat, beforeCombat, afterBullets,
      afterSpawning, afterShooting, afterPlayer.
    destruct (playerPhase_frame props input s) as (_ & _ & _ & Hd1 & _).
    set (s1 := fst (playerPhase props input s)) in *.
    destruct (shootPhase_frame props closure input canvas s1) as (_ & _ & _ & Hd3 & _).
    set (s3 := fst (shootPhase props closure input canvas s1)) in *.
    destruct (spawnPhase_frame props closure input canvas s3) as (_ & Hd4 & _).
    set (s4 := spawnPhase props closure input canvas s3) in *.
    destruct (bulletPhase_frame props canvas s4) as (_ & _ & Hd5 & _).
    set (s5 := fst (bulletPhase props canvas s4)) in *.
    destruct (enemyPhase_frame closure s5) as (_ & _ & _ & Hd6 & _).
    set (s6 := fst (enemyPhase closure s5)) in *.
    destruct (combatPhase_frame props s6) as (_ & _ & _ & _ & _ & Hd7).
    set (s7 := fst (combatPhase props s6)) in *.
    destruct (pickupPhase_frame s7) as (_ & _ & Hd8 & _).
    unfold cleanupPhase. cbn [Store.decorations Store.with_enemies Store.with_bullets].
    rewrite Hd8, Hd7, Hd6, Hd5, Hd4, Hd3, Hd1. reflexivity.
Qed.

(** ** The generated maps *)

Lemma length_add (x y w h : R) (isLow : bool) (walls : list Wall) :
  List.length (add x y w h isLow walls) = S (List.length walls).
Proof. unfold add. rewrite length_app. cbn. lia. Qed.

Lemma idsByIndex_add (x y w h : R) (isLow : bool) (walls : list Wall) :
  idsByIndex walls -> idsByIndex (add x y w h isLow walls).
Proof.
  intros Hids n wall Hn. unfold add in Hn.
  destruct (Nat.lt_ge_cases n (List.length walls)) as [Hlt|Hge].
  - rewrite nth_error_app1 in Hn by exact Hlt. apply Hids, Hn.
  - rewrite nth_error_app2 in Hn by exact Hge.
    destruct (n - List.length walls)%nat as [|m] eqn:Hm.
    + cbn in Hn. injection Hn as <-. cbn [Wall.id].
      replace n with (List.length walls) by lia. reflexivity.
    + cbn in Hn. destruct m; discriminate.
Qed.

Lemma idsByIndex_nil : idsByIndex [].
Proof. intros [|n] w Hn; discriminate. Qed.

Lemma grown_split (ok : list Wall -> Wall -> Prop) (base obs : list Wall) :
  grown ok base obs ->
  forall pre w post, obs = pre ++ w :: post -> ok (base ++ pre) w.
Proof.
  induction 1 as [base | base w0 rest Hok _ IH]; intros pre w post Heq.
  - destruct pre; discriminate.
  - destruct pre as [|w1 pre].
    + cbn in Heq. injection Heq as <- _. rewrite app_nil_r. exact Hok.
    + cbn in Heq. injection Heq as <- Hrest.
      replace (base ++ w0 :: pre) with ((base ++ [w0]) ++ pre)
        by (rewrite <- app_assoc; reflexivity).
      apply (IH pre w post Hrest).
Qed.

Lemma grown_ids (ok : list Wall -> Wall -> Prop) (base obs : list Wall) :
  (forall b w, ok b w -> Wall.id w = wallId (List.length b)) ->
  grown ok base obs -> idsByIndex base -> idsByIndex (base ++ obs).
Proof.
  intros Hid. induction 1 as [base | base w0 rest Hok _ IH]; intros Hids.
  - rewrite app_nil_r. exact Hids.
  - replace (base ++ w0 :: rest) with ((base ++ [w0]) ++ rest)
      by (rewrite <- app_assoc; reflexivity).
    apply IH. intros n wall Hn.
    destruct (Nat.lt_ge_cases n (List.length base)) as [Hlt|Hge].
    + rewrite nth_error_app1 in Hn by exact Hlt. apply Hids, Hn.
    + rewrite nth_error_app2 in Hn by exact Hge.
      destruct (n - List.length base)%nat as [|m] eqn:Hm.
      * cbn in Hn. injection Hn as <-. rewrite (Hid _ _ Hok).
        replace n with (List.length base) by lia. reflexivity.
      * cbn in Hn. destruct m; discriminate.
Qed.

Lemma grown_trans (ok : list Wall -> Wall -> Prop) (base a b : list Wall) :
  grown ok base a -> grown ok (base ++ a) b -> grown ok base (a ++ b).
Proof.
  induction 1 as [base | base w0 rest Hok _ IH]; intros Hb.
  - rewrite app_nil_r in Hb. exact Hb.
  - cbn. constructor; [exact Hok|]. apply IH.
    rewrite <- app_assoc. exact Hb.
Qed.

(** A decomposition of [base ++ obs] past the base splits [obs]. *)
Lemma split_past_base (base obs before after : list Wall) (w : Wall) :
  base ++ obs = before ++ w :: after ->
  (List.length base <= List.length before)%nat ->
  exists pre, before = base ++ pre /\ obs = pre ++ w :: after.
Proof.
  revert before. induction base as [|b base IH]; intros before Heq Hlen.
  - exists before. split; [reflexivity | exact Heq].
  - destruct before as [|b' before]; [cbn in Hlen; lia|].
    cbn in Heq. injection Heq as <- Heq. cbn in Hlen.
    destruct (IH before Heq) as (pre & -> & Hobs); [lia|].
    exists pre. split; [reflexivity | exact Hobs].
Qed.

Lemma tooClose_false_clear (earlier : Wall) (x y w h : R) (isLow : bool) (id : string) :
  w < 130 -> h < 130 ->
  Erindale.tooClose x y earlier = false ->
  clearOf earlier (Wall.mk id x y w h (Some isLow)).
Proof.
  intros Hw Hh Hfar. unfold Erindale.tooClose in Hfar. unfold clearOf. cbn.
  apply andb_false_iff in Hfar. destruct Hfar as [Hfar|Hfar]; [|num_prop; lra].
  apply andb_false_iff in Hfar. destruct Hfar as [Hfar|Hfar]; [|num_prop; lra].
  apply andb_false_iff in Hfar. destruct Hfar as [Hfar|Hfar]; num_prop; lra.
Qed.

Lemma existsb_false_forall {A : Type} (f : A -> bool) (l : list A) :
  existsb f l = false -> forall a, In a l -> f a = false.
Proof.
  intros Hex a Hin. destruct (f a) eqn:Hfa; [|reflexivity].
  assert (Ht : existsb f l = true) by (apply existsb_exists; exists a; auto).
  congruence.
Qed.

Lemma obstacles_spec (rnd : nat -> R) (fuel : nat) (walls : list Wall) (k : nat) :
  (forall n, Num.unit_interval (rnd n)) ->
  exists obs,
    fst (Erindale.obstacles fuel rnd walls k) = walls ++ obs
    /\ (List.length obs <= fuel)%nat
    /\ (snd (Erindale.obstacles fuel rnd walls k) <= k + 5 * fuel)%nat
    /\ grown erindalePlaced walls obs.
Proof.
  intros Hrnd. revert walls k.
  induction fuel as [|fuel IH]; intros walls k; cbn [Erindale.obstacles].
  - exists []. rewrite app_nil_r. cbn. split_and; [reflexivity | lia | lia | constructor].
  - set (x := (rnd k * 2 - 1) * (Erindale.BOUND_SIZE - 100)).
    set (y := (rnd (S k) * 2 - 1) * (Erindale.BOUND_SIZE - 100)).
    assert (Hx : -1100 <= x <= 1100).
    { pose proof (scaled_draw_bounds (rnd k) 1100 (Hrnd k)) as H.
      unfold x, Erindale.BOUND_SIZE. replace (1200 - 100) with 1100 by lra. lra. }
    assert (Hy : -1100 <= y <= 1100).
    { pose proof (scaled_draw_bounds (rnd (S k)) 1100 (Hrnd (S k))) as H.
      unfold y, Erindale.BOUND_SIZE. replace (1200 - 100) with 1100 by lra. lra. }
    destruct (sqrt (x * x + y * y) <? 350) eqn:Hcentre.
    { destruct (IH walls (S (S k))) as (obs & Heq & Hlen & Hk & Hgrown).
      exists obs. split_and; [exact Heq | lia | lia | exact Hgrown]. }
    destruct (existsb (Erindale.tooClose x y) walls) eqn:Hclose.
    { destruct (IH walls (S (S k))) as (obs & Heq & Hlen & Hk & Hgrown).
      exists obs. split_and; [exact Heq | lia | lia | exact Hgrown]. }
    num_prop. clearbody x y.
    pose proof (Hrnd (S (S (S k)))) as [Hw0 Hw1].
    pose proof (Hrnd (S (S (S (S k))))) as [Hh0 Hh1].
    set (walls' := if rnd (S (S k)) >? 0.6 then _ else _).
    assert (Hnew : exists w, walls' = walls ++ [w] /\ erindalePlaced walls w).
    { unfold walls', add.
      destruct (rnd (S (S k)) >? 0.6); eexists; (split; [reflexivity|]);
        unfold erindalePlaced, erindaleObstacle; cbn;
        split_and;
        first [ reflexivity | lra
              | intros earlier Hin; apply tooClose_false_clear;
                [lra | lra | apply (existsb_false_forall _ _ Hclose earlier Hin)] ]. }
    destruct Hnew as (w & Hw & Hplaced). rewrite Hw.
    destruct (IH (walls ++ [w]) (5 + k)%nat) as (obs & Heq & Hlen & Hk & Hgrown).
    exists (w :: obs). split_and.
    + rewrite Heq, <- app_assoc. reflexivity.
    + cbn. lia.
    + lia.
    + constructor; assumption.
Qed.

Lemma erindale_skeleton_length : List.length Erindale.skeleton = 25%nat.
Proof. reflexivity. Qed.

Lemma erindale_skeleton_ids : idsByIndex Erindale.skeleton.
Proof.
  unfold Erindale.skeleton, Erindale.addWallWithGap. cbv zeta. cbn [negb].
  repeat apply idsByIndex_add. apply idsByIndex_nil.
Qed.

Lemma digits_inj (n m : nat) : digits n = digits m -> n = m.
Proof.
  unfold digits. intros H.
  assert (Hu : NilEmpty.uint_of_string (NilEmpty.string_of_uint (Nat.to_uint n))
               = NilEmpty.uint_of_string (NilEmpty.string_of_uint (Nat.to_uint m)))
    by (rewrite H; reflexivity).
  rewrite !NilEmpty.usu in Hu. injection Hu as Hu.
  rewrite <- (Unsigned.of_to n), <- (Unsigned.of_to m), Hu. reflexivity.
Qed.

Lemma wallId_inj (n m : nat) : wallId n = wallId m -> n = m.
Proof. unfold wallId. cbn. intros H. injection H as H. apply digits_inj, H. Qed.

Lemma idsByIndex_NoDup (walls : list Wall) :
  idsByIndex walls -> NoDup (map Wall.id walls).
Proof.
  intros Hids. apply NoDup_nth_error. intros i j Hi Heq.
  rewrite length_map in Hi. rewrite !nth_error_map in Heq.
  destruct (nth_error walls i) as [wi|] eqn:Hwi;
    [|apply nth_error_None in Hwi; lia].
  destruct (nth_error walls j) as [wj|] eqn:Hwj; [|discriminate].
  cbn in Heq. injection Heq as Heq.
  rewrite (Hids _ _ Hwi), (Hids _ _ Hwj) in Heq. apply wallId_inj, Heq.
Qed.

(** X14.  Whatever the draws, the Erindale layout is its 25 fixed walls
    followed by at most 76 random obstacles, made with at most 380 draws;
    every wall carries its index as id, so the ids are distinct.  Each
    obstacle has its corner within 1100 of the centre on both axes and at
    least 350 away from it, is a bush (low, 60 to 120 wide, 40 to 80 high)
    or a solid block (80 to 130 on both sides), and is separated from
    every wall placed before it by a free strip of at least 80 or of more
    than 30, the diameter of the player, along one axis. *)
Theorem generateErindaleLayout_spec (rnd : nat -> R) :
  (forall n, Num.unit_interval (rnd n)) ->
  let layout := fst (Erindale.generateErindaleLayout rnd) in
  (exists obs, layout = Erindale.skeleton ++ obs /\ (List.length obs <= 76)%nat)
  /\ (snd (Erindale.generateErindaleLayout rnd) <= 380)%nat
  /\ idsByIndex layout
  /\ NoDup (map Wall.id layout)
  /\ (forall before w after,
        layout = before ++ w :: after -> (25 <= List.length before)%nat ->
        erindaleObstacle w /\ forall earlier, In earlier before -> clearOf earlier w).
Proof.
  intros Hrnd layout. subst layout. unfold Erindale.generateErindaleLayout.
  destruct (obstacles_spec rnd Erindale.numObstacles Erindale.skeleton 0 Hrnd)
    as (obs & Heq & Hlen & Hk & Hgrown).
  rewrite Heq.
  assert (Hids : idsByIndex (Erindale.skeleton ++ obs)).
  { apply (grown_ids erindalePlaced); [|exact Hgrown | apply erindale_skeleton_ids].
    intros b w (Hid & _). exact Hid. }
  split_and.
  - exists obs. split; [reflexivity | exact Hlen].
  - unfold Erindale.numObstacles in *. lia.
  - exact Hids.
  - apply idsByIndex_NoDup, Hids.
  - intros before w after Hsplit Hbefore.
    destruct (split_past_base Erindale.skeleton obs before after w Hsplit)
      as (pre & -> & Hobs).
    { rewrite erindale_skeleton_length. exact Hbefore. }
    destruct (grown_split _ _ _ Hgrown pre w after Hobs) as (_ & Hob & Hclear).
    split; assumption.
Qed.

(** With every draw at 1/2 each candidate is the centre, which is
    refused: the layout is the 25 fixed walls. *)
Lemma generateErindaleLayout_spec_witness :
  (forall n : nat, Num.unit_interval ((fun _ : nat => 1 / 2) n))
  /\ NoDup (map Wall.id (fst (Erindale.generateErindaleLayout (fun _ => 1 / 2)))).
Proof.
  assert (Hrnd : forall n : nat, Num.unit_interval ((fun _ : nat => 1 / 2) n))
    by (intros n; unfold Num.unit_interval; lra).
  split; [exact Hrnd|].
  destruct (generateErindaleLayout_spec (fun _ => 1 / 2) Hrnd) as (_ & _ & _ & Hnodup & _).
  exact Hnodup.
Defined.

(** *** Wasteland *)

Lemma cornerNear_false_apart (earlier : Wall) (x y w h : R) (isLow : bool) (id : string) :
  Wasteland.cornerNear x y earlier = false ->
  cornersApart earlier (Wall.mk id x y w h (Some isLow)).
Proof.
  unfold Wasteland.cornerNear, cornersApart. cbn. intros Hfar.
  apply andb_false_iff in Hfar. destruct Hfar as [Hfar|Hfar]; num_prop; lra.
Qed.

Lemma crates_spec (rnd : nat -> R) (fuel : nat) (walls : list Wall) (k : nat) :
  (forall n, Num.unit_interval (rnd n)) ->
  exists cs,
    fst (Wasteland.crates fuel rnd walls k) = walls ++ cs
    /\ (List.length cs <= fuel)%nat
    /\ snd (Wasteland.crates fuel rnd walls k) = (k + 2 * fuel)%nat
    /\ grown wastelandPlaced walls cs.
Proof.
  intros Hrnd. revert walls k.
  induction fuel as [|fuel IH]; intros walls k; cbn [Wasteland.crates].
  - exists []. rewrite app_nil_r. cbn. split_and; [reflexivity | lia | lia | constructor].
  - set (y := (rnd k * 2 - 1) * 900).
    set (x := (rnd (S k) * 2 - 1) * 600).
    assert (Hy : -900 <= y <= 900).
    { pose proof (scaled_draw_bounds (rnd k) 900 (Hrnd k)) as H. unfold y. lra. }
    assert (Hx : -600 <= x <= 600).
    { pose proof (scaled_draw_bounds (rnd (S k)) 600 (Hrnd (S k))) as H. unfold x. lra. }
    clearbody x y.
    destruct ((Rabs x <? 50) && (Rabs y <? 50)) eqn:Hcentre.
    { destruct (IH walls (S (S k))) as (cs & Heq & Hlen & Hk & Hgrown).
      exists cs. split_and; [exact Heq | lia | lia | exact Hgrown]. }
    destruct (existsb (Wasteland.cornerNear x y) walls) eqn:Hclose.
    { destruct (IH walls (S (S k))) as (cs & Heq & Hlen & Hk & Hgrown).
      exists cs. split_and; [exact Heq | lia | lia | exact Hgrown]. }
    destruct (IH (add x y 35 35 false walls) (S (S k)))
      as (cs & Heq & Hlen & Hk & Hgrown).
    unfold add in *.
    exists (Wall.mk (wallId (List.length walls)) x y 35 35 (Some false) :: cs).
    split_and.
    + rewrite Heq, <- app_assoc. reflexivity.
    + cbn. lia.
    + lia.
    + constructor; [|exact Hgrown].
      unfold wastelandPlaced, wastelandCrate. cbn.
      split_and; try reflexivity; try lra.
      * apply andb_false_iff in Hcentre. destruct Hcentre; num_prop; [left | right]; lra.
      * intros earlier Hin. apply cornerNear_false_apart.
        apply (existsb_false_forall _ _ Hclose earlier Hin).
Qed.

Lemma wasteland_skeleton_length : List.length Wasteland.skeleton = 18%nat.
Proof. reflexivity. Qed.

Lemma wasteland_skeleton_ids : idsByIndex Wasteland.skeleton.
Proof.
  unfold Wasteland.skeleton. cbv zeta. cbn [Wasteland.pillars].
  repeat apply idsByIndex_add. apply idsByIndex_nil.
Qed.

Lemma longWalls_app (walls : list Wall) :
  exists tail, Wasteland.longWalls walls = walls ++ tail /\ List.length tail = 4%nat.
Proof.
  unfold Wasteland.longWalls, add. cbv zeta. rewrite <- !app_assoc.
  eexists. split; reflexivity.
Qed.

Lemma longWalls_ids (walls : list Wall) :
  idsByIndex walls -> idsByIndex (Wasteland.longWalls walls).
Proof.
  intros Hids. unfold Wasteland.longWalls. cbv zeta. repeat apply idsByIndex_add.
  exact Hids.
Qed.

(** A decomposition of [body ++ tail] before the tail splits [body]. *)
Lemma split_before_tail (body tail before after : list Wall) (w : Wall) :
  body ++ tail = before ++ w :: after ->
  (List.length tail <= List.length after)%nat ->
  exists post, after = post ++ tail /\ body = before ++ w :: post.
Proof.
  intros Heq Hlen. apply app_eq_app in Heq.
  destruct Heq as (l & [[Hbody Hafter] | [Hbefore Htail]]).
  - destruct l as [|w' l].
    + cbn in Hafter. rewrite <- Hafter in Hlen. cbn in Hlen. lia.
    + cbn in Hafter. injection Hafter as <- ->.
      exists l. split; [reflexivity | exact Hbody].
  - rewrite Htail in Hlen. rewrite length_app in Hlen. cbn in Hlen. lia.
Qed.

(** X15.  Whatever the draws, the Wasteland layout is its 18 fixed walls,
    then at most 30 crates, then the 4 long walls, made with exactly 60
    draws; every wall carries its index as id, so the ids are distinct.
    Each crate is a solid square of side 35 whose corner lies within 600
    and 900 of the centre and not within 50 of it on both axes, and is at
    least 50 away, corner to corner along one axis, from every wall placed
    before it. *)
Theorem generateWastelandLayout_spec (rnd : nat -> R) :
  (forall n, Num.unit_interval (rnd n)) ->
  let layout := fst (Wasteland.generateWastelandLayout rnd) in
  (exists cs tail,
     layout = Wasteland.skeleton ++ cs ++ tail
     /\ (List.length cs <= 30)%nat /\ List.length tail = 4%nat)
  /\ snd (Wasteland.generateWastelandLayout rnd) = 60%nat
  /\ idsByIndex layout
  /\ NoDup (map Wall.id layout)
  /\ (forall before w after,
        layout = before ++ w :: after ->
        (18 <= List.length before)%nat -> (4 <= List.length after)%nat ->
        wastelandCrate w /\ forall earlier, In earlier before -> cornersApart earlier w).
Proof.
  intros Hrnd layout. subst layout. unfold Wasteland.generateWastelandLayout.
  destruct (crates_spec rnd 30 Wasteland.skeleton 0 Hrnd)
    as (cs & Heq & Hlen & Hk & Hgrown).
  destruct (Wasteland.crates 30 rnd Wasteland.skeleton 0) as [ws k].
  cbn [fst snd] in *. subst ws.
  destruct (longWalls_app (Wasteland.skeleton ++ cs)) as (tail & Htail & Hlen4).
  assert (Hids : idsByIndex (Wasteland.longWalls (Wasteland.skeleton ++ cs))).
  { apply longWalls_ids.
    apply (grown_ids wastelandPlaced); [|exact Hgrown | apply wasteland_skeleton_ids].
    intros b w (Hid & _). exact Hid. }
  split_and.
  - exists cs, tail. rewrite Htail, <- app_assoc. auto.
  - exact Hk.
  - exact Hids.
  - apply idsByIndex_NoDup, Hids.
  - intros before w after Hsplit Hbefore Hafter. rewrite Htail in Hsplit.
    destruct (split_before_tail _ _ _ _ _ Hsplit) as (post & -> & Hbody); [lia|].
    destruct (split_past_base Wasteland.skeleton cs before post w Hbody)
      as (pre & -> & Hcs).
    { rewrite wasteland_skeleton_length. exact Hbefore. }
    destruct (grown_split _ _ _ Hgrown pre w post Hcs) as (_ & Hcrate & Hapart).
    split; assumption.
Qed.

(** With every draw at 1/2 each candidate is the centre, which is
    refused: the layout is the 18 fixed walls and the 4 long walls. *)
Lemma generateWastelandLayout_spec_witness :
  (forall n : nat, Num.unit_interval ((fun _ : nat => 1 / 2) n))
  /\ snd (Wasteland.generateWastelandLayout (fun _ => 1 / 2)) = 60%nat.
Proof.
  assert (Hrnd : forall n : nat, Num.unit_interval ((fun _ : nat => 1 / 2) n))
    by (intros n; unfold Num.unit_interval; lra).
  split; [exact Hrnd|].
  destruct (generateWastelandLayout_spec (fun _ => 1 / 2) Hrnd) as (_ & Hdraws & _).
  exact Hdraws.
Defined.

(** *** Cactuses *)

Lemma cactusId_inj (n m : nat) :
  Wasteland.cactusId n = Wasteland.cactusId m -> n = m.
Proof.
  unfold Wasteland.cactusId. cbn. intros H. injection H as H. apply digits_inj, H.
Qed.

Lemma NoDup_map_injective {A B : Type} (f : A -> B) (l : list A) :
  (forall a b, f a = f b -> a = b) -> NoDup l -> NoDup (map f l).
Proof.
  intros Hinj. induction 1 as [|a l Hnotin _ IH]; cbn; constructor; [|exact IH].
  intros Hin. apply in_map_iff in Hin. destruct Hin as (b & Heq & Hb).
  apply Hinj in Heq. subst b. contradiction.
Qed.

Lemma cactuses_spec (rnd : nat -> R) (fuel i : nat) (decors : list Decoration) (k : nat) :
  (forall n, Num.unit_interval (rnd n)) ->
  exists new indices,
    fst (Wasteland.cactuses fuel rnd i decors k) = decors ++ new
    /\ map Decoration.id new = map Wasteland.cactusId indices
    /\ NoDup indices
    /\ Forall (fun j => i <= j < i + fuel)%nat indices
    /\ Forall wastelandCactus new
    /\ (snd (Wasteland.cactuses fuel rnd i decors k) <= k + 4 * fuel)%nat.
Proof.
  intros Hrnd. revert i decors k.
  induction fuel as [|fuel IH]; intros i decors k; cbn [Wasteland.cactuses].
  - exists [], []. rewrite app_nil_r. cbn.
    split_and; try reflexivity; try constructor. lia.
  - set (x := (rnd k * 2 - 1) * (Wasteland.MAP_W / 2 - 100)).
    set (y := (rnd (S k) * 2 - 1) * (Wasteland.MAP_H / 2 - 100)).
    assert (Hx : -700 <= x <= 700).
    { pose proof (scaled_draw_bounds (rnd k) 700 (Hrnd k)) as H.
      unfold x, Wasteland.MAP_W. replace (1600 / 2 - 100) with 700 by lra. lra. }
    assert (Hy : -900 <= y <= 900).
    { pose proof (scaled_draw_bounds (rnd (S k)) 900 (Hrnd (S k))) as H.
      unfold y, Wasteland.MAP_H. replace (2000 / 2 - 100) with 900 by lra. lra. }
    clearbody x y.
    destruct ((Rabs x <? 350) && (Rabs y <? 350)) eqn:Hcentre; cbn [negb].
    + destruct (IH (S i) decors (S (S k)))
        as (new & indices & Heq & Hidx & Hnodup & Hrange & Hall & Hk).
      exists new, indices. split_and; try assumption; [|lia].
      revert Hrange. apply Forall_impl. intros j. lia.
    + set (c := Decoration.mk _ _ _ _ _ _ _).
      destruct (IH (S i) (decors ++ [c]) (4 + k)%nat)
        as (new & indices & Heq & Hidx & Hnodup & Hrange & Hall & Hk).
      exists (c :: new), (i :: indices). split_and.
      * rewrite Heq, <- app_assoc. reflexivity.
      * cbn [map]. rewrite Hidx. reflexivity.
      * constructor; [|exact Hnodup].
        intros Hin. rewrite Forall_forall in Hrange. specialize (Hrange i Hin). lia.
      * constructor; [lia|]. revert Hrange. apply Forall_impl. intros j. lia.
      * constructor; [|exact Hall].
        pose proof (Hrnd (S (S k))) as [Hs0 Hs1].
        pose proof (Hrnd (3 + k)%nat) as [Hr0 Hr1].
        pose proof PI_RGT_0 as Hpi.
        unfold wastelandCactus, c. cbn [Decoration.x Decoration.y Decoration.radius
          Decoration.scale Decoration.rotation].
        split_and; try lra; try nra.
        apply andb_false_iff in Hcentre. destruct Hcentre; num_prop; [left | right]; lra.
      * lia.
Qed.

(** X16.  Whatever the draws, [generateCactuses] returns at most 18
    cactuses, made with at most 72 draws.  Each has the collision radius
    15, a scale from 0.8 to 1.3, a rotation below a full turn, and a centre
    within 700 and 900 of the map's centre that is at least 350 away from
    it along one axis: the central arena stays clear.  Their ids are
    "cactus-i" for distinct i below 18, so they are distinct. *)
Theorem generateCactuses_spec (rnd : nat -> R) :
  (forall n, Num.unit_interval (rnd n)) ->
  let decors := fst (Wasteland.generateCactuses rnd) in
  (List.length decors <= 18)%nat
  /\ (snd (Wasteland.generateCactuses rnd) <= 72)%nat
  /\ Forall wastelandCactus decors
  /\ NoDup (map Decoration.id decors)
  /\ (forall d, In d decors ->
        exists i, (i < 18)%nat /\ Decoration.id d = Wasteland.cactusId i).
Proof.
  intros Hrnd decors. subst decors. unfold Wasteland.generateCactuses.
  destruct (cactuses_spec rnd Wasteland.numCactuses 0 [] 0 Hrnd)
    as (new & indices & Heq & Hidx & Hnodup & Hrange & Hall & Hk).
  rewrite Heq. cbn [app]. unfold Wasteland.numCactuses in *.
  assert (Hlen : List.length new = List.length indices).
  { rewrite <- (length_map Decoration.id new), Hidx, length_map. reflexivity. }
  split_and.
  - rewrite Hlen.
    assert (Hincl : incl indices (seq 0 18)).
    { intros j Hj. rewrite Forall_forall in Hrange. specialize (Hrange j Hj).
      apply in_seq. lia. }
    pose proof (NoDup_incl_length Hnodup Hincl) as Hle.
    rewrite length_seq in Hle. exact Hle.
  - lia.
  - exact Hall.
  - rewrite Hidx. apply NoDup_map_injective; [apply cactusId_inj | exact Hnodup].
  - intros d Hd.
    assert (Hid : In (Decoration.id d) (map Wasteland.cactusId indices)).
    { rewrite <- Hidx. apply in_map, Hd. }
    apply in_map_iff in Hid. destruct Hid as (i & Hi & Hin).
    rewrite Forall_forall in Hrange. specialize (Hrange i Hin).
    exists i. split; [lia | symmetry; exact Hi].
Qed.

(** ** The flashlight cone *)

Lemma segments_fold (source rayEnd : Vector2) (segs : list (Vector2 * Vector2))
  (c0 : option Intersection.t) (m0 : R) :
  let r := fold_left (raySegmentStep source rayEnd) segs (c0, m0) in
  snd r <= m0
  /\ (forall seg i, In seg segs ->
        getIntersection source rayEnd (fst seg) (snd seg) = Some i ->
        snd r <= Intersection.param i)
  /\ (r = (c0, m0)
      \/ exists seg i, In seg segs
           /\ getIntersection source rayEnd (fst seg) (snd seg) = Some i
           /\ r = (Some i, Intersection.param i) /\ Intersection.param i < m0).
Proof.
  revert c0 m0. induction segs as [|seg rest IH]; intros c0 m0; cbn [fold_left].
  - cbn. split_and; [lra | intros seg i [] | left; reflexivity].
  - remember (raySegmentStep source rayEnd (c0, m0) seg) as acc1 eqn:Hacc.
    unfold raySegmentStep in Hacc. cbn [snd] in Hacc.
    destruct (getIntersection source rayEnd (fst seg) (snd seg)) as [hit|] eqn:Hhit.
    + destruct (Intersection.param hit <? m0) eqn:Hless; num_prop; subst acc1.
      * destruct (IH (Some hit) (Intersection.param hit)) as (Hle & Hmin & Hres).
        split_and.
        -- lra.
        -- intros seg' i [<-|Hin] Hi; [|exact (Hmin seg' i Hin Hi)].
           rewrite Hhit in Hi. injection Hi as <-. exact Hle.
        -- right. destruct Hres as [Hres | (seg' & i & Hin & Hi & Hres & Hlt)].
           ++ exists seg, hit. split_and; [left; reflexivity | exact Hhit | exact Hres | exact Hless].
           ++ exists seg', i. split_and; [right; exact Hin | exact Hi | exact Hres | lra].
      * destruct (IH c0 m0) as (Hle & Hmin & Hres).
        split_and.
        -- exact Hle.
        -- intros seg' i [<-|Hin] Hi; [|exact (Hmin seg' i Hin Hi)].
           rewrite Hhit in Hi. injection Hi as <-. lra.
        -- destruct Hres as [Hres | (seg' & i & Hin & Hi & Hres & Hlt)]; [left; exact Hres|].
           right. exists seg', i. split_and; [right; exact Hin | exact Hi | exact Hres | exact Hlt].
    + subst acc1. destruct (IH c0 m0) as (Hle & Hmin & Hres).
      split_and.
      * exact Hle.
      * intros seg' i [<-|Hin] Hi; [congruence | exact (Hmin seg' i Hin Hi)].
      * destruct Hres as [Hres | (seg' & i & Hin & Hi & Hres & Hlt)]; [left; exact Hres|].
        right. exists seg', i. split_and; [right; exact Hin | exact Hi | exact Hres | exact Hlt].
Qed.

Lemma nearestHit_segments (source rayEnd : Vector2) (walls : list Wall)
  (acc : option Intersection.t * R) :
  fold_left (rayWallStep source rayEnd) walls acc
  = fold_left (raySegmentStep source rayEnd) (solidSegments walls) acc.
Proof.
  revert acc. induction walls as [|wall rest IH]; intros acc; [reflexivity|].
  cbn [fold_left solidSegments flat_map]. rewrite fold_left_app, IH.
  unfold rayWallStep. destruct (Wall.low wall); reflexivity.
Qed.

Lemma pointAt_end (a b : Vector2) : pointAt a b 1 = b.
Proof. destruct a, b. unfold pointAt. cbn. f_equal; ring. Qed.

Lemma pointAt_distance (a b : Vector2) (t : R) :
  0 <= t -> dist (pointAt a b t) a = t * dist b a.
Proof.
  intros Ht. unfold dist, pointAt. cbn [Vector2.x Vector2.y].
  set (dx := Vector2.x b - Vector2.x a). set (dy := Vector2.y b - Vector2.y a).
  replace ((Vector2.x a + t * dx - Vector2.x a) * (Vector2.x a + t * dx - Vector2.x a)
           + (Vector2.y a + t * dy - Vector2.y a) * (Vector2.y a + t * dy - Vector2.y a))
    with ((t * t) * (dx * dx + dy * dy)) by ring.
  rewrite sqrt_mult by (try apply sum_sq_nonneg; nra).
  rewrite sqrt_square by exact Ht. reflexivity.
Qed.

Lemma castRay_on_ray (source rayEnd : Vector2) (walls : list Wall) :
  exists t, 0 < t <= 1 /\ castRay source rayEnd walls = pointAt source rayEnd t.
Proof.
  unfold castRay, nearestHit. rewrite nearestHit_segments.
  destruct (segments_fold source rayEnd (solidSegments walls) None 1)
    as (_ & _ & [Hres | (seg & i & _ & Hi & Hres & _)]); rewrite Hres; cbn [fst].
  - exists 1. split; [lra | symmetry; apply pointAt_end].
  - pose proof (getIntersection_some _ _ _ _ i Hi) as (_ & _ & _ & _ & Ht & _ & Hxy).
    eexists. split; [exact Ht | exact Hxy].
Qed.

(** X17.  The vertex [castRay] gives for a ray is the point of the ray at
    a parameter t in (0, 1]: the ray's end (t = 1) when no solid segment
    is hit before it, and otherwise the hit of least parameter on the
    segments of the walls that are not low; no such segment is hit at a
    smaller parameter.  Low walls are never tested. *)
Theorem castRay_spec (source rayEnd : Vector2) (walls : list Wall) :
  exists t,
    0 < t <= 1
    /\ castRay source rayEnd walls = pointAt source rayEnd t
    /\ snd (nearestHit source rayEnd walls) = t
    /\ (forall i, rayHit source rayEnd walls i -> t <= Intersection.param i)
    /\ (t < 1 -> exists i, rayHit source rayEnd walls i /\ Intersection.param i = t
                          /\ fst (nearestHit source rayEnd walls) = Some i)
    /\ (t = 1 -> fst (nearestHit source rayEnd walls) = None).
Proof.
  unfold castRay, nearestHit. rewrite nearestHit_segments.
  destruct (segments_fold source rayEnd (solidSegments walls) None 1)
    as (Hle & Hmin & Hres).
  destruct Hres as [Hres | (seg & i & Hin & Hi & Hres & Hlt)].
  - rewrite Hres in *. cbn [fst snd] in *. exists 1. split_and.
    + lra.
    + lra.
    + symmetry. apply pointAt_end.
    + reflexivity.
    + intros i (seg & Hin & Hi). exact (Hmin seg i Hin Hi).
    + intros; lra.
    + reflexivity.
  - rewrite Hres in *. cbn [fst snd] in *.
    pose proof (getIntersection_some _ _ _ _ i Hi) as (_ & _ & _ & Hp & Ht & _ & Hxy).
    exists (Intersection.param i). split_and.
    + rewrite Hp. lra.
    + lra.
    + rewrite Hxy, Hp. reflexivity.
    + reflexivity.
    + intros i' (seg' & Hin' & Hi'). exact (Hmin seg' i' Hin' Hi').
    + intros _. exists i. split_and; [exists seg; auto | reflexivity | reflexivity].
    + intros H1. lra.
Qed.

Lemma solidSegments_filter (walls : list Wall) :
  solidSegments (filter (fun w => negb (Wall.low w)) walls) = solidSegments walls.
Proof.
  induction walls as [|wall rest IH]; [reflexivity|].
  cbn [filter solidSegments flat_map].
  destruct (Wall.low wall) eqn:Hlow; cbn [negb].
  - exact IH.
  - cbn [solidSegments flat_map]. rewrite Hlow. f_equal. exact IH.
Qed.

Lemma castRay_solid (source rayEnd : Vector2) (walls : list Wall) :
  castRay source rayEnd (filter (fun w => negb (Wall.low w)) walls)
  = castRay source rayEnd walls.
Proof.
  unfold castRay, nearestHit. rewrite !nearestHit_segments, solidSegments_filter.
  reflexivity.
Qed.

Lemma rayEndAt_distance (source : Vector2) (lightAngle : R) (i : nat) :
  dist (rayEndAt source lightAngle i) source = beamLength.
Proof.
  unfold rayEndAt. cbv zeta. rewrite circle_distance.
  unfold beamLength. apply Rabs_pos_eq. lra.
Qed.

(** X18.  The flashlight polygon has 61 vertices, one per ray; each lies
    on its ray, at most the beam length 450 from the source; and the
    polygon is the same as if the low walls were not there. *)
Theorem flashlightPolygon_spec (source : Vector2) (lightAngle : R) (walls : list Wall) :
  List.length (flashlightPolygon source lightAngle walls) = 61%nat
  /\ (forall n v, nth_error (flashlightPolygon source lightAngle walls) n = Some v ->
        exists t, 0 < t <= 1
                  /\ v = pointAt source (rayEndAt source lightAngle n) t
                  /\ dist v source = t * beamLength)
  /\ Forall (fun v => dist v source <= beamLength)
            (flashlightPolygon source lightAngle walls)
  /\ flashlightPolygon source lightAngle (filter (fun w => negb (Wall.low w)) walls)
     = flashlightPolygon source lightAngle walls.
Proof.
  assert (Hvertex : forall n v,
            nth_error (flashlightPolygon source lightAngle walls) n = Some v ->
            exists t, 0 < t <= 1
                      /\ v = pointAt source (rayEndAt source lightAngle n) t
                      /\ dist v source = t * beamLength).
  { intros n v Hn. unfold flashlightPolygon in Hn. rewrite nth_error_map in Hn.
    destruct (nth_error (seq 0 (S rays)) n) as [i|] eqn:Hi; [|discriminate].
    cbn in Hn. injection Hn as <-.
    assert (Hlt : (n < S rays)%nat).
    { rewrite <- (length_seq (S rays) 0). apply nth_error_Some. congruence. }
    apply (nth_error_nth _ _ 0%nat) in Hi.
    rewrite seq_nth in Hi by exact Hlt. cbn [Nat.add] in Hi. subst i.
    destruct (castRay_on_ray source (rayEndAt source lightAngle n) walls)
      as (t & Ht & Hcast).
    exists t. split_and; [lra | lra | exact Hcast |].
    rewrite Hcast, pointAt_distance by lra. rewrite rayEndAt_distance. reflexivity. }
  split_and.
  - unfold flashlightPolygon. rewrite length_map, length_seq. reflexivity.
  - exact Hvertex.
  - apply Forall_forall. intros v Hin. apply In_nth_error in Hin.
    destruct Hin as (n & Hn). destruct (Hvertex n v Hn) as (t & Ht & _ & ->).
    unfold beamLength. nra.
  - unfold flashlightPolygon. apply map_ext. intros i. apply castRay_solid.
Qed.

(** ** The bullets in the store *)

Lemma circle_speed (angle speed : R) :
  (cos angle * speed) * (cos angle * speed) + (sin angle * speed) * (sin angle * speed)
  = speed * speed.
Proof.
  pose proof (sin2_cos2 angle) as Hsc. unfold Rsqr in Hsc.
  replace (cos angle * speed * (cos angle * speed) + sin angle * speed * (sin angle * speed))
    with (speed * speed * (sin angle * sin angle + cos angle * cos angle)) by ring.
  rewrite Hsc. ring.
Qed.

(** X19.  Whatever the aim, a new bullet starts exactly 25 from the
    player's centre, flies at speed exactly 12 in the direction from the
    player to its starting point, has radius 4 and damage 20, carries the
    firing time as id and the player's id as owner. *)
Theorem newBullet_spec (closure : Closure.t) (time angle : R) (player : Player) :
  let b := newBullet closure time angle player in
  let v := Entity.velocity (Bullet.base b) in
  dist (Entity.position (Bullet.base b)) (Entity.position (Player.base player)) = 25
  /\ Vector2.x v * Vector2.x v + Vector2.y v * Vector2.y v = 12 * 12
  /\ Entity.px (Bullet.base b) - Entity.px (Player.base player) = 25 / 12 * Vector2.x v
  /\ Entity.py (Bullet.base b) - Entity.py (Player.base player) = 25 / 12 * Vector2.y v
  /\ Entity.radius (Bullet.base b) = 4
  /\ Bullet.damage b = 20
  /\ firedAt b time
  /\ Bullet.ownerId b = Some (Entity.id (Player.base player)).
Proof.
  intros b v. subst b v. unfold newBullet, firedAt. cbv zeta.
  cbn [Bullet.base Bullet.damage Bullet.ownerId Entity.position Entity.velocity
       Entity.radius Entity.id Entity.px Entity.py Vector2.x Vector2.y].
  split_and; try reflexivity.
  - unfold Entity.px, Entity.py.
    rewrite (circle_distance (Entity.position (Player.base player)) angle 25).
    apply Rabs_pos_eq. lra.
  - apply circle_speed.
  - field.
  - field.
Qed.

Lemma inFiringOrder_filter (f : Bullet -> bool) (bullets : list Bullet) (last : R) :
  inFiringOrder bullets last -> inFiringOrder (filter f bullets) last.
Proof.
  induction bullets as [|b rest IH]; [auto|].
  intros [(t & Hid & Hle & Hlater) Hrest]. cbn [filter].
  destruct (f b); [|exact (IH Hrest)].
  split; [|exact (IH Hrest)].
  exists t. split_and; [exact Hid | exact Hle |].
  apply Forall_forall. intros b' Hin. apply filter_In in Hin.
  rewrite Forall_forall in Hlater. apply Hlater, Hin.
Qed.

Lemma inFiringOrder_same_ids (bullets bullets' : list Bullet) (last : R) :
  Forall2 (fun b b' => Bullet.base b' = Bullet.base b) bullets bullets' ->
  inFiringOrder bullets last -> inFiringOrder bullets' last.
Proof.
  induction 1 as [|b b' rest rest' Hbase Hall IH]; [auto|].
  intros [(t & Hid & Hle & Hlater) Hrest].
  split; [|exact (IH Hrest)].
  exists t. unfold firedAt in *. rewrite Hbase. split_and; [exact Hid | exact Hle |].
  clear IH Hrest. induction Hall as [|c c' l l' Hc _ IHl]; [constructor|].
  inversion Hlater as [|? ? Hhead Htail]; subst.
  constructor; [rewrite Hc; exact Hhead | exact (IHl Htail)].
Qed.

Lemma inFiringOrder_map (f : Bullet -> Bullet) (bullets : list Bullet) (last : R) :
  (forall b, Bullet.base (f b) = Entity.with_position (Bullet.base b)
                                   (Entity.position (Bullet.base (f b)))) ->
  inFiringOrder bullets last -> inFiringOrder (map f bullets) last.
Proof.
  intros Hf. induction bullets as [|b rest IH]; [auto|].
  intros [(t & Hid & Hle & Hlater) Hrest]. cbn [map].
  split; [|exact (IH Hrest)].
  exists t. unfold firedAt in *. split_and.
  - rewrite Hf. exact Hid.
  - exact Hle.
  - apply Forall_forall. intros b' Hin. apply in_map_iff in Hin.
    destruct Hin as (b0 & <- & Hin0). rewrite Forall_forall in Hlater.
    intros t' Ht'. rewrite Hf in Ht'. exact (Hlater b0 Hin0 t' Ht').
Qed.

Lemma inFiringOrder_shot (bullets : list Bullet) (b : Bullet) (last time : R) :
  inFiringOrder bullets last -> firedAt b time -> last + FIRE_RATE < time ->
  inFiringOrder (bullets ++ [b]) time.
Proof.
  intros Hall Hb Hlate. unfold FIRE_RATE in *.
  induction bullets as [|b0 rest IH]; cbn [app inFiringOrder].
  - split; [|exact I]. exists time. split_and; [exact Hb | lra | constructor].
  - destruct Hall as [(t & Hid & Hle & Hlater) Hrest].
    split; [|exact (IH Hrest)].
    exists t. split_and; [exact Hid | lra |].
    apply Forall_app. split; [exact Hlater|].
    constructor; [|constructor]. intros t' Ht'. unfold firedAt in *.
    rewrite Hb in Ht'. injection Ht' as <-. unfold FIRE_RATE. lra.
Qed.

Lemma inFiringOrder_split (bullets : list Bullet) (last : R) :
  inFiringOrder bullets last ->
  forall before b after, bullets = before ++ b :: after ->
  exists t, firedAt b t /\ t <= last
            /\ forall b', In b' before ->
                 exists t', firedAt b' t' /\ t' + FIRE_RATE < t.
Proof.
  induction bullets as [|b0 rest IH]; intros Hall before b after Heq.
  - destruct before; discriminate.
  - destruct Hall as [(t0 & Hid0 & Hle0 & Hlater) Hrest].
    destruct before as [|b1 before]; cbn in Heq; injection Heq as <- Heq.
    + exists t0. split_and; [exact Hid0 | exact Hle0 | intros b' []].
    + destruct (IH Hrest before b after Heq) as (t & Hid & Hle & Hbefore).
      exists t. split_and; [exact Hid | exact Hle |].
      intros b' [<-|Hin]; [|exact (Hbefore b' Hin)].
      exists t0. split; [exact Hid0|].
      rewrite Forall_forall in Hlater. apply (Hlater b); [|exact Hid].
      rewrite Heq. apply in_elt.
Qed.

Lemma inFiringOrder_NoDup (bullets : list Bullet) (last : R) :
  inFiringOrder bullets last ->
  NoDup (map (fun b => Entity.id (Bullet.base b)) bullets).
Proof.
  induction bullets as [|b rest IH]; intros Hall; cbn [map]; constructor.
  - destruct Hall as [(t & Hid & _ & Hlater) _].
    intros Hin. apply in_map_iff in Hin. destruct Hin as (b' & Heq & Hb').
    rewrite Forall_forall in Hlater. unfold firedAt in *.
    assert (Ht : t + FIRE_RATE < t) by (apply (Hlater b' Hb'); congruence).
    unfold FIRE_RATE in Ht. lra.
  - apply IH. exact (proj2 Hall).
Qed.

Section FiringOrderOfFrame.
Variables (props : Props.t) (closure : Closure.t) (input : Input.t)
          (canvas : Canvas.t) (s : Store).

Lemma frameEnd_lastShotTime :
  Store.lastShotTime (frameEnd props closure input canvas s)
  = Store.lastShotTime (afterShooting props closure input canvas s).
Proof.
  unfold frameEnd, afterPickup, afterCombat, beforeCombat, afterBullets, afterSpawning.
  set (s3 := afterShooting props closure input canvas s).
  unfold cleanupPhase, pickupPhase, combatPhase, enemyPhase, bulletPhase.
  assert (H4 : Store.lastShotTime (spawnPhase props closure input canvas s3)
               = Store.lastShotTime s3).
  { unfold spawnPhase.
    destruct (spawnEnemy _ _ _ _ _ s3 0) as [s1 k1] eqn:Hspawn.
    assert (H1 : Store.lastShotTime s1 = Store.lastShotTime s3).
    { revert Hspawn. unfold spawnEnemy.
      repeat match goal with
      | |- context [if ?c then _ else _] => destruct c
      end; intros [= <- <-]; reflexivity. }
    destruct (GameState_eqb _ _); [|exact H1].
    unfold spawnHealthPack. destruct (_ >? _); [|exact H1].
    rewrite <- H1. clear Hspawn H1. generalize 10%nat as fuel. intros fuel. revert k1.
    induction fuel as [|fuel IH]; intros k1; cbn [healthPackLoop]; [reflexivity|].
    destruct (negb _); [reflexivity | apply IH]. }
  set (s4 := spawnPhase props closure input canvas s3) in *.
  destruct (updateBullets _ _ _ _) as [bs evs5]. cbn [fst].
  destruct (updateEnemies _ _ _ _ _) as [[p6 es6] evs6]. cbn [fst].
  destruct (combat _ _ _ _) as [[[bs7 sc7] es7] evs7]. cbn [fst].
  destruct (pickupHealthPacks _ _) as [[p8 hs8] evs8]. cbn. exact H4.
Qed.

Lemma afterShooting_order :
  inFiringOrder (Store.bullets s) (Store.lastShotTime s) ->
  inFiringOrder (Store.bullets (afterShooting props closure input canvas s))
                (Store.lastShotTime (afterShooting props closure input canvas s)).
Proof.
  intros Hall.
  destruct (playerPhase_player props input s) as (_ & Hb1 & Ht1 & _).
  fold (afterPlayer props input s) in Hb1, Ht1.
  destruct (afterShooting_bullets props closure input canvas s)
    as [[-> _] | [-> (_ & _ & _ & Htime & _)]].
  - rewrite Hb1, Ht1. exact Hall.
  - unfold afterShot.
    cbn [Store.bullets Store.lastShotTime Store.with_lastShotTime Store.with_bullets
         Store.with_player].
    rewrite Hb1. rewrite Ht1 in Htime.
    apply (inFiringOrder_shot _ _ (Store.lastShotTime s)); [exact Hall | reflexivity | lra].
Qed.

Lemma frameEnd_order :
  inFiringOrder (Store.bullets s) (Store.lastShotTime s) ->
  inFiringOrder (Store.bullets (frameEnd props closure input canvas s))
                (Store.lastShotTime (frameEnd props closure input canvas s)).
Proof.
  intros Hall. apply afterShooting_order in Hall.
  rewrite frameEnd_lastShotTime, frameEnd_bullets.
  unfold cleanupBullets. apply inFiringOrder_filter.
  rewrite afterCombat_bullets.
  destruct (combat_spec props
              (Store.bullets (beforeCombat props closure input canvas s))
              (Store.score (beforeCombat props closure input canvas s))
              (Store.enemies (beforeCombat props closure input canvas s)))
    as (_ & Hfought & _).
  apply (inFiringOrder_same_ids
           (Store.bullets (beforeCombat props closure input canvas s))).
  { revert Hfought. apply Forall2_impl. intros b b' (Hbase & _). exact Hbase. }
  rewrite beforeCombat_bullets. unfold updateBullets. cbn [fst].
  apply inFiringOrder_filter. apply inFiringOrder_map; [reflexivity | exact Hall].
Qed.

End FiringOrderOfFrame.

Lemma reachable_firing_order (s : Store) :
  reachable s -> inFiringOrder (Store.bullets s) (Store.lastShotTime s).
Proof.
  induction 1 as [closure | closure hasCanvas setAmmo layout cactuses rnd s Hr IH
                 | props closure input s Hr IH].
  - exact I.
  - unfold initGame. destruct (negb hasCanvas); [exact IH | exact I].
  - destruct (gameLoop_cases props closure input s) as [Hstop | (canvas & Hrun)].
    + rewrite Hstop. exact IH.
    + rewrite (gameLoop_running _ closure _ _ s Hrun). cbn [fst].
      apply frameEnd_order, IH.
Qed.

(** X20.  The fire rate holds across frames: on every store the component
    can hold, the bullets are in the order they were fired in, each carries
    its firing time as id, none is later than the time of the last shot,
    and any two were fired more than 500 ms apart; so the ids of the
    bullets are distinct. *)
Theorem bullets_in_firing_order (s : Store) :
  reachable s ->
  NoDup (map (fun b => Entity.id (Bullet.base b)) (Store.bullets s))
  /\ (forall before b after, Store.bullets s = before ++ b :: after ->
        exists t, firedAt b t /\ t <= Store.lastShotTime s
                  /\ forall b', In b' before ->
                       exists t', firedAt b' t' /\ t' + FIRE_RATE < t).
Proof.
  intros Hr. pose proof (reachable_firing_order s Hr) as Hall.
  split; [exact (inFiringOrder_NoDup _ _ Hall) | exact (inFiringOrder_split _ _ Hall)].
Qed.

(** ** A frame after the player's death *)

Lemma movedOnly_refl (e : Entity) : movedOnly e e.
Proof. unfold movedOnly. auto. Qed.

Lemma movedOnly_trans (a b c : Entity) : movedOnly a b -> movedOnly b c -> movedOnly a c.
Proof. unfold movedOnly. intros (? & ? & ? & ?) (? & ? & ? & ?). split_and; congruence. Qed.

Lemma resolveWallCollision_movedOnly (e : Entity) (wall : Wall) :
  movedOnly e (resolveWallCollision e wall).
Proof.
  unfold resolveWallCollision. destruct (_ && _); [|apply movedOnly_refl].
  unfold movedOnly. cbn. auto.
Qed.

Lemma resolveWalls_movedOnly (walls : list Wall) (e : Entity) :
  movedOnly e (resolveWalls e walls).
Proof.
  unfold resolveWalls. revert e. induction walls as [|wall rest IH]; intros e.
  - apply movedOnly_refl.
  - cbn [fold_left].
    exact (movedOnly_trans _ _ _ (resolveWallCollision_movedOnly e wall) (IH _)).
Qed.

Lemma resolveDecorationCollision_movedOnly (e : Entity) (d : Decoration) :
  movedOnly e (fst (resolveDecorationCollision e d)).
Proof.
  unfold resolveDecorationCollision. destruct (_ && _); [|apply movedOnly_refl].
  unfold movedOnly. cbn. auto.
Qed.

Lemma pushByDecorations_movedOnly (decorations : list Decoration) (e : Entity) :
  movedOnly e (pushByDecorations e decorations).
Proof.
  unfold pushByDecorations. revert e. induction decorations as [|d rest IH]; intros e.
  - apply movedOnly_refl.
  - cbn [fold_left].
    exact (movedOnly_trans _ _ _ (resolveDecorationCollision_movedOnly e d) (IH _)).
Qed.

Lemma driftEnemy_movedOnly (walls : list Wall) (decorations : list Decoration)
  (e : Enemy) :
  movedOnly (Enemy.base e) (Enemy.base (driftEnemy walls decorations e))
  /\ Enemy.hp (driftEnemy walls decorations e) = Enemy.hp e
  /\ Enemy.value (driftEnemy walls decorations e) = Enemy.value e
  /\ Enemy.speed (driftEnemy walls decorations e) = Enemy.speed e.
Proof.
  unfold driftEnemy. cbn [Enemy.base Enemy.with_base Enemy.hp Enemy.value Enemy.speed].
  split_and; try reflexivity.
  apply (movedOnly_trans _ (integrate (Enemy.base e))).
  - unfold movedOnly, integrate. cbn. auto.
  - apply (movedOnly_trans _ (resolveWalls (integrate (Enemy.base e)) walls)).
    + apply resolveWalls_movedOnly.
    + apply pushByDecorations_movedOnly.
Qed.

Lemma updateEnemies_dead (closure : Closure.t) (walls : list Wall)
  (decorations : list Decoration) (p : Player) (enemies : list Enemy) :
  Player.hp p <= 0 ->
  updateEnemies closure walls decorations p enemies
  = (p, map (driftEnemy walls decorations) enemies, []).
Proof.
  intros Hdead. induction enemies as [|e rest IH]; [reflexivity|].
  cbn [updateEnemies map]. unfold updateEnemy, steerEnemy, enemyHitsPlayer.
  rewrite (proj2 (gtb_false_iff _ _)) by lra. rewrite IH. reflexivity.
Qed.

Lemma playerPhase_dead (props : Props.t) (input : Input.t) (s : Store) :
  Player.hp (Store.player s) <= 0 -> playerPhase props input s = (s, []).
Proof.
  intros Hdead. unfold playerPhase.
  rewrite (proj2 (gtb_false_iff _ _)) by lra. reflexivity.
Qed.

Lemma spawnEnemy_dead (closure : Closure.t) (canvas : Canvas.t) (rnd : nat -> R)
  (now : R) (pos : Vector2) (s : Store) (k : nat) :
  Player.hp (Store.player s) <= 0 -> spawnEnemy closure canvas rnd now pos s k = (s, k).
Proof.
  intros Hdead. unfold spawnEnemy.
  rewrite (proj2 (leb_true_iff _ _)) by lra. reflexivity.
Qed.

Lemma healthPackLoop_grows (rnd : nat -> R) (now : R) (s : Store) (fuel k : nat) :
  let s' := fst (healthPackLoop fuel rnd now s k) in
  incl (Store.healthPacks s) (Store.healthPacks s').
Proof.
  revert k. induction fuel as [|fuel IH]; intros k; cbn [healthPackLoop].
  - cbn. apply incl_refl.
  - destruct (negb _); [|apply IH].
    cbn. apply incl_appl, incl_refl.
Qed.

Section DeadPlayer.
Variables (props : Props.t) (closure : Closure.t) (input : Input.t)
          (canvas : Canvas.t) (s : Store).
Hypothesis Hdead : Player.hp (Store.player s) <= 0.

Lemma dead_afterSpawning :
  Store.player (afterSpawning props closure input canvas s) = Store.player s
  /\ Store.enemies (afterSpawning props closure input canvas s) = Store.enemies s
  /\ Store.bullets (afterSpawning props closure input canvas s) = Store.bullets s
  /\ Store.walls (afterSpawning props closure input canvas s) = Store.walls s
  /\ Store.decorations (afterSpawning props closure input canvas s) = Store.decorations s
  /\ Store.lastShotTime (afterSpawning props closure input canvas s)
     = Store.lastShotTime s
  /\ Store.lastSpawnTime (afterSpawning props closure input canvas s)
     = Store.lastSpawnTime s
  /\ incl (Store.healthPacks s)
          (Store.healthPacks (afterSpawning props closure input canvas s)).
Proof.
  unfold afterSpawning, afterShooting, afterPlayer.
  rewrite (playerPhase_dead props input s Hdead). cbn [fst].
  rewrite shootPhase_holds by (intros (Hhp & _); lra). cbn [fst].
  unfold spawnPhase. rewrite (spawnEnemy_dead _ _ _ _ _ s 0 Hdead).
  destruct (GameState_eqb _ _); [|split_and; try reflexivity; apply incl_refl].
  unfold spawnHealthPack.
  destruct (_ >? _); [|cbn; split_and; try reflexivity; apply incl_refl].
  destruct (healthPackLoop_keeps (Input.rnd input) (Input.time input) s 10 0)
    as (Hp & Hb & Hw).
  destruct (healthPackLoop_frame (Input.rnd input) (Input.time input) s 10 0)
    as (He & Hd & _ & Hsp).
  split_and; try assumption.
  - generalize 10%nat as fuel. intros fuel. generalize 0%nat as k.
    induction fuel as [|fuel IH]; intros k; cbn [healthPackLoop]; [reflexivity|].
    destruct (negb _); [reflexivity | apply IH].
  - apply healthPackLoop_grows.
Qed.

Lemma dead_beforeCombat :
  Store.player (beforeCombat props closure input canvas s) = Store.player s
  /\ Store.enemies (beforeCombat props closure input canvas s)
     = map (driftEnemy (Store.walls s) (Store.decorations s)) (Store.enemies s)
  /\ snd (enemyPhase closure (afterBullets props closure input canvas s)) = []
  /\ Store.healthPacks (beforeCombat props closure input canvas s)
     = Store.healthPacks (afterSpawning props closure input canvas s)
  /\ Store.lastShotTime (beforeCombat props closure input canvas s)
     = Store.lastShotTime s
  /\ Store.lastSpawnTime (beforeCombat props closure input canvas s)
     = Store.lastSpawnTime s.
Proof.
  destruct dead_afterSpawning as (Hp4 & He4 & _ & Hw4 & Hd4 & Ht4 & Hsp4 & _).
  unfold beforeCombat, afterBullets.
  set (s4 := afterSpawning props closure input canvas s) in *.
  unfold bulletPhase. destruct (updateBullets _ _ _ _) as [bs evs5]. cbn [fst].
  unfold enemyPhase.
  cbn [Store.walls Store.decorations Store.player Store.enemies Store.with_bullets].
  rewrite updateEnemies_dead by (rewrite Hp4; exact Hdead).
  cbn. rewrite Hp4, He4, Hw4, Hd4, Ht4, Hsp4. split_and; reflexivity.
Qed.

End DeadPlayer.

(** X21.  A running frame that starts with a dead player (hp 0 or below)
    leaves the player as it is, fires no shot and spawns no enemy, and
    picks up no health pack.  The enemies that are left keep their id,
    velocity and radius: they drift on with the velocity they had.  The
    only calls such a frame can make are those of the round end check, of
    the bullets hitting walls and of combat. *)
Theorem dead_player_frame (props : Props.t) (closure : Closure.t) (input : Input.t)
  (canvas : Canvas.t) (s : Store) :
  running props input canvas ->
  Player.hp (Store.player s) <= 0 ->
  let s' := fst (gameLoop props closure input s) in
  let evs := snd (gameLoop props closure input s) in
  Store.player s' = Store.player s
  /\ Store.lastShotTime s' = Store.lastShotTime s
  /\ Store.lastSpawnTime s' = Store.lastSpawnTime s
  /\ (List.length (Store.bullets s') <= List.length (Store.bullets s))%nat
  /\ (forall e', In e' (Store.enemies s') ->
        exists e, In e (Store.enemies s)
                  /\ Enemy.base e' = Enemy.base (driftEnemy (Store.walls s)
                                                   (Store.decorations s) e)
                  /\ movedOnly (Enemy.base e) (Enemy.base e'))
  /\ incl (Store.healthPacks s) (Store.healthPacks s')
  /\ Forall (fun ev => afterDeathCall ev = true) evs.
Proof.
  intros Hrun Hdead s' evs. subst s' evs.
  rewrite (gameLoop_running _ closure _ _ s Hrun). cbn [fst snd].
  destruct (dead_afterSpawning props closure input canvas s Hdead)
    as (_ & _ & Hb4 & _ & _ & _ & _ & Hpacks4).
  destruct (dead_beforeCombat props closure input canvas s Hdead)
    as (Hp6 & He6 & Hev6 & Hh6 & Ht6 & Hsp6).
  assert (Hlen6 : (List.length (Store.bullets (beforeCombat props closure input canvas s))
                   <= List.length (Store.bullets s))%nat).
  { rewrite beforeCombat_bullets.
    assert (Hb3 : Store.bullets (afterShooting props closure input canvas s)
                  = Store.bullets s).
    { unfold afterShooting, afterPlayer.
      rewrite (playerPhase_dead props input s Hdead). cbn [fst].
      rewrite shootPhase_holds by (intros (Hhp & _); lra). reflexivity. }
    rewrite Hb3. unfold updateBullets. cbn [fst].
    etransitivity; [apply filter_length_le|]. rewrite length_map. lia. }
  assert (Hev : frameEvents props closure input canvas s
                = roundEndCheck props (Store.player s)
                  ++ snd (bulletPhase props canvas (afterSpawning props closure input canvas s))
                  ++ snd (combatPhase props (beforeCombat props closure input canvas s))).
  { unfold frameEvents.
    fold (afterShooting props closure input canvas s).
    fold (afterSpawning props closure input canvas s).
    fold (afterBullets props closure input canvas s).
    fold (beforeCombat props closure input canvas s).
    fold (afterCombat props closure input canvas s).
    rewrite Hev6. unfold afterShooting, afterPlayer.
    rewrite (playerPhase_dead props input s Hdead). cbn [fst snd].
    rewrite shootPhase_holds by (intros (Hhp & _); lra). cbn [fst snd app].
    unfold pickupPhase, pickupHealthPacks, afterCombat.
    destruct (combatPhase_keeps props (beforeCombat props closure input canvas s))
      as (Hp7 & _).
    rewrite Hp7, Hp6. rewrite (proj2 (gtb_false_iff _ _)) by lra.
    cbn [snd]. rewrite app_nil_r. reflexivity. }
  rewrite Hev. clear Hev.
  unfold frameEnd, afterPickup, afterCombat.
  set (s6 := beforeCombat props closure input canvas s) in *.
  destruct (combatPhase_keeps props s6) as (Hp7 & Hb7 & _).
  destruct (combatPhase_frame props s6) as (He7 & _ & Hev7 & _).
  destruct (combat_spec props (Store.bullets s6) (Store.score s6) (Store.enemies s6))
    as (Hbase & Hfought & _).
  rewrite <- He7 in Hbase. rewrite <- Hb7 in Hfought.
  assert (Ht7 : Store.lastShotTime (fst (combatPhase props s6)) = Store.lastShotTime s6
                /\ Store.lastSpawnTime (fst (combatPhase props s6)) = Store.lastSpawnTime s6
                /\ Store.healthPacks (fst (combatPhase props s6)) = Store.healthPacks s6).
  { unfold combatPhase. destruct (combat _ _ _ _) as [[[bs sc] es] evs7]. cbn. auto. }
  destruct Ht7 as (Ht7 & Hsp7 & Hh7).
  set (s7 := fst (combatPhase props s6)) in *.
  unfold pickupPhase, pickupHealthPacks. rewrite Hp7, Hp6.
  rewrite (proj2 (gtb_false_iff _ _)) by lra.
  unfold cleanupPhase.
  cbn [fst Store.player Store.lastShotTime Store.lastSpawnTime Store.bullets
       Store.enemies Store.healthPacks Store.with_enemies Store.with_bullets
       Store.with_healthPacks Store.with_player].
  split_and.
  - reflexivity.
  - rewrite Ht7, Ht6. reflexivity.
  - rewrite Hsp7, Hsp6. reflexivity.
  - etransitivity; [apply filter_length_le|].
    rewrite <- (Forall2_length Hfought). exact Hlen6.
  - intros e' Hin. unfold cleanupEnemies in Hin. apply filter_In in Hin.
    destruct Hin as [Hin _].
    assert (Hb : In (Enemy.base e') (map Enemy.base (Store.enemies s6)))
      by (rewrite <- Hbase; apply in_map, Hin).
    rewrite He6, map_map in Hb. apply in_map_iff in Hb.
    destruct Hb as (e & Heq & He). exists e. split_and.
    + exact He.
    + symmetry. exact Heq.
    + rewrite <- Heq. apply driftEnemy_movedOnly.
  - rewrite Hh7, Hh6. exact Hpacks4.
  - apply Forall_app. split.
    { pose proof (roundEndCheck_emits props (Store.player s)) as H.
      revert H. apply Forall_impl. intros ev Hk. unfold afterDeathCall.
      rewrite Hk. reflexivity. }
    apply Forall_app. split.
    { pose proof (bulletPhase_emits props canvas
                    (afterSpawning props closure input canvas s)) as H.
      revert H. apply Forall_impl. intros ev Hk. unfold afterDeathCall.
      rewrite Hk, orb_true_r. reflexivity. }
    rewrite Hev7.
    pose proof (combat_emits props (Store.bullets s6) (Store.score s6)
                  (Store.enemies s6)) as H.
    revert H. apply Forall_impl. intros ev Hk. unfold afterDeathCall.
    rewrite Hk, !orb_true_r. reflexivity.
Qed.

(** The frame after the one in which the wounded player died. *)
Lemma dead_player_frame_witness :
  running Sample.props (Sample.idle 20016) Sample.canvas
  /\ Player.hp (Store.player Sample.storeFallen) <= 0
  /\ Store.player (fst (gameLoop Sample.props Sample.closure (Sample.idle 20016)
                          Sample.storeFallen))
     = Store.player Sample.storeFallen.
Proof.
  assert (Hdead : Player.hp (Store.player Sample.storeFallen) <= 0) by (cbn; lra).
  split; [apply sample_running|]. split; [exact Hdead|].
  destruct (dead_player_frame Sample.props Sample.closure (Sample.idle 20016)
              Sample.canvas Sample.storeFallen (sample_running 20016) Hdead)
    as (Hplayer & _).
  exact Hplayer.
Defined.

(** ** The start of a match *)

Lemma obstacles_extends (rnd : nat -> R) (fuel : nat) (walls : list Wall) (k : nat) :
  exists obs, fst (Erindale.obstacles fuel rnd walls k) = walls ++ obs.
Proof.
  revert walls k. induction fuel as [|fuel IH]; intros walls k; cbn [Erindale.obstacles].
  - exists []. rewrite app_nil_r. reflexivity.
  - destruct (_ <? 350); [apply IH|].
    destruct (existsb _ walls); [apply IH|].
    destruct (_ >? 0.6); unfold add;
      match goal with
      | |- context [Erindale.obstacles fuel rnd (walls ++ [?w]) ?k'] =>
          destruct (IH (walls ++ [w]) k') as (obs & ->); exists (w :: obs);
          rewrite <- app_assoc; reflexivity
      end.
Qed.

Lemma erindale_origin_rejected (rnd : nat -> R) :
  rejected (fst (Erindale.generateErindaleLayout rnd)) (Vector2.mk 0 0).
Proof.
  unfold Erindale.generateErindaleLayout.
  destruct (obstacles_extends rnd Erindale.numObstacles Erindale.skeleton 0) as (obs & ->).
  unfold rejected, Erindale.skeleton. cbv zeta. unfold add at 1.
  eexists. split.
  - apply in_or_app. left. apply in_or_app. right. left. reflexivity.
  - unfold boxOverlaps. cbn. lra.
Qed.

(** X22.  Without a canvas [initGame] changes nothing and makes no call.
    With one it empties the enemies, bullets and health packs, installs
    the layout (and the cactuses on the Wasteland map only), puts a fresh
    player (100 hp of 100, 120 rounds, at rest) at the spawn position and
    resets the health pack and cactus timers, while the times of the last
    enemy spawn, of the last shot and of the last position update are
    kept.  The spawn position is either clear, by a box of half-side 20,
    of every wall of the layout, or it is the origin after 50 rejected
    candidates; on every generated Erindale layout the origin itself would
    be rejected, since it lies in the central ruins. *)
Theorem initGame_spec (closure : Closure.t) (setAmmo : bool) (layout : list Wall)
  (cactuses : list Decoration) (rnd : nat -> R) (s : Store) :
  let s' := fst (initGame closure true setAmmo layout cactuses rnd s) in
  let p := Entity.position (Player.base (Store.player s')) in
  initGame closure false setAmmo layout cactuses rnd s = (s, [])
  /\ Store.player s' = freshPlayer closure p
  /\ Store.enemies s' = [] /\ Store.bullets s' = [] /\ Store.healthPacks s' = []
  /\ Store.walls s' = layout
  /\ Store.decorations s'
     = (if String.eqb (Closure.currentMap closure) "Wasteland" then cactuses else [])
  /\ Store.lastHealthPackTime s' = 0 /\ Store.lastCactusDamageTime s' = 0
  /\ Store.lastSpawnTime s' = Store.lastSpawnTime s
  /\ Store.lastShotTime s' = Store.lastShotTime s
  /\ Store.lastUpdateEmit s' = Store.lastUpdateEmit s
  /\ ((forall wall, In wall layout -> ~ boxOverlaps p wall)
      \/ (p = Vector2.mk 0 0
          /\ forall j, (j < 50)%nat ->
               rejected layout (spawnCandidate rnd (Closure.currentMap closure) j)))
  /\ (forall draws, layout = fst (Erindale.generateErindaleLayout draws) ->
        rejected layout (Vector2.mk 0 0)).
Proof.
  intros s' p. subst s' p. unfold initGame. cbn [negb fst].
  cbn [Store.player Store.enemies Store.bullets Store.healthPacks Store.walls
       Store.decorations Store.lastHealthPackTime Store.lastCactusDamageTime
       Store.lastSpawnTime Store.lastShotTime Store.lastUpdateEmit
       freshPlayer Player.base Entity.position].
  split_and; try reflexivity.
  - unfold findSafeSpawnPosition, spawnCandidate.
    pose proof (spawnLoop_spec rnd layout (mapHalfWidth (Closure.currentMap closure))
                  (mapHalfHeight (Closure.currentMap closure)) MAX_ATTEMPTS 0) as Hloop.
    cbv zeta in Hloop. unfold MAX_ATTEMPTS in *. cbn [Nat.add] in Hloop.
    destruct Hloop as [(i & _ & _ & _ & Hclear & _) | (Hp & _ & Hrej)].
    + left. exact Hclear.
    + right. split; [exact Hp | exact Hrej].
  - intros draws ->. apply erindale_origin_rejected.
Qed.

(** ** The health packs in the store *)

Lemma spawnPhase_packs (props : Props.t) (closure : Closure.t) (input : Input.t)
  (canvas : Canvas.t) (s : Store) :
  let s' := spawnPhase props closure input canvas s in
  Store.healthPacks s' = Store.healthPacks s
  \/ exists p, Store.healthPacks s'
               = Store.healthPacks s ++ [newHealthPack (Input.time input) p]
               /\ forall wall, In wall (Store.walls s) -> ~ strictlyInside p wall.
Proof.
  unfold spawnPhase.
  destruct (spawnEnemy _ _ _ _ _ s 0) as [s1 k1] eqn:Hspawn.
  assert (H1 : Store.healthPacks s1 = Store.healthPacks s /\ Store.walls s1 = Store.walls s).
  { revert Hspawn. unfold spawnEnemy.
    repeat match goal with
    | |- context [if ?c then _ else _] => destruct c
    end; intros [= <- <-]; cbn; auto. }
  destruct H1 as [Hh1 Hw1].
  destruct (GameState_eqb _ _); [|left; exact Hh1].
  unfold spawnHealthPack. destruct (_ >? _); [|left; exact Hh1].
  destruct (healthPackLoop_spec (Input.rnd input) (Input.time input) s1 10 k1)
    as [(i & _ & -> & Hclear & _) | (-> & _)].
  - right. eexists. split.
    + unfold withPackAt. cbn. rewrite Hh1. reflexivity.
    + rewrite <- Hw1. exact Hclear.
  - left. exact Hh1.
Qed.

Lemma frameEnd_packs (props : Props.t) (closure : Closure.t) (input : Input.t)
  (canvas : Canvas.t) (s : Store) :
  packsPlaced s -> packsPlaced (frameEnd props closure input canvas s).
Proof.
  intros Hall. unfold packsPlaced in *.
  assert (Hwalls : Store.walls (frameEnd props closure input canvas s) = Store.walls s
                   /\ exists packs4,
                        Forall (packPlaced (Store.walls s)) packs4
                        /\ incl (Store.healthPacks (frameEnd props closure input canvas s))
                                packs4).
  { unfold frameEnd, afterPickup, afterCombat, beforeCombat, afterBullets,
      afterSpawning, afterShooting, afterPlayer.
    destruct (playerPhase_frame props input s) as (_ & Hw1 & Hh1 & _).
    set (s1 := fst (playerPhase props input s)) in *.
    destruct (shootPhase_frame props closure input canvas s1) as (_ & Hw3 & Hh3 & _).
    set (s3 := fst (shootPhase props closure input canvas s1)) in *.
    destruct (spawnPhase_keeps props closure input canvas s3) as (_ & _ & Hw4).
    pose proof (spawnPhase_packs props closure input canvas s3) as Hh4.
    set (s4 := spawnPhase props closure input canvas s3) in *.
    destruct (bulletPhase_frame props canvas s4) as (Hw5 & Hh5 & _).
    set (s5 := fst (bulletPhase props canvas s4)) in *.
    destruct (enemyPhase_frame closure s5) as (_ & Hw6 & Hh6 & _).
    set (s6 := fst (enemyPhase closure s5)) in *.
    destruct (combatPhase_frame props s6) as (_ & _ & _ & Hw7 & Hh7 & _).
    set (s7 := fst (combatPhase props s6)) in *.
    destruct (pickupPhase_frame s7) as (_ & Hw8 & _ & _ & Hh8).
    unfold cleanupPhase.
    cbn [Store.walls Store.healthPacks Store.with_enemies Store.with_bullets].
    rewrite Hw8, Hw7, Hw6, Hw5, Hw4, Hw3, Hw1. split; [reflexivity|].
    exists (Store.healthPacks s4). split.
    - cbv zeta in Hh4. rewrite Hh3, Hh1, Hw3, Hw1 in Hh4.
      destruct Hh4 as [-> | (p & -> & Hclear)]; [exact Hall|].
      apply Forall_app. split; [exact Hall|].
      constructor; [|constructor].
      unfold packPlaced, newHealthPack. cbn. split_and; auto.
    - rewrite Hh8, Hh7, Hh6, Hh5.
      unfold pickupHealthPacks. destruct (_ >? _); [|apply incl_refl].
      rewrite pickupLoop_spec. cbn [fst snd]. apply incl_filter. }
  destruct Hwalls as (-> & packs4 & Hplaced & Hincl).
  apply Forall_forall. intros pack Hin. rewrite Forall_forall in Hplaced.
  apply Hplaced, Hincl, Hin.
Qed.

(** X23.  On every store the component can hold, each health pack has its
    centre strictly inside no wall of the store, has radius 15, is at rest
    and active: packs are only ever placed clear of the walls, and the
    walls only change when the packs are cleared. *)
Theorem health_packs_clear_of_walls (s : Store) :
  reachable s -> Forall (packPlaced (Store.walls s)) (Store.healthPacks s).
Proof.
  induction 1 as [closure | closure hasCanvas setAmmo layout cactuses rnd s Hr IH
                 | props closure input s Hr IH].
  - constructor.
  - unfold initGame. destruct (negb hasCanvas); [exact IH | constructor].
  - destruct (gameLoop_cases props closure input s) as [Hstop | (canvas & Hrun)].
    + rewrite Hstop. exact IH.
    + rewrite (gameLoop_running _ closure _ _ s Hrun). cbn [fst].
      apply frameEnd_packs, IH.
Qed.

(** * The overkill, among other bullets and enemies *)
























(** * Worked frames *)

(** ** Frames on an open field *)

(** Equality of two records of numbers, field by field. *)
Ltac data_eq := repeat (first [reflexivity | lra | progress f_equal]).

Ltac sqrt_eval :=
  match goal with
  | |- context [sqrt (?a * ?a + ?b * ?b)] =>
      first [ replace (sqrt (a * a + b * b)) with a
                by (symmetry; apply sqrt_of_square; lra)
            | replace (sqrt (a * a + b * b)) with (- a)
                by (symmetry; apply sqrt_of_square; lra) ]
  end.

(** Reduction of the record updates and projections, numbers left alone. *)
Ltac store_eval :=
  cbv [Store.with_player Store.with_enemies Store.with_bullets Store.with_healthPacks
       Store.with_decorations Store.with_score Store.with_lastSpawnTime
       Store.with_lastHealthPackTime Store.with_lastUpdateEmit
       Store.with_lastCactusDamageTime Store.with_lastShotTime
       Store.player Store.enemies Store.bullets Store.walls Store.healthPacks
       Store.decorations Store.score Store.lastSpawnTime Store.lastHealthPackTime
       Store.lastUpdateEmit Store.lastCactusDamageTime Store.lastShotTime
       Player.with_base Player.with_hp Player.with_ammo Player.base Player.hp
       Player.maxHp Player.speed Player.name Player.ammo
       Enemy.with_base Enemy.with_hp Enemy.base Enemy.hp Enemy.speed Enemy.value
       Bullet.with_base Bullet.with_damage Bullet.base Bullet.damage Bullet.ownerId
       HealthPack.base HealthPack.active
       Entity.with_position Entity.with_velocity Entity.id Entity.position
       Entity.velocity Entity.radius Entity.color Entity.px Entity.py
       Vector2.x Vector2.y
       integrateBullet integrate freshPlayer mountStore newHealthPack
       Closure.levelConfig Closure.playerName LevelConfig.playerColor
       LevelConfig.playerSpeed LevelConfig.bulletColor LevelConfig.enemyColor
       fst snd app].

Lemma playerPhase_at_rest (props : Props.t) (input : Input.t) (s : Store) :
  Player.hp (Store.player s) > 0 -> Props.gameState props = PLAYING ->
  Input.keys input "w" = false -> Input.keys input "s" = false ->
  Input.keys input "a" = false -> Input.keys input "d" = false ->
  Entity.velocity (Player.base (Store.player s)) = Vector2.mk 0 0 ->
  Store.walls s = [] -> Store.decorations s = [] ->
  Props.onPlayerUpdate props = true ->
  Input.time input - Store.lastUpdateEmit s > 50 ->
  playerPhase props input s
  = (Store.with_lastUpdateEmit s (Input.time input),
     [OnPlayerUpdate (Entity.position (Player.base (Store.player s)))]).
Proof.
  intros Hhp Hst Hw Hs Ha Hd Hv Hwalls Hdec Hcb Htime. unfold playerPhase.
  rewrite (proj2 (gtb_true_iff _ _) Hhp), Hst.
  rewrite (movePlayer_still _ _ Hw Hs Ha Hd Hv), Hwalls, Hdec, Hcb.
  cbn [GameState_eqb andb resolveWalls resolveDecorations fold_left cactusDamage].
  destruct s as [[base hp maxHp speed name ammo] es bs ws hs ds sc t1 t2 t3 t4 t5].
  cbn in *. rewrite (proj2 (gtb_true_iff _ _) Htime). reflexivity.
Qed.

Lemma spawnPhase_idle (props : Props.t) (closure : Closure.t) (input : Input.t)
  (canvas : Canvas.t) (s : Store) :
  Closure.isMultiplayer closure = true
  \/ Input.time input - Store.lastSpawnTime s
     <= LevelConfig.enemySpawnRate (Closure.levelConfig closure) ->
  Input.time input - Store.lastHealthPackTime s <= HEALTH_PACK_INTERVAL ->
  spawnPhase props closure input canvas s = s.
Proof.
  intros Hspawn Hpack. unfold spawnPhase.
  assert (Hnone : spawnEnemy closure canvas (Input.rnd input) (Input.time input)
                    (cameraPos props (Store.player s)) s 0 = (s, 0%nat)).
  { unfold spawnEnemy. destruct (_ <=? 0); [reflexivity|].
    destruct Hspawn as [-> | Hrate]; [reflexivity|].
    destruct (Closure.isMultiplayer closure); [reflexivity|].
    rewrite (proj2 (gtb_false_iff _ _) Hrate). reflexivity. }
  rewrite Hnone. unfold spawnHealthPack. rewrite (proj2 (gtb_false_iff _ _) Hpack).
  destruct (GameState_eqb _ _); reflexivity.
Qed.

Lemma bulletPhase_open (props : Props.t) (canvas : Canvas.t) (s : Store) :
  Store.walls s = [] ->
  bulletPhase props canvas s
  = (Store.with_bullets s
       (filter (fun b => dist (Entity.position (Bullet.base b))
                              (cameraPos props (Store.player s))
                         <? despawnDistance canvas)
               (map integrateBullet (Store.bullets s))),
     []).
Proof.
  intros Hwalls. unfold bulletPhase, updateBullets. rewrite Hwalls. f_equal.
  induction (map integrateBullet (Store.bullets s)) as [|b rest IH]; [reflexivity|].
  exact IH.
Qed.

Lemma enemyPhase_none (closure : Closure.t) (s : Store) :
  Store.enemies s = [] -> enemyPhase closure s = (s, []).
Proof.
  intros He. unfold enemyPhase. rewrite He. destruct s. cbn in *. subst. reflexivity.
Qed.

Lemma combat_none (props : Props.t) (bullets : list Bullet) (score : R) :
  combat props bullets score [] = (bullets, score, [], []).
Proof.
  induction bullets as [|b rest IH]; [reflexivity|].
  cbn [combat bulletVsEnemies]. rewrite IH. reflexivity.
Qed.

Lemma combatPhase_none (props : Props.t) (s : Store) :
  Store.enemies s = [] -> combatPhase props s = (s, []).
Proof.
  intros He. unfold combatPhase. rewrite He, combat_none. destruct s. cbn in *. subst.
  reflexivity.
Qed.

Lemma pickupPhase_none (s : Store) :
  Store.healthPacks s = [] -> pickupPhase s = (s, []).
Proof.
  intros Hh. unfold pickupPhase, pickupHealthPacks. rewrite Hh.
  destruct (_ >? 0); destruct s; cbn in *; subst; reflexivity.
Qed.

Lemma sample_aim (time : R) : aimAngle (Sample.firing time) Sample.canvas = 0.
Proof.
  unfold aimAngle, Num.atan2. cbn. num_eval.
  replace ((300 - 600 / 2) / (500 - 800 / 2)) with 0 by lra. apply atan_0.
Qed.

Lemma firing_running (time : R) : running Sample.props (Sample.firing time) Sample.canvas.
Proof. unfold running. cbn. auto. Qed.

(** The first shot, 600 ms in: one bullet, 37 to the right of the player
    at the end of the frame. *)
Lemma first_shot_frame :
  gameLoop Sample.props Sample.closure (Sample.firing 600) Sample.storeFresh
  = (Sample.storeOneShot,
     [OnPlayerUpdate (Vector2.mk 0 0); PlayShoot; SetAmmo 119]).
Proof.
  rewrite (gameLoop_running _ _ _ _ _ (firing_running 600)).
  unfold frameEnd, frameEvents, afterPickup, afterCombat, beforeCombat, afterBullets,
    afterSpawning, afterShooting, afterPlayer.
  rewrite playerPhase_at_rest by (cbn; first [reflexivity | lra]).
  cbn [fst snd].
  rewrite shootPhase_fires by (unfold canFire, FIRE_RATE; cbn; split_and; first [reflexivity | lra]).
  cbn [fst snd]. unfold afterShot. rewrite sample_aim.
  rewrite spawnPhase_idle
    by (unfold HEALTH_PACK_INTERVAL; cbn; first [right; lra | lra]).
  rewrite bulletPhase_open by reflexivity. cbn [fst snd].
  rewrite enemyPhase_none by reflexivity. cbn [fst snd].
  rewrite combatPhase_none by reflexivity. cbn [fst snd].
  rewrite pickupPhase_none by reflexivity. cbn [fst snd].
  unfold cleanupPhase, cleanupBullets, cleanupEnemies, roundEndCheck.
  unfold newBullet, despawnDistance, dist. rewrite cos_0, sin_0.
  cbn -[sqrt Rmax]. rewrite Rmax_left by lra.
  sqrt_eval. repeat first [progress num_eval | progress cbn].
  unfold Sample.storeFresh, mountStore, Sample.storeOneShot, Sample.shooter,
    Sample.shotAt, Sample.closure, Sample.config.
  store_eval. data_eq.
Qed.

(** The second shot, 600 ms later, with no enemy about (a match between
    players): two bullets, 49 and 37 to the right of the player. *)
Lemma second_shot_frame :
  gameLoop Sample.props Sample.closureTeam (Sample.firing 1200) Sample.storeOneShot
  = (Sample.storeTwoShots,
     [OnPlayerUpdate (Vector2.mk 0 0); PlayShoot; SetAmmo 118]).
Proof.
  rewrite (gameLoop_running _ _ _ _ _ (firing_running 1200)).
  unfold frameEnd, frameEvents, afterPickup, afterCombat, beforeCombat, afterBullets,
    afterSpawning, afterShooting, afterPlayer.
  rewrite playerPhase_at_rest by (cbn; first [reflexivity | lra]).
  cbn [fst snd].
  rewrite shootPhase_fires by (unfold canFire, FIRE_RATE; cbn; split_and; first [reflexivity | lra]).
  cbn [fst snd]. unfold afterShot. rewrite sample_aim.
  rewrite spawnPhase_idle
    by (unfold HEALTH_PACK_INTERVAL; cbn; first [left; reflexivity | lra]).
  rewrite bulletPhase_open by reflexivity. cbn [fst snd].
  rewrite enemyPhase_none by reflexivity. cbn [fst snd].
  rewrite combatPhase_none by reflexivity. cbn [fst snd].
  rewrite pickupPhase_none by reflexivity. cbn [fst snd].
  unfold cleanupPhase, cleanupBullets, cleanupEnemies, roundEndCheck.
  unfold newBullet, despawnDistance, dist. rewrite cos_0, sin_0.
  cbn -[sqrt Rmax]. rewrite Rmax_left by lra.
  repeat sqrt_eval. repeat first [progress num_eval | progress cbn].
  unfold Sample.storeOneShot, Sample.storeTwoShots, Sample.shooter, Sample.shotAt,
    Sample.closureTeam, Sample.config.
  store_eval. data_eq.
Qed.

Lemma storeOneShot_reachable : reachable Sample.storeOneShot.
Proof.
  pose proof (reach_frame Sample.props Sample.closure (Sample.firing 600)
                Sample.storeFresh (reach_mount Sample.closure)) as H.
  rewrite first_shot_frame in H. exact H.
Qed.

Lemma storeTwoShots_reachable : reachable Sample.storeTwoShots.
Proof.
  pose proof (reach_frame Sample.props Sample.closureTeam (Sample.firing 1200)
                Sample.storeOneShot storeOneShot_reachable) as H.
  rewrite second_shot_frame in H. exact H.
Qed.

Lemma charging_aim (time : R) : aimAngle (Sample.charging time) Sample.canvas = 0.
Proof.
  unfold aimAngle, Num.atan2. cbn. num_eval.
  replace ((300 - 600 / 2) / (500 - 800 / 2)) with 0 by lra. apply atan_0.
Qed.

Lemma charging_running (time : R) :
  running Sample.props (Sample.charging time) Sample.canvas.
Proof. unfold running. cbn. auto. Qed.

(** The store before combat in the frame of the charge: the third shot
    is fired, an enemy spawns 500 to the right and charges to 60, past the
    two older bullets (now at 61 and 49). *)
Lemma charge_beforeCombat :
  beforeCombat Sample.props Sample.closureCharge (Sample.charging 2000) Sample.canvas
    Sample.storeTwoShots
  = Store.mk (Sample.shooter 117) [Sample.charger 60 1]
      [Sample.shotAt 600 61; Sample.shotAt 1200 49; Sample.shotAt 2000 37]
      [] [] [] 0 2000 0 2000 0 2000
  /\ snd (playerPhase Sample.props (Sample.charging 2000) Sample.storeTwoShots)
     = [OnPlayerUpdate (Vector2.mk 0 0)]
  /\ snd (shootPhase Sample.props Sample.closureCharge (Sample.charging 2000) Sample.canvas
            (afterPlayer Sample.props (Sample.charging 2000) Sample.storeTwoShots))
     = [PlayShoot; SetAmmo 117]
  /\ snd (bulletPhase Sample.props Sample.canvas
            (afterSpawning Sample.props Sample.closureCharge (Sample.charging 2000)
               Sample.canvas Sample.storeTwoShots)) = []
  /\ snd (enemyPhase Sample.closureCharge
            (afterBullets Sample.props Sample.closureCharge (Sample.charging 2000)
               Sample.canvas Sample.storeTwoShots)) = [].
Proof.
  unfold beforeCombat, afterBullets, afterSpawning, afterShooting, afterPlayer.
  rewrite playerPhase_at_rest by (cbn; first [reflexivity | lra]).
  cbn [fst snd].
  rewrite shootPhase_fires by (unfold canFire, FIRE_RATE; cbn; split_and; first [reflexivity | lra]).
  cbn [fst snd]. unfold afterShot. rewrite charging_aim.
  set (s3 := Store.with_lastShotTime _ _).
  assert (Hspawn : spawnPhase Sample.props Sample.closureCharge (Sample.charging 2000)
                     Sample.canvas s3
                   = Store.with_lastSpawnTime
                       (Store.with_enemies s3
                          [Enemy.mk (Entity.mk (EnemyId 2000) (Vector2.mk 500 0)
                                       (Vector2.mk 0 0) 12 "#ef4444") 1 440 10])
                       2000).
  { unfold spawnPhase, spawnEnemy, spawnHealthPack, HEALTH_PACK_INTERVAL, s3.
    cbn -[cos sin PI Rmax inWall]. num_eval.
    rewrite !Rmult_0_l, cos_0, sin_0. rewrite Rmax_left by lra.
    cbn -[Rmax]. num_eval. cbn. data_eq. }
  rewrite Hspawn. clear Hspawn.
  rewrite bulletPhase_open by reflexivity. cbn [fst snd].
  unfold s3, newBullet, despawnDistance, dist. rewrite cos_0, sin_0.
  unfold Sample.storeTwoShots, Sample.shooter, Sample.shotAt, Sample.closureCharge,
    Sample.configCharge, Sample.charging.
  cbn -[sqrt Rmax enemyPhase]. rewrite Rmax_left by lra.
  repeat sqrt_eval. repeat first [progress num_eval | progress (cbn -[enemyPhase])].
  unfold enemyPhase, updateEnemies, updateEnemy, steerEnemy, enemyHitsPlayer, dist.
  cbn -[sqrt]. num_eval. sqrt_eval. replace (- (0 - 500)) with 500 by lra. num_eval.
  cbn -[sqrt]. sqrt_eval. num_eval.
  split_and; try reflexivity.
  all: unfold Sample.charger; store_eval; data_eq.
Qed.

(** The frame of the charge: the two older bullets both hit the enemy, so
    its death is counted twice; the new bullet misses. *)
Lemma charge_frame :
  gameLoop Sample.props Sample.closureCharge (Sample.charging 2000)
    Sample.storeTwoShots
  = (Sample.storeAfterCharge,
     [OnPlayerUpdate (Vector2.mk 0 0); PlayShoot; SetAmmo 117;
      PlayEnemyDeath; SetScore 10; OnKill; CreateParticles 60 0 "#ef4444" 8;
      PlayEnemyDeath; SetScore 20; OnKill; CreateParticles 60 0 "#ef4444" 8]).
Proof.
  rewrite (gameLoop_running _ _ _ _ _ (charging_running 2000)).
  destruct charge_beforeCombat as (Hstore & Hev1 & Hev3 & Hev5 & Hev6).
  unfold frameEnd, frameEvents, afterPickup, afterCombat.
  fold (afterPlayer Sample.props (Sample.charging 2000) Sample.storeTwoShots).
  fold (afterShooting Sample.props Sample.closureCharge (Sample.charging 2000)
          Sample.canvas Sample.storeTwoShots).
  fold (afterSpawning Sample.props Sample.closureCharge (Sample.charging 2000)
          Sample.canvas Sample.storeTwoShots).
  fold (afterBullets Sample.props Sample.closureCharge (Sample.charging 2000)
          Sample.canvas Sample.storeTwoShots).
  fold (beforeCombat Sample.props Sample.closureCharge (Sample.charging 2000)
          Sample.canvas Sample.storeTwoShots).
  rewrite Hev1, Hev3, Hev5, Hev6, Hstore.
  assert (Hcombat :
    combatPhase Sample.props
      (Store.mk (Sample.shooter 117) [Sample.charger 60 1]
         [Sample.shotAt 600 61; Sample.shotAt 1200 49; Sample.shotAt 2000 37]
         [] [] [] 0 2000 0 2000 0 2000)
    = (Store.mk (Sample.shooter 117) [Sample.charger 60 (-39)]
         [Bullet.with_damage (Sample.shotAt 600 61) 0;
          Bullet.with_damage (Sample.shotAt 1200 49) 0; Sample.shotAt 2000 37]
         [] [] [] 20 2000 0 2000 0 2000,
       [PlayEnemyDeath; SetScore 10; OnKill; CreateParticles 60 0 "#ef4444" 8;
        PlayEnemyDeath; SetScore 20; OnKill; CreateParticles 60 0 "#ef4444" 8])).
  { unfold combatPhase, combat, bulletVsEnemies, bulletHitsEnemy, dist,
      Sample.charger, Sample.shotAt.
    cbn -[sqrt]. repeat sqrt_eval. num_eval. cbn -[sqrt]. num_eval.
    cbn -[sqrt]. repeat sqrt_eval. num_eval. cbn -[sqrt]. num_eval.
    cbn -[sqrt]. repeat sqrt_eval. num_eval. cbn.
    store_eval. data_eq. }
  rewrite Hcombat. cbn [fst snd].
  rewrite pickupPhase_none by reflexivity. cbn [fst snd].
  unfold cleanupPhase, cleanupBullets, cleanupEnemies, roundEndCheck,
    Sample.storeAfterCharge, Sample.charger, Sample.shotAt.
  cbn. num_eval. cbn. num_eval. reflexivity.
Qed.

Lemma storeAfterCharge_reachable : reachable Sample.storeAfterCharge.
Proof.
  pose proof (reach_frame Sample.props Sample.closureCharge (Sample.charging 2000)
                Sample.storeTwoShots storeTwoShots_reachable) as H.
  rewrite charge_frame in H. exact H.
Qed.

(** Combat in the frame of the charge. *)
Lemma charge_combat :
  combatPhase Sample.props
    (beforeCombat Sample.props Sample.closureCharge (Sample.charging 2000) Sample.canvas
       Sample.storeTwoShots)
  = (Store.mk (Sample.shooter 117) [Sample.charger 60 (-39)]
       [Bullet.with_damage (Sample.shotAt 600 61) 0;
        Bullet.with_damage (Sample.shotAt 1200 49) 0; Sample.shotAt 2000 37]
       [] [] [] 20 2000 0 2000 0 2000,
     [PlayEnemyDeath; SetScore 10; OnKill; CreateParticles 60 0 "#ef4444" 8;
      PlayEnemyDeath; SetScore 20; OnKill; CreateParticles 60 0 "#ef4444" 8]).
Proof.
  destruct charge_beforeCombat as (-> & _).
  unfold combatPhase, combat, bulletVsEnemies, bulletHitsEnemy, dist,
    Sample.charger, Sample.shotAt.
  cbn -[sqrt]. repeat sqrt_eval. num_eval. cbn -[sqrt]. num_eval.
  cbn -[sqrt]. repeat sqrt_eval. num_eval. cbn -[sqrt]. num_eval.
  cbn -[sqrt]. repeat sqrt_eval. num_eval. cbn.
  store_eval. data_eq.
Qed.

(** The frame of the charge: three bullets before combat, two of them
    spent on the enemy, one left by the cleanup. *)
Lemma bullet_damage_frame_witness :
  Store.bullets Sample.storeTwoShots = [Sample.shotAt 600 49; Sample.shotAt 1200 37]
  /\ Store.bullets (beforeCombat Sample.props Sample.closureCharge (Sample.charging 2000)
                      Sample.canvas Sample.storeTwoShots)
     = [Sample.shotAt 600 61; Sample.shotAt 1200 49; Sample.shotAt 2000 37]
  /\ Store.bullets (afterCombat Sample.props Sample.closureCharge (Sample.charging 2000)
                      Sample.canvas Sample.storeTwoShots)
     = [Bullet.with_damage (Sample.shotAt 600 61) 0;
        Bullet.with_damage (Sample.shotAt 1200 49) 0; Sample.shotAt 2000 37]
  /\ Store.bullets (fst (gameLoop Sample.props Sample.closureCharge
                           (Sample.charging 2000) Sample.storeTwoShots))
     = [Sample.shotAt 2000 37]
  /\ Forall (fun b => Bullet.damage b = 20) (Store.bullets Sample.storeTwoShots)
  /\ Forall2 (fun b b' => Bullet.damage b' <= Bullet.damage b
                          /\ (Bullet.damage b' = Bullet.damage b \/ Bullet.damage b' = 0))
       (Store.bullets (beforeCombat Sample.props Sample.closureCharge
                         (Sample.charging 2000) Sample.canvas Sample.storeTwoShots))
       (Store.bullets (afterCombat Sample.props Sample.closureCharge
                         (Sample.charging 2000) Sample.canvas Sample.storeTwoShots))
  /\ Forall (fun b => Bullet.damage b = 20)
       (Store.bullets (fst (gameLoop Sample.props Sample.closureCharge
                              (Sample.charging 2000) Sample.storeTwoShots))).
Proof.
  destruct (bullet_damage_frame Sample.props Sample.closureCharge (Sample.charging 2000)
              Sample.canvas Sample.storeTwoShots storeTwoShots_reachable
              (charging_running 2000))
    as (Hstore & _ & _ & _ & Hdmg & _ & Hend).
  destruct charge_beforeCombat as (Hbefore & _).
  split_and.
  - reflexivity.
  - rewrite Hbefore. reflexivity.
  - unfold afterCombat. rewrite charge_combat. reflexivity.
  - rewrite charge_frame. reflexivity.
  - exact Hstore.
  - exact Hdmg.
  - exact Hend.
Defined.

(** The frame of the charge counts the enemy twice: two death sounds and
    20 points. *)
Lemma score_counts_kills_witness :
  Store.score Sample.storeTwoShots = 0
  /\ kills (snd (gameLoop Sample.props Sample.closureCharge (Sample.charging 2000)
                   Sample.storeTwoShots)) = 2%nat
  /\ Store.score (fst (gameLoop Sample.props Sample.closureCharge (Sample.charging 2000)
                         Sample.storeTwoShots)) = 20
  /\ Store.score (fst (gameLoop Sample.props Sample.closureCharge (Sample.charging 2000)
                         Sample.storeTwoShots))
     = Store.score Sample.storeTwoShots
       + 10 * INR (kills (snd (gameLoop Sample.props Sample.closureCharge
                                 (Sample.charging 2000) Sample.storeTwoShots)))
  /\ Store.score Sample.storeTwoShots + 10 <= 10
     <= Store.score (fst (gameLoop Sample.props Sample.closureCharge
                            (Sample.charging 2000) Sample.storeTwoShots)).
Proof.
  destruct (score_counts_kills Sample.props Sample.closureCharge (Sample.charging 2000)
              Sample.storeTwoShots storeTwoShots_reachable) as (Hscore & _ & Hcalls).
  split_and.
  - reflexivity.
  - rewrite charge_frame. reflexivity.
  - rewrite charge_frame. reflexivity.
  - exact Hscore.
  - apply (Hcalls 10). rewrite charge_frame. cbn. auto 10.
  - apply (Hcalls 10). rewrite charge_frame. cbn. auto 10.
Defined.

(** The store after two shots, at 600 and 1200 ms. *)
Lemma bullets_in_firing_order_witness :
  Store.bullets Sample.storeTwoShots
  = [Sample.shotAt 600 49] ++ Sample.shotAt 1200 37 :: []
  /\ NoDup (map (fun b => Entity.id (Bullet.base b)) (Store.bullets Sample.storeTwoShots))
  /\ firedAt (Sample.shotAt 600 49) 600
  /\ firedAt (Sample.shotAt 1200 37) 1200
  /\ 600 + FIRE_RATE < 1200
  /\ 1200 <= Store.lastShotTime Sample.storeTwoShots.
Proof.
  destruct (bullets_in_firing_order Sample.storeTwoShots storeTwoShots_reachable)
    as [Hnodup Horder].
  destruct (Horder [Sample.shotAt 600 49] (Sample.shotAt 1200 37) [] eq_refl)
    as (t & Ht & Hlast & Hearlier).
  destruct (Hearlier (Sample.shotAt 600 49) (or_introl eq_refl)) as (t' & Ht' & Hapart).
  assert (Et : t = 1200) by (unfold firedAt in Ht; cbn in Ht; congruence).
  assert (Et' : t' = 600) by (unfold firedAt in Ht'; cbn in Ht'; congruence).
  subst t t'.
  split_and; [reflexivity | exact Hnodup | exact Ht' | exact Ht | exact Hapart | exact Hlast].
Defined.

(** The frame of the charge, around its call of setAmmo. *)
Lemma frame_calls_by_step_witness :
  snd (gameLoop Sample.props Sample.closureCharge (Sample.charging 2000)
         Sample.storeTwoShots)
  = [OnPlayerUpdate (Vector2.mk 0 0); PlayShoot]
    ++ SetAmmo 117
    :: [PlayEnemyDeath; SetScore 10; OnKill; CreateParticles 60 0 "#ef4444" 8;
        PlayEnemyDeath; SetScore 20; OnKill; CreateParticles 60 0 "#ef4444" 8]
  /\ emittedOnlyBy Shooting (SetAmmo 117)
  /\ Forall (emittedUpTo Shooting) [OnPlayerUpdate (Vector2.mk 0 0); PlayShoot]
  /\ Forall (emittedFrom Shooting)
       [PlayEnemyDeath; SetScore 10; OnKill; CreateParticles 60 0 "#ef4444" 8;
        PlayEnemyDeath; SetScore 20; OnKill; CreateParticles 60 0 "#ef4444" 8].
Proof.
  assert (Hev : snd (gameLoop Sample.props Sample.closureCharge (Sample.charging 2000)
                       Sample.storeTwoShots)
                = [OnPlayerUpdate (Vector2.mk 0 0); PlayShoot]
                  ++ SetAmmo 117
                  :: [PlayEnemyDeath; SetScore 10; OnKill; CreateParticles 60 0 "#ef4444" 8;
                      PlayEnemyDeath; SetScore 20; OnKill;
                      CreateParticles 60 0 "#ef4444" 8])
    by (rewrite charge_frame; reflexivity).
  assert (Honly : emittedOnlyBy Shooting (SetAmmo 117))
    by (intros j; destruct j; cbn; congruence).
  destruct (frame_calls_by_step Sample.props Sample.closureCharge (Sample.charging 2000)
              Sample.canvas Sample.storeTwoShots (charging_running 2000))
    as (_ & _ & _ & _ & _ & _ & _ & _ & Horder).
  destruct (Horder _ _ _ _ Hev Honly) as [Hbefore Hafter].
  split_and; assumption.
Defined.



(** ** A frame among the cactuses *)

Lemma storeGarden_reachable : reachable Sample.storeGarden.
Proof.
  pose proof (reach_init Sample.closureTeam true true [] [Sample.cactus; Sample.cactusEast]
                (fun _ => 1 / 2) Sample.storeFresh (reach_mount Sample.closure)) as H.
  assert (Heq : fst (initGame Sample.closureTeam true true []
                       [Sample.cactus; Sample.cactusEast] (fun _ => 1 / 2)
                       Sample.storeFresh) = Sample.storeGarden).
  { unfold initGame, findSafeSpawnPosition, MAX_ATTEMPTS, Sample.storeGarden.
    cbn. unfold freshPlayer, spawnSample. data_eq. }
  rewrite Heq in H. exact H.
Qed.

(** The player step: the player stands on the centre of the first cactus,
    which does nothing; the second, 18 to the right, pushes it to -12 and
    costs 2 hp. *)
Lemma garden_playerPhase (time : R) :
  time > 1000 ->
  playerPhase Sample.props (Sample.idle time) Sample.storeGarden
  = (Store.mk (Sample.gardener 98) [] [] [] [] [Sample.cactus; Sample.cactusEast]
       0 0 0 time time 0,
     [SetHealth 98; PlayPlayerDamage; CreateParticles (-12) 0 "#ef4444" 3;
      OnPlayerUpdate (Vector2.mk (-12) 0)]).
Proof.
  intros Htime. unfold playerPhase.
  rewrite (movePlayer_still (Input.keys (Sample.idle time))
             (Store.player Sample.storeGarden)) by reflexivity.
  unfold resolveDecorations, resolveDecorationStep, resolveDecorationCollision,
    cactusDamage, Sample.storeGarden, Sample.cactusEast, Sample.cactus.
  cbn -[sqrt Rmax]. num_eval. cbn -[sqrt Rmax]. num_eval.
  sqrt_eval. cbn -[sqrt Rmax]. num_eval. cbn -[sqrt Rmax]. num_eval.
  cbn -[Rmax]. rewrite Rmax_right by lra.
  unfold Sample.gardener. store_eval. data_eq.
  all: field.
Qed.

Lemma idle_holds_fire (closure : Closure.t) (time : R) (s : Store) :
  shootPhase Sample.props closure (Sample.idle time) Sample.canvas s = (s, []).
Proof.
  apply shootPhase_holds. intros (_ & _ & Hmouse & _). discriminate Hmouse.
Qed.

(** The whole frame at 30001 ms: the cactus costs 2 hp, then the first
    health pack of the round lands at the origin, 12 from the player, and
    restores the 2 hp. *)
Lemma garden_frame :
  gameLoop Sample.props Sample.closureTeam (Sample.idle 30001) Sample.storeGarden
  = (Store.mk (Sample.gardener 100) [] [] [] [] [Sample.cactus; Sample.cactusEast]
       0 0 30001 30001 30001 0,
     [SetHealth 98; PlayPlayerDamage; CreateParticles (-12) 0 "#ef4444" 3;
      OnPlayerUpdate (Vector2.mk (-12) 0);
      SetHealth 100; CreateParticles 0 0 "#22c55e" 10]).
Proof.
  rewrite (gameLoop_running _ _ _ _ _ (sample_running 30001)).
  unfold frameEnd, frameEvents, afterPickup, afterCombat, beforeCombat, afterBullets,
    afterSpawning, afterShooting, afterPlayer.
  rewrite garden_playerPhase by lra. cbn [fst snd].
  rewrite idle_holds_fire. cbn [fst snd].
  set (s3 := Store.mk _ _ _ _ _ _ _ _ _ _ _ _).
  assert (Hspawn : spawnPhase Sample.props Sample.closureTeam (Sample.idle 30001)
                     Sample.canvas s3
                   = Store.with_lastHealthPackTime
                       (Store.with_healthPacks s3 [newHealthPack 30001 (Vector2.mk 0 0)])
                       30001).
  { unfold spawnPhase, spawnEnemy, spawnHealthPack, HEALTH_PACK_INTERVAL, s3,
      healthPackLoop, healthPackSample, healthPackMapSize.
    cbn -[Rmax]. num_eval. cbn -[Rmax]. num_eval. cbn -[Rmax].
    unfold newHealthPack. store_eval. data_eq. }
  rewrite Hspawn. clear Hspawn.
  rewrite bulletPhase_open by reflexivity. cbn [fst snd].
  rewrite enemyPhase_none by reflexivity. cbn [fst snd].
  rewrite combatPhase_none by reflexivity. cbn [fst snd].
  unfold pickupPhase, pickupHealthPacks, pickupLoop, dist, s3, Sample.gardener.
  cbn -[sqrt]. num_eval. cbn -[sqrt]. sqrt_eval. num_eval. cbn.
  unfold roundEndCheck. cbn. num_eval. cbn.
  store_eval. data_eq.
Qed.

(** The frame among the cactuses: the contact costs 2 hp, the pack
    restores them, and the hp and every value passed to setHealth stay
    within the bounds. *)
Lemma player_hp_bounds_witness :
  snd (gameLoop Sample.props Sample.closureTeam (Sample.idle 30001) Sample.storeGarden)
  = [SetHealth 98; PlayPlayerDamage; CreateParticles (-12) 0 "#ef4444" 3;
     OnPlayerUpdate (Vector2.mk (-12) 0);
     SetHealth 100; CreateParticles 0 0 "#22c55e" 10]
  /\ -10 < Player.hp (Store.player Sample.storeGarden)
           <= Player.maxHp (Store.player Sample.storeGarden)
  /\ 0 <= 98 <= Player.maxHp (Store.player Sample.storeGarden)
  /\ 0 <= 100 <= Player.maxHp (Store.player Sample.storeGarden)
  /\ -10 < Player.hp (Store.player
                        (fst (gameLoop Sample.props Sample.closureTeam (Sample.idle 30001)
                                Sample.storeGarden)))
           <= Player.maxHp (Store.player Sample.storeGarden).
Proof.
  destruct (player_hp_bounds Sample.storeGarden storeGarden_reachable) as [Hnow Hframe].
  destruct (Hframe Sample.props Sample.closureTeam (Sample.idle 30001))
    as (_ & Hafter & Hcalls & _).
  split_and.
  - rewrite garden_frame. reflexivity.
  - apply Hnow.
  - apply Hnow.
  - apply (Hcalls 98). rewrite garden_frame. left. reflexivity.
  - apply (Hcalls 98). rewrite garden_frame. left. reflexivity.
  - apply (Hcalls 100). rewrite garden_frame. cbn. auto 10.
  - apply (Hcalls 100). rewrite garden_frame. cbn. auto 10.
  - apply Hafter.
  - apply Hafter.
Defined.

(** C9 as stated fails when a second cactus overlaps the player: standing
    exactly on the centre of one cactus, with another 18 to the right, more
    than a second after the last contact damage, the player registers no
    collision with the first, but is pushed by the second and loses
    2 hp. *)
Lemma second_cactus_hurts :
  centeredOn (playerArrival (Sample.idle 2000) Sample.storeGarden) Sample.cactus
  /\ resolveDecorationCollision (playerArrival (Sample.idle 2000) Sample.storeGarden)
       Sample.cactus
     = (playerArrival (Sample.idle 2000) Sample.storeGarden, false)
  /\ Player.hp (Store.player Sample.storeGarden) = 100
  /\ Player.hp (Store.player
                  (fst (playerPhase Sample.props (Sample.idle 2000) Sample.storeGarden)))
     = 98
  /\ In (SetHealth 98)
        (snd (playerPhase Sample.props (Sample.idle 2000) Sample.storeGarden))
  /\ Entity.position (Player.base (Store.player
       (fst (playerPhase Sample.props (Sample.idle 2000) Sample.storeGarden))))
     = Vector2.mk (-12) 0.
Proof.
  assert (Hc : centeredOn (playerArrival (Sample.idle 2000) Sample.storeGarden)
                 Sample.cactus).
  { unfold playerArrival, Sample.storeGarden, Sample.idle.
    cbn [Store.walls Store.player Input.keys resolveWalls fold_left].
    rewrite movePlayer_idle by reflexivity.
    unfold centeredOn, Entity.px, Entity.py. cbn. split; lra. }
  split_and.
  - exact Hc.
  - apply resolveDecorationCollision_centered, Hc.
  - reflexivity.
  - rewrite garden_playerPhase by lra. reflexivity.
  - rewrite garden_playerPhase by lra. left. reflexivity.
  - rewrite garden_playerPhase by lra. reflexivity.
Qed.

(** ** A restart and the frame after it *)

Lemma restart_after_charge :
  initGame Sample.closureCharge true true [] [] (fun _ => 1 / 2) Sample.storeAfterCharge
  = (Sample.storeRestarted, [SetScore 0; SetHealth 100; SetAmmo 120]).
Proof.
  unfold initGame, findSafeSpawnPosition, MAX_ATTEMPTS, Sample.storeRestarted,
    Sample.shooter.
  cbn. unfold freshPlayer, spawnSample. cbn. data_eq.
Qed.

(** The first frame after the restart, at 4000 ms: an enemy spawns 500 to
    the right and rushes to 50, onto the bullet fired in this frame. *)
Lemma rush_frame :
  gameLoop Sample.props Sample.closureRush (Sample.charging 4000) Sample.storeRestarted
  = (Sample.storeAfterRush,
     [OnPlayerUpdate (Vector2.mk 0 0); PlayShoot; SetAmmo 119;
      PlayEnemyDeath; SetScore 30; OnKill; CreateParticles 50 0 "#ef4444" 8]).
Proof.
  rewrite (gameLoop_running _ _ _ _ _ (charging_running 4000)).
  unfold frameEnd, frameEvents, afterPickup, afterCombat, beforeCombat, afterBullets,
    afterSpawning, afterShooting, afterPlayer.
  rewrite playerPhase_at_rest by (cbn; first [reflexivity | lra]).
  cbn [fst snd].
  rewrite shootPhase_fires by (unfold canFire, FIRE_RATE; cbn; split_and; first [reflexivity | lra]).
  cbn [fst snd]. unfold afterShot. rewrite charging_aim.
  set (s3 := Store.with_lastShotTime _ _).
  assert (Hspawn : spawnPhase Sample.props Sample.closureRush (Sample.charging 4000)
                     Sample.canvas s3
                   = Store.with_lastSpawnTime
                       (Store.with_enemies s3
                          [Enemy.mk (Entity.mk (EnemyId 4000) (Vector2.mk 500 0)
                                       (Vector2.mk 0 0) 12 "#ef4444") 1 450 10])
                       4000).
  { unfold spawnPhase, spawnEnemy, spawnHealthPack, HEALTH_PACK_INTERVAL, s3.
    cbn -[cos sin PI Rmax inWall]. num_eval.
    rewrite !Rmult_0_l, cos_0, sin_0. rewrite Rmax_left by lra.
    cbn -[Rmax]. num_eval. cbn. data_eq. }
  rewrite Hspawn. clear Hspawn.
  rewrite bulletPhase_open by reflexivity. cbn [fst snd].
  unfold s3, newBullet, despawnDistance, dist. rewrite cos_0, sin_0.
  unfold Sample.storeRestarted, Sample.shooter, Sample.closureRush,
    Sample.configRush, Sample.charging.
  cbn -[sqrt Rmax enemyPhase combatPhase pickupPhase]. rewrite Rmax_left by lra.
  repeat sqrt_eval.
  repeat first [progress num_eval | progress (cbn -[enemyPhase combatPhase pickupPhase])].
  unfold enemyPhase, updateEnemies, updateEnemy, steerEnemy, enemyHitsPlayer, dist.
  cbn -[sqrt combatPhase pickupPhase]. num_eval. sqrt_eval.
  replace (- (0 - 500)) with 500 by lra. num_eval.
  cbn -[sqrt combatPhase pickupPhase]. sqrt_eval. num_eval.
  cbn -[sqrt combatPhase pickupPhase].
  unfold combatPhase, combat, bulletVsEnemies, bulletHitsEnemy, dist.
  store_eval. cbn -[sqrt pickupPhase]. num_eval.
  repeat sqrt_eval. num_eval. cbn -[sqrt pickupPhase]. num_eval.
  rewrite pickupPhase_none by reflexivity.
  unfold cleanupPhase, cleanupBullets, cleanupEnemies, roundEndCheck, Sample.storeAfterRush,
    Sample.shooter.
  cbn. num_eval. cbn. num_eval. cbn. store_eval.
  repeat (first [reflexivity | lra | field | progress f_equal]).
Qed.

Lemma storeRestarted_reachable : reachable Sample.storeRestarted.
Proof.
  pose proof (reach_init Sample.closureCharge true true [] [] (fun _ => 1 / 2)
                Sample.storeAfterCharge storeAfterCharge_reachable) as H.
  rewrite restart_after_charge in H. exact H.
Qed.

(** A restart at the score 20, then a kill: setScore is called with 0 by
    the restart and with 30 by the frame after it. *)
Lemma restart_keeps_score_witness :
  Store.score Sample.storeAfterCharge = 20
  /\ initGame Sample.closureCharge true true [] [] (fun _ => 1 / 2)
       Sample.storeAfterCharge
     = (Sample.storeRestarted, [SetScore 0; SetHealth 100; SetAmmo 120])
  /\ In (SetScore 0)
        (snd (initGame Sample.closureCharge true true [] [] (fun _ => 1 / 2)
                Sample.storeAfterCharge))
  /\ Store.score (fst (initGame Sample.closureCharge true true [] [] (fun _ => 1 / 2)
                         Sample.storeAfterCharge)) = 20
  /\ In (SetScore 30)
        (snd (gameLoop Sample.props Sample.closureRush (Sample.charging 4000)
                (fst (initGame Sample.closureCharge true true [] [] (fun _ => 1 / 2)
                        Sample.storeAfterCharge))))
  /\ Store.score Sample.storeAfterCharge + 10 <= 30.
Proof.
  destruct (restart_keeps_score Sample.closureCharge Sample.closureRush true [] []
              (fun _ => 1 / 2) Sample.storeAfterCharge Sample.props
              (Sample.charging 4000) storeAfterCharge_reachable)
    as (Hcall & Hscore & Hlater).
  assert (Hin : In (SetScore 30)
        (snd (gameLoop Sample.props Sample.closureRush (Sample.charging 4000)
                (fst (initGame Sample.closureCharge true true [] [] (fun _ => 1 / 2)
                        Sample.storeAfterCharge))))).
  { rewrite restart_after_charge. cbn [fst]. rewrite rush_frame. cbn. auto 10. }
  split_and.
  - reflexivity.
  - exact restart_after_charge.
  - exact Hcall.
  - rewrite Hscore. reflexivity.
  - exact Hin.
  - exact (Hlater 30 Hin).
Defined.

(** ** A health pack among walls *)

Lemma spawnLoop_first (fuel : nat) (rnd : nat -> R) (walls : list Wall)
  (mapW mapH : R) (k : nat) :
  spawnSafe walls (Vector2.x (spawnSample rnd mapW mapH k))
            (Vector2.y (spawnSample rnd mapW mapH k)) = true ->
  spawnLoop (S fuel) rnd walls mapW mapH k = (spawnSample rnd mapW mapH k, S (S k)).
Proof. intros H. cbn [spawnLoop]. rewrite H. reflexivity. Qed.

Lemma storeWithBoundary_reachable : reachable Sample.storeWithBoundary.
Proof.
  pose proof (reach_init Sample.closure true true [Sample.topBoundary] []
                (fun _ => 1 / 2) Sample.storeFresh (reach_mount Sample.closure)) as H.
  assert (Heq : fst (initGame Sample.closure true true [Sample.topBoundary] []
                       (fun _ => 1 / 2) Sample.storeFresh) = Sample.storeWithBoundary).
  { unfold initGame, findSafeSpawnPosition, MAX_ATTEMPTS.
    cbn [negb]. rewrite spawnLoop_first.
    - unfold Sample.storeWithBoundary, freshPlayer, spawnSample, PADDING. cbn. data_eq.
    - unfold spawnSafe, spawnBoxOverlaps, spawnSample, PADDING, spawnPlayerRadius,
        Sample.topBoundary.
      cbn. num_eval. reflexivity. }
  rewrite Heq in H. exact H.
Qed.

Lemma bulletPhase_none (props : Props.t) (canvas : Canvas.t) (s : Store) :
  Store.bullets s = [] -> bulletPhase props canvas s = (s, []).
Proof.
  intros Hb. unfold bulletPhase, updateBullets. rewrite Hb.
  destruct s. cbn in *. subst. reflexivity.
Qed.

Lemma scouting_running (time : R) :
  running Sample.props (Sample.scouting time) Sample.canvas.
Proof. unfold running. cbn. auto. Qed.

(** The frame at 30001 ms: the first candidate for the pack is inside the
    wall and refused, the second is taken. *)
Lemma pack_frame :
  gameLoop Sample.props Sample.closureTeam (Sample.scouting 30001)
    Sample.storeWithBoundary
  = (Sample.storeWithPack, [OnPlayerUpdate (Vector2.mk 0 0)]).
Proof.
  rewrite (gameLoop_running _ _ _ _ _ (scouting_running 30001)).
  unfold frameEnd, frameEvents, afterPickup, afterCombat, beforeCombat, afterBullets,
    afterSpawning, afterShooting, afterPlayer.
  assert (Hplayer : playerPhase Sample.props (Sample.scouting 30001)
                      Sample.storeWithBoundary
                    = (Store.with_lastUpdateEmit Sample.storeWithBoundary 30001,
                       [OnPlayerUpdate (Vector2.mk 0 0)])).
  { unfold playerPhase.
    rewrite (movePlayer_still (Input.keys (Sample.scouting 30001))
               (Store.player Sample.storeWithBoundary)) by reflexivity.
    unfold resolveWalls, resolveWallCollision, closestX, closestY,
      Sample.storeWithBoundary, Sample.topBoundary.
    cbn -[Rmax Rmin]. minmax_eval. num_eval. cbn. num_eval. reflexivity. }
  rewrite Hplayer. cbn [fst snd].
  assert (Hshoot : forall s, shootPhase Sample.props Sample.closureTeam
                               (Sample.scouting 30001) Sample.canvas s = (s, [])).
  { intros s. apply shootPhase_holds. intros (_ & _ & Hmouse & _). discriminate Hmouse. }
  rewrite Hshoot. cbn [fst snd].
  set (s3 := Store.with_lastUpdateEmit _ _).
  assert (Hspawn : spawnPhase Sample.props Sample.closureTeam (Sample.scouting 30001)
                     Sample.canvas s3
                   = Store.with_lastHealthPackTime
                       (Store.with_healthPacks s3 [newHealthPack 30001 (Vector2.mk 600 0)])
                       30001).
  { unfold spawnPhase, spawnEnemy, spawnHealthPack, HEALTH_PACK_INTERVAL, s3,
      healthPackLoop, healthPackSample, healthPackMapSize, inWall, insideWall,
      Sample.storeWithBoundary, Sample.topBoundary.
    cbn -[Rmax]. num_eval. cbn -[Rmax]. num_eval. cbn -[Rmax]. num_eval. cbn -[Rmax].
    unfold newHealthPack. store_eval. data_eq. }
  rewrite Hspawn. clear Hspawn.
  rewrite bulletPhase_none by reflexivity. cbn [fst snd].
  rewrite enemyPhase_none by reflexivity. cbn [fst snd].
  rewrite combatPhase_none by reflexivity. cbn [fst snd].
  unfold pickupPhase, pickupHealthPacks, pickupLoop, dist, s3, newHealthPack,
    Sample.storeWithBoundary.
  cbn -[sqrt]. num_eval. cbn -[sqrt]. sqrt_eval. num_eval. cbn.
  unfold roundEndCheck. cbn. num_eval. cbn.
  unfold Sample.storeWithPack, newHealthPack. store_eval. data_eq.
Qed.

Lemma storeWithPack_reachable : reachable Sample.storeWithPack.
Proof.
  pose proof (reach_frame Sample.props Sample.closureTeam (Sample.scouting 30001)
                Sample.storeWithBoundary storeWithBoundary_reachable) as H.
  rewrite pack_frame in H. exact H.
Qed.

(** The store with the top boundary and the pack that the frame at
    30001 ms placed, its first candidate having been refused. *)
Lemma health_packs_clear_of_walls_witness :
  fst (gameLoop Sample.props Sample.closureTeam (Sample.scouting 30001)
         Sample.storeWithBoundary) = Sample.storeWithPack
  /\ Store.walls Sample.storeWithPack = [Sample.topBoundary]
  /\ Store.healthPacks Sample.storeWithPack = [newHealthPack 30001 (Vector2.mk 600 0)]
  /\ inWall [Sample.topBoundary]
            (Vector2.x (healthPackSample Sample.packDraws 0))
            (Vector2.y (healthPackSample Sample.packDraws 0)) = true
  /\ healthPackSample Sample.packDraws 2 = Vector2.mk 600 0
  /\ Forall (packPlaced (Store.walls Sample.storeWithPack))
            (Store.healthPacks Sample.storeWithPack).
Proof.
  pose proof (health_packs_clear_of_walls Sample.storeWithPack storeWithPack_reachable)
    as Hclear.
  split_and.
  - rewrite pack_frame. reflexivity.
  - reflexivity.
  - reflexivity.
  - unfold inWall, insideWall, healthPackSample, healthPackMapSize, Sample.topBoundary.
    cbn. num_eval. reflexivity.
  - unfold healthPackSample, healthPackMapSize. cbn. f_equal; lra.
  - exact Hclear.
Defined.

(** ** Cactuses from given draws *)

(** When every draw from the [k]-th on is 0, every candidate is the
    corner (-700, -900) and is accepted. *)
Lemma cactuses_corner (rnd : nat -> R) (fuel i : nat) (decors : list Decoration)
  (k : nat) :
  (forall n, (k <= n)%nat -> rnd n = 0) ->
  Wasteland.cactuses fuel rnd i decors k
  = (decors ++ map Sample.cornerCactus (seq i fuel), (k + 4 * fuel)%nat).
Proof.
  revert i decors k. induction fuel as [|fuel IH]; intros i decors k Hrnd.
  - cbn. rewrite app_nil_r. f_equal. lia.
  - cbn [Wasteland.cactuses].
    rewrite (Hrnd k), (Hrnd (S k)), (Hrnd (S (S k))), (Hrnd (3 + k)%nat) by lia.
    assert (Hx : (Rabs ((0 * 2 - 1) * (Wasteland.MAP_W / 2 - 100)) <? 350) = false).
    { unfold Wasteland.MAP_W. rewrite Rabs_left by lra. apply ltb_false_iff. lra. }
    rewrite Hx. cbn [andb negb].
    rewrite IH by (intros n Hn; apply Hrnd; lia).
    rewrite <- app_assoc. cbn [app seq map]. f_equal.
    + f_equal. f_equal. unfold Sample.cornerCactus, Wasteland.MAP_W, Wasteland.MAP_H.
      f_equal; lra.
    + lia.
Qed.

Lemma cactuses_refused (rnd : nat -> R) (fuel i : nat) (decors : list Decoration)
  (k : nat) :
  (Rabs ((rnd k * 2 - 1) * (Wasteland.MAP_W / 2 - 100)) <? 350) = true ->
  (Rabs ((rnd (S k) * 2 - 1) * (Wasteland.MAP_H / 2 - 100)) <? 350) = true ->
  Wasteland.cactuses (S fuel) rnd i decors k
  = Wasteland.cactuses fuel rnd (S i) decors (S (S k)).
Proof. intros Hx Hy. cbn [Wasteland.cactuses]. rewrite Hx, Hy. reflexivity. Qed.

(** The first candidate, at the centre, is refused; the 17 others are
    accepted and carry the indices 1 to 17. *)
Lemma generateCactuses_spec_witness :
  (forall n : nat, Num.unit_interval (Sample.centreFirst n))
  /\ fst (Wasteland.generateCactuses Sample.centreFirst)
     = map Sample.cornerCactus (seq 1 17)
  /\ snd (Wasteland.generateCactuses Sample.centreFirst) = 70%nat
  /\ (List.length (fst (Wasteland.generateCactuses Sample.centreFirst)) <= 18)%nat
  /\ Forall wastelandCactus (fst (Wasteland.generateCactuses Sample.centreFirst))
  /\ NoDup (map Decoration.id (fst (Wasteland.generateCactuses Sample.centreFirst))).
Proof.
  assert (Hrnd : forall n : nat, Num.unit_interval (Sample.centreFirst n)).
  { intros [|[|n]]; unfold Num.unit_interval; cbn; lra. }
  assert (Hrun : Wasteland.generateCactuses Sample.centreFirst
                 = (map Sample.cornerCactus (seq 1 17), 70%nat)).
  { unfold Wasteland.generateCactuses, Wasteland.numCactuses.
    rewrite (cactuses_refused Sample.centreFirst 17 0 [] 0).
    - apply (cactuses_corner Sample.centreFirst 17 1 [] 2).
      intros [|[|n]] Hn; [lia | lia | reflexivity].
    - unfold Sample.centreFirst.
      replace ((1 / 2 * 2 - 1) * (Wasteland.MAP_W / 2 - 100)) with 0 by lra.
      rewrite Rabs_R0. apply ltb_true_iff. lra.
    - unfold Sample.centreFirst.
      replace ((1 / 2 * 2 - 1) * (Wasteland.MAP_H / 2 - 100)) with 0 by lra.
      rewrite Rabs_R0. apply ltb_true_iff. lra. }
  destruct (generateCactuses_spec Sample.centreFirst Hrnd)
    as (Hlen & _ & Hall & Hnodup & _).
  split_and.
  - exact Hrnd.
  - rewrite Hrun. reflexivity.
  - rewrite Hrun. reflexivity.
  - exact Hlen.
  - exact Hall.
  - exact Hnodup.
Defined.

(** ** Bullets among walls *)

Lemma range_kept :
  Store.bullets (fst (bulletPhase Sample.props Sample.canvas Sample.storeRange))
  = [integrateBullet (Sample.shotAt 600 190); integrateBullet (Sample.shotAt 1800 25)].
Proof.
  unfold bulletPhase, updateBullets, bulletKept, hitsWall, checkBulletWallCollision,
    closestX, closestY, dist, despawnDistance, Sample.storeRange, Sample.pillar,
    Sample.hedge, Sample.farBullet, Sample.shotAt.
  cbn -[sqrt Rmax Rmin]. minmax_eval. num_eval. cbn -[sqrt Rmax Rmin].
  repeat sqrt_eval. num_eval. reflexivity.
Qed.

Lemma range_touch :
  touchesWall (integrateBullet (Sample.shotAt 1200 86)) Sample.pillar.
Proof.
  unfold touchesWall, closestPoint, closestX, closestY, dist, Sample.pillar.
  cbn -[sqrt Rmax Rmin]. minmax_eval. split; [reflexivity|].
  sqrt_eval. lra.
Qed.

Lemma range_far :
  dist (Entity.position (Bullet.base (integrateBullet Sample.farBullet)))
       (cameraPos Sample.props (Store.player Sample.storeRange)) = 1300.
Proof. unfold dist. cbn. apply sqrt_of_square; lra. Qed.

Lemma range_in_hedge :
  dist (Entity.position (Bullet.base (integrateBullet (Sample.shotAt 600 190))))
       (closestPoint Sample.hedge
          (Entity.position (Bullet.base (integrateBullet (Sample.shotAt 600 190))))) = 0.
Proof.
  unfold closestPoint, closestX, closestY, dist, Sample.hedge.
  cbn -[sqrt Rmax Rmin]. minmax_eval. apply sqrt_of_square; lra.
Qed.

(** A block, a hedge, and four bullets in flight: one is stopped by the
    block, one is out of range, one crosses the hedge, one is in the
    open. *)
Lemma updateBullets_spec_witness :
  Forall (fun b => 0 <= Entity.radius (Bullet.base b)) (Store.bullets Sample.storeRange)
  /\ Store.bullets (fst (bulletPhase Sample.props Sample.canvas Sample.storeRange))
     = [integrateBullet (Sample.shotAt 600 190); integrateBullet (Sample.shotAt 1800 25)]
  /\ touchesWall (integrateBullet (Sample.shotAt 1200 86)) Sample.pillar
  /\ ~ In (integrateBullet (Sample.shotAt 1200 86))
          (Store.bullets (fst (bulletPhase Sample.props Sample.canvas Sample.storeRange)))
  /\ 1.5 * Rmax (Canvas.width Sample.canvas) (Canvas.height Sample.canvas)
     <= dist (Entity.position (Bullet.base (integrateBullet Sample.farBullet)))
             (cameraPos Sample.props (Store.player Sample.storeRange))
  /\ ~ In (integrateBullet Sample.farBullet)
          (Store.bullets (fst (bulletPhase Sample.props Sample.canvas Sample.storeRange)))
  /\ Wall.low Sample.hedge = true
  /\ dist (Entity.position (Bullet.base (integrateBullet (Sample.shotAt 600 190))))
          (closestPoint Sample.hedge
             (Entity.position (Bullet.base (integrateBullet (Sample.shotAt 600 190)))))
     < Entity.radius (Bullet.base (integrateBullet (Sample.shotAt 600 190)))
  /\ ~ (exists wall, In wall (Store.walls Sample.storeRange)
                     /\ touchesWall (integrateBullet (Sample.shotAt 600 190)) wall)
  /\ In (integrateBullet (Sample.shotAt 600 190))
        (Store.bullets (fst (bulletPhase Sample.props Sample.canvas Sample.storeRange))).
Proof.
  assert (Hrad : Forall (fun b => 0 <= Entity.radius (Bullet.base b))
                        (Store.bullets Sample.storeRange)).
  { repeat constructor; cbn; lra. }
  destruct (updateBullets_spec Sample.props Sample.canvas Sample.storeRange Hrad)
    as (_ & Hdestroyed & _ & _).
  assert (Hfar : 1.5 * Rmax (Canvas.width Sample.canvas) (Canvas.height Sample.canvas)
                 <= dist (Entity.position (Bullet.base (integrateBullet Sample.farBullet)))
                         (cameraPos Sample.props (Store.player Sample.storeRange))).
  { rewrite range_far. cbn [Canvas.width Canvas.height Sample.canvas].
    rewrite Rmax_left by lra. lra. }
  assert (Hkept : In (integrateBullet (Sample.shotAt 600 190))
        (Store.bullets (fst (bulletPhase Sample.props Sample.canvas Sample.storeRange))))
    by (rewrite range_kept; left; reflexivity).
  assert (Hfree : ~ (exists wall, In wall (Store.walls Sample.storeRange)
                     /\ touchesWall (integrateBullet (Sample.shotAt 600 190)) wall)).
  { intros Hwall.
    apply (proj2 (Hdestroyed (Sample.shotAt 600 190) (or_intror (or_introl eq_refl)))
             (or_introl Hwall)).
    exact Hkept. }
  split_and.
  - exact Hrad.
  - exact range_kept.
  - exact range_touch.
  - apply (Hdestroyed (Sample.shotAt 1200 86)).
    + cbn. auto.
    + left. exists Sample.pillar. split; [left; reflexivity | exact range_touch].
  - exact Hfar.
  - apply (Hdestroyed Sample.farBullet).
    + left. reflexivity.
    + right. exact Hfar.
  - reflexivity.
  - rewrite range_in_hedge. cbn. lra.
  - exact Hfree.
  - exact Hkept.
Defined.
